(** * Transaction-identifier lifecycle: SLRU page cache, multixacts,
    commit timestamps and XID allocation

    A shallow embedding of the parts of
      - [src/backend/access/transam/slru.c]
      - [src/backend/access/transam/multixact.c]
      - [src/backend/access/transam/commit_ts.c]
      - [src/backend/access/transam/varsup.c]
    that the specification's properties talk about.

    Conventions.
      - C integers are [Z]; a [uint64] computation is wrapped with [u64],
        a cast to [int64] is [to_int64], [int] arithmetic on the LRU
        counters wraps with [wrap_int] (the tree is built with -fwrapv).
      - Arrays in shared memory are total maps from the index ([Z -> A])
        updated with [upd].
      - Code that touches shared state is written in the monad [M S]:
        state passing, an [ereport(ERROR)] that keeps the shared state it
        left behind, and a log of the events (lock traffic, WAL records,
        unlinks, ...) in program order.
      - Locks are those of a single backend: an [LWLockAcquire] never has
        to wait.  What other backends may do while a lock is released is
        made explicit where a property depends on it. *)

From Stdlib Require Import ZArith List Lia Bool String Ascii Morphisms Setoid.
From Stdlib Require Import Permutation.
Import ListNotations.
Local Open Scope Z_scope.

(* ================================================================== *)
(** * Machine integers *)
(* ================================================================== *)

Definition TWO63 : Z := 9223372036854775808.
Definition TWO64 : Z := 18446744073709551616.

(** Wrap-around of unsigned 64-bit arithmetic. *)
Definition u64 (z : Z) : Z := z mod TWO64.

(** The cast [(int64) x] of an unsigned 64-bit value. *)
Definition to_int64 (z : Z) : Z :=
  let u := u64 z in if u <? TWO63 then u else u - TWO64.

(** Wrap-around of [int] arithmetic (32 bits, two's complement). *)
Definition wrap_int (z : Z) : Z :=
  let u := z mod 4294967296 in if u <? 2147483648 then u else u - 4294967296.

Definition is_uint64 (z : Z) : Prop := 0 <= z < TWO64.

(** Total map used for a C array. *)
Definition upd {A : Type} (f : Z -> A) (i : Z) (v : A) : Z -> A :=
  fun j => if j =? i then v else f j.

(* ================================================================== *)
(** * Constants of headers that are not part of the source tree *)
(* ================================================================== *)

(** Modelled from the spec: the build-time block size [BLCKSZ]
    (pg_config.h); multixact.c documents the layout "with 8kB BLCKSZ". *)
Definition BLCKSZ : Z := 8192.

(** Modelled from the spec: [SLRU_PAGES_PER_SEGMENT] (slru.h), the fixed
    number of consecutive pages per segment file. *)
Definition SLRU_PAGES_PER_SEGMENT : Z := 32.

(** Modelled from the spec: the reserved identifiers of transam.h --
    invalid = 0, bootstrap, frozen, first normal. *)
Definition InvalidTransactionId : Z := 0.
Definition BootstrapTransactionId : Z := 1.
Definition FrozenTransactionId : Z := 2.
Definition FirstNormalTransactionId : Z := 3.

Definition TransactionIdIsValid (xid : Z) : bool := negb (xid =? InvalidTransactionId).
Definition TransactionIdIsNormal (xid : Z) : bool := FirstNormalTransactionId <=? xid.
Definition TransactionIdEquals (a b : Z) : bool := a =? b.

(** Modelled from the spec: the multixact constants of multixact.h, for
    the 64-bit [MultiXactId] and [MultiXactOffset] this tree prints with
    PRIu64. *)
Definition InvalidMultiXactId : Z := 0.
Definition FirstMultiXactId : Z := 1.
Definition MaxMultiXactId : Z := TWO64 - 1.
Definition MaxMultiXactOffset : Z := TWO64 - 1.

Definition MultiXactIdIsValid (multi : Z) : bool := negb (multi =? InvalidMultiXactId).

(** Modelled from the spec: sizes of the C types ([TransactionId],
    [MultiXactOffset] are 8 bytes: "8 flag bytes followed by 8
    transaction ids" make the 72-byte group). *)
Definition sizeof_TransactionId : Z := 8.
Definition sizeof_MultiXactOffset : Z := 8.

(** Modelled from the spec: [InvalidRepOriginId] (origin.h) and
    [TIMESTAMP_NOBEGIN] (timestamp.h, the smallest int64). *)
Definition InvalidRepOriginId : Z := 0.
Definition DT_NOBEGIN : Z := - TWO63.

(** Modelled from the spec: [PGPROC_MAX_CACHED_SUBXIDS] (proc.h). *)
Definition PGPROC_MAX_CACHED_SUBXIDS : Z := 64.

(* ================================================================== *)
(** * Effects: state, errors and the event log *)
(* ================================================================== *)

Inductive LWLockMode := LW_EXCLUSIVE | LW_SHARED.

Inductive LWLockId :=
| XidGenLock
| MultiXactGenLock
| MultiXactTruncationLock
| CommitTsLock
| BankLock (dir : string) (bankno : Z)
| BufferLock (dir : string) (slotno : Z).

(** The messages of the [ereport]/[elog] calls the model reaches. *)
Inductive PgMessage :=
| msg_parallel_xid
| msg_recovery_xid
| msg_recovery_multi
| msg_slru_io (pageno : Z) (xid : Z)
| msg_apparent_wraparound_truncate (dir : string)
| msg_multi_no_longer_exists (multi : Z)
| msg_multi_not_created_yet (multi : Z)
| msg_multi_zero_offset (multi : Z)
| msg_oldest_multi_not_found (oldest earliest : Z)
| msg_cannot_truncate_up_to (multi : Z)
| msg_commit_ts_disabled
| msg_cannot_retrieve_commit_ts (xid : Z)
| msg_file_missing_read_as_zeroes (dir : string) (segno : Z)
| msg_extend_failed (which : string)
| msg_more_than_one_updating_member
| msg_unknown_op_code.

Inductive WalRecord :=
| XLOG_MULTIXACT_ZERO_OFF_PAGE (pageno : Z)
| XLOG_MULTIXACT_ZERO_MEM_PAGE (pageno : Z)
| XLOG_MULTIXACT_CREATE_ID (multi offset nmembers : Z)
| XLOG_MULTIXACT_TRUNCATE_ID (db startOff endOff startMemb endMemb : Z)
| COMMIT_TS_ZEROPAGE (pageno : Z)
| COMMIT_TS_TRUNCATE (pageno oldestXid : Z).

Inductive Event :=
| EvAcquire (l : LWLockId) (m : LWLockMode)
| EvRelease (l : LWLockId)
| EvStartCrit
| EvEndCrit
| EvXLogInsert (r : WalRecord)
| EvLog (m : PgMessage)
| EvUnlink (dir : string) (segno : Z)
| EvPhysicalWrite (dir : string) (pageno : Z)
| EvPhysicalRead (dir : string) (pageno : Z)
| EvPageZeroed (dir : string) (pageno : Z)
| EvExtend (which : string) (xid : Z)
| EvAdvanceNextXid (newval : Z)
| EvStoreXid (xid : Z)
| EvStoreSubXid (xid : Z)
| EvSetOldestMulti (multi db : Z)
| EvReadMultiBounds (oldest next nextOffset : Z)
| EvSignalAutovac
| EvCVBroadcast
| EvCVSleep
| EvDelayChkpt (on : bool).

(** Outcome of running a piece of code: it returns, it raises an error
    (shared memory keeps what was done before the [ereport]), or the
    model ran out of loop fuel. *)
Inductive Res (S A : Type) : Type :=
| Done (a : A) (s : S) (tr : list Event)
| Raise (e : PgMessage) (s : S) (tr : list Event)
| OutOfFuel.
Arguments Done {S A} a s tr.
Arguments Raise {S A} e s tr.
Arguments OutOfFuel {S A}.

Definition M (S A : Type) : Type := S -> Res S A.

Definition ret {S A} (a : A) : M S A := fun s => Done a s [].

Definition bind {S A B} (m : M S A) (k : A -> M S B) : M S B :=
  fun s =>
    match m s with
    | Done a s1 t1 =>
        match k a s1 with
        | Done b s2 t2 => Done b s2 (t1 ++ t2)
        | Raise e s2 t2 => Raise e s2 (t1 ++ t2)
        | OutOfFuel => OutOfFuel
        end
    | Raise e s1 t1 => Raise e s1 t1
    | OutOfFuel => OutOfFuel
    end.

Definition get {S} : M S S := fun s => Done s s [].
Definition gets {S A} (f : S -> A) : M S A := fun s => Done (f s) s [].
Definition put {S} (s : S) : M S unit := fun _ => Done tt s [].
Definition modify {S} (f : S -> S) : M S unit := fun s => Done tt (f s) [].
Definition emit {S} (e : Event) : M S unit := fun s => Done tt s [e].
Definition ereport_ERROR {S A} (e : PgMessage) : M S A := fun s => Raise e s [].
Definition out_of_fuel {S A} : M S A := fun _ => OutOfFuel.

(** Run a computation on a component of a larger state. *)
Definition zoom {S T A} (proj : S -> T) (inj : T -> S -> S) (m : M T A) : M S A :=
  fun s =>
    match m (proj s) with
    | Done a t tr => Done a (inj t s) tr
    | Raise e t tr => Raise e (inj t s) tr
    | OutOfFuel => OutOfFuel
    end.

Declare Scope pg_scope.
Delimit Scope pg_scope with pg.
Notation "x <- c1 ;; c2" := (bind c1 (fun x => c2))
  (at level 100, c1 at next level, right associativity) : pg_scope.
Notation "c1 ;;; c2" := (bind c1 (fun _ => c2))
  (at level 100, right associativity) : pg_scope.
Local Open Scope pg_scope.

Definition when {S} (b : bool) (m : M S unit) : M S unit :=
  if b then m else ret tt.

Definition LWLockAcquire {S} (l : LWLockId) (m : LWLockMode) : M S unit :=
  emit (EvAcquire l m).
Definition LWLockRelease {S} (l : LWLockId) : M S unit :=
  emit (EvRelease l).
Definition START_CRIT_SECTION {S} : M S unit := emit EvStartCrit.
Definition END_CRIT_SECTION {S} : M S unit := emit EvEndCrit.
Definition ereport_LOG {S} (m : PgMessage) : M S unit := emit (EvLog m).

(** State and log of an outcome, when there is one. *)
Definition res_state {S A} (r : Res S A) : option S :=
  match r with Done _ s _ | Raise _ s _ => Some s | OutOfFuel => None end.
Definition res_trace {S A} (r : Res S A) : list Event :=
  match r with Done _ _ t | Raise _ _ t => t | OutOfFuel => [] end.

(* ================================================================== *)
(** * Circular comparison and page arithmetic (multixact.c, commit_ts.c) *)
(* ================================================================== *)

(** [MultiXactIdPrecedes]: [int64 diff = (int64) (multi1 - multi2);
    return diff < 0]. *)
Definition MultiXactIdPrecedes (multi1 multi2 : Z) : bool :=
  let diff := to_int64 (multi1 - multi2) in
  diff <? 0.

Definition MultiXactIdPrecedesOrEquals (multi1 multi2 : Z) : bool :=
  let diff := to_int64 (multi1 - multi2) in
  diff <=? 0.

Definition MultiXactOffsetPrecedes (offset1 offset2 : Z) : bool :=
  let diff := to_int64 (offset1 - offset2) in
  diff <? 0.

(** Modelled from the spec: [TransactionIdPrecedes] (transam.c is not in
    the source tree); "precedes(a,b) is defined as (int64)(a-b) < 0". *)
Definition TransactionIdPrecedes (id1 id2 : Z) : bool :=
  to_int64 (id1 - id2) <? 0.

Definition MULTIXACT_OFFSETS_PER_PAGE : Z := BLCKSZ / sizeof_MultiXactOffset.

Definition MultiXactIdToOffsetPage (multi : Z) : Z :=
  multi / MULTIXACT_OFFSETS_PER_PAGE.

Definition MultiXactIdToOffsetEntry (multi : Z) : Z :=
  multi mod MULTIXACT_OFFSETS_PER_PAGE.

Definition MultiXactIdToOffsetSegment (multi : Z) : Z :=
  Z.quot (MultiXactIdToOffsetPage multi) SLRU_PAGES_PER_SEGMENT.

Definition MXACT_MEMBER_BITS_PER_XACT : Z := 8.
Definition MXACT_MEMBER_FLAGS_PER_BYTE : Z := 1.
Definition MXACT_MEMBER_XACT_BITMASK : Z :=
  Z.shiftl 1 MXACT_MEMBER_BITS_PER_XACT - 1.
Definition MULTIXACT_FLAGBYTES_PER_GROUP : Z := 8.
Definition MULTIXACT_MEMBERS_PER_MEMBERGROUP : Z :=
  MULTIXACT_FLAGBYTES_PER_GROUP * MXACT_MEMBER_FLAGS_PER_BYTE.
Definition MULTIXACT_MEMBERGROUP_SIZE : Z :=
  sizeof_TransactionId * MULTIXACT_MEMBERS_PER_MEMBERGROUP
  + MULTIXACT_FLAGBYTES_PER_GROUP.
Definition MULTIXACT_MEMBERGROUPS_PER_PAGE : Z :=
  BLCKSZ / MULTIXACT_MEMBERGROUP_SIZE.
Definition MULTIXACT_MEMBERS_PER_PAGE : Z :=
  MULTIXACT_MEMBERGROUPS_PER_PAGE * MULTIXACT_MEMBERS_PER_MEMBERGROUP.

Definition MXOffsetToMemberPage (offset : Z) : Z :=
  offset / MULTIXACT_MEMBERS_PER_PAGE.

Definition MXOffsetToMemberSegment (offset : Z) : Z :=
  Z.quot (MXOffsetToMemberPage offset) SLRU_PAGES_PER_SEGMENT.

Definition MXOffsetToFlagsOffset (offset : Z) : Z :=
  let group := offset / MULTIXACT_MEMBERS_PER_MEMBERGROUP in
  let grouponpg := group mod MULTIXACT_MEMBERGROUPS_PER_PAGE in
  let byteoff := grouponpg * MULTIXACT_MEMBERGROUP_SIZE in
  byteoff.

Definition MXOffsetToFlagsBitShift (offset : Z) : Z :=
  let member_in_group := offset mod MULTIXACT_MEMBERS_PER_MEMBERGROUP in
  let bshift := member_in_group * MXACT_MEMBER_BITS_PER_XACT in
  bshift.

Definition MXOffsetToMemberOffset (offset : Z) : Z :=
  let member_in_group := offset mod MULTIXACT_MEMBERS_PER_MEMBERGROUP in
  MXOffsetToFlagsOffset offset
  + MULTIXACT_FLAGBYTES_PER_GROUP
  + member_in_group * sizeof_TransactionId.

(** Byte of the page that carries the flag bits of a member: the flag
    word is a little-endian [uint64] at [MXOffsetToFlagsOffset], shifted
    by [MXOffsetToFlagsBitShift]. *)
Definition MXOffsetToFlagsByte (offset : Z) : Z :=
  MXOffsetToFlagsOffset offset + MXOffsetToFlagsBitShift offset / 8.

Definition PreviousMultiXactId (multi : Z) : Z :=
  if multi =? FirstMultiXactId then MaxMultiXactId else u64 (multi - 1).

(** [CommitTimestampEntry]: an 8-byte [TimestampTz] and a 2-byte
    [RepOriginId]; [SizeOfCommitTimestampEntry] is
    [offsetof(nodeid) + sizeof(RepOriginId)]. *)
Definition SizeOfCommitTimestampEntry : Z := 8 + 2.
Definition COMMIT_TS_XACTS_PER_PAGE : Z := BLCKSZ / SizeOfCommitTimestampEntry.

Definition TransactionIdToCTsPage (xid : Z) : Z :=
  xid / COMMIT_TS_XACTS_PER_PAGE.
Definition TransactionIdToCTsEntry (xid : Z) : Z :=
  xid mod COMMIT_TS_XACTS_PER_PAGE.

(** [MultiXactOffsetPagePrecedes]; the casts [(MultiXactId) page] and
    the additions are unsigned 64-bit. *)
Definition MultiXactOffsetPagePrecedes (page1 page2 : Z) : bool :=
  let multi1 := u64 (u64 page1 * MULTIXACT_OFFSETS_PER_PAGE) in
  let multi1 := u64 (multi1 + (FirstMultiXactId + 1)) in
  let multi2 := u64 (u64 page2 * MULTIXACT_OFFSETS_PER_PAGE) in
  let multi2 := u64 (multi2 + (FirstMultiXactId + 1)) in
  MultiXactIdPrecedes multi1 multi2
  && MultiXactIdPrecedes multi1 (u64 (multi2 + MULTIXACT_OFFSETS_PER_PAGE - 1)).

Definition MultiXactMemberPagePrecedes (page1 page2 : Z) : bool :=
  let offset1 := u64 (u64 page1 * MULTIXACT_MEMBERS_PER_PAGE) in
  let offset2 := u64 (u64 page2 * MULTIXACT_MEMBERS_PER_PAGE) in
  MultiXactOffsetPrecedes offset1 offset2
  && MultiXactOffsetPrecedes offset1 (u64 (offset2 + MULTIXACT_MEMBERS_PER_PAGE - 1)).

Definition CommitTsPagePrecedes (page1 page2 : Z) : bool :=
  let xid1 := u64 (u64 page1 * COMMIT_TS_XACTS_PER_PAGE) in
  let xid1 := u64 (xid1 + (FirstNormalTransactionId + 1)) in
  let xid2 := u64 (u64 page2 * COMMIT_TS_XACTS_PER_PAGE) in
  let xid2 := u64 (xid2 + (FirstNormalTransactionId + 1)) in
  TransactionIdPrecedes xid1 xid2
  && TransactionIdPrecedes xid1 (u64 (xid2 + COMMIT_TS_XACTS_PER_PAGE - 1)).

(* ================================================================== *)
(** * slru.c: the page cache *)
(* ================================================================== *)

Inductive SlruPageStatus :=
| SLRU_PAGE_EMPTY
| SLRU_PAGE_READ_IN_PROGRESS
| SLRU_PAGE_VALID
| SLRU_PAGE_WRITE_IN_PROGRESS.

Definition status_eqb (a b : SlruPageStatus) : bool :=
  match a, b with
  | SLRU_PAGE_EMPTY, SLRU_PAGE_EMPTY
  | SLRU_PAGE_READ_IN_PROGRESS, SLRU_PAGE_READ_IN_PROGRESS
  | SLRU_PAGE_VALID, SLRU_PAGE_VALID
  | SLRU_PAGE_WRITE_IN_PROGRESS, SLRU_PAGE_WRITE_IN_PROGRESS => true
  | _, _ => false
  end.

(** A page buffer: the byte at each offset. *)
Definition Page : Type := Z -> Z.
Definition zero_page : Page := fun _ => 0.

(** A segment file: its length in bytes and its content. *)
Record SegFile := mkSegFile { f_size : Z; f_data : Z -> Z }.

(** The directory of one SLRU.  An entry is named by the segment number
    its file name spells ([SlruFileName] prints it, [SlruScanDirectory]
    parses it back); the list order is the order [ReadDir] reports. *)
Definition Directory : Type := list (Z * SegFile).

(** [SlruSharedData], the arrays indexed by slot or bank number, and the
    directory the cache is backed by.  [group_lsn] is left out: the logs
    modelled here are all created with [nlsns = 0]. *)
Record SlruShared := mkSlruShared {
  num_slots : Z;
  page_buffer : Z -> Page;
  page_status : Z -> SlruPageStatus;
  page_dirty : Z -> bool;
  page_number : Z -> Z;
  page_lru_count : Z -> Z;
  bank_cur_lru_count : Z -> Z;
  latest_page_number : Z;
  files : Directory
}.

Definition set_page_buffer (sh : SlruShared) (i : Z) (v : Page) : SlruShared :=
  mkSlruShared (num_slots sh) (upd (page_buffer sh) i v) (page_status sh)
    (page_dirty sh) (page_number sh) (page_lru_count sh)
    (bank_cur_lru_count sh) (latest_page_number sh) (files sh).
Definition set_page_status (sh : SlruShared) (i : Z) (v : SlruPageStatus) : SlruShared :=
  mkSlruShared (num_slots sh) (page_buffer sh) (upd (page_status sh) i v)
    (page_dirty sh) (page_number sh) (page_lru_count sh)
    (bank_cur_lru_count sh) (latest_page_number sh) (files sh).
Definition set_page_dirty (sh : SlruShared) (i : Z) (v : bool) : SlruShared :=
  mkSlruShared (num_slots sh) (page_buffer sh) (page_status sh)
    (upd (page_dirty sh) i v) (page_number sh) (page_lru_count sh)
    (bank_cur_lru_count sh) (latest_page_number sh) (files sh).
Definition set_page_number (sh : SlruShared) (i : Z) (v : Z) : SlruShared :=
  mkSlruShared (num_slots sh) (page_buffer sh) (page_status sh)
    (page_dirty sh) (upd (page_number sh) i v) (page_lru_count sh)
    (bank_cur_lru_count sh) (latest_page_number sh) (files sh).
Definition set_page_lru_count (sh : SlruShared) (i : Z) (v : Z) : SlruShared :=
  mkSlruShared (num_slots sh) (page_buffer sh) (page_status sh)
    (page_dirty sh) (page_number sh) (upd (page_lru_count sh) i v)
    (bank_cur_lru_count sh) (latest_page_number sh) (files sh).
Definition set_bank_cur_lru_count (sh : SlruShared) (i : Z) (v : Z) : SlruShared :=
  mkSlruShared (num_slots sh) (page_buffer sh) (page_status sh)
    (page_dirty sh) (page_number sh) (page_lru_count sh)
    (upd (bank_cur_lru_count sh) i v) (latest_page_number sh) (files sh).
Definition set_latest_page_number (sh : SlruShared) (v : Z) : SlruShared :=
  mkSlruShared (num_slots sh) (page_buffer sh) (page_status sh)
    (page_dirty sh) (page_number sh) (page_lru_count sh)
    (bank_cur_lru_count sh) v (files sh).
Definition set_files (sh : SlruShared) (v : Directory) : SlruShared :=
  mkSlruShared (num_slots sh) (page_buffer sh) (page_status sh)
    (page_dirty sh) (page_number sh) (page_lru_count sh)
    (bank_cur_lru_count sh) (latest_page_number sh) v.

(** What a backend cannot control about one SLRU: whether it replays WAL
    ([InRecovery]), which physical writes and reads the device refuses,
    what the other backends do to the shared arrays while this one has
    released the bank lock ([interfere]), and whether one of them still
    holds a buffer's I/O lock when [SimpleLruWaitIO] probes it. *)
Record SlruWorld := mkSlruWorld {
  InRecovery : bool;
  write_fails : Z -> bool;
  read_fails : Z -> bool;
  interfere : SlruShared -> SlruShared;
  buffer_lock_busy : Z -> bool
}.

(** [SlruCtlData], the unshared control struct of one SLRU. *)
Record SlruCtlData := mkSlruCtl {
  PagePrecedes : Z -> Z -> bool;
  nbanks : Z;
  long_segment_names : bool;
  Dir : string;
  world : SlruWorld
}.

Definition SLRU_BANK_BITSHIFT : Z := 4.
Definition SLRU_BANK_SIZE : Z := Z.shiftl 1 SLRU_BANK_BITSHIFT.
Definition BANK_SLOTS : nat := Z.to_nat SLRU_BANK_SIZE.

Definition SlotGetBankNumber (slotno : Z) : Z := Z.shiftr slotno SLRU_BANK_BITSHIFT.

(** Modelled from the spec: [SimpleLruGetBankLock] (an inline of slru.h):
    the lock of bank [pageno % ctl->nbanks]. *)
Definition SimpleLruGetBankLock (ctl : SlruCtlData) (pageno : Z) : LWLockId :=
  BankLock (Dir ctl) (Z.rem pageno (nbanks ctl)).

Definition bank_lock (ctl : SlruCtlData) (bankno : Z) : LWLockId :=
  BankLock (Dir ctl) bankno.
Definition buffer_lock (ctl : SlruCtlData) (slotno : Z) : LWLockId :=
  BufferLock (Dir ctl) slotno.

(** The bank lock is not held here: the other backends run. *)
Definition others_run (ctl : SlruCtlData) : M SlruShared unit :=
  modify (interfere (world ctl)).

Definition dir_lookup (d : Directory) (segno : Z) : option SegFile :=
  match find (fun e => fst e =? segno) d with
  | Some e => Some (snd e)
  | None => None
  end.

Definition dir_remove (d : Directory) (segno : Z) : Directory :=
  filter (fun e => negb (fst e =? segno)) d.

Definition dir_store (d : Directory) (segno : Z) (f : SegFile) : Directory :=
  match dir_lookup d segno with
  | Some _ => map (fun e => if fst e =? segno then (segno, f) else e) d
  | None => d ++ [(segno, f)]
  end.

Definition empty_file : SegFile := mkSegFile 0 (fun _ => 0).

(** [pg_pwrite] of one page at [offset]. *)
Definition file_write_page (f : SegFile) (offset : Z) (pg : Page) : SegFile :=
  mkSegFile (Z.max (f_size f) (offset + BLCKSZ))
    (fun o => if (offset <=? o) && (o <? offset + BLCKSZ)
              then pg (o - offset) else f_data f o).

(** [pg_pread] of one page at [offset]. *)
Definition file_read_page (f : SegFile) (offset : Z) : Page :=
  fun o => if (0 <=? o) && (o <? BLCKSZ) then f_data f (offset + o) else 0.

Definition SlruRecentlyUsed (sh : SlruShared) (slotno : Z) : SlruShared :=
  let bankno := SlotGetBankNumber slotno in
  let new_lru_count := bank_cur_lru_count sh bankno in
  if negb (new_lru_count =? page_lru_count sh slotno) then
    let new_lru_count := wrap_int (new_lru_count + 1) in
    set_page_lru_count (set_bank_cur_lru_count sh bankno new_lru_count)
      slotno new_lru_count
  else sh.

(** [SimpleLruZeroPage]'s update of the slot it was given. *)
Definition zero_slot (sh : SlruShared) (slotno pageno : Z) : SlruShared :=
  let sh := set_page_number sh slotno pageno in
  let sh := set_page_status sh slotno SLRU_PAGE_VALID in
  let sh := set_page_dirty sh slotno true in
  let sh := SlruRecentlyUsed sh slotno in
  let sh := set_page_buffer sh slotno zero_page in
  set_latest_page_number sh (u64 pageno).

Definition SlruReportIOError {A} (ctl : SlruCtlData) (pageno xid : Z) : M SlruShared A :=
  ereport_ERROR (msg_slru_io pageno xid).

Definition SlruPhysicalReadPage (ctl : SlruCtlData) (pageno slotno : Z)
  : M SlruShared bool :=
  sh <- get;;
  let segno := Z.quot pageno SLRU_PAGES_PER_SEGMENT in
  let rpageno := Z.rem pageno SLRU_PAGES_PER_SEGMENT in
  let offset := rpageno * BLCKSZ in
  match dir_lookup (files sh) segno with
  | None =>
      if negb (InRecovery (world ctl)) then ret false
      else
        ereport_LOG (msg_file_missing_read_as_zeroes (Dir ctl) segno);;;
        modify (fun sh => set_page_buffer sh slotno zero_page);;;
        ret true
  | Some f =>
      if read_fails (world ctl) pageno || (f_size f <? offset + BLCKSZ) then ret false
      else
        modify (fun sh => set_page_buffer sh slotno (file_read_page f offset));;;
        emit (EvPhysicalRead (Dir ctl) pageno);;;
        ret true
  end.

(** The open-file cache [fdata] of a flush only saves descriptors and is
    not modelled; [O_CREAT] makes the file before the write is tried. *)
Definition SlruPhysicalWritePage (ctl : SlruCtlData) (pageno slotno : Z)
  : M SlruShared bool :=
  sh <- get;;
  let segno := Z.quot pageno SLRU_PAGES_PER_SEGMENT in
  let rpageno := Z.rem pageno SLRU_PAGES_PER_SEGMENT in
  let offset := rpageno * BLCKSZ in
  let f := match dir_lookup (files sh) segno with
           | Some f => f
           | None => empty_file
           end in
  if write_fails (world ctl) pageno then
    put (set_files sh (dir_store (files sh) segno f));;;
    ret false
  else
    put (set_files sh (dir_store (files sh) segno
                         (file_write_page f offset (page_buffer sh slotno))));;;
    emit (EvPhysicalWrite (Dir ctl) pageno);;;
    ret true.

Definition io_in_progress (st : SlruPageStatus) : bool :=
  status_eqb st SLRU_PAGE_READ_IN_PROGRESS
  || status_eqb st SLRU_PAGE_WRITE_IN_PROGRESS.

Definition SimpleLruWaitIO (ctl : SlruCtlData) (slotno : Z) : M SlruShared unit :=
  let bankno := SlotGetBankNumber slotno in
  LWLockRelease (bank_lock ctl bankno);;;
  LWLockAcquire (buffer_lock ctl slotno) LW_SHARED;;;
  LWLockRelease (buffer_lock ctl slotno);;;
  others_run ctl;;;
  LWLockAcquire (bank_lock ctl bankno) LW_EXCLUSIVE;;;
  sh <- get;;
  if io_in_progress (page_status sh slotno) then
    if negb (buffer_lock_busy (world ctl) slotno) then
      (* LWLockConditionalAcquire succeeded: the I/O must have failed *)
      (if status_eqb (page_status sh slotno) SLRU_PAGE_READ_IN_PROGRESS
       then put (set_page_status sh slotno SLRU_PAGE_EMPTY)
       else put (set_page_dirty (set_page_status sh slotno SLRU_PAGE_VALID)
                   slotno true));;;
      LWLockRelease (buffer_lock ctl slotno)
    else ret tt
  else ret tt.

Fixpoint wait_write_in_progress (fuel : nat) (ctl : SlruCtlData)
    (slotno pageno : Z) : M SlruShared unit :=
  match fuel with
  | O => out_of_fuel
  | S fuel' =>
      sh <- get;;
      if status_eqb (page_status sh slotno) SLRU_PAGE_WRITE_IN_PROGRESS
         && (page_number sh slotno =? pageno)
      then SimpleLruWaitIO ctl slotno;;;
           wait_write_in_progress fuel' ctl slotno pageno
      else ret tt
  end.

Definition SlruInternalWritePage (fuel : nat) (ctl : SlruCtlData) (slotno : Z)
  : M SlruShared unit :=
  sh0 <- get;;
  let pageno := page_number sh0 slotno in
  let bankno := SlotGetBankNumber slotno in
  wait_write_in_progress fuel ctl slotno pageno;;;
  sh <- get;;
  if negb (page_dirty sh slotno)
     || negb (status_eqb (page_status sh slotno) SLRU_PAGE_VALID)
     || negb (page_number sh slotno =? pageno)
  then ret tt
  else
    put (set_page_dirty (set_page_status sh slotno SLRU_PAGE_WRITE_IN_PROGRESS)
           slotno false);;;
    LWLockAcquire (buffer_lock ctl slotno) LW_EXCLUSIVE;;;
    LWLockRelease (bank_lock ctl bankno);;;
    ok <- SlruPhysicalWritePage ctl pageno slotno;;
    others_run ctl;;;
    LWLockAcquire (bank_lock ctl bankno) LW_EXCLUSIVE;;;
    when (negb ok) (modify (fun sh => set_page_dirty sh slotno true));;;
    modify (fun sh => set_page_status sh slotno SLRU_PAGE_VALID);;;
    LWLockRelease (buffer_lock ctl slotno);;;
    if negb ok then SlruReportIOError ctl pageno InvalidTransactionId
    else ret tt.

Definition SimpleLruWritePage := SlruInternalWritePage.

(** First loop of [SlruSelectLRUPage]: "See if page already has a buffer
    assigned", over [n] slots from [slotno]. *)
Fixpoint find_page_slot (sh : SlruShared) (pageno : Z) (n : nat) (slotno : Z)
  : option Z :=
  match n with
  | O => None
  | S n' =>
      if negb (status_eqb (page_status sh slotno) SLRU_PAGE_EMPTY)
         && (page_number sh slotno =? pageno)
      then Some slotno
      else find_page_slot sh pageno n' (slotno + 1)
  end.

(** The locals of the victim search. *)
Record VictimScan := mkVictimScan {
  bestvalidslot : Z;
  best_valid_delta : Z;
  best_valid_page_number : Z;
  bestinvalidslot : Z;
  best_invalid_delta : Z;
  best_invalid_page_number : Z
}.

Definition victim_scan_init : VictimScan := mkVictimScan 0 (-1) 0 0 (-1) 0.

Inductive ScanOutcome :=
| FoundEmpty (slotno : Z)
| Scanned (v : VictimScan).

(** Second loop of [SlruSelectLRUPage], over [n] slots from [slotno]. *)
Fixpoint victim_scan (ctl : SlruCtlData) (cur_count : Z) (n : nat) (slotno : Z)
    (v : VictimScan) (sh : SlruShared) : ScanOutcome * SlruShared :=
  match n with
  | O => (Scanned v, sh)
  | S n' =>
      if status_eqb (page_status sh slotno) SLRU_PAGE_EMPTY
      then (FoundEmpty slotno, sh)
      else
        let this_delta := wrap_int (cur_count - page_lru_count sh slotno) in
        let sh := if this_delta <? 0
                  then set_page_lru_count sh slotno cur_count else sh in
        let this_delta := if this_delta <? 0 then 0 else this_delta in
        let this_page_number := page_number sh slotno in
        if u64 this_page_number =? latest_page_number sh
        then victim_scan ctl cur_count n' (slotno + 1) v sh
        else if status_eqb (page_status sh slotno) SLRU_PAGE_VALID
        then
          if (best_valid_delta v <? this_delta)
             || ((this_delta =? best_valid_delta v)
                 && PagePrecedes ctl this_page_number (best_valid_page_number v))
          then victim_scan ctl cur_count n' (slotno + 1)
                 (mkVictimScan slotno this_delta this_page_number
                    (bestinvalidslot v) (best_invalid_delta v)
                    (best_invalid_page_number v)) sh
          else victim_scan ctl cur_count n' (slotno + 1) v sh
        else
          if (best_invalid_delta v <? this_delta)
             || ((this_delta =? best_invalid_delta v)
                 && PagePrecedes ctl this_page_number (best_invalid_page_number v))
          then victim_scan ctl cur_count n' (slotno + 1)
                 (mkVictimScan (bestvalidslot v) (best_valid_delta v)
                    (best_valid_page_number v)
                    slotno this_delta this_page_number) sh
          else victim_scan ctl cur_count n' (slotno + 1) v sh
  end.

Fixpoint SlruSelectLRUPage (fuel : nat) (ctl : SlruCtlData) (pageno : Z)
  : M SlruShared Z :=
  match fuel with
  | O => out_of_fuel
  | S fuel' =>
      sh <- get;;
      let bankno := Z.rem pageno (nbanks ctl) in
      let bankstart := bankno * SLRU_BANK_SIZE in
      match find_page_slot sh pageno BANK_SLOTS bankstart with
      | Some slotno => ret slotno
      | None =>
          let cur_count := bank_cur_lru_count sh bankno in
          let sh := set_bank_cur_lru_count sh bankno (wrap_int (cur_count + 1)) in
          match victim_scan ctl cur_count BANK_SLOTS bankstart victim_scan_init sh with
          | (FoundEmpty slotno, sh) => put sh;;; ret slotno
          | (Scanned v, sh) =>
              put sh;;;
              if best_valid_delta v <? 0 then
                SimpleLruWaitIO ctl (bestinvalidslot v);;;
                SlruSelectLRUPage fuel' ctl pageno
              else if negb (page_dirty sh (bestvalidslot v)) then
                ret (bestvalidslot v)
              else
                SlruInternalWritePage fuel' ctl (bestvalidslot v);;;
                SlruSelectLRUPage fuel' ctl pageno
          end
      end
  end.

Definition SimpleLruZeroPage (fuel : nat) (ctl : SlruCtlData) (pageno : Z)
  : M SlruShared Z :=
  slotno <- SlruSelectLRUPage fuel ctl pageno;;
  modify (fun sh => zero_slot sh slotno pageno);;;
  emit (EvPageZeroed (Dir ctl) pageno);;;
  ret slotno.

Definition SimpleLruZeroAndWritePage (fuel : nat) (ctl : SlruCtlData) (pageno : Z)
  : M SlruShared unit :=
  let lock := SimpleLruGetBankLock ctl pageno in
  LWLockAcquire lock LW_EXCLUSIVE;;;
  slotno <- SimpleLruZeroPage fuel ctl pageno;;
  SimpleLruWritePage fuel ctl slotno;;;
  LWLockRelease lock.

Fixpoint SimpleLruReadPage (fuel : nat) (ctl : SlruCtlData) (pageno : Z)
    (write_ok : bool) (xid : Z) : M SlruShared Z :=
  match fuel with
  | O => out_of_fuel
  | S fuel' =>
      let banklock := SimpleLruGetBankLock ctl pageno in
      slotno <- SlruSelectLRUPage fuel' ctl pageno;;
      sh <- get;;
      if negb (status_eqb (page_status sh slotno) SLRU_PAGE_EMPTY)
         && (page_number sh slotno =? pageno)
      then
        if status_eqb (page_status sh slotno) SLRU_PAGE_READ_IN_PROGRESS
           || (status_eqb (page_status sh slotno) SLRU_PAGE_WRITE_IN_PROGRESS
               && negb write_ok)
        then
          SimpleLruWaitIO ctl slotno;;;
          SimpleLruReadPage fuel' ctl pageno write_ok xid
        else
          modify (fun sh => SlruRecentlyUsed sh slotno);;;
          ret slotno
      else
        put (set_page_dirty
               (set_page_status (set_page_number sh slotno pageno)
                  slotno SLRU_PAGE_READ_IN_PROGRESS) slotno false);;;
        LWLockAcquire (buffer_lock ctl slotno) LW_EXCLUSIVE;;;
        LWLockRelease banklock;;;
        ok <- SlruPhysicalReadPage ctl pageno slotno;;
        others_run ctl;;;
        LWLockAcquire banklock LW_EXCLUSIVE;;;
        modify (fun sh => set_page_status sh slotno
                            (if ok then SLRU_PAGE_VALID else SLRU_PAGE_EMPTY));;;
        LWLockRelease (buffer_lock ctl slotno);;;
        (if negb ok then SlruReportIOError ctl pageno xid else ret tt);;;
        modify (fun sh => SlruRecentlyUsed sh slotno);;;
        ret slotno
  end.

(** The scan of [SimpleLruReadPage_ReadOnly] under the shared lock. *)
Fixpoint find_readable_slot (sh : SlruShared) (pageno : Z) (n : nat) (slotno : Z)
  : option Z :=
  match n with
  | O => None
  | S n' =>
      if negb (status_eqb (page_status sh slotno) SLRU_PAGE_EMPTY)
         && (page_number sh slotno =? pageno)
         && negb (status_eqb (page_status sh slotno) SLRU_PAGE_READ_IN_PROGRESS)
      then Some slotno
      else find_readable_slot sh pageno n' (slotno + 1)
  end.

Definition SimpleLruReadPage_ReadOnly (fuel : nat) (ctl : SlruCtlData)
    (pageno xid : Z) : M SlruShared Z :=
  let banklock := SimpleLruGetBankLock ctl pageno in
  let bankno := Z.rem pageno (nbanks ctl) in
  let bankstart := bankno * SLRU_BANK_SIZE in
  LWLockAcquire banklock LW_SHARED;;;
  sh <- get;;
  match find_readable_slot sh pageno BANK_SLOTS bankstart with
  | Some slotno =>
      put (SlruRecentlyUsed sh slotno);;;
      ret slotno
  | None =>
      LWLockRelease banklock;;;
      others_run ctl;;;
      LWLockAcquire banklock LW_EXCLUSIVE;;;
      SimpleLruReadPage fuel ctl pageno true xid
  end.

Definition SimpleLruDoesPhysicalPageExist (ctl : SlruCtlData) (pageno : Z)
  : M SlruShared bool :=
  sh <- get;;
  let segno := Z.quot pageno SLRU_PAGES_PER_SEGMENT in
  let rpageno := Z.rem pageno SLRU_PAGES_PER_SEGMENT in
  let offset := rpageno * BLCKSZ in
  match dir_lookup (files sh) segno with
  | None => ret false
  | Some f => ret (offset + BLCKSZ <=? f_size f)
  end.

(** Bank-lock hand-over at the head of the slot loops of
    [SimpleLruWriteAll], [SimpleLruTruncate] and [SlruDeleteSegment]. *)
Definition switch_bank_lock (ctl : SlruCtlData) (prevbank curbank : Z)
  : M SlruShared unit :=
  if negb (curbank =? prevbank) then
    LWLockRelease (bank_lock ctl prevbank);;;
    LWLockAcquire (bank_lock ctl curbank) LW_EXCLUSIVE
  else ret tt.

Fixpoint write_all_slots (fuel : nat) (ctl : SlruCtlData) (n : nat)
    (slotno prevbank : Z) : M SlruShared Z :=
  match n with
  | O => ret prevbank
  | S n' =>
      let curbank := SlotGetBankNumber slotno in
      switch_bank_lock ctl prevbank curbank;;;
      sh <- get;;
      if status_eqb (page_status sh slotno) SLRU_PAGE_EMPTY
      then write_all_slots fuel ctl n' (slotno + 1) curbank
      else
        SlruInternalWritePage fuel ctl slotno;;;
        write_all_slots fuel ctl n' (slotno + 1) curbank
  end.

Definition SimpleLruWriteAll (fuel : nat) (ctl : SlruCtlData)
    (allow_redirtied : bool) : M SlruShared unit :=
  sh <- get;;
  let prevbank := SlotGetBankNumber 0 in
  LWLockAcquire (bank_lock ctl prevbank) LW_EXCLUSIVE;;;
  prevbank <- write_all_slots fuel ctl (Z.to_nat (num_slots sh)) 0 prevbank;;
  LWLockRelease (bank_lock ctl prevbank).

Definition SlruInternalDeleteSegment (ctl : SlruCtlData) (segno : Z)
  : M SlruShared unit :=
  modify (fun sh => set_files sh (dir_remove (files sh) segno));;;
  emit (EvUnlink (Dir ctl) segno).

Definition SlruMayDeleteSegment (ctl : SlruCtlData) (segpage cutoffPage : Z)
  : bool :=
  let seg_last_page := segpage + SLRU_PAGES_PER_SEGMENT - 1 in
  PagePrecedes ctl segpage cutoffPage
  && PagePrecedes ctl seg_last_page cutoffPage.

(** A callback of [SlruScanDirectory], applied to the first page of the
    segment a directory entry names. *)
Definition SlruScanCallback : Type := Z -> M SlruShared bool.

(** The loop of [SlruScanDirectory] over the segment numbers the entries
    spell.  [segpage = segno * SLRU_PAGES_PER_SEGMENT] is a product of
    [int64]: it wraps around for a segment number of 2^58 or more, which
    a name of 15 digits can spell. *)
Fixpoint scan_entries (callback : SlruScanCallback) (entries : list Z)
  : M SlruShared bool :=
  match entries with
  | [] => ret false
  | segno :: rest =>
      let segpage := to_int64 (segno * SLRU_PAGES_PER_SEGMENT) in
      retval <- callback segpage;;
      if retval then ret true else scan_entries callback rest
  end.

(** [SlruScanDirectory]: the callback runs on every entry [ReadDir]
    reports; the entries are those present when the scan starts. *)
Definition SlruScanDirectory (ctl : SlruCtlData) (callback : SlruScanCallback)
  : M SlruShared bool :=
  sh <- get;;
  scan_entries callback (map fst (files sh)).

Definition SlruScanDirCbReportPresence (ctl : SlruCtlData) (cutoffPage : Z)
  : SlruScanCallback :=
  fun segpage =>
    if SlruMayDeleteSegment ctl segpage cutoffPage then ret true else ret false.

Definition SlruScanDirCbDeleteCutoff (ctl : SlruCtlData) (cutoffPage : Z)
  : SlruScanCallback :=
  fun segpage =>
    when (SlruMayDeleteSegment ctl segpage cutoffPage)
      (SlruInternalDeleteSegment ctl (Z.quot segpage SLRU_PAGES_PER_SEGMENT));;;
    ret false.

Definition SlruScanDirCbDeleteAll (ctl : SlruCtlData) : SlruScanCallback :=
  fun segpage =>
    SlruInternalDeleteSegment ctl (Z.quot segpage SLRU_PAGES_PER_SEGMENT);;;
    ret false.

(** The slot loop of [SimpleLruTruncate]: [inl prevbank] when every slot
    was passed, [inr tt] for [goto restart]. *)
Fixpoint truncate_slots (fuel : nat) (ctl : SlruCtlData) (cutoffPage : Z)
    (n : nat) (slotno prevbank : Z) : M SlruShared (Z + unit) :=
  match n with
  | O => ret (inl prevbank)
  | S n' =>
      let curbank := SlotGetBankNumber slotno in
      switch_bank_lock ctl prevbank curbank;;;
      sh <- get;;
      if status_eqb (page_status sh slotno) SLRU_PAGE_EMPTY
      then truncate_slots fuel ctl cutoffPage n' (slotno + 1) curbank
      else if negb (PagePrecedes ctl (page_number sh slotno) cutoffPage)
      then truncate_slots fuel ctl cutoffPage n' (slotno + 1) curbank
      else if status_eqb (page_status sh slotno) SLRU_PAGE_VALID
              && negb (page_dirty sh slotno)
      then
        put (set_page_status sh slotno SLRU_PAGE_EMPTY);;;
        truncate_slots fuel ctl cutoffPage n' (slotno + 1) curbank
      else
        (if status_eqb (page_status sh slotno) SLRU_PAGE_VALID
         then SlruInternalWritePage fuel ctl slotno
         else SimpleLruWaitIO ctl slotno);;;
        LWLockRelease (bank_lock ctl curbank);;;
        ret (inr tt)
  end.

Fixpoint SimpleLruTruncate (fuel : nat) (ctl : SlruCtlData) (cutoffPage : Z)
  : M SlruShared unit :=
  match fuel with
  | O => out_of_fuel
  | S fuel' =>
      sh <- get;;
      if PagePrecedes ctl (to_int64 (latest_page_number sh)) cutoffPage
      then
        ereport_LOG (msg_apparent_wraparound_truncate (Dir ctl))
      else
        let prevbank := SlotGetBankNumber 0 in
        LWLockAcquire (bank_lock ctl prevbank) LW_EXCLUSIVE;;;
        r <- truncate_slots fuel' ctl cutoffPage (Z.to_nat (num_slots sh)) 0 prevbank;;
        match r with
        | inr _ => SimpleLruTruncate fuel' ctl cutoffPage
        | inl prevbank =>
            LWLockRelease (bank_lock ctl prevbank);;;
            _ <- SlruScanDirectory ctl (SlruScanDirCbDeleteCutoff ctl cutoffPage);;
            ret tt
        end
  end.

(** The slot loop of [SlruDeleteSegment]; returns the bank whose lock is
    held and [did_write]. *)
Fixpoint delete_segment_slots (fuel : nat) (ctl : SlruCtlData) (segno : Z)
    (n : nat) (slotno prevbank : Z) (did_write : bool)
  : M SlruShared (Z * bool) :=
  match n with
  | O => ret (prevbank, did_write)
  | S n' =>
      let curbank := SlotGetBankNumber slotno in
      switch_bank_lock ctl prevbank curbank;;;
      sh <- get;;
      if status_eqb (page_status sh slotno) SLRU_PAGE_EMPTY
      then delete_segment_slots fuel ctl segno n' (slotno + 1) curbank did_write
      else
        let pagesegno := Z.quot (page_number sh slotno) SLRU_PAGES_PER_SEGMENT in
        if negb (pagesegno =? segno)
        then delete_segment_slots fuel ctl segno n' (slotno + 1) curbank did_write
        else if status_eqb (page_status sh slotno) SLRU_PAGE_VALID
                && negb (page_dirty sh slotno)
        then
          put (set_page_status sh slotno SLRU_PAGE_EMPTY);;;
          delete_segment_slots fuel ctl segno n' (slotno + 1) curbank did_write
        else
          (if status_eqb (page_status sh slotno) SLRU_PAGE_VALID
           then SlruInternalWritePage fuel ctl slotno
           else SimpleLruWaitIO ctl slotno);;;
          delete_segment_slots fuel ctl segno n' (slotno + 1) curbank true
  end.

Fixpoint delete_segment_restart (fuel : nat) (ctl : SlruCtlData) (segno : Z)
    (prevbank : Z) : M SlruShared unit :=
  match fuel with
  | O => out_of_fuel
  | S fuel' =>
      sh <- get;;
      r <- delete_segment_slots fuel' ctl segno (Z.to_nat (num_slots sh)) 0
             prevbank false;;
      let '(prevbank, did_write) := r in
      if did_write then delete_segment_restart fuel' ctl segno prevbank
      else
        SlruInternalDeleteSegment ctl segno;;;
        LWLockRelease (bank_lock ctl prevbank)
  end.

Definition SlruDeleteSegment (fuel : nat) (ctl : SlruCtlData) (segno : Z)
  : M SlruShared unit :=
  let prevbank := SlotGetBankNumber 0 in
  LWLockAcquire (bank_lock ctl prevbank) LW_EXCLUSIVE;;;
  delete_segment_restart fuel ctl segno prevbank.

(* ================================================================== *)
(** * Typed access to page bytes *)
(* ================================================================== *)

(** Little-endian load and store of an [n]-byte unsigned integer. *)
Fixpoint read_le (n : nat) (pg : Page) (off : Z) : Z :=
  match n with
  | O => 0
  | S n' => pg off + 256 * read_le n' pg (off + 1)
  end.

Fixpoint write_le (n : nat) (pg : Page) (off : Z) (v : Z) : Page :=
  match n with
  | O => pg
  | S n' => upd (write_le n' pg (off + 1) (v / 256)) off (v mod 256)
  end.

(* ================================================================== *)
(** * The state of the backend and of shared memory *)
(* ================================================================== *)

Record MultiXactMember := mkMember { member_xid : Z; member_status : Z }.

Record mXactCacheEnt := mkCacheEnt {
  ent_multi : Z;
  ent_nmembers : Z;
  ent_members : list MultiXactMember
}.

Definition MAX_CACHE_ENTRIES : Z := 256.

(** [MultiXactStateData] with the two per-backend arrays that follow it. *)
Record MultiXactStateData := mkMultiXactState {
  nextMXact : Z;
  nextOffset : Z;
  finishedStartup : bool;
  oldestMultiXactId : Z;
  oldestMultiXactDB : Z;
  multiVacLimit : Z;
  OldestMemberMXactId : Z -> Z;
  OldestVisibleMXactId : Z -> Z
}.

Record CommitTimestampEntry := mkCommitTsEntry { entry_time : Z; entry_nodeid : Z }.

Record CommitTimestampShared := mkCommitTsShared {
  xidLastCommit : Z;
  dataLastCommit : CommitTimestampEntry;
  commitTsActive : bool
}.

(** The fields of [TransamVariablesData] the modelled code uses. *)
Record TransamVariablesData := mkTransamVariables {
  nextXid : Z;
  xidVacLimit : Z;
  oldestCommitTsXid : Z;
  newestCommitTsXid : Z
}.

Record XidCacheStatus := mkXidCacheStatus { xcs_count : Z; xcs_overflowed : bool }.

Record PGPROC := mkPGPROC {
  proc_xid : Z;
  proc_subxids : Z -> Z;
  subxidStatus : XidCacheStatus;
  delayChkptStart : bool
}.

Record PROC_HDR := mkPROC_HDR {
  xids : Z -> Z;
  subxidStates : Z -> XidCacheStatus
}.

Record PgState := mkPgState {
  TransamVariables : TransamVariablesData;
  commitTsShared : CommitTimestampShared;
  MultiXactState : MultiXactStateData;
  MyProc : PGPROC;
  ProcGlobal : PROC_HDR;
  MXactCache : list mXactCacheEnt;
  CommitTsSlru : SlruShared;
  MultiXactOffsetSlru : SlruShared;
  MultiXactMemberSlru : SlruShared
}.

Definition set_TransamVariables (v : TransamVariablesData) (s : PgState) : PgState :=
  mkPgState v (commitTsShared s) (MultiXactState s) (MyProc s) (ProcGlobal s)
    (MXactCache s) (CommitTsSlru s) (MultiXactOffsetSlru s) (MultiXactMemberSlru s).
Definition set_commitTsShared (v : CommitTimestampShared) (s : PgState) : PgState :=
  mkPgState (TransamVariables s) v (MultiXactState s) (MyProc s) (ProcGlobal s)
    (MXactCache s) (CommitTsSlru s) (MultiXactOffsetSlru s) (MultiXactMemberSlru s).
Definition set_MultiXactState (v : MultiXactStateData) (s : PgState) : PgState :=
  mkPgState (TransamVariables s) (commitTsShared s) v (MyProc s) (ProcGlobal s)
    (MXactCache s) (CommitTsSlru s) (MultiXactOffsetSlru s) (MultiXactMemberSlru s).
Definition set_MyProc (v : PGPROC) (s : PgState) : PgState :=
  mkPgState (TransamVariables s) (commitTsShared s) (MultiXactState s) v (ProcGlobal s)
    (MXactCache s) (CommitTsSlru s) (MultiXactOffsetSlru s) (MultiXactMemberSlru s).
Definition set_ProcGlobal (v : PROC_HDR) (s : PgState) : PgState :=
  mkPgState (TransamVariables s) (commitTsShared s) (MultiXactState s) (MyProc s) v
    (MXactCache s) (CommitTsSlru s) (MultiXactOffsetSlru s) (MultiXactMemberSlru s).
Definition set_MXactCache (v : list mXactCacheEnt) (s : PgState) : PgState :=
  mkPgState (TransamVariables s) (commitTsShared s) (MultiXactState s) (MyProc s)
    (ProcGlobal s) v (CommitTsSlru s) (MultiXactOffsetSlru s) (MultiXactMemberSlru s).
Definition set_CommitTsSlru (v : SlruShared) (s : PgState) : PgState :=
  mkPgState (TransamVariables s) (commitTsShared s) (MultiXactState s) (MyProc s)
    (ProcGlobal s) (MXactCache s) v (MultiXactOffsetSlru s) (MultiXactMemberSlru s).
Definition set_MultiXactOffsetSlru (v : SlruShared) (s : PgState) : PgState :=
  mkPgState (TransamVariables s) (commitTsShared s) (MultiXactState s) (MyProc s)
    (ProcGlobal s) (MXactCache s) (CommitTsSlru s) v (MultiXactMemberSlru s).
Definition set_MultiXactMemberSlru (v : SlruShared) (s : PgState) : PgState :=
  mkPgState (TransamVariables s) (commitTsShared s) (MultiXactState s) (MyProc s)
    (ProcGlobal s) (MXactCache s) (CommitTsSlru s) (MultiXactOffsetSlru s) v.

(** What is fixed for one backend while the modelled functions run: the
    process flags, its slot numbers, the configuration of the three
    SLRUs, the two log-extension routines whose files (clog.c,
    subtrans.c) are not in the source tree, and what the other backends
    do to the shared state in the windows where this one holds no lock
    ([while_unlocked]) or sleeps on [nextoff_cv] ([while_asleep]). *)
Record Backend := mkBackend {
  IsInParallelMode : bool;
  IsBootstrapProcessingMode : bool;
  RecoveryInProgress : bool;
  IsUnderPostmaster : bool;
  MyProcNumber : Z;
  MaxOldestSlot : Z;
  pgxactoff : Z;
  commit_ts_nbanks : Z;
  multixact_offset_nbanks : Z;
  multixact_member_nbanks : Z;
  commit_ts_world : SlruWorld;
  multixact_offset_world : SlruWorld;
  multixact_member_world : SlruWorld;
  ExtendCLOG : Z -> M PgState unit;
  ExtendSUBTRANS : Z -> M PgState unit;
  while_unlocked : PgState -> PgState;
  while_asleep : PgState -> PgState
}.

Definition CommitTsCtl (B : Backend) : SlruCtlData :=
  mkSlruCtl CommitTsPagePrecedes (commit_ts_nbanks B) true
    "pg_commit_ts" (commit_ts_world B).
Definition MultiXactOffsetCtl (B : Backend) : SlruCtlData :=
  mkSlruCtl MultiXactOffsetPagePrecedes (multixact_offset_nbanks B) true
    "pg_multixact/offsets" (multixact_offset_world B).
Definition MultiXactMemberCtl (B : Backend) : SlruCtlData :=
  mkSlruCtl MultiXactMemberPagePrecedes (multixact_member_nbanks B) true
    "pg_multixact/members" (multixact_member_world B).

Definition on_CommitTs {A} (m : M SlruShared A) : M PgState A :=
  zoom CommitTsSlru set_CommitTsSlru m.
Definition on_MultiXactOffset {A} (m : M SlruShared A) : M PgState A :=
  zoom MultiXactOffsetSlru set_MultiXactOffsetSlru m.
Definition on_MultiXactMember {A} (m : M SlruShared A) : M PgState A :=
  zoom MultiXactMemberSlru set_MultiXactMemberSlru m.

Definition XLogInsert {S} (r : WalRecord) : M S unit := emit (EvXLogInsert r).

(* ================================================================== *)
(** * commit_ts.c *)
(* ================================================================== *)

Definition set_oldestCommitTsXid (v : Z) (t : TransamVariablesData) :=
  mkTransamVariables (nextXid t) (xidVacLimit t) v (newestCommitTsXid t).
Definition set_newestCommitTsXid (v : Z) (t : TransamVariablesData) :=
  mkTransamVariables (nextXid t) (xidVacLimit t) (oldestCommitTsXid t) v.
Definition set_nextXid (v : Z) (t : TransamVariablesData) :=
  mkTransamVariables v (xidVacLimit t) (oldestCommitTsXid t) (newestCommitTsXid t).

(** [memcpy] of a [CommitTimestampEntry] to and from a page: the
    timestamp in bytes 0..7, the origin in bytes 8..9. *)
Definition store_commit_ts_entry (pg : Page) (entryno : Z)
    (e : CommitTimestampEntry) : Page :=
  let off := SizeOfCommitTimestampEntry * entryno in
  write_le 2 (write_le 8 pg off (u64 (entry_time e))) (off + 8) (entry_nodeid e).

Definition load_commit_ts_entry (pg : Page) (entryno : Z) : CommitTimestampEntry :=
  let off := SizeOfCommitTimestampEntry * entryno in
  mkCommitTsEntry (to_int64 (read_le 8 pg off)) (read_le 2 pg (off + 8)).

Definition TransactionIdSetCommitTs (xid ts nodeid slotno : Z) : M SlruShared unit :=
  let entryno := TransactionIdToCTsEntry xid in
  let entry := mkCommitTsEntry ts nodeid in
  modify (fun sh => set_page_buffer sh slotno
                      (store_commit_ts_entry (page_buffer sh slotno) entryno entry)).

Fixpoint set_subxids_commit_ts (subxids : list Z) (ts nodeid slotno : Z)
  : M SlruShared unit :=
  match subxids with
  | [] => ret tt
  | x :: rest =>
      TransactionIdSetCommitTs x ts nodeid slotno;;;
      set_subxids_commit_ts rest ts nodeid slotno
  end.

Definition SetXidCommitTsInPage (fuel : nat) (B : Backend) (xid : Z)
    (subxids : list Z) (ts nodeid pageno : Z) : M PgState unit :=
  let ctl := CommitTsCtl B in
  let lock := SimpleLruGetBankLock ctl pageno in
  on_CommitTs (
    LWLockAcquire lock LW_EXCLUSIVE;;;
    slotno <- SimpleLruReadPage fuel ctl pageno true xid;;
    TransactionIdSetCommitTs xid ts nodeid slotno;;;
    set_subxids_commit_ts subxids ts nodeid slotno;;;
    modify (fun sh => set_page_dirty sh slotno true);;;
    LWLockRelease lock).

(** The subxids from index [i] that are on page [pageno], and the rest. *)
Fixpoint same_page_prefix (pageno : Z) (subxids : list Z) : list Z * list Z :=
  match subxids with
  | [] => ([], [])
  | x :: rest =>
      if negb (TransactionIdToCTsPage x =? pageno) then ([], subxids)
      else let '(a, b) := same_page_prefix pageno rest in (x :: a, b)
  end.

(** The [for (;;)] loop of [TransactionTreeSetCommitTsData]; [n] bounds
    the number of page groups. *)
Fixpoint set_commit_ts_groups (n : nat) (fuel : nat) (B : Backend)
    (headxid : Z) (subxids : list Z) (ts nodeid : Z) : M PgState unit :=
  match n with
  | O => out_of_fuel
  | S n' =>
      let pageno := TransactionIdToCTsPage headxid in
      let '(group, rest) := same_page_prefix pageno subxids in
      SetXidCommitTsInPage fuel B headxid group ts nodeid pageno;;;
      match rest with
      | [] => ret tt
      | newhead :: rest' => set_commit_ts_groups n' fuel B newhead rest' ts nodeid
      end
  end.

Definition TransactionTreeSetCommitTsData (fuel : nat) (B : Backend) (xid : Z)
    (subxids : list Z) (timestamp nodeid : Z) : M PgState unit :=
  s <- get;;
  if negb (commitTsActive (commitTsShared s)) then ret tt
  else
    let newestXact := last subxids xid in
    set_commit_ts_groups (S (List.length subxids)) fuel B xid subxids timestamp nodeid;;;
    LWLockAcquire CommitTsLock LW_EXCLUSIVE;;;
    modify (fun s =>
      set_commitTsShared
        (mkCommitTsShared xid (mkCommitTsEntry timestamp nodeid)
           (commitTsActive (commitTsShared s))) s);;;
    modify (fun s =>
      if TransactionIdPrecedes (newestCommitTsXid (TransamVariables s)) newestXact
      then set_TransamVariables
             (set_newestCommitTsXid newestXact (TransamVariables s)) s
      else s);;;
    LWLockRelease CommitTsLock.

Definition error_commit_ts_disabled {A} : M PgState A :=
  ereport_ERROR msg_commit_ts_disabled.

(** [TransactionIdGetCommitTsData]; the result is the return value with
    [*ts] and [*nodeid]. *)
Definition TransactionIdGetCommitTsData (fuel : nat) (B : Backend) (xid : Z)
  : M PgState (bool * Z * Z) :=
  let pageno := TransactionIdToCTsPage xid in
  let entryno := TransactionIdToCTsEntry xid in
  if negb (TransactionIdIsValid xid) then
    ereport_ERROR (msg_cannot_retrieve_commit_ts xid)
  else if negb (TransactionIdIsNormal xid) then
    ret (false, 0, 0)
  else
    LWLockAcquire CommitTsLock LW_SHARED;;;
    s <- get;;
    if negb (commitTsActive (commitTsShared s)) then error_commit_ts_disabled
    else if xidLastCommit (commitTsShared s) =? xid then
      let ts := entry_time (dataLastCommit (commitTsShared s)) in
      let nodeid := entry_nodeid (dataLastCommit (commitTsShared s)) in
      LWLockRelease CommitTsLock;;;
      ret (negb (ts =? 0), ts, nodeid)
    else
      let oldestCommitTsXid := oldestCommitTsXid (TransamVariables s) in
      let newestCommitTsXid := newestCommitTsXid (TransamVariables s) in
      LWLockRelease CommitTsLock;;;
      if negb (TransactionIdIsValid oldestCommitTsXid)
         || TransactionIdPrecedes xid oldestCommitTsXid
         || TransactionIdPrecedes newestCommitTsXid xid
      then ret (false, 0, InvalidRepOriginId)
      else
        on_CommitTs (
          slotno <- SimpleLruReadPage_ReadOnly fuel (CommitTsCtl B) pageno xid;;
          sh <- get;;
          let entry := load_commit_ts_entry (page_buffer sh slotno) entryno in
          LWLockRelease (SimpleLruGetBankLock (CommitTsCtl B) pageno);;;
          ret (negb (entry_time entry =? 0), entry_time entry, entry_nodeid entry)).

(** [ReadNextFullTransactionId] (varsup.c) and the accessor
    [ReadNextTransactionId] built on it. *)
Definition ReadNextFullTransactionId : M PgState Z :=
  LWLockAcquire XidGenLock LW_SHARED;;;
  s <- get;;
  LWLockRelease XidGenLock;;;
  ret (nextXid (TransamVariables s)).

Definition XidFromFullTransactionId (x : Z) : Z := x.
Definition ReadNextTransactionId : M PgState Z :=
  x <- ReadNextFullTransactionId;; ret (XidFromFullTransactionId x).

Definition ActivateCommitTs (fuel : nat) (B : Backend) : M PgState unit :=
  if IsBootstrapProcessingMode B then ret tt
  else
    LWLockAcquire CommitTsLock LW_EXCLUSIVE;;;
    s <- get;;
    if commitTsActive (commitTsShared s) then LWLockRelease CommitTsLock
    else
      LWLockRelease CommitTsLock;;;
      let xid := XidFromFullTransactionId (nextXid (TransamVariables s)) in
      let pageno := TransactionIdToCTsPage xid in
      on_CommitTs (modify (fun sh => set_latest_page_number sh (u64 pageno)));;;
      LWLockAcquire CommitTsLock LW_EXCLUSIVE;;;
      s <- get;;
      (if oldestCommitTsXid (TransamVariables s) =? InvalidTransactionId then
         next <- ReadNextTransactionId;;
         modify (fun s => set_TransamVariables
                   (set_oldestCommitTsXid next
                      (set_newestCommitTsXid next (TransamVariables s))) s)
       else ret tt);;;
      LWLockRelease CommitTsLock;;;
      exists_ <- on_CommitTs (SimpleLruDoesPhysicalPageExist (CommitTsCtl B) pageno);;
      when (negb exists_)
        (on_CommitTs (SimpleLruZeroAndWritePage fuel (CommitTsCtl B) pageno));;;
      LWLockAcquire CommitTsLock LW_EXCLUSIVE;;;
      modify (fun s => set_commitTsShared
                (mkCommitTsShared (xidLastCommit (commitTsShared s))
                   (dataLastCommit (commitTsShared s)) true) s);;;
      LWLockRelease CommitTsLock.

Definition DeactivateCommitTs (B : Backend) : M PgState unit :=
  LWLockAcquire CommitTsLock LW_EXCLUSIVE;;;
  modify (set_commitTsShared
            (mkCommitTsShared InvalidTransactionId
               (mkCommitTsEntry DT_NOBEGIN InvalidRepOriginId) false));;;
  modify (fun s => set_TransamVariables
            (set_oldestCommitTsXid InvalidTransactionId
               (set_newestCommitTsXid InvalidTransactionId (TransamVariables s))) s);;;
  _ <- on_CommitTs (SlruScanDirectory (CommitTsCtl B)
                      (SlruScanDirCbDeleteAll (CommitTsCtl B)));;
  LWLockRelease CommitTsLock.

Definition ExtendCommitTs (fuel : nat) (B : Backend) (newestXact : Z)
  : M PgState unit :=
  s <- get;;
  if negb (commitTsActive (commitTsShared s)) then ret tt
  else if negb (TransactionIdToCTsEntry newestXact =? 0)
          && negb (TransactionIdEquals newestXact FirstNormalTransactionId)
  then ret tt
  else
    let pageno := TransactionIdToCTsPage newestXact in
    let lock := SimpleLruGetBankLock (CommitTsCtl B) pageno in
    on_CommitTs (
      LWLockAcquire lock LW_EXCLUSIVE;;;
      _ <- SimpleLruZeroPage fuel (CommitTsCtl B) pageno;;
      when (negb (InRecovery (world (CommitTsCtl B))))
        (XLogInsert (COMMIT_TS_ZEROPAGE pageno));;;
      LWLockRelease lock).

(* ================================================================== *)
(** * multixact.c *)
(* ================================================================== *)

Definition set_nextMXact (v : Z) (m : MultiXactStateData) :=
  mkMultiXactState v (nextOffset m) (finishedStartup m) (oldestMultiXactId m)
    (oldestMultiXactDB m) (multiVacLimit m) (OldestMemberMXactId m)
    (OldestVisibleMXactId m).
Definition set_nextOffset (v : Z) (m : MultiXactStateData) :=
  mkMultiXactState (nextMXact m) v (finishedStartup m) (oldestMultiXactId m)
    (oldestMultiXactDB m) (multiVacLimit m) (OldestMemberMXactId m)
    (OldestVisibleMXactId m).
Definition set_oldestMultiXact (v db : Z) (m : MultiXactStateData) :=
  mkMultiXactState (nextMXact m) (nextOffset m) (finishedStartup m) v
    db (multiVacLimit m) (OldestMemberMXactId m) (OldestVisibleMXactId m).
Definition set_OldestVisibleMXactId (n v : Z) (m : MultiXactStateData) :=
  mkMultiXactState (nextMXact m) (nextOffset m) (finishedStartup m)
    (oldestMultiXactId m) (oldestMultiXactDB m) (multiVacLimit m)
    (OldestMemberMXactId m) (upd (OldestVisibleMXactId m) n v).

Definition GetOldestMemberMXactId (n : Z) : M PgState Z :=
  gets (fun s => OldestMemberMXactId (MultiXactState s) n).
Definition GetOldestVisibleMXactId (n : Z) : M PgState Z :=
  gets (fun s => OldestVisibleMXactId (MultiXactState s) n).
Definition SetOldestVisibleMXactId (n value : Z) : M PgState unit :=
  modify (fun s => set_MultiXactState
            (set_OldestVisibleMXactId n value (MultiXactState s)) s).

Definition ReadNextMultiXactId : M PgState Z :=
  LWLockAcquire MultiXactGenLock LW_SHARED;;;
  mxid <- gets (fun s => nextMXact (MultiXactState s));;
  LWLockRelease MultiXactGenLock;;;
  let mxid := if mxid <? FirstMultiXactId then FirstMultiXactId else mxid in
  ret mxid.

(** [ReadMultiXactIdRange]; the result is [( *oldest, *next )]. *)
Definition ReadMultiXactIdRange : M PgState (Z * Z) :=
  LWLockAcquire MultiXactGenLock LW_SHARED;;;
  oldest <- gets (fun s => oldestMultiXactId (MultiXactState s));;
  next <- gets (fun s => nextMXact (MultiXactState s));;
  LWLockRelease MultiXactGenLock;;;
  let oldest := if oldest <? FirstMultiXactId then FirstMultiXactId else oldest in
  let next := if next <? FirstMultiXactId then FirstMultiXactId else next in
  ret (oldest, next).

(** The loop over the per-backend slots in [MultiXactIdSetOldestVisible]. *)
Fixpoint oldest_member_scan (m : MultiXactStateData) (n : nat) (i : Z)
    (oldestMXact : Z) : Z :=
  match n with
  | O => oldestMXact
  | S n' =>
      let thisoldest := OldestMemberMXactId m i in
      if MultiXactIdIsValid thisoldest && MultiXactIdPrecedes thisoldest oldestMXact
      then oldest_member_scan m n' (i + 1) thisoldest
      else oldest_member_scan m n' (i + 1) oldestMXact
  end.

Definition MultiXactIdSetOldestVisible (B : Backend) : M PgState unit :=
  mine <- GetOldestVisibleMXactId (MyProcNumber B);;
  if negb (MultiXactIdIsValid mine) then
    LWLockAcquire MultiXactGenLock LW_EXCLUSIVE;;;
    s <- get;;
    let oldestMXact := nextMXact (MultiXactState s) in
    let oldestMXact :=
      if oldestMXact <? FirstMultiXactId then FirstMultiXactId else oldestMXact in
    let oldestMXact :=
      oldest_member_scan (MultiXactState s) (Z.to_nat (MaxOldestSlot B)) 0
        oldestMXact in
    SetOldestVisibleMXactId (MyProcNumber B) oldestMXact;;;
    LWLockRelease MultiXactGenLock
  else ret tt.

Definition ExtendMultiXactOffset (fuel : nat) (B : Backend) (multi : Z)
  : M PgState unit :=
  if negb (MultiXactIdToOffsetEntry multi =? 0)
     && negb (multi =? FirstMultiXactId)
  then ret tt
  else
    let pageno := MultiXactIdToOffsetPage multi in
    let lock := SimpleLruGetBankLock (MultiXactOffsetCtl B) pageno in
    on_MultiXactOffset (
      LWLockAcquire lock LW_EXCLUSIVE;;;
      _ <- SimpleLruZeroPage fuel (MultiXactOffsetCtl B) pageno;;
      XLogInsert (XLOG_MULTIXACT_ZERO_OFF_PAGE pageno);;;
      LWLockRelease lock).

(** The [while (nmembers > 0)] loop of [ExtendMultiXactMember]; every
    turn takes at least one member off, so [n] turns are enough when
    [n >= nmembers]. *)
Fixpoint extend_member_loop (n : nat) (fuel : nat) (B : Backend)
    (offset nmembers : Z) : M PgState unit :=
  if nmembers <=? 0 then ret tt
  else
    match n with
    | O => out_of_fuel
    | S n' =>
        let flagsoff := MXOffsetToFlagsOffset offset in
        let flagsbit := MXOffsetToFlagsBitShift offset in
        (if (flagsoff =? 0) && (flagsbit =? 0) then
           let pageno := MXOffsetToMemberPage offset in
           let lock := SimpleLruGetBankLock (MultiXactMemberCtl B) pageno in
           on_MultiXactMember (
             LWLockAcquire lock LW_EXCLUSIVE;;;
             _ <- SimpleLruZeroPage fuel (MultiXactMemberCtl B) pageno;;
             XLogInsert (XLOG_MULTIXACT_ZERO_MEM_PAGE pageno);;;
             LWLockRelease lock)
         else ret tt);;;
        let difference :=
          MULTIXACT_MEMBERS_PER_PAGE - offset mod MULTIXACT_MEMBERS_PER_PAGE in
        extend_member_loop n' fuel B (u64 (offset + difference))
          (wrap_int (nmembers - difference))
    end.

Definition ExtendMultiXactMember (fuel : nat) (B : Backend) (offset nmembers : Z)
  : M PgState unit :=
  extend_member_loop (Z.to_nat nmembers) fuel B offset nmembers.

(** [GetNewMultiXactId]; the result is the return value with [*offset].
    [START_CRIT_SECTION] is left open for the caller to close. *)
Definition GetNewMultiXactId (fuel : nat) (B : Backend) (nmembers : Z)
  : M PgState (Z * Z) :=
  if RecoveryInProgress B then ereport_ERROR msg_recovery_multi
  else
    LWLockAcquire MultiXactGenLock LW_EXCLUSIVE;;;
    modify (fun s =>
      if nextMXact (MultiXactState s) <? FirstMultiXactId
      then set_MultiXactState (set_nextMXact FirstMultiXactId (MultiXactState s)) s
      else s);;;
    s <- get;;
    let result := nextMXact (MultiXactState s) in
    result <-
      (if negb (MultiXactIdPrecedes result (multiVacLimit (MultiXactState s))) then
         LWLockRelease MultiXactGenLock;;;
         when (IsUnderPostmaster B && (result mod 65536 =? 0)) (emit EvSignalAutovac);;;
         modify (while_unlocked B);;;
         LWLockAcquire MultiXactGenLock LW_EXCLUSIVE;;;
         s <- get;;
         let result := nextMXact (MultiXactState s) in
         ret (if result <? FirstMultiXactId then FirstMultiXactId else result)
       else ret result);;
    ExtendMultiXactOffset fuel B result;;;
    s <- get;;
    let nextOffset_ := nextOffset (MultiXactState s) in
    let offset := if nextOffset_ =? 0 then 1 else nextOffset_ in
    let nmembers := if nextOffset_ =? 0 then wrap_int (nmembers + 1) else nmembers in
    ExtendMultiXactMember fuel B nextOffset_ nmembers;;;
    START_CRIT_SECTION;;;
    modify (fun s => set_MultiXactState
              (set_nextMXact (u64 (nextMXact (MultiXactState s) + 1))
                 (MultiXactState s)) s);;;
    modify (fun s => set_MultiXactState
              (set_nextOffset (u64 (nextOffset (MultiXactState s) + nmembers))
                 (MultiXactState s)) s);;;
    LWLockRelease MultiXactGenLock;;;
    ret (result, offset).

(** Position of the first cache entry for [multi]. *)
Fixpoint cache_find_by_id (multi : Z) (cache : list mXactCacheEnt)
  : option (mXactCacheEnt * list mXactCacheEnt) :=
  match cache with
  | [] => None
  | e :: rest =>
      if ent_multi e =? multi then Some (e, rest)
      else match cache_find_by_id multi rest with
           | Some (hit, others) => Some (hit, e :: others)
           | None => None
           end
  end.

(** [mXactCacheGetById]: [Some members] for a hit (the return value is
    their number), [None] for the return value -1. *)
Definition mXactCacheGetById (multi : Z)
  : M PgState (option (Z * list MultiXactMember)) :=
  s <- get;;
  match cache_find_by_id multi (MXactCache s) with
  | Some (entry, others) =>
      (* dclist_move_head *)
      put (set_MXactCache (entry :: others) s);;;
      ret (Some (ent_nmembers entry, ent_members entry))
  | None => ret None
  end.

Definition mxactMemberComparator (member1 member2 : MultiXactMember) : Z :=
  if member_xid member2 <? member_xid member1 then 1
  else if member_xid member1 <? member_xid member2 then -1
  else if member_status member2 <? member_status member1 then 1
  else if member_status member1 <? member_status member2 then -1
  else 0.

(** [qsort] with [mxactMemberComparator], as an insertion sort. *)
Fixpoint member_insert (m : MultiXactMember) (l : list MultiXactMember)
  : list MultiXactMember :=
  match l with
  | [] => [m]
  | x :: rest =>
      if mxactMemberComparator m x <=? 0 then m :: l
      else x :: member_insert m rest
  end.

Definition member_sort (l : list MultiXactMember) : list MultiXactMember :=
  fold_right member_insert [] l.

Definition mXactCachePut (multi nmembers : Z) (members : list MultiXactMember)
  : M PgState unit :=
  let entry := mkCacheEnt multi nmembers (member_sort members) in
  modify (fun s =>
    let cache := entry :: MXactCache s in
    if MAX_CACHE_ENTRIES <? Z.of_nat (List.length cache)
    then set_MXactCache (removelast cache) s
    else set_MXactCache cache s).

(** [offptr = (MultiXactOffset * ) page_buffer[slotno]; offptr += entryno]. *)
Definition read_offset_entry (sh : SlruShared) (slotno entryno : Z) : Z :=
  read_le 8 (page_buffer sh slotno) (entryno * sizeof_MultiXactOffset).

(** The read of the offset of the next multixact [tmpMXact], with the
    page of the multixact itself in [slotno] under [lock]: the value
    read and the bank lock then held. *)
Definition read_next_offset (fuel : nat) (ctl : SlruCtlData)
    (tmpMXact prev_pageno slotno : Z) (lock : LWLockId)
  : M SlruShared (Z * LWLockId) :=
  let pageno := MultiXactIdToOffsetPage tmpMXact in
  let entryno := MultiXactIdToOffsetEntry tmpMXact in
  r <- (if negb (pageno =? prev_pageno) then
          let newlock := SimpleLruGetBankLock ctl pageno in
          (if negb (Z.rem pageno (nbanks ctl) =? Z.rem prev_pageno (nbanks ctl))
           then LWLockRelease lock;;; LWLockAcquire newlock LW_EXCLUSIVE
           else ret tt);;;
          slotno <- SimpleLruReadPage fuel ctl pageno true tmpMXact;;
          ret (slotno, newlock)
        else ret (slotno, lock));;
  let '(slotno, lock) := r in
  sh <- get;;
  ret (read_offset_entry sh slotno entryno, lock).

(** One pass of [GetMultiXactIdMembers] from the label [retry] down to
    the computation of [length]: [Some (length, offset)], or [None] when
    the next offset is still zero and the caller must sleep (the bank
    lock is released either way). *)
Definition get_members_length (fuel : nat) (B : Backend)
    (multi nextMXact_ nextOffset_ : Z) : M PgState (option (Z * Z)) :=
  let ctl := MultiXactOffsetCtl B in
  let pageno := MultiXactIdToOffsetPage multi in
  let entryno := MultiXactIdToOffsetEntry multi in
  let lock := SimpleLruGetBankLock ctl pageno in
  on_MultiXactOffset (
    LWLockAcquire lock LW_EXCLUSIVE;;;
    slotno <- SimpleLruReadPage fuel ctl pageno true multi;;
    sh <- get;;
    let offset := read_offset_entry sh slotno entryno in
    if offset =? 0 then ereport_ERROR (msg_multi_zero_offset multi)
    else
      let tmpMXact := u64 (multi + 1) in
      if nextMXact_ =? tmpMXact then
        (* Corner case 1: there is no next multixact *)
        let length := wrap_int (u64 (nextOffset_ - offset)) in
        LWLockRelease lock;;;
        ret (Some (length, offset))
      else
        let tmpMXact :=
          if tmpMXact <? FirstMultiXactId then FirstMultiXactId else tmpMXact in
        r <- read_next_offset fuel ctl tmpMXact pageno slotno lock;;
        let '(nextMXOffset, lock) := r in
        if nextMXOffset =? 0 then
          (* Corner case 2: next multixact is still being filled in *)
          LWLockRelease lock;;;
          ret None
        else
          let length := wrap_int (u64 (nextMXOffset - offset)) in
          LWLockRelease lock;;;
          ret (Some (length, offset))).

(** The [retry] loop: sleep on [nextoff_cv], then try again; [n] bounds
    the number of passes. *)
Fixpoint get_members_retry (n : nat) (fuel : nat) (B : Backend)
    (multi nextMXact_ nextOffset_ : Z) : M PgState (Z * Z) :=
  match n with
  | O => out_of_fuel
  | S n' =>
      r <- get_members_length fuel B multi nextMXact_ nextOffset_;;
      match r with
      | Some lo => ret lo
      | None =>
          emit EvCVSleep;;;
          modify (while_asleep B);;;
          get_members_retry n' fuel B multi nextMXact_ nextOffset_
      end
  end.

(** The member loop of [GetMultiXactIdMembers]: [n] members from
    [offset], [acc] the members found so far in reverse. *)
Fixpoint read_members (fuel : nat) (B : Backend) (multi : Z) (n : nat)
    (offset prev_pageno slotno : Z) (acc : list MultiXactMember)
  : M SlruShared (list MultiXactMember * Z) :=
  match n with
  | O => ret (rev acc, prev_pageno)
  | S n' =>
      let ctl := MultiXactMemberCtl B in
      let pageno := MXOffsetToMemberPage offset in
      let memberoff := MXOffsetToMemberOffset offset in
      slotno <-
        (if negb (pageno =? prev_pageno) then
           let newlock := SimpleLruGetBankLock ctl pageno in
           (if (prev_pageno =? -1)
            then LWLockAcquire newlock LW_EXCLUSIVE
            else if negb (Z.rem pageno (nbanks ctl) =? Z.rem prev_pageno (nbanks ctl))
            then LWLockRelease (SimpleLruGetBankLock ctl prev_pageno);;;
                 LWLockAcquire newlock LW_EXCLUSIVE
            else ret tt);;;
           SimpleLruReadPage fuel ctl pageno true multi
         else ret slotno);;
      sh <- get;;
      let xact := read_le 8 (page_buffer sh slotno) memberoff in
      if negb (TransactionIdIsValid xact) then
        (* Corner case 3: we must be looking at unused slot zero *)
        read_members fuel B multi n' (u64 (offset + 1)) pageno slotno acc
      else
        let flagsoff := MXOffsetToFlagsOffset offset in
        let bshift := MXOffsetToFlagsBitShift offset in
        let flags := read_le 8 (page_buffer sh slotno) flagsoff in
        let status := Z.land (Z.shiftr flags bshift) MXACT_MEMBER_XACT_BITMASK in
        read_members fuel B multi n' (u64 (offset + 1)) pageno slotno
          (mkMember xact status :: acc)
  end.

(** [GetMultiXactIdMembers] from the allocation of [ptr] to its end: the
    members of the multixact whose [length] and [offset] are known. *)
Definition collect_members (fuel : nat) (B : Backend) (multi : Z)
    (lo : Z * Z) : M PgState (Z * list MultiXactMember) :=
  let '(length, offset) := lo in
  (* at least one page is read: the loop leaves a bank lock held *)
  r <- on_MultiXactMember
         (read_members fuel B multi (Z.to_nat length) offset (-1) 0 []);;
  let '(members, last_pageno) := r in
  LWLockRelease (SimpleLruGetBankLock (MultiXactMemberCtl B) last_pageno);;;
  let truelength := Z.of_nat (List.length members) in
  mXactCachePut multi truelength members;;;
  ret (truelength, members).

(** [GetMultiXactIdMembers] from the label [retry] to its end, with the
    counters [nextMXact] and [nextOffset] it has saved. *)
Definition lookup_members (fuel : nat) (B : Backend)
    (multi nextMXact_ nextOffset_ : Z) : M PgState (Z * list MultiXactMember) :=
  lo <- get_members_retry fuel fuel B multi nextMXact_ nextOffset_;;
  collect_members fuel B multi lo.

(** [GetMultiXactIdMembers]: the return value and [*members]. *)
Definition GetMultiXactIdMembers (fuel : nat) (B : Backend) (multi : Z)
    (from_pgupgrade isLockOnly : bool) : M PgState (Z * list MultiXactMember) :=
  if negb (MultiXactIdIsValid multi) || from_pgupgrade then ret (-1, [])
  else
    cached <- mXactCacheGetById multi;;
    match cached with
    | Some (length, members) => ret (length, members)
    | None =>
        MultiXactIdSetOldestVisible B;;;
        myoldest <- GetOldestVisibleMXactId (MyProcNumber B);;
        if isLockOnly && MultiXactIdPrecedes multi myoldest then ret (-1, [])
        else
          LWLockAcquire MultiXactGenLock LW_SHARED;;;
          s <- get;;
          let oldestMXact := oldestMultiXactId (MultiXactState s) in
          let nextMXact_ := nextMXact (MultiXactState s) in
          let nextOffset_ := nextOffset (MultiXactState s) in
          emit (EvReadMultiBounds oldestMXact nextMXact_ nextOffset_);;;
          LWLockRelease MultiXactGenLock;;;
          if MultiXactIdPrecedes multi oldestMXact then
            ereport_ERROR (msg_multi_no_longer_exists multi)
          else if negb (MultiXactIdPrecedes multi nextMXact_) then
            ereport_ERROR (msg_multi_not_created_yet multi)
          else
            lookup_members fuel B multi nextMXact_ nextOffset_
    end.

(** [find_multixact_start]: [Some offset] for [true] with [*result],
    [None] for [false]. *)
Definition find_multixact_start (fuel : nat) (B : Backend) (multi : Z)
  : M PgState (option Z) :=
  let pageno := MultiXactIdToOffsetPage multi in
  let entryno := MultiXactIdToOffsetEntry multi in
  on_MultiXactOffset (SimpleLruWriteAll fuel (MultiXactOffsetCtl B) true);;;
  on_MultiXactMember (SimpleLruWriteAll fuel (MultiXactMemberCtl B) true);;;
  exists_ <- on_MultiXactOffset
               (SimpleLruDoesPhysicalPageExist (MultiXactOffsetCtl B) pageno);;
  if negb exists_ then ret None
  else
    on_MultiXactOffset (
      slotno <- SimpleLruReadPage_ReadOnly fuel (MultiXactOffsetCtl B) pageno multi;;
      sh <- get;;
      let offset := read_offset_entry sh slotno entryno in
      LWLockRelease (SimpleLruGetBankLock (MultiXactOffsetCtl B) pageno);;;
      ret (Some offset)).

(** [SlruScanDirCbFindEarliest] folded over the directory: the callback
    never stops the scan and only updates [trunc->earliestExistingPage]. *)
Definition SlruScanDirCbFindEarliest (ctl : SlruCtlData) (segpage : Z)
    (earliestExistingPage : Z) : Z :=
  if (earliestExistingPage =? -1)
     || PagePrecedes ctl segpage earliestExistingPage
  then segpage else earliestExistingPage.

Definition scan_find_earliest (ctl : SlruCtlData) (sh : SlruShared) : Z :=
  fold_left (fun earliest segno =>
               SlruScanDirCbFindEarliest ctl
                 (to_int64 (segno * SLRU_PAGES_PER_SEGMENT)) earliest)
    (map fst (files sh)) (-1).

(** The [while (segment != endsegment)] loop of
    [PerformMembersTruncation]. *)
Fixpoint members_truncation_loop (n : nat) (fuel : nat) (B : Backend)
    (maxsegment endsegment segment : Z) : M PgState unit :=
  if segment =? endsegment then ret tt
  else
    match n with
    | O => out_of_fuel
    | S n' =>
        on_MultiXactMember (SlruDeleteSegment fuel (MultiXactMemberCtl B) segment);;;
        members_truncation_loop n' fuel B maxsegment endsegment
          (if segment =? maxsegment then 0 else segment + 1)
    end.

Definition PerformMembersTruncation (fuel : nat) (B : Backend)
    (oldestOffset newOldestOffset : Z) : M PgState unit :=
  let maxsegment := MXOffsetToMemberSegment MaxMultiXactOffset in
  let startsegment := MXOffsetToMemberSegment oldestOffset in
  let endsegment := MXOffsetToMemberSegment newOldestOffset in
  members_truncation_loop
    (Z.to_nat ((endsegment - startsegment) mod (maxsegment + 1)))
    fuel B maxsegment endsegment startsegment.

Definition PerformOffsetsTruncation (fuel : nat) (B : Backend)
    (oldestMulti newOldestMulti : Z) : M PgState unit :=
  on_MultiXactOffset
    (SimpleLruTruncate fuel (MultiXactOffsetCtl B)
       (MultiXactIdToOffsetPage (PreviousMultiXactId newOldestMulti))).

Definition WriteMTruncateXlogRec (oldestMultiDB startTruncOff endTruncOff
    startTruncMemb endTruncMemb : Z) : M PgState unit :=
  XLogInsert (XLOG_MULTIXACT_TRUNCATE_ID oldestMultiDB startTruncOff endTruncOff
                startTruncMemb endTruncMemb).

Definition set_delayChkptStart (v : bool) (s : PgState) : PgState :=
  set_MyProc (mkPGPROC (proc_xid (MyProc s)) (proc_subxids (MyProc s))
                (subxidStatus (MyProc s)) v) s.

Definition TruncateMultiXact (fuel : nat) (B : Backend)
    (newOldestMulti newOldestMultiDB : Z) : M PgState unit :=
  LWLockAcquire MultiXactTruncationLock LW_EXCLUSIVE;;;
  LWLockAcquire MultiXactGenLock LW_SHARED;;;
  s <- get;;
  let nextMulti := nextMXact (MultiXactState s) in
  let nextOffset_ := nextOffset (MultiXactState s) in
  let oldestMulti := oldestMultiXactId (MultiXactState s) in
  LWLockRelease MultiXactGenLock;;;
  if MultiXactIdPrecedesOrEquals newOldestMulti oldestMulti then
    LWLockRelease MultiXactTruncationLock
  else
    let earliestExistingPage :=
      scan_find_earliest (MultiXactOffsetCtl B) (MultiXactOffsetSlru s) in
    let earliest := u64 (u64 earliestExistingPage * MULTIXACT_OFFSETS_PER_PAGE) in
    let earliest := if earliest <? FirstMultiXactId then FirstMultiXactId else earliest in
    if MultiXactIdPrecedes oldestMulti earliest then
      LWLockRelease MultiXactTruncationLock
    else
      found_old <-
        (if oldestMulti =? nextMulti then ret (Some nextOffset_)
         else find_multixact_start fuel B oldestMulti);;
      match found_old with
      | None =>
          ereport_LOG (msg_oldest_multi_not_found oldestMulti earliest);;;
          LWLockRelease MultiXactTruncationLock
      | Some oldestOffset =>
          found_new <-
            (if newOldestMulti =? nextMulti then ret (Some nextOffset_)
             else find_multixact_start fuel B newOldestMulti);;
          match found_new with
          | None =>
              ereport_LOG (msg_cannot_truncate_up_to newOldestMulti);;;
              LWLockRelease MultiXactTruncationLock
          | Some newOldestOffset =>
              START_CRIT_SECTION;;;
              modify (set_delayChkptStart true);;;
              emit (EvDelayChkpt true);;;
              WriteMTruncateXlogRec newOldestMultiDB oldestMulti newOldestMulti
                oldestOffset newOldestOffset;;;
              LWLockAcquire MultiXactGenLock LW_EXCLUSIVE;;;
              modify (fun s => set_MultiXactState
                        (set_oldestMultiXact newOldestMulti newOldestMultiDB
                           (MultiXactState s)) s);;;
              emit (EvSetOldestMulti newOldestMulti newOldestMultiDB);;;
              LWLockRelease MultiXactGenLock;;;
              PerformMembersTruncation fuel B oldestOffset newOldestOffset;;;
              PerformOffsetsTruncation fuel B oldestMulti newOldestMulti;;;
              modify (set_delayChkptStart false);;;
              emit (EvDelayChkpt false);;;
              END_CRIT_SECTION;;;
              LWLockRelease MultiXactTruncationLock
          end
      end.

(* ================================================================== *)
(** * varsup.c *)
(* ================================================================== *)

(** Modelled from the spec: [TransactionIdFollowsOrEquals] and
    [FullTransactionIdAdvance] (transam.c, transam.h are not in the
    source tree): the circular comparison, and the 64-bit counter that
    steps over the reserved identifiers. *)
Definition TransactionIdFollowsOrEquals (id1 id2 : Z) : bool :=
  0 <=? to_int64 (id1 - id2).

Definition FullTransactionIdAdvance (v : Z) : Z :=
  let next := u64 (v + 1) in
  if next <? FirstNormalTransactionId then FirstNormalTransactionId else next.

Definition FullTransactionIdFromXid (xid : Z) : Z := xid.

Definition store_top_xid (B : Backend) (xid : Z) (s : PgState) : PgState :=
  let s := set_MyProc (mkPGPROC xid (proc_subxids (MyProc s))
                         (subxidStatus (MyProc s)) (delayChkptStart (MyProc s))) s in
  set_ProcGlobal (mkPROC_HDR (upd (xids (ProcGlobal s)) (pgxactoff B) xid)
                    (subxidStates (ProcGlobal s))) s.

Definition store_sub_xid (B : Backend) (xid : Z) (s : PgState) : PgState :=
  let nxids := xcs_count (subxidStatus (MyProc s)) in
  if nxids <? PGPROC_MAX_CACHED_SUBXIDS then
    let st := mkXidCacheStatus (nxids + 1) (xcs_overflowed (subxidStatus (MyProc s))) in
    let gst := mkXidCacheStatus (nxids + 1)
                 (xcs_overflowed (subxidStates (ProcGlobal s) (pgxactoff B))) in
    let s := set_MyProc (mkPGPROC (proc_xid (MyProc s))
                           (upd (proc_subxids (MyProc s)) nxids xid) st
                           (delayChkptStart (MyProc s))) s in
    set_ProcGlobal (mkPROC_HDR (xids (ProcGlobal s))
                      (upd (subxidStates (ProcGlobal s)) (pgxactoff B) gst)) s
  else
    let st := mkXidCacheStatus (xcs_count (subxidStatus (MyProc s))) true in
    let gst := mkXidCacheStatus
                 (xcs_count (subxidStates (ProcGlobal s) (pgxactoff B))) true in
    let s := set_MyProc (mkPGPROC (proc_xid (MyProc s)) (proc_subxids (MyProc s)) st
                           (delayChkptStart (MyProc s))) s in
    set_ProcGlobal (mkPROC_HDR (xids (ProcGlobal s))
                      (upd (subxidStates (ProcGlobal s)) (pgxactoff B) gst)) s.

Definition GetNewTransactionId (fuel : nat) (B : Backend) (isSubXact : bool)
  : M PgState Z :=
  if IsInParallelMode B then ereport_ERROR msg_parallel_xid
  else if IsBootstrapProcessingMode B then
    modify (store_top_xid B BootstrapTransactionId);;;
    emit (EvStoreXid BootstrapTransactionId);;;
    ret (FullTransactionIdFromXid BootstrapTransactionId)
  else if RecoveryInProgress B then ereport_ERROR msg_recovery_xid
  else
    LWLockAcquire XidGenLock LW_EXCLUSIVE;;;
    s <- get;;
    let full_xid := nextXid (TransamVariables s) in
    let xid := XidFromFullTransactionId full_xid in
    full_xid <-
      (if TransactionIdFollowsOrEquals xid (xidVacLimit (TransamVariables s)) then
         LWLockRelease XidGenLock;;;
         when (IsUnderPostmaster B && (xid mod 65536 =? 0)) (emit EvSignalAutovac);;;
         modify (while_unlocked B);;;
         LWLockAcquire XidGenLock LW_EXCLUSIVE;;;
         s <- get;;
         ret (nextXid (TransamVariables s))
       else ret full_xid);;
    let xid := XidFromFullTransactionId full_xid in
    emit (EvExtend "clog" xid);;;
    ExtendCLOG B xid;;;
    emit (EvExtend "commit_ts" xid);;;
    ExtendCommitTs fuel B xid;;;
    emit (EvExtend "subtrans" xid);;;
    ExtendSUBTRANS B xid;;;
    modify (fun s => set_TransamVariables
              (set_nextXid (FullTransactionIdAdvance (nextXid (TransamVariables s)))
                 (TransamVariables s)) s);;;
    s <- get;;
    emit (EvAdvanceNextXid (nextXid (TransamVariables s)));;;
    (if negb isSubXact then
       modify (store_top_xid B xid);;;
       emit (EvStoreXid xid)
     else
       modify (store_sub_xid B xid);;;
       emit (EvStoreSubXid xid));;;
    LWLockRelease XidGenLock;;;
    ret full_xid.

(* ================================================================== *)
(** * Predicates and concrete states used in the statements *)
(* ================================================================== *)

(** What the accessors return for a counter value [v]. *)
Definition clamp_to_first (v : Z) : Z :=
  if v <? FirstMultiXactId then FirstMultiXactId else v.


(** ** The page cache seen by one backend at a time *)

(** No other backend touches the SLRU while this one runs. *)
Definition quiet (ctl : SlruCtlData) : Prop :=
  (forall sh, interfere (world ctl) sh = sh)
  /\ (forall slotno, buffer_lock_busy (world ctl) slotno = false).

(** The slots of the bank of [pageno]. *)
Definition bank_start (ctl : SlruCtlData) (pageno : Z) : Z :=
  Z.rem pageno (nbanks ctl) * SLRU_BANK_SIZE.
Definition in_bank (ctl : SlruCtlData) (pageno slotno : Z) : Prop :=
  bank_start ctl pageno <= slotno < bank_start ctl pageno + SLRU_BANK_SIZE.

(** The slot is in use for [pageno]. *)
Definition slot_holds (sh : SlruShared) (slotno pageno : Z) : Prop :=
  page_status sh slotno <> SLRU_PAGE_EMPTY /\ page_number sh slotno = pageno.

(** The slot can be given to another page at once. *)
Definition slot_freeable (sh : SlruShared) (slotno : Z) : Prop :=
  page_status sh slotno = SLRU_PAGE_EMPTY
  \/ (page_status sh slotno = SLRU_PAGE_VALID /\ page_dirty sh slotno = false).

(** The slot is in use for the page recorded as the latest one. *)
Definition holds_latest_page (sh : SlruShared) (slotno : Z) : Prop :=
  page_status sh slotno <> SLRU_PAGE_EMPTY
  /\ u64 (page_number sh slotno) = latest_page_number sh.

(** No page is in two slots of a bank. *)
Definition no_duplicate_pages (sh : SlruShared) : Prop :=
  forall i j : Z,
    SlotGetBankNumber i = SlotGetBankNumber j -> i <> j ->
    page_status sh i <> SLRU_PAGE_EMPTY ->
    page_status sh j <> SLRU_PAGE_EMPTY ->
    page_number sh i <> page_number sh j.

(** How far a slot is from being reusable: I/O in flight, dirty, or
    neither; and the sum over [n] slots from [slotno]. *)
Definition slot_rank (sh : SlruShared) (slotno : Z) : nat :=
  match page_status sh slotno with
  | SLRU_PAGE_EMPTY => 0
  | SLRU_PAGE_VALID => if page_dirty sh slotno then 1 else 0
  | _ => 2
  end.

Fixpoint rank_sum (sh : SlruShared) (n : nat) (slotno : Z) : nat :=
  match n with
  | O => O
  | S n' => (slot_rank sh slotno + rank_sum sh n' (slotno + 1))%nat
  end.

(** Calls into the cache, and a run of them by one backend: an error
    leaves the shared state as the failing call left it, and the next
    call goes on from there. *)
Inductive SlruOp :=
| OpZeroPage (pageno : Z)
| OpReadPage (pageno : Z) (write_ok : bool) (xid : Z).

Definition is_read_op (op : SlruOp) : bool :=
  match op with OpReadPage _ _ _ => true | OpZeroPage _ => false end.

Definition run_op (fuel : nat) (ctl : SlruCtlData) (op : SlruOp) : M SlruShared Z :=
  match op with
  | OpZeroPage pageno => SimpleLruZeroPage fuel ctl pageno
  | OpReadPage pageno write_ok xid => SimpleLruReadPage fuel ctl pageno write_ok xid
  end.

Fixpoint run_ops (fuel : nat) (ctl : SlruCtlData) (ops : list SlruOp)
    (sh : SlruShared) : option SlruShared :=
  match ops with
  | [] => Some sh
  | op :: rest =>
      match res_state (run_op fuel ctl op sh) with
      | Some sh' => run_ops fuel ctl rest sh'
      | None => None
      end
  end.


(** ** Outcomes that satisfy a postcondition *)

(** [res_ok]: if the code returns then [Q], if it raises then [E];
    [res_total]: moreover the loop fuel was enough. *)
Definition res_ok {S A} (Q : A -> S -> Prop) (E : S -> Prop) (r : Res S A) : Prop :=
  match r with
  | Done a s _ => Q a s
  | Raise _ s _ => E s
  | OutOfFuel => True
  end.

Definition res_total {S A} (Q : A -> S -> Prop) (E : S -> Prop) (r : Res S A) : Prop :=
  match r with
  | Done a s _ => Q a s
  | Raise _ s _ => E s
  | OutOfFuel => False
  end.


(** ** Auxiliary predicates of the page-cache proofs *)

(** Two states of the cache that differ at most in the LRU counters. *)
Definition same_but_lru (sh sh' : SlruShared) : Prop :=
  num_slots sh' = num_slots sh
  /\ page_buffer sh' = page_buffer sh
  /\ page_status sh' = page_status sh
  /\ page_dirty sh' = page_dirty sh
  /\ page_number sh' = page_number sh
  /\ latest_page_number sh' = latest_page_number sh
  /\ files sh' = files sh.

(** What the victim search knows after it has passed the slots
    [lo .. hi-1]: none of them is empty, a best candidate recorded with a
    non-negative delta is one of them, is not the latest page, and is
    VALID (resp. busy with I/O); and a candidate of either kind that was
    passed has left a non-negative delta. *)
Definition scan_inv (sh : SlruShared) (lo hi : Z) (v : VictimScan) : Prop :=
  -1 <= best_valid_delta v
  /\ -1 <= best_invalid_delta v
  /\ (0 <= best_valid_delta v ->
      lo <= bestvalidslot v < hi
      /\ page_status sh (bestvalidslot v) = SLRU_PAGE_VALID
      /\ u64 (page_number sh (bestvalidslot v)) <> latest_page_number sh)
  /\ (0 <= best_invalid_delta v ->
      lo <= bestinvalidslot v < hi
      /\ io_in_progress (page_status sh (bestinvalidslot v)) = true
      /\ u64 (page_number sh (bestinvalidslot v)) <> latest_page_number sh)
  /\ (forall j, lo <= j < hi ->
        page_status sh j <> SLRU_PAGE_EMPTY
        /\ (u64 (page_number sh j) <> latest_page_number sh ->
            (page_status sh j = SLRU_PAGE_VALID -> 0 <= best_valid_delta v)
            /\ (page_status sh j <> SLRU_PAGE_VALID -> 0 <= best_invalid_delta v))).


(** What [SlruSelectLRUPage ctl pageno] promises about the slot it
    returns, in the state it returns it in: the slot is in the bank of
    [pageno]; either it already holds [pageno], or no slot of the bank
    does and the slot can be reused at once (EMPTY, or VALID and clean)
    and is not the one in use for the latest page. *)
Definition select_post (ctl : SlruCtlData) (pageno : Z) (slotno : Z)
    (sh : SlruShared) : Prop :=
  in_bank ctl pageno slotno
  /\ (slot_holds sh slotno pageno
      \/ ((forall j, in_bank ctl pageno j -> ~ slot_holds sh j pageno)
          /\ slot_freeable sh slotno
          /\ ~ holds_latest_page sh slotno)).


(** What one quiet call of the victim search, of [SimpleLruWaitIO] or of
    [SlruInternalWritePage] may change in the cache: page numbers,
    buffers and the latest-page mark stay; a status changes only from
    "I/O in progress" to EMPTY or VALID; no slot gets further from being
    reusable. *)
Definition cache_step (sh sh' : SlruShared) : Prop :=
  num_slots sh' = num_slots sh
  /\ page_buffer sh' = page_buffer sh
  /\ page_number sh' = page_number sh
  /\ latest_page_number sh' = latest_page_number sh
  /\ (forall j,
        page_status sh' j = page_status sh j
        \/ (io_in_progress (page_status sh j) = true
            /\ (page_status sh' j = SLRU_PAGE_EMPTY
                \/ page_status sh' j = SLRU_PAGE_VALID)))
  /\ (forall j, (slot_rank sh' j <= slot_rank sh j)%nat).

(** State left by [SimpleLruWaitIO] when no other backend runs. *)
Definition wait_result (sh : SlruShared) (slotno : Z) : SlruShared :=
  if io_in_progress (page_status sh slotno) then
    if status_eqb (page_status sh slotno) SLRU_PAGE_READ_IN_PROGRESS
    then set_page_status sh slotno SLRU_PAGE_EMPTY
    else set_page_dirty (set_page_status sh slotno SLRU_PAGE_VALID) slotno true
  else sh.

(** Some slot of the bank can become a victim. *)
Definition candidate_exists (ctl : SlruCtlData) (pageno : Z) (sh : SlruShared)
  : Prop :=
  exists j, in_bank ctl pageno j
            /\ (page_status sh j = SLRU_PAGE_EMPTY
                \/ u64 (page_number sh j) <> latest_page_number sh).


(** A page number is an [int64]. *)
Definition is_int64 (z : Z) : Prop := - TWO63 <= z < TWO63.

(** The pages in use are numbered by [int64] values and no page is in
    two slots of a bank. *)
Definition cache_wf (sh : SlruShared) : Prop :=
  (forall j, page_status sh j <> SLRU_PAGE_EMPTY -> is_int64 (page_number sh j))
  /\ no_duplicate_pages sh.


(** A slot that is VALID and in use for the latest page is still so, for
    the same page, and the latest-page mark has not moved. *)
Definition keeps_latest (sh sh' : SlruShared) : Prop :=
  latest_page_number sh' = latest_page_number sh
  /\ (forall k, page_status sh k = SLRU_PAGE_VALID ->
                u64 (page_number sh k) = latest_page_number sh ->
                page_status sh' k = SLRU_PAGE_VALID
                /\ page_number sh' k = page_number sh k).

(** Slot [k] is VALID, holds page [L], and [L] is the latest page. *)
Definition latest_in_slot (sh : SlruShared) (k L : Z) : Prop :=
  page_status sh k = SLRU_PAGE_VALID
  /\ page_number sh k = L
  /\ latest_page_number sh = u64 L.

(** Fuel that is enough for any call into the cache by a backend that
    is alone. *)
Definition SLRU_FUEL : nat := 4 * BANK_SLOTS + 4.

Definition op_page (op : SlruOp) : Z :=
  match op with OpZeroPage p => p | OpReadPage p _ _ => p end.


(** Every event the code has logged satisfies [P]. *)
Definition trace_ok {S A} (P : Event -> Prop) (r : Res S A) : Prop :=
  Forall P (res_trace r).

(** An unlink in the directory [dir] is of a segment that [ok] allows. *)
Definition unlink_allowed (dir : string) (ok : Z -> bool) (e : Event) : Prop :=
  forall segno, e = EvUnlink dir segno -> ok segno = true.

(** The first page of the segment that holds [pageno]. *)
Definition segment_first_page (pageno : Z) : Z :=
  Z.quot pageno SLRU_PAGES_PER_SEGMENT * SLRU_PAGES_PER_SEGMENT.

(** The truncation of a segment file is allowed by [cutoffPage]. *)
Definition may_delete_segno (ctl : SlruCtlData) (cutoffPage segno : Z) : bool :=
  SlruMayDeleteSegment ctl (segno * SLRU_PAGES_PER_SEGMENT) cutoffPage.

(** What the slot loop of a truncation may change when the backend is
    alone: the number of slots and the latest-page mark stay, and no
    slot is further from being reusable in [sh'] than in [sh]. *)
Definition trunc_step (sh sh' : SlruShared) : Prop :=
  num_slots sh' = num_slots sh
  /\ latest_page_number sh' = latest_page_number sh
  /\ forall j, (slot_rank sh' j <= slot_rank sh j)%nat.

(** Every segment file of [sh] is still there in [sh']. *)
Definition files_kept (sh sh' : SlruShared) : Prop :=
  forall segno, dir_lookup (files sh) segno <> None ->
                dir_lookup (files sh') segno <> None.


(** The event is not the removal of a file. *)
Definition not_unlink (e : Event) : Prop :=
  match e with EvUnlink _ _ => False | _ => True end.


(** The page comparisons of the three logs of this model (the [PagePrecedes]
    callbacks of pg_multixact/offsets, pg_multixact/members and
    pg_commit_ts). *)
Definition is_log_page_order (precedes : Z -> Z -> bool) : Prop :=
  (forall p q, precedes p q = MultiXactOffsetPagePrecedes p q)
  \/ (forall p q, precedes p q = MultiXactMemberPagePrecedes p q)
  \/ (forall p q, precedes p q = CommitTsPagePrecedes p q).

(** The segment number a delete callback of [SlruScanDirectory] unlinks
    for the directory entry [segno]: [segpage / SLRU_PAGES_PER_SEGMENT],
    of the page the scan has computed for the entry. *)
Definition unlinked_segment (segno : Z) : Z :=
  Z.quot (to_int64 (segno * SLRU_PAGES_PER_SEGMENT)) SLRU_PAGES_PER_SEGMENT.

(** The segment [segno] holds pages: its first page has an [int64]
    number.  These are the segments [SlruPhysicalWritePage] can create
    and [SlruPhysicalReadPage] can read. *)
Definition holds_pages (segno : Z) : Prop :=
  is_int64 (segno * SLRU_PAGES_PER_SEGMENT).

(** After a truncation at [cutoffPage], no page of a segment that lay
    wholly before the cutoff is on disk; [pageno] is an [int64], as the
    argument of [SimpleLruDoesPhysicalPageExist] is. *)
Definition truncated_pages_gone (ctl : SlruCtlData) (cutoffPage : Z)
    (sh : SlruShared) : Prop :=
  forall pageno,
    is_int64 pageno ->
    may_delete_segno ctl cutoffPage (Z.quot pageno SLRU_PAGES_PER_SEGMENT) = true ->
    SimpleLruDoesPhysicalPageExist ctl pageno sh = Done false sh [].

(** No page of the log is on disk. *)
Definition no_page_on_disk (ctl : SlruCtlData) (sh : SlruShared) : Prop :=
  forall pageno,
    is_int64 pageno ->
    SimpleLruDoesPhysicalPageExist ctl pageno sh = Done false sh [].

(** The segment files of [sh] that [cutoffPage] does not allow to delete
    are still there in [sh']. *)
Definition other_segments_kept (ctl : SlruCtlData) (cutoffPage : Z)
    (sh sh' : SlruShared) : Prop :=
  forall segno,
    may_delete_segno ctl cutoffPage segno = false ->
    dir_lookup (files sh) segno <> None ->
    dir_lookup (files sh') segno <> None.

(** Fuel that lets [SimpleLruTruncate] finish on the cache [sh]. *)
Definition TRUNCATE_FUEL (sh : SlruShared) : nat :=
  2 * Z.to_nat (num_slots sh) + 3.


(** Congruence modulo 2^64, the arithmetic of [uint64]. *)
Definition cong64 (a b : Z) : Prop := a mod TWO64 = b mod TWO64.


(** ** Concrete caches for the examples *)

(** The environment of a backend that runs alone in a recovering
    cluster, on a disk without faults. *)
Definition alone_world : SlruWorld :=
  mkSlruWorld true (fun _ => false) (fun _ => false) (fun sh => sh) (fun _ => false).

(** The offsets log with one bank of buffers. *)
Definition offsets_ctl : SlruCtlData :=
  mkSlruCtl MultiXactOffsetPagePrecedes 1 true "pg_multixact/offsets" alone_world.

Definition full_segment : SegFile :=
  mkSegFile (SLRU_PAGES_PER_SEGMENT * BLCKSZ) (fun _ => 0).

(** Sixteen buffers, the first holding page 3 with unwritten changes;
    the latest page is 100; segments 0 to 3 are on disk, the last one
    five pages long. *)
Definition offsets_cache : SlruShared :=
  mkSlruShared 16
    (fun _ => zero_page)
    (upd (fun _ => SLRU_PAGE_EMPTY) 0 SLRU_PAGE_VALID)
    (upd (fun _ => false) 0 true)
    (upd (fun _ => 0) 0 3)
    (fun _ => 0) (fun _ => 0) 100
    [(0, full_segment); (1, full_segment); (2, full_segment);
     (3, mkSegFile (5 * BLCKSZ) (fun _ => 0))].

(** The segment numbers of the files of a cache, in directory order. *)
Definition segments_on_disk (r : option SlruShared) : list Z :=
  match r with Some sh => map fst (files sh) | None => [] end.

(** The file removals among the events of a run. *)
Definition unlinks_of (tr : list Event) : list Event :=
  filter (fun e => match e with EvUnlink _ _ => true | _ => false end) tr.


(** A cache of sixteen empty buffers over an empty directory. *)
Definition empty_cache : SlruShared :=
  mkSlruShared 16 (fun _ => zero_page) (fun _ => SLRU_PAGE_EMPTY)
    (fun _ => false) (fun _ => 0) (fun _ => 0) (fun _ => 0) 0 [].

(** Reads of the [n] pages from [pageno] on. *)
Fixpoint read_pages (pageno : Z) (n : nat) : list SlruOp :=
  match n with
  | O => []
  | S n' => OpReadPage pageno true 0 :: read_pages (pageno + 1) n'
  end.

(** What slot [k] holds at the end of a run: its status, its page and
    the latest-page mark. *)
Definition slot_summary (r : option SlruShared) (k : Z)
  : option (SlruPageStatus * Z * Z) :=
  match r with
  | Some sh => Some (page_status sh k, page_number sh k, latest_page_number sh)
  | None => None
  end.


(** ** Predicates of the commit-timestamp statements *)

(** [s'] differs from [s] in the page cache and the directory of
    pg_commit_ts at most. *)
Definition commit_ts_frame (s s' : PgState) : Prop :=
  s' = set_CommitTsSlru (CommitTsSlru s') s.

(** [xid] is within [oldestCommitTsXid, newestCommitTsXid], the test of
    [TransactionIdGetCommitTsData]. *)
Definition commit_ts_in_range (s : PgState) (xid : Z) : bool :=
  TransactionIdIsValid (oldestCommitTsXid (TransamVariables s))
  && negb (TransactionIdPrecedes xid (oldestCommitTsXid (TransamVariables s)))
  && negb (TransactionIdPrecedes (newestCommitTsXid (TransamVariables s)) xid).

(** The values of a [RepOriginId], a [uint16]. *)
Definition is_RepOriginId (nodeid : Z) : Prop := 0 <= nodeid < 65536.

(** The state [DeactivateCommitTs] leaves in shared memory. *)
Definition commit_ts_reset (s : PgState) : Prop :=
  commitTsShared s
  = mkCommitTsShared InvalidTransactionId
      (mkCommitTsEntry DT_NOBEGIN InvalidRepOriginId) false
  /\ oldestCommitTsXid (TransamVariables s) = InvalidTransactionId
  /\ newestCommitTsXid (TransamVariables s) = InvalidTransactionId.


(** The entry of [xid] in the buffer [slotno] holds [ts] and [nodeid]. *)
Definition commit_ts_recorded (sh : SlruShared) (slotno xid ts nodeid : Z) : Prop :=
  load_commit_ts_entry (page_buffer sh slotno) (TransactionIdToCTsEntry xid)
  = mkCommitTsEntry ts nodeid.

(** Slot [slotno] of the bank of [pageno] is in use for that page and
    can be read. *)
Definition slot_readable (ctl : SlruCtlData) (sh : SlruShared) (pageno slotno : Z)
  : Prop :=
  in_bank ctl pageno slotno
  /\ page_number sh slotno = pageno
  /\ (page_status sh slotno = SLRU_PAGE_VALID
      \/ page_status sh slotno = SLRU_PAGE_WRITE_IN_PROGRESS).


(** ** A concrete backend and shared state for the examples *)

(** A backend that runs alone; the two log extensions of files that are
    not in the source tree do nothing. *)
Definition alone_backend : Backend :=
  mkBackend false false false true 0 8 0 1 1 1
    alone_world alone_world alone_world
    (fun _ => ret tt) (fun _ => ret tt) (fun s => s) (fun s => s).

(** Next xid 1000, commit timestamps active and kept for the xids 100 to
    900, next multixact 10 with next member offset 50, empty caches and
    directories. *)
Definition example_state : PgState :=
  mkPgState
    (mkTransamVariables 1000 2000 100 900)
    (mkCommitTsShared 0 (mkCommitTsEntry 0 0) true)
    (mkMultiXactState 10 50 true 1 1 1000 (fun _ => 0) (fun _ => 0))
    (mkPGPROC 0 (fun _ => 0) (mkXidCacheStatus 0 false) false)
    (mkPROC_HDR (fun _ => 0) (fun _ => mkXidCacheStatus 0 false))
    [] empty_cache empty_cache empty_cache.

(** The value a call returned, if it returned. *)
Definition res_value {S A} (r : Res S A) : option A :=
  match r with Done a _ _ => Some a | _ => None end.

(** The error a call raised, if it raised one. *)
Definition res_error {S A} (r : Res S A) : option PgMessage :=
  match r with Raise e _ _ => Some e | _ => None end.

(** Run [k] on the state [m] left, when [m] returned. *)
Definition and_then {S A B} (r : Res S A) (k : S -> Res S B) : Res S B :=
  match r with
  | Done _ s _ => k s
  | Raise e s t => Raise e s t
  | OutOfFuel => OutOfFuel
  end.


(** ** Predicates of the multixact statements *)

(** The events of reading or writing a page through a page cache: its
    bank and buffer locks, the physical I/O, and what it logs. *)
Definition cache_event (e : Event) : Prop :=
  match e with
  | EvAcquire (BankLock _ _) _ | EvAcquire (BufferLock _ _) _
  | EvRelease (BankLock _ _) | EvRelease (BufferLock _ _)
  | EvLog _ | EvPhysicalWrite _ _ | EvPhysicalRead _ _ | EvPageZeroed _ _ => True
  | _ => False
  end.

(** The event neither takes or gives back [MultiXactGenLock] nor reads
    the bounds of the multixact range. *)
Definition not_bounds_event (e : Event) : Prop :=
  match e with
  | EvAcquire MultiXactGenLock _ | EvRelease MultiXactGenLock
  | EvReadMultiBounds _ _ _ => False
  | _ => True
  end.

(** The state a call leaves, and the state [s] itself when the model
    ran out of fuel. *)
Definition state_after {S A} (m : M S A) (s : S) : S :=
  match m s with
  | Done _ s1 _ | Raise _ s1 _ => s1
  | OutOfFuel => s
  end.

(** The preconditions under which [GetMultiXactIdMembers] goes on to the
    bounds check: the multixact is valid, not flagged as from
    pg_upgrade, not in the cache of the backend, and the lock-only fast
    path does not apply. *)
Definition reaches_bounds_check (B : Backend) (multi : Z)
    (from_pgupgrade isLockOnly : bool) (s : PgState) : Prop :=
  MultiXactIdIsValid multi = true
  /\ from_pgupgrade = false
  /\ cache_find_by_id multi (MXactCache s) = None
  /\ isLockOnly
     && MultiXactIdPrecedes multi
          (OldestVisibleMXactId
             (MultiXactState (state_after (MultiXactIdSetOldestVisible B) s))
             (MyProcNumber B))
     = false.

(** The events of [tr] are [pre], then one shared acquisition of
    [MultiXactGenLock] under which the three counters are read, then
    [post]; no page is touched in [pre], and the lock and the counters
    are not touched again in [post]. *)
Definition bounds_read_once (s : PgState) (tr : list Event) : Prop :=
  exists pre post,
    tr = pre
         ++ [EvAcquire MultiXactGenLock LW_SHARED;
             EvReadMultiBounds (oldestMultiXactId (MultiXactState s))
               (nextMXact (MultiXactState s)) (nextOffset (MultiXactState s));
             EvRelease MultiXactGenLock]
         ++ post
    /\ Forall (fun e => ~ cache_event e) pre
    /\ Forall not_bounds_event post.


(** The outcome [r] with the events [tr] logged before it. *)
Definition after_events {S A} (tr : list Event) (r : Res S A) : Res S A :=
  match r with
  | Done a s t => Done a s (tr ++ t)
  | Raise e s t => Raise e s (tr ++ t)
  | OutOfFuel => OutOfFuel
  end.

(** The model did not run out of fuel. *)
Definition finished {S A} (r : Res S A) : Prop :=
  match r with OutOfFuel => False | _ => True end.


(** What [GetNewMultiXactId] guarantees of the member offset it hands
    out, [start] being [nextOffset] as it stood under the lock: the
    offset is never zero; from [start = 0] the offset is 1 and the
    counter advances by one more than [nmembers]; the space reserved
    begins at [start], where the previous multixact ended. *)
Definition offset_reserved (nmembers start offset : Z) (s' : PgState) : Prop :=
  offset <> 0
  /\ offset = (if start =? 0 then 1 else start)
  /\ nextOffset (MultiXactState s')
     = u64 (start + (if start =? 0 then wrap_int (nmembers + 1) else nmembers)).

(** The backend is alone: nothing interferes with the three logs, with
    shared memory while no lock is held, or during a sleep. *)
Definition alone (B : Backend) : Prop :=
  quiet (CommitTsCtl B) /\ quiet (MultiXactOffsetCtl B)
  /\ quiet (MultiXactMemberCtl B)
  /\ (forall s, while_unlocked B s = s)
  /\ (forall s, while_asleep B s = s).

(** The values of an [int]. *)
Definition is_int (z : Z) : Prop := - 2147483648 <= z < 2147483648.


(** The page caches of the two multixact logs are well formed. *)
Definition multixact_wf (s : PgState) : Prop :=
  cache_wf (MultiXactOffsetSlru s) /\ cache_wf (MultiXactMemberSlru s).


(** The multixact after [multi] whose offset ends the members of
    [multi]: [multi + 1], or the first multixact at the wrap-around. *)
Definition next_multi (multi : Z) : Z :=
  let tmpMXact := u64 (multi + 1) in
  if tmpMXact <? FirstMultiXactId then FirstMultiXactId else tmpMXact.

(** The multixact is within the bounds [GetMultiXactIdMembers] has read. *)
Definition within_bounds (multi : Z) (s : PgState) : Prop :=
  MultiXactIdPrecedes multi (oldestMultiXactId (MultiXactState s)) = false
  /\ MultiXactIdPrecedes multi (nextMXact (MultiXactState s)) = true.

(** The members are transactions with a valid id, and [n] is their
    number. *)
Definition members_valid (r : Z * list MultiXactMember) : Prop :=
  fst r = Z.of_nat (List.length (snd r))
  /\ Forall (fun m => member_xid m <> InvalidTransactionId) (snd r).


(** ** Concrete multixact logs for the examples *)

(** [RecordNewMultiXact]'s write of a start offset into an offsets page:
    [offptr += entryno; *offptr = offset]. *)
Definition store_offset (pg : Page) (multi offset : Z) : Page :=
  write_le 8 pg (MultiXactIdToOffsetEntry multi * sizeof_MultiXactOffset) offset.

(** [RecordNewMultiXact]'s write of one member into a members page: the
    xid at [memberoff], and its status into the flags word of the group. *)
Definition store_member (pg : Page) (offset xid status : Z) : Page :=
  let memberoff := MXOffsetToMemberOffset offset in
  let flagsoff := MXOffsetToFlagsOffset offset in
  let bshift := MXOffsetToFlagsBitShift offset in
  let pg := write_le 8 pg memberoff xid in
  let flagsval := read_le 8 pg flagsoff in
  let flagsval :=
    Z.land flagsval
      (Z.lxor (TWO64 - 1) (Z.shiftl (Z.shiftl 1 MXACT_MEMBER_BITS_PER_XACT - 1) bshift)) in
  let flagsval := Z.lor flagsval (Z.shiftl status bshift) in
  write_le 8 pg flagsoff flagsval.

(** One page of offsets: multixact 7 starts at member 20 and multixact 8
    at member 23; the entries of 5 and of 9 are still zero. *)
Definition example_offsets_page : Page :=
  store_offset (store_offset zero_page 7 20) 8 23.

(** One page of members: 700 and 702 for multixact 7, around a slot
    that was left zero, and 800, 801, 802 for multixact 8. *)
Definition example_members_page : Page :=
  store_member
    (store_member
       (store_member
          (store_member (store_member zero_page 20 700 1) 22 702 2)
          23 800 0)
       24 801 1)
    25 802 3.

Definition page_file (pg : Page) : SegFile := mkSegFile BLCKSZ pg.

(** Shared memory with these two pages on disk; the next multixact is
    10, the next member offset 26. *)
Definition example_multixact_state : PgState :=
  mkPgState
    (mkTransamVariables 1000 2000 100 900)
    (mkCommitTsShared 0 (mkCommitTsEntry 0 0) true)
    (mkMultiXactState 10 26 true 1 1 1000 (fun _ => 0) (fun _ => 0))
    (mkPGPROC 0 (fun _ => 0) (mkXidCacheStatus 0 false) false)
    (mkPROC_HDR (fun _ => 0) (fun _ => mkXidCacheStatus 0 false))
    []
    empty_cache
    (set_files empty_cache [(0, page_file example_offsets_page)])
    (set_files empty_cache [(0, page_file example_members_page)]).

(** While this backend sleeps, another one writes the start offset 26 of
    multixact 9 into the buffers of the offsets log. *)
Definition fill_offset_of_9 (s : PgState) : PgState :=
  set_MultiXactOffsetSlru
    (mkSlruShared
       (num_slots (MultiXactOffsetSlru s))
       (fun k => store_offset (page_buffer (MultiXactOffsetSlru s) k) 9 26)
       (page_status (MultiXactOffsetSlru s))
       (page_dirty (MultiXactOffsetSlru s))
       (page_number (MultiXactOffsetSlru s))
       (page_lru_count (MultiXactOffsetSlru s))
       (bank_cur_lru_count (MultiXactOffsetSlru s))
       (latest_page_number (MultiXactOffsetSlru s))
       (files (MultiXactOffsetSlru s)))
    s.

Definition backend_with_writer : Backend :=
  mkBackend false false false true 0 8 0 1 1 1
    alone_world alone_world alone_world
    (fun _ => ret tt) (fun _ => ret tt) (fun s => s) fill_offset_of_9.

(** Shared memory whose member-offset counter has wrapped to zero. *)
Definition wrapped_offset_state : PgState :=
  set_MultiXactState (set_nextOffset 0 (MultiXactState example_state)) example_state.

(** The number of sleeps on the condition variable among the events. *)
Definition sleeps_of (tr : list Event) : nat :=
  List.length (filter (fun e => match e with EvCVSleep => true | _ => false end) tr).


(** ** The order of the steps of a truncation of the multixact logs *)

(** How far [TruncateMultiXact] has got. *)
Inductive TruncPhase :=
| BeforeCrit     (* the critical section is not entered *)
| InCrit         (* in the critical section, the WAL record not yet written *)
| Logged         (* the WAL record is written, the bounds not yet moved *)
| BoundsSet      (* the bounds are moved; members segments may go *)
| OffsetsPhase   (* an offsets segment is gone; no members segment goes any more *)
| AfterCrit.     (* the critical section is left *)

Definition is_truncate_record (r : WalRecord) : bool :=
  match r with XLOG_MULTIXACT_TRUNCATE_ID _ _ _ _ _ => true | _ => false end.

(** The phase after the event [e], or [None] when [e] is out of order. *)
Definition trunc_phase_step (p : TruncPhase) (e : Event) : option TruncPhase :=
  match e with
  | EvStartCrit =>
      match p with BeforeCrit => Some InCrit | _ => None end
  | EvXLogInsert r =>
      if is_truncate_record r
      then match p with InCrit => Some Logged | _ => None end
      else Some p
  | EvSetOldestMulti _ _ =>
      match p with Logged => Some BoundsSet | _ => None end
  | EvUnlink dir _ =>
      if String.eqb dir "pg_multixact/members"
      then match p with BoundsSet => Some BoundsSet | _ => None end
      else if String.eqb dir "pg_multixact/offsets"
      then match p with
           | BoundsSet | OffsetsPhase => Some OffsetsPhase
           | _ => None
           end
      else None
  | EvEndCrit =>
      match p with
      | BoundsSet | OffsetsPhase => Some AfterCrit
      | _ => None
      end
  | _ => Some p
  end.

Fixpoint trunc_phase_run (p : TruncPhase) (tr : list Event) : option TruncPhase :=
  match tr with
  | [] => Some p
  | e :: rest =>
      match trunc_phase_step p e with
      | Some q => trunc_phase_run q rest
      | None => None
      end
  end.

(** From a phase in [Pre] the events of the outcome are in order, and
    lead to a phase in [Post] when the code returns. *)
Definition phase_spec {S A} (Pre Post : TruncPhase -> Prop) (r : Res S A) : Prop :=
  forall p, Pre p ->
    exists q, trunc_phase_run p (res_trace r) = Some q
              /\ (res_value r <> None -> Post q).

(** The event sets the oldest multixact bounds. *)
Definition is_set_oldest (e : Event) : bool :=
  match e with EvSetOldestMulti _ _ => true | _ => false end.


(** An event of a page cache, or the removal of a segment file of the
    directory [dir]. *)
Definition cache_or_unlink (dir : string) (e : Event) : Prop :=
  cache_event e \/ exists segno, e = EvUnlink dir segno.


(* ------------------------------------------------------------------ *)
(** ** slru.c: sizing, the unit test of page order, segment file names *)
(* ------------------------------------------------------------------ *)

(** Wrap-around of [unsigned int] arithmetic. *)
Definition u32 (z : Z) : Z := z mod 4294967296.

(** [check_slru_buffers]: a valid value is a multiple of
    [SLRU_BANK_SIZE] ([%] of C, so [Z.rem]). *)
Definition check_slru_buffers (newval : Z) : bool :=
  Z.rem newval SLRU_BANK_SIZE =? 0.

(** [SimpleLruAutotuneBuffers], with the setting [NBuffers] it reads;
    [/] and [%] are those of C on [int]. *)
Definition SimpleLruAutotuneBuffers (NBuffers divisor max : Z) : Z :=
  Z.min (max - Z.rem max SLRU_BANK_SIZE)
        (Z.max SLRU_BANK_SIZE
               (Z.quot NBuffers divisor
                - Z.rem (Z.quot NBuffers divisor) SLRU_BANK_SIZE)).

(** [SlruPagePrecedesTestOffset]: the conjunction of its assertions, in
    their order.  [lhs], [rhs], [newestXact] and [oldestXact] are
    unsigned 64-bit, the divisions by [per_page] are unsigned, and a
    quotient becomes an [int64] page number when it is passed on. *)
Definition SlruPagePrecedesTestOffset (ctl : SlruCtlData) (per_page offset : Z)
  : bool :=
  let page (x : Z) := to_int64 (x / per_page) in
  let lhs := u32 (per_page + offset) in
  let rhs := u64 (lhs + TWO63) in
  let xid_order :=
    [ TransactionIdPrecedes lhs rhs;
      TransactionIdPrecedes rhs lhs;
      negb (TransactionIdPrecedes (u64 (lhs - 1)) rhs);
      TransactionIdPrecedes rhs (u64 (lhs - 1));
      TransactionIdPrecedes (u64 (lhs + 1)) rhs;
      negb (TransactionIdPrecedes rhs (u64 (lhs + 1)));
      negb (TransactionIdFollowsOrEquals lhs rhs);
      negb (TransactionIdFollowsOrEquals rhs lhs) ] in
  let page_order :=
    [ negb (PagePrecedes ctl (page lhs) (page lhs));
      negb (PagePrecedes ctl (page lhs) (page rhs));
      negb (PagePrecedes ctl (page rhs) (page lhs));
      negb (PagePrecedes ctl (page (u64 (lhs - per_page))) (page rhs));
      PagePrecedes ctl (page rhs) (page (u64 (lhs - wrap_int (3 * per_page))));
      PagePrecedes ctl (page rhs) (page (u64 (lhs - wrap_int (2 * per_page))));
      PagePrecedes ctl (page rhs) (page (u64 (lhs - wrap_int (1 * per_page))))
      || negb (TWO63 mod per_page =? 0);
      PagePrecedes ctl (page (u64 (lhs + wrap_int (1 * per_page)))) (page rhs)
      || negb (TWO63 mod per_page =? 0);
      PagePrecedes ctl (page (u64 (lhs + wrap_int (2 * per_page)))) (page rhs);
      PagePrecedes ctl (page (u64 (lhs + wrap_int (3 * per_page)))) (page rhs);
      negb (PagePrecedes ctl (page rhs) (page (u64 (lhs + per_page)))) ] in
  let keeps_segment_of (newestPage : Z) :=
    let newestXact := u64 (to_int64 (newestPage * per_page) + offset) in
    let oldestXact := u64 (u64 (newestXact + 1) - TWO63) in
    let oldestPage := page oldestXact in
    [ newestXact / per_page =? u64 newestPage;
      negb (SlruMayDeleteSegment ctl
              (newestPage - Z.rem newestPage SLRU_PAGES_PER_SEGMENT)
              oldestPage) ] in
  forallb (fun b => b)
    (xid_order ++ page_order
     ++ keeps_segment_of (2 * SLRU_PAGES_PER_SEGMENT - 1)
     ++ keeps_segment_of SLRU_PAGES_PER_SEGMENT).

(** [SlruPagePrecedesUnitTests]: the first, middle and last entries of a
    page ([per_page / 2] is a division of [int]). *)
Definition SlruPagePrecedesUnitTests (ctl : SlruCtlData) (per_page : Z) : bool :=
  SlruPagePrecedesTestOffset ctl per_page 0
  && SlruPagePrecedesTestOffset ctl per_page (Z.quot per_page 2)
  && SlruPagePrecedesTestOffset ctl per_page (per_page - 1).

(** The offsets [0 .. n-1]. *)
Definition offsets_below (n : Z) : list Z :=
  map Z.of_nat (seq 0 (Z.to_nat n)).


(** [CommitTsShmemBuffers], with the settings it reads.  Modelled from
    the spec: [SLRU_MAX_ALLOWED_BUFFERS] (slru.h is not in the source
    tree) is left as a parameter. *)
Definition CommitTsShmemBuffers (NBuffers commit_timestamp_buffers
    SLRU_MAX_ALLOWED_BUFFERS : Z) : Z :=
  if commit_timestamp_buffers =? 0
  then SimpleLruAutotuneBuffers NBuffers 512 1024
  else Z.min (Z.max 16 commit_timestamp_buffers) SLRU_MAX_ALLOWED_BUFFERS.

(** The digits of [snprintf]'s [X] conversion. *)
Definition hex_digits : list ascii :=
  list_ascii_of_string "0123456789ABCDEF".

Definition hex_digit (d : Z) : ascii := nth (Z.to_nat d) hex_digits "0"%char.

(** The digits of [v], most significant first, in front of [acc]; at
    least one digit, at most [fuel]. *)
Fixpoint hex_of (fuel : nat) (v : Z) (acc : list ascii) : list ascii :=
  match fuel with
  | O => acc
  | S fuel' =>
      let acc' := hex_digit (v mod 16) :: acc in
      if v / 16 =? 0 then acc' else hex_of fuel' (v / 16) acc'
  end.

(** The conversion [%0<width>X] of an unsigned value below [2^64]. *)
Definition format_hex (width : nat) (v : Z) : list ascii :=
  let digits := hex_of 16 v [] in
  repeat "0"%char (width - List.length digits) ++ digits.

(** The file-name part of [SlruFileName]: [%015llX] of the [int64]
    segment number, or [%04X] of [(unsigned int) segno]. *)
Definition SlruSegmentName (ctl : SlruCtlData) (segno : Z) : list ascii :=
  if long_segment_names ctl then format_hex 15 (u64 segno)
  else format_hex 4 (u32 segno).

(** [SlruFileName]: the path written to [path]. *)
Definition SlruFileName (ctl : SlruCtlData) (segno : Z) : string :=
  (Dir ctl ++ "/" ++ string_of_list_ascii (SlruSegmentName ctl segno))%string.

Definition SlruCorrectSegmentFilenameLength (ctl : SlruCtlData) (len : nat)
  : bool :=
  if long_segment_names ctl then (len =? 15)%nat
  else (len =? 4)%nat || (len =? 5)%nat || (len =? 6)%nat.

(** Position of a character in ["0123456789ABCDEF"]. *)
Fixpoint hex_index (c : ascii) (digits : list ascii) (i : Z) : option Z :=
  match digits with
  | [] => None
  | d :: rest => if Ascii.eqb c d then Some i else hex_index c rest (i + 1)
  end.

Definition hex_value (c : ascii) : option Z := hex_index c hex_digits 0.

(** [strspn(name, "0123456789ABCDEF")]. *)
Fixpoint strspn_hex (name : list ascii) : nat :=
  match name with
  | [] => O
  | c :: rest =>
      match hex_value c with
      | Some _ => S (strspn_hex rest)
      | None => O
      end
  end.

(** [strtoi64(name, NULL, 16)] on a name of upper-case hexadecimal
    digits, which is what [SlruScanDirectory] passes: the digits are
    accumulated, and a value out of range is clamped to the largest
    [int64]. *)
Fixpoint hex_accumulate (name : list ascii) (acc : Z) : Z :=
  match name with
  | [] => acc
  | c :: rest =>
      match hex_value c with
      | Some d => hex_accumulate rest (acc * 16 + d)
      | None => acc
      end
  end.

Definition strtoi64_hex (name : list ascii) : Z :=
  Z.min (hex_accumulate name 0) (TWO63 - 1).

(** The test [SlruScanDirectory] applies to a directory entry, and the
    segment number it computes for an entry that passes. *)
Definition scanned_segment (ctl : SlruCtlData) (d_name : list ascii)
  : option Z :=
  let len := List.length d_name in
  if SlruCorrectSegmentFilenameLength ctl len
     && (strspn_hex d_name =? len)%nat
  then Some (strtoi64_hex d_name)
  else None.

(** The range of segment numbers [SlruFileName] asserts. *)
Definition segno_in_range (ctl : SlruCtlData) (segno : Z) : Prop :=
  0 <= segno <= (if long_segment_names ctl then 1152921504606846975 else 16777215).


(* ------------------------------------------------------------------ *)
(** ** multixact.c: the creation of a multixact *)
(* ------------------------------------------------------------------ *)

Definition member_eqb (m1 m2 : MultiXactMember) : bool :=
  (member_xid m1 =? member_xid m2) && (member_status m1 =? member_status m2).

(** [memcmp] of two arrays of members whose unused bits are zero. *)
Fixpoint members_eqb (l1 l2 : list MultiXactMember) : bool :=
  match l1, l2 with
  | [], [] => true
  | m1 :: r1, m2 :: r2 => member_eqb m1 m2 && members_eqb r1 r2
  | _, _ => false
  end.

(** The loop of [mXactCacheGetBySet] over the cache: the first entry
    with [nmembers] members that are bytewise those of [members]. *)
Fixpoint cache_find_by_set (nmembers : Z) (members : list MultiXactMember)
    (cache : list mXactCacheEnt)
  : option (mXactCacheEnt * list mXactCacheEnt) :=
  match cache with
  | [] => None
  | e :: rest =>
      if (ent_nmembers e =? nmembers)
         && members_eqb (firstn (Z.to_nat nmembers) members)
                        (firstn (Z.to_nat nmembers) (ent_members e))
      then Some (e, rest)
      else match cache_find_by_set nmembers members rest with
           | Some (hit, others) => Some (hit, e :: others)
           | None => None
           end
  end.

(** [mXactCacheGetBySet] on the array it has sorted: the caller's
    array is [member_sort members] from here on. *)
Definition mXactCacheGetBySet (nmembers : Z) (members : list MultiXactMember)
  : M PgState Z :=
  let members := member_sort members in
  s <- get;;
  match cache_find_by_set nmembers members (MXactCache s) with
  | Some (entry, others) =>
      (* dclist_move_head *)
      put (set_MXactCache (entry :: others) s);;;
      ret (ent_multi entry)
  | None => ret InvalidMultiXactId
  end.

(** The check of [MultiXactIdCreateFromMembers] that at most one member
    updates: [true] when its [elog(ERROR)] is reached.  multixact.h is
    not in the source tree, so the macro [ISUPDATE_from_mxstatus] is a
    parameter. *)
Fixpoint more_than_one_update (ISUPDATE_from_mxstatus : Z -> bool)
    (members : list MultiXactMember) (has_update : bool) : bool :=
  match members with
  | [] => false
  | m :: rest =>
      if ISUPDATE_from_mxstatus (member_status m) then
        if has_update then true
        else more_than_one_update ISUPDATE_from_mxstatus rest true
      else more_than_one_update ISUPDATE_from_mxstatus rest has_update
  end.

Definition LWLockId_eqb (l1 l2 : LWLockId) : bool :=
  match l1, l2 with
  | XidGenLock, XidGenLock
  | MultiXactGenLock, MultiXactGenLock
  | MultiXactTruncationLock, MultiXactTruncationLock
  | CommitTsLock, CommitTsLock => true
  | BankLock d1 b1, BankLock d2 b2 => String.eqb d1 d2 && (b1 =? b2)
  | BufferLock d1 n1, BufferLock d2 n2 => String.eqb d1 d2 && (n1 =? n2)
  | _, _ => false
  end.

(** The member loop of [RecordNewMultiXact]: the members still to
    store, the first of them at [offset]; the result is [prevlock]. *)
Fixpoint record_members (fuel : nat) (B : Backend) (multi : Z)
    (members : list MultiXactMember) (offset prev_pageno slotno : Z)
    (prevlock : option LWLockId) : M SlruShared (option LWLockId) :=
  match members with
  | [] => ret prevlock
  | m :: rest =>
      let ctl := MultiXactMemberCtl B in
      let pageno := MXOffsetToMemberPage offset in
      r <-
        (if negb (pageno =? prev_pageno) then
           let lock := SimpleLruGetBankLock ctl pageno in
           prevlock <-
             (if match prevlock with
                 | Some l => negb (LWLockId_eqb lock l)
                 | None => true
                 end
              then
                match prevlock with
                | Some l => LWLockRelease l
                | None => ret tt
                end;;;
                LWLockAcquire lock LW_EXCLUSIVE;;;
                ret (Some lock)
              else ret prevlock);;
           slotno <- SimpleLruReadPage fuel ctl pageno true multi;;
           ret (slotno, prevlock)
         else ret (slotno, prevlock));;
      let '(slotno, prevlock) := r in
      modify (fun sh =>
        set_page_buffer sh slotno
          (store_member (page_buffer sh slotno) offset
             (member_xid m) (member_status m)));;;
      modify (fun sh => set_page_dirty sh slotno true);;;
      record_members fuel B multi rest (u64 (offset + 1)) pageno slotno prevlock
  end.

(** [RecordNewMultiXact]. *)
Definition RecordNewMultiXact (fuel : nat) (B : Backend)
    (multi offset nmembers : Z) (members : list MultiXactMember)
  : M PgState unit :=
  let pageno := MultiXactIdToOffsetPage multi in
  slotno <- on_MultiXactOffset (
    let ctl := MultiXactOffsetCtl B in
    let lock := SimpleLruGetBankLock ctl pageno in
    LWLockAcquire lock LW_EXCLUSIVE;;;
    slotno <- SimpleLruReadPage fuel ctl pageno true multi;;
    modify (fun sh =>
      set_page_buffer sh slotno
        (store_offset (page_buffer sh slotno) multi offset));;;
    modify (fun sh => set_page_dirty sh slotno true);;;
    LWLockRelease lock;;;
    ret slotno);;
  emit EvCVBroadcast;;;
  on_MultiXactMember (
    prevlock <- record_members fuel B multi
                  (firstn (Z.to_nat nmembers) members) offset (-1) slotno None;;
    match prevlock with
    | Some l => LWLockRelease l
    | None => ret tt
    end).

(** [MultiXactIdCreateFromMembers]; [mXactCacheGetBySet] has sorted the
    caller's array in place, and what follows works on the sorted
    array. *)
Definition MultiXactIdCreateFromMembers (fuel : nat) (B : Backend)
    (ISUPDATE_from_mxstatus : Z -> bool)
    (nmembers : Z) (members : list MultiXactMember) : M PgState Z :=
  multi <- mXactCacheGetBySet nmembers members;;
  let members := member_sort members in
  if MultiXactIdIsValid multi then ret multi
  else if more_than_one_update ISUPDATE_from_mxstatus
            (firstn (Z.to_nat nmembers) members) false
  then ereport_ERROR msg_more_than_one_updating_member
  else
    r <- GetNewMultiXactId fuel B nmembers;;
    let '(multi, offset) := r in
    XLogInsert (XLOG_MULTIXACT_CREATE_ID multi offset nmembers);;;
    RecordNewMultiXact fuel B multi offset nmembers members;;;
    END_CRIT_SECTION;;;
    mXactCachePut multi nmembers members;;;
    ret multi.

(** The members of a list that update, by [ISUPDATE_from_mxstatus]. *)
Definition updating_members (ISUPDATE_from_mxstatus : Z -> bool)
    (members : list MultiXactMember) : list MultiXactMember :=
  filter (fun m => ISUPDATE_from_mxstatus (member_status m)) members.

(** The decoding of one member in [GetMultiXactIdMembers]: the xid at
    [memberoff] and the status bits of the flags word. *)
Definition load_member (pg : Page) (offset : Z) : MultiXactMember :=
  let xact := read_le 8 pg (MXOffsetToMemberOffset offset) in
  let flags := read_le 8 pg (MXOffsetToFlagsOffset offset) in
  mkMember xact
    (Z.land (Z.shiftr flags (MXOffsetToFlagsBitShift offset))
       MXACT_MEMBER_XACT_BITMASK).

(** A page of bytes. *)
Definition page_of_bytes (pg : Page) : Prop := forall i, 0 <= pg i < 256.


(** Every entry of the cache holds as many members as it says. *)
Definition cache_entries_wf (cache : list mXactCacheEnt) : Prop :=
  Forall (fun e => ent_nmembers e = Z.of_nat (List.length (ent_members e))) cache.

(** The cache of multixacts is local to the backend: what the other
    backends do while no lock is held leaves it alone. *)
Definition cache_is_private (B : Backend) : Prop :=
  forall s, MXactCache (while_unlocked B s) = MXactCache s.


(* ------------------------------------------------------------------ *)
(** ** commit_ts.c: the latest commit, the limits, truncation, redo *)
(* ------------------------------------------------------------------ *)

(** [GetLatestCommitTsData]; the result is the return value with [*ts]
    and [*nodeid]. *)
Definition GetLatestCommitTsData : M PgState (Z * Z * Z) :=
  LWLockAcquire CommitTsLock LW_SHARED;;;
  s <- get;;
  if negb (commitTsActive (commitTsShared s)) then error_commit_ts_disabled
  else
    let xid := xidLastCommit (commitTsShared s) in
    let ts := entry_time (dataLastCommit (commitTsShared s)) in
    let nodeid := entry_nodeid (dataLastCommit (commitTsShared s)) in
    LWLockRelease CommitTsLock;;;
    ret (xid, ts, nodeid).

Definition WriteTruncateXlogRec (pageno oldestXid : Z) : M PgState unit :=
  XLogInsert (COMMIT_TS_TRUNCATE pageno oldestXid).

Definition TruncateCommitTs (fuel : nat) (B : Backend) (oldestXact : Z)
  : M PgState unit :=
  let cutoffPage := TransactionIdToCTsPage oldestXact in
  found <- on_CommitTs
             (SlruScanDirectory (CommitTsCtl B)
                (SlruScanDirCbReportPresence (CommitTsCtl B) cutoffPage));;
  if negb found then ret tt
  else
    WriteTruncateXlogRec cutoffPage oldestXact;;;
    on_CommitTs (SimpleLruTruncate fuel (CommitTsCtl B) cutoffPage).

Definition SetCommitTsLimit (oldestXact newestXact : Z) : M PgState unit :=
  LWLockAcquire CommitTsLock LW_EXCLUSIVE;;;
  s <- get;;
  (if negb (oldestCommitTsXid (TransamVariables s) =? InvalidTransactionId) then
     when (TransactionIdPrecedes (oldestCommitTsXid (TransamVariables s)) oldestXact)
       (modify (fun s => set_TransamVariables
                  (set_oldestCommitTsXid oldestXact (TransamVariables s)) s));;;
     s <- get;;
     when (TransactionIdPrecedes newestXact (newestCommitTsXid (TransamVariables s)))
       (modify (fun s => set_TransamVariables
                  (set_newestCommitTsXid newestXact (TransamVariables s)) s))
   else
     modify (fun s => set_TransamVariables
               (set_newestCommitTsXid newestXact
                  (set_oldestCommitTsXid oldestXact (TransamVariables s))) s));;;
  LWLockRelease CommitTsLock.

Definition AdvanceOldestCommitTsXid (oldestXact : Z) : M PgState unit :=
  LWLockAcquire CommitTsLock LW_EXCLUSIVE;;;
  s <- get;;
  when (negb (oldestCommitTsXid (TransamVariables s) =? InvalidTransactionId)
        && TransactionIdPrecedes (oldestCommitTsXid (TransamVariables s)) oldestXact)
    (modify (fun s => set_TransamVariables
               (set_oldestCommitTsXid oldestXact (TransamVariables s)) s));;;
  LWLockRelease CommitTsLock.

(** [commit_ts_redo] on the record it is given; [elog(PANIC)] ends the
    run like an error. *)
Definition commit_ts_redo (fuel : nat) (B : Backend) (record : WalRecord)
  : M PgState unit :=
  match record with
  | COMMIT_TS_ZEROPAGE pageno =>
      on_CommitTs (SimpleLruZeroAndWritePage fuel (CommitTsCtl B) pageno)
  | COMMIT_TS_TRUNCATE pageno oldestXid =>
      AdvanceOldestCommitTsXid oldestXid;;;
      on_CommitTs (modify (fun sh => set_latest_page_number sh (u64 pageno)));;;
      on_CommitTs (SimpleLruTruncate fuel (CommitTsCtl B) pageno)
  | _ => ereport_ERROR msg_unknown_op_code
  end.

(* ------------------------------------------------------------------ *)
(** ** multixact.c: the oldest multixact still of interest *)
(* ------------------------------------------------------------------ *)

Definition set_OldestMemberMXactId (n v : Z) (m : MultiXactStateData) :=
  mkMultiXactState (nextMXact m) (nextOffset m) (finishedStartup m)
    (oldestMultiXactId m) (oldestMultiXactDB m) (multiVacLimit m)
    (upd (OldestMemberMXactId m) n v) (OldestVisibleMXactId m).

Definition SetOldestMemberMXactId (n value : Z) : M PgState unit :=
  modify (fun s => set_MultiXactState
            (set_OldestMemberMXactId n value (MultiXactState s)) s).

Definition MultiXactIdSetOldestMember (B : Backend) : M PgState unit :=
  mine <- GetOldestMemberMXactId (MyProcNumber B);;
  if negb (MultiXactIdIsValid mine) then
    LWLockAcquire MultiXactGenLock LW_SHARED;;;
    s <- get;;
    let nextMXact_ := nextMXact (MultiXactState s) in
    let nextMXact_ :=
      if nextMXact_ <? FirstMultiXactId then FirstMultiXactId else nextMXact_ in
    SetOldestMemberMXactId (MyProcNumber B) nextMXact_;;;
    LWLockRelease MultiXactGenLock
  else ret tt.

(** The loop over the per-backend slots in [GetOldestMultiXactId]. *)
Fixpoint oldest_multi_scan (m : MultiXactStateData) (n : nat) (i : Z)
    (oldestMXact : Z) : Z :=
  match n with
  | O => oldestMXact
  | S n' =>
      let thisoldest := OldestMemberMXactId m i in
      let oldestMXact :=
        if MultiXactIdIsValid thisoldest && MultiXactIdPrecedes thisoldest oldestMXact
        then thisoldest else oldestMXact in
      let thisoldest := OldestVisibleMXactId m i in
      let oldestMXact :=
        if MultiXactIdIsValid thisoldest && MultiXactIdPrecedes thisoldest oldestMXact
        then thisoldest else oldestMXact in
      oldest_multi_scan m n' (i + 1) oldestMXact
  end.

Definition GetOldestMultiXactId (B : Backend) : M PgState Z :=
  LWLockAcquire MultiXactGenLock LW_SHARED;;;
  s <- get;;
  let nextMXact_ := nextMXact (MultiXactState s) in
  let nextMXact_ :=
    if nextMXact_ <? FirstMultiXactId then FirstMultiXactId else nextMXact_ in
  let oldestMXact :=
    oldest_multi_scan (MultiXactState s) (Z.to_nat (MaxOldestSlot B)) 0 nextMXact_ in
  LWLockRelease MultiXactGenLock;;;
  ret oldestMXact.

(** [MultiXactAdvanceNextMXact]. *)
Definition MultiXactAdvanceNextMXact (minMulti minMultiOffset : Z)
  : M PgState unit :=
  LWLockAcquire MultiXactGenLock LW_EXCLUSIVE;;;
  s <- get;;
  when (MultiXactIdPrecedes (nextMXact (MultiXactState s)) minMulti)
    (modify (fun s => set_MultiXactState
               (set_nextMXact minMulti (MultiXactState s)) s));;;
  s <- get;;
  when (MultiXactOffsetPrecedes (nextOffset (MultiXactState s)) minMultiOffset)
    (modify (fun s => set_MultiXactState
               (set_nextOffset minMultiOffset (MultiXactState s)) s));;;
  LWLockRelease MultiXactGenLock.

(** The multixact [m] is at or before [next] and less than half the
    ring away from it: on such values the circular order is a linear
    one. *)
Definition within_window (next m : Z) : Prop :=
  - TWO63 < to_int64 (m - next) <= 0.

(** Every valid entry of the two per-backend arrays is within the
    window that ends at the next multixact. *)
Definition oldest_slots_in_window (B : Backend) (m : MultiXactStateData) : Prop :=
  forall i, 0 <= i < MaxOldestSlot B ->
    (MultiXactIdIsValid (OldestMemberMXactId m i) = true ->
     within_window (clamp_to_first (nextMXact m)) (OldestMemberMXactId m i))
    /\ (MultiXactIdIsValid (OldestVisibleMXactId m i) = true ->
        within_window (clamp_to_first (nextMXact m)) (OldestVisibleMXactId m i)).


(** The result of a scan is valid, not after the next multixact, and
    no valid entry of the per-backend arrays precedes it. *)
Definition oldest_of_slots (B : Backend) (m : MultiXactStateData) (oldest : Z)
  : Prop :=
  MultiXactIdIsValid oldest = true
  /\ MultiXactIdPrecedesOrEquals oldest (clamp_to_first (nextMXact m)) = true
  /\ forall i, 0 <= i < MaxOldestSlot B ->
       (MultiXactIdIsValid (OldestMemberMXactId m i) = true ->
        MultiXactIdPrecedes (OldestMemberMXactId m i) oldest = false)
       /\ (MultiXactIdIsValid (OldestVisibleMXactId m i) = true ->
           MultiXactIdPrecedes (OldestVisibleMXactId m i) oldest = false).

(** The state of the examples after two backends have published their
    oldest multixacts, the next multixact being 10: backend 2 has 7 as
    its oldest member multixact, backend 5 has 4 as its oldest visible
    one; the other entries are invalid. *)
Definition published_oldest_state : PgState :=
  set_MultiXactState
    (mkMultiXactState 10 50 true 1 1 1000
       (upd (fun _ => 0) 2 7) (upd (fun _ => 0) 5 4))
    example_state.

(** The invariant of the scans: the running minimum is valid, within
    the window, and not after any valid entry already passed. *)
Definition scan_bound (B : Backend) (m : MultiXactStateData) (next : Z)
    (upto : Z) (cur : Z) : Prop :=
  MultiXactIdIsValid cur = true
  /\ within_window next cur
  /\ MultiXactIdPrecedesOrEquals cur next = true
  /\ forall i, 0 <= i < upto ->
       (MultiXactIdIsValid (OldestMemberMXactId m i) = true ->
        MultiXactIdPrecedes (OldestMemberMXactId m i) cur = false)
       /\ (MultiXactIdIsValid (OldestVisibleMXactId m i) = true ->
           MultiXactIdPrecedes (OldestVisibleMXactId m i) cur = false).

(** The event is not the message of [SimpleLruTruncate] that it gave
    up on an apparent wraparound. *)
Definition not_wraparound_log (e : Event) : Prop :=
  match e with
  | EvLog (msg_apparent_wraparound_truncate _) => False
  | _ => True
  end.

(** Every removal of a file among the events comes after the WAL record
    [record]. *)
Definition logged_before_unlinks (record : WalRecord) (tr : list Event) : Prop :=
  forall pre dir segno post,
    tr = pre ++ EvUnlink dir segno :: post -> In (EvXLogInsert record) pre.

(** The segment numbers of the files of a directory. *)
Definition segments_of (sh : SlruShared) : list Z := map fst (files sh).


(** What [TruncateMultiXact] may leave in [MultiXactState], [old] being
    what it found: nothing is changed, or the oldest multixact and its
    database are the arguments and the oldest multixact has moved
    forward. *)
Definition truncate_bounds_post (old : MultiXactStateData)
    (newOldestMulti newOldestMultiDB : Z) (s' : PgState) : Prop :=
  MultiXactState s' = old
  \/ (MultiXactState s' = set_oldestMultiXact newOldestMulti newOldestMultiDB old
      /\ MultiXactIdPrecedes (oldestMultiXactId old) newOldestMulti = true).

(** Three full segments of offsets, the latest page being 97, next
    multixact 100000. *)
Definition three_segments_state : PgState :=
  mkPgState
    (mkTransamVariables 1000 2000 100 900)
    (mkCommitTsShared 0 (mkCommitTsEntry 0 0) true)
    (mkMultiXactState 100000 26 true 1 1 1000 (fun _ => 0) (fun _ => 0))
    (mkPGPROC 0 (fun _ => 0) (mkXidCacheStatus 0 false) false)
    (mkPROC_HDR (fun _ => 0) (fun _ => mkXidCacheStatus 0 false))
    []
    empty_cache
    (set_latest_page_number
       (set_files empty_cache
          [(0, full_segment); (1, full_segment); (2, full_segment)]) 97)
    (set_files empty_cache [(0, page_file example_members_page)]).

(** Two members, the second one updating. *)
Definition example_members : list MultiXactMember :=
  [mkMember 801 4; mkMember 800 1].

(** Modelled from the spec: [ISUPDATE_from_mxstatus] of multixact.h, the
    statuses above [MultiXactStatusForUpdate]; used in examples only. *)
Definition example_isupdate (status : Z) : bool := 3 <? status.



(* ------------------------------------------------------------------ *)
(** ** The content of the pages of a log, buffered or on disk *)
(* ------------------------------------------------------------------ *)

(** Two buffers hold the same page. *)
Definition same_page (pg pg' : Page) : Prop :=
  forall o, 0 <= o < BLCKSZ -> pg o = pg' o.

(** The segment file of [pageno] is long enough to hold the page, and
    holds [pg] at its place. *)
Definition on_disk (sh : SlruShared) (pageno : Z) (pg : Page) : Prop :=
  exists f,
    dir_lookup (files sh) (Z.quot pageno SLRU_PAGES_PER_SEGMENT) = Some f
    /\ Z.rem pageno SLRU_PAGES_PER_SEGMENT * BLCKSZ + BLCKSZ <= f_size f
    /\ forall o, 0 <= o < BLCKSZ ->
         f_data f (Z.rem pageno SLRU_PAGES_PER_SEGMENT * BLCKSZ + o) = pg o.

(** No I/O is in progress on any slot. *)
Definition settled (sh : SlruShared) : Prop :=
  forall k, page_status sh k = SLRU_PAGE_EMPTY
            \/ page_status sh k = SLRU_PAGE_VALID.

(** A page in use has a non-negative number and is in a slot of its
    bank. *)
Definition pages_in_bank (ctl : SlruCtlData) (sh : SlruShared) : Prop :=
  forall k, page_status sh k <> SLRU_PAGE_EMPTY ->
            0 <= page_number sh k /\ in_bank ctl (page_number sh k) k.

(** A page that is buffered without unwritten changes is on disk as it
    is buffered. *)
Definition clean_pages_on_disk (sh : SlruShared) : Prop :=
  forall k, page_status sh k = SLRU_PAGE_VALID -> page_dirty sh k = false ->
            on_disk sh (page_number sh k) (page_buffer sh k).

(** The cache and the files agree. *)
Definition coherent (ctl : SlruCtlData) (sh : SlruShared) : Prop :=
  cache_wf sh /\ settled sh /\ pages_in_bank ctl sh /\ clean_pages_on_disk sh.

(** The content of page [pageno]: what the slot in use for it holds,
    or what is on disk when no slot is in use for it. *)
Definition page_content (sh : SlruShared) (pageno : Z) (pg : Page) : Prop :=
  (exists k, slot_holds sh k pageno /\ same_page (page_buffer sh k) pg)
  \/ ((forall k, ~ slot_holds sh k pageno) /\ on_disk sh pageno pg).

(** The cache is coherent and still has the content [C] for every page
    [C] speaks of. *)
Definition keeps_content (ctl : SlruCtlData) (C : Z -> Page -> Prop)
    (sh : SlruShared) : Prop :=
  coherent ctl sh
  /\ forall q pg, 0 <= q -> C q pg -> page_content sh q pg.

(** No read or write of a page fails, and the server is not in
    recovery. *)
Definition io_works (ctl : SlruCtlData) : Prop :=
  (forall p, write_fails (world ctl) p = false)
  /\ (forall p, read_fails (world ctl) p = false)
  /\ InRecovery (world ctl) = false.


(** The slots hold the same pages with the same bytes, in the same
    status, and no page has got unwritten changes. *)
Definition slots_kept (sh sh' : SlruShared) : Prop :=
  num_slots sh' = num_slots sh
  /\ page_buffer sh' = page_buffer sh
  /\ page_number sh' = page_number sh
  /\ latest_page_number sh' = latest_page_number sh
  /\ (forall j, page_status sh' j = page_status sh j)
  /\ (forall j, page_dirty sh' j = true -> page_dirty sh j = true).

(** What [SimpleLruReadPage ctl q] promises when it returns slot [slot]:
    the cache still holds the contents [C], the slot is in the bank of
    [q], VALID and in use for [q], and its buffer is the content of
    [q]. *)
Definition read_post (ctl : SlruCtlData) (C : Z -> Page -> Prop) (q : Z)
    (slot : Z) (sh' : SlruShared) : Prop :=
  keeps_content ctl C sh'
  /\ in_bank ctl q slot
  /\ page_status sh' slot = SLRU_PAGE_VALID
  /\ page_number sh' slot = q
  /\ forall pg, C q pg -> same_page (page_buffer sh' slot) pg.

(** Every page but [q] has in [sh'] the content it has in [sh]. *)
Definition other_pages_kept (q : Z) (sh sh' : SlruShared) : Prop :=
  forall p pg, 0 <= p -> p <> q -> page_content sh p pg -> page_content sh' p pg.

(** Every page has in [sh'] the content it has in [sh]. *)
Definition pages_kept (sh sh' : SlruShared) : Prop :=
  forall p pg, 0 <= p -> page_content sh p pg -> page_content sh' p pg.

(** The environment of a backend that runs alone in a cluster that is
    not in recovery, on a disk without faults. *)
Definition normal_world : SlruWorld :=
  mkSlruWorld false (fun _ => false) (fun _ => false) (fun sh => sh) (fun _ => false).

(** The offsets log with one bank of buffers, in normal running. *)
Definition normal_offsets_ctl : SlruCtlData :=
  mkSlruCtl MultiXactOffsetPagePrecedes 1 true "pg_multixact/offsets" normal_world.

(** ** Predicates of the statements on the allocation of transaction ids *)

(** [xid] is the first transaction id of a page of pg_commit_ts, the
    test of [ExtendCommitTs]. *)
Definition starts_commit_ts_page (xid : Z) : bool :=
  (TransactionIdToCTsEntry xid =? 0)
  || TransactionIdEquals xid FirstNormalTransactionId.








(** Shared memory at the first transaction id of the third page of
    pg_commit_ts. *)
Definition page_start_state : PgState :=
  set_TransamVariables (mkTransamVariables 1638 2000 100 900) example_state.




(** ** Predicates of the statements on the multixact logs *)

(** Every byte of the page is a byte. *)
Definition bytes_page (pg : Page) : Prop :=
  forall o, 0 <= o < BLCKSZ -> 0 <= pg o < 256.

(** Page [q] has a content, made of bytes. *)
Definition has_byte_page (sh : SlruShared) (q : Z) : Prop :=
  exists pg, page_content sh q pg /\ bytes_page pg.

(** The offsets log says that [multi] starts at member [offset]. *)
Definition offset_recorded (sh : SlruShared) (multi offset : Z) : Prop :=
  exists pg,
    page_content sh (MultiXactIdToOffsetPage multi) pg /\ bytes_page pg
    /\ read_le 8 pg (MultiXactIdToOffsetEntry multi * sizeof_MultiXactOffset) = offset.

(** The members log holds the member [m] at [offset]. *)
Definition member_recorded (sh : SlruShared) (offset : Z) (m : MultiXactMember)
  : Prop :=
  exists pg,
    page_content sh (MXOffsetToMemberPage offset) pg /\ bytes_page pg
    /\ load_member pg offset = m.

(** The members [ms] are recorded from [offset] on. *)
Definition members_recorded (sh : SlruShared) (offset : Z)
    (ms : list MultiXactMember) : Prop :=
  forall i m, nth_error ms i = Some m -> member_recorded sh (offset + Z.of_nat i) m.

(** A member that the logs can hold: a valid transaction id and a
    status of one byte. *)
Definition storable_member (m : MultiXactMember) : Prop :=
  0 < member_xid m < TWO64 /\ 0 <= member_status m < 256.

(** Where the members of [multi] end is known: [multi] is the newest
    multixact and the counter of member offsets is [next_offset], or the
    offsets log says that the multixact after [multi] starts there. *)
Definition end_recorded (sh : SlruShared) (multi next_offset : Z)
    (nextMXact_ nextOffset_ : Z) : Prop :=
  (nextMXact_ = u64 (multi + 1) /\ nextOffset_ = next_offset)
  \/ (nextMXact_ <> u64 (multi + 1)
      /\ offset_recorded sh (clamp_to_first (u64 (multi + 1))) next_offset).

(** A backend that runs alone in a cluster that is not in recovery, on
    a disk without faults. *)
Definition normal_backend : Backend :=
  mkBackend false false false true 0 8 0 1 1 1
    normal_world normal_world normal_world
    (fun _ => ret tt) (fun _ => ret tt) (fun s => s) (fun s => s).

(** The logs of [example_multixact_state] after multixact 9 was given
    the start offset 26. *)
Definition logs_with_9 : PgState :=
  set_MultiXactOffsetSlru
    (set_files empty_cache [(0, page_file (store_offset example_offsets_page 9 26))])
    example_multixact_state.

(** Shared memory as [GetNewMultiXactId] leaves it when it has given
    multixact 9 the three members from offset 26 on. *)
Definition state_with_new_9 : PgState :=
  set_MultiXactState (set_nextOffset 29 (MultiXactState example_multixact_state))
    example_multixact_state.

Definition members_of_8 : list MultiXactMember :=
  [mkMember 800 0; mkMember 801 1; mkMember 802 3].

Definition members_of_9 : list MultiXactMember :=
  [mkMember 900 1; mkMember 901 2; mkMember 902 0].

(** What [MultiXactIdSetOldestVisible] computes: a valid multixact that
    is not after the next one and that no valid entry of
    [OldestMemberMXactId] precedes. *)
Definition oldest_of_members (B : Backend) (m : MultiXactStateData) (oldest : Z)
  : Prop :=
  MultiXactIdIsValid oldest = true
  /\ within_window (clamp_to_first (nextMXact m)) oldest
  /\ forall i, 0 <= i < MaxOldestSlot B ->
       MultiXactIdIsValid (OldestMemberMXactId m i) = true ->
       MultiXactIdPrecedes (OldestMemberMXactId m i) oldest = false.

(** ** Predicates of the statement on [TruncateMultiXact] *)










(** ** Predicates of the statement on the order of [GetNewTransactionId] *)



(* ================================================================== *)
(** * Properties: circular comparison and page arithmetic *)
(* ================================================================== *)

Ltac unfold_consts :=
  change MULTIXACT_OFFSETS_PER_PAGE with 1024 in *;
  change MULTIXACT_MEMBERS_PER_PAGE with 904 in *;
  change MULTIXACT_MEMBERGROUPS_PER_PAGE with 113 in *;
  change MULTIXACT_MEMBERGROUP_SIZE with 72 in *;
  change MULTIXACT_MEMBERS_PER_MEMBERGROUP with 8 in *;
  change MULTIXACT_FLAGBYTES_PER_GROUP with 8 in *;
  change MXACT_MEMBER_BITS_PER_XACT with 8 in *;
  change COMMIT_TS_XACTS_PER_PAGE with 819 in *;
  change SizeOfCommitTimestampEntry with 10 in *;
  change sizeof_TransactionId with 8 in *;
  change sizeof_MultiXactOffset with 8 in *;
  change BLCKSZ with 8192 in *;
  change SLRU_PAGES_PER_SEGMENT with 32 in *;
  change FirstMultiXactId with 1 in *;
  change InvalidMultiXactId with 0 in *;
  change FirstNormalTransactionId with 3 in *;
  change InvalidTransactionId with 0 in *;
  unfold MaxMultiXactId, MaxMultiXactOffset, is_uint64, TWO64, TWO63 in *.

Lemma offsets_per_page_value : MULTIXACT_OFFSETS_PER_PAGE = 1024.
Proof. reflexivity. Qed.

Lemma members_per_page_value : MULTIXACT_MEMBERS_PER_PAGE = 904.
Proof. reflexivity. Qed.

Lemma commit_ts_per_page_value : COMMIT_TS_XACTS_PER_PAGE = 819.
Proof. reflexivity. Qed.

Lemma u64_range z : 0 <= u64 z < TWO64.
Proof. unfold u64. apply Z.mod_pos_bound. reflexivity. Qed.

Lemma u64_small z : is_uint64 z -> u64 z = z.
Proof. unfold u64, is_uint64. intros. apply Z.mod_small. assumption. Qed.

Lemma to_int64_neg_iff z : to_int64 z < 0 <-> TWO63 <= z mod TWO64.
Proof.
  unfold to_int64, u64.
  pose proof (Z.mod_pos_bound z TWO64 eq_refl).
  destruct (Z.ltb_spec (z mod TWO64) TWO63); unfold TWO64, TWO63 in *; lia.
Qed.

Lemma MultiXactIdPrecedes_iff a b :
  MultiXactIdPrecedes a b = true <-> TWO63 <= (a - b) mod TWO64.
Proof.
  unfold MultiXactIdPrecedes. cbv zeta. rewrite Z.ltb_lt.
  apply to_int64_neg_iff.
Qed.

Lemma MultiXactIdPrecedes_false_iff a b :
  MultiXactIdPrecedes a b = false <-> (a - b) mod TWO64 < TWO63.
Proof.
  destruct (MultiXactIdPrecedes a b) eqn:E.
  - apply MultiXactIdPrecedes_iff in E. split; [discriminate | lia].
  - split; [intros _ | reflexivity].
    destruct (Z.lt_ge_cases ((a - b) mod TWO64) TWO63) as [|H]; [assumption|].
    apply MultiXactIdPrecedes_iff in H. congruence.
Qed.

Lemma TransactionIdPrecedes_iff a b :
  TransactionIdPrecedes a b = true <-> TWO63 <= (a - b) mod TWO64.
Proof.
  unfold TransactionIdPrecedes. rewrite Z.ltb_lt. apply to_int64_neg_iff.
Qed.

(** C2 -- Identifier comparison is circular: [MultiXactIdPrecedes a b]
    holds iff [(int64)(a - b) < 0], that is iff [b] is between 1 and 2^63
    steps ahead of [a] on the ring.  Hence every [a] precedes [a + 1] and
    is not preceded by it; the relation is irreflexive; the only pairs
    that precede each other are the antipodal ones [b = a + 2^63]; it is
    not transitive on the whole ring, but it is on any half of it. *)
Theorem MultiXactIdPrecedes_is_circular :
  forall a b : Z, is_uint64 a -> is_uint64 b ->
    (MultiXactIdPrecedes a b = true <-> to_int64 (a - b) < 0)
    /\ (MultiXactIdPrecedes a b = true <-> 1 <= u64 (b - a) <= TWO63)
    /\ MultiXactIdPrecedes a (u64 (a + 1)) = true
    /\ MultiXactIdPrecedes (u64 (a + 1)) a = false
    /\ MultiXactIdPrecedes a a = false
    /\ ((MultiXactIdPrecedes a b = true /\ MultiXactIdPrecedes b a = true)
        <-> b = u64 (a + TWO63))
    /\ (exists x y z : Z,
          is_uint64 x /\ is_uint64 y /\ is_uint64 z
          /\ MultiXactIdPrecedes x y = true
          /\ MultiXactIdPrecedes y z = true
          /\ MultiXactIdPrecedes x z = false)
    /\ (forall o c : Z, is_uint64 o -> is_uint64 c ->
          u64 (a - o) < TWO63 -> u64 (b - o) < TWO63 -> u64 (c - o) < TWO63 ->
          MultiXactIdPrecedes a b = true ->
          MultiXactIdPrecedes b c = true ->
          MultiXactIdPrecedes a c = true).
Proof.
  intros a b Ha Hb.
  split; [unfold MultiXactIdPrecedes; cbv zeta; apply Z.ltb_lt|].
  split.
  { rewrite MultiXactIdPrecedes_iff. unfold u64, is_uint64, TWO64, TWO63 in *.
    split; intros; Z.div_mod_to_equations; lia. }
  split.
  { apply MultiXactIdPrecedes_iff. unfold u64, is_uint64, TWO64, TWO63 in *.
    Z.div_mod_to_equations; lia. }
  split.
  { apply MultiXactIdPrecedes_false_iff. unfold u64, is_uint64, TWO64, TWO63 in *.
    Z.div_mod_to_equations; lia. }
  split.
  { apply MultiXactIdPrecedes_false_iff. rewrite Z.sub_diag. reflexivity. }
  split.
  { rewrite !MultiXactIdPrecedes_iff. unfold u64, is_uint64, TWO64, TWO63 in *.
    split; intros; Z.div_mod_to_equations; lia. }
  split.
  { exists 0, (TWO63 - 1), (TWO64 - 2).
    repeat split; unfold is_uint64, TWO64, TWO63; try lia; reflexivity. }
  intros o c Ho Hc Hao Hbo Hco.
  rewrite !MultiXactIdPrecedes_iff. unfold u64, is_uint64, TWO64, TWO63 in *.
  intros; Z.div_mod_to_equations; lia.
Qed.

Lemma MultiXactIdPrecedes_is_circular_witness :
  is_uint64 5 /\ is_uint64 7
  /\ MultiXactIdPrecedes 5 7 = true
  /\ MultiXactIdPrecedes 5 (u64 (5 + 1)) = true
  /\ MultiXactIdPrecedes (u64 (5 + 1)) 5 = false.
Proof.
  assert (H5 : is_uint64 5) by (unfold is_uint64, TWO64; lia).
  assert (H7 : is_uint64 7) by (unfold is_uint64, TWO64; lia).
  destruct (MultiXactIdPrecedes_is_circular 5 7 H5 H7)
    as (_ & _ & Hsucc & Hpred & _).
  repeat split; try assumption; try (unfold TWO64; lia); reflexivity.
Defined.

(** C9 -- The page/entry decomposition recombines exactly, for the
    multixact offsets log and for the commit-timestamp log; in the
    members log every offset gets its own flag byte and its own 8-byte
    transaction-id slot inside one 72-byte group of its page (8 flag
    bytes, then 8 transaction ids), and two different offsets of one
    page never share a flag byte or overlap in their id slots. *)
Theorem page_entry_decomposition :
  forall x : Z, is_uint64 x ->
    MultiXactIdToOffsetPage x * MULTIXACT_OFFSETS_PER_PAGE
      + MultiXactIdToOffsetEntry x = x
    /\ 0 <= MultiXactIdToOffsetEntry x < MULTIXACT_OFFSETS_PER_PAGE
    /\ TransactionIdToCTsPage x * COMMIT_TS_XACTS_PER_PAGE
         + TransactionIdToCTsEntry x = x
    /\ 0 <= TransactionIdToCTsEntry x < COMMIT_TS_XACTS_PER_PAGE
    /\ (let g := MXOffsetToFlagsOffset x in
        0 <= g /\ g mod MULTIXACT_MEMBERGROUP_SIZE = 0
        /\ g + MULTIXACT_MEMBERGROUP_SIZE <= BLCKSZ
        /\ g <= MXOffsetToFlagsByte x < g + MULTIXACT_FLAGBYTES_PER_GROUP
        /\ g + MULTIXACT_FLAGBYTES_PER_GROUP <= MXOffsetToMemberOffset x
        /\ MXOffsetToMemberOffset x + sizeof_TransactionId
             <= g + MULTIXACT_MEMBERGROUP_SIZE
        /\ MXOffsetToFlagsBitShift x = 8 * (MXOffsetToFlagsByte x - g))
    /\ (forall y : Z, is_uint64 y -> x <> y ->
          MXOffsetToMemberPage x = MXOffsetToMemberPage y ->
          MXOffsetToFlagsByte x <> MXOffsetToFlagsByte y
          /\ (MXOffsetToMemberOffset x + sizeof_TransactionId
                <= MXOffsetToMemberOffset y
              \/ MXOffsetToMemberOffset y + sizeof_TransactionId
                   <= MXOffsetToMemberOffset x)).
Proof.
  intros x Hx.
  unfold MultiXactIdToOffsetPage, MultiXactIdToOffsetEntry,
    TransactionIdToCTsPage, TransactionIdToCTsEntry.
  rewrite offsets_per_page_value, commit_ts_per_page_value.
  split; [Z.div_mod_to_equations; lia|].
  split; [Z.div_mod_to_equations; lia|].
  split; [Z.div_mod_to_equations; lia|].
  split; [Z.div_mod_to_equations; lia|].
  split.
  { cbv zeta. unfold MXOffsetToFlagsByte, MXOffsetToMemberOffset,
      MXOffsetToFlagsBitShift, MXOffsetToFlagsOffset.
    unfold_consts. cbv zeta. Z.div_mod_to_equations. lia. }
  intros y Hy Hxy.
  unfold MXOffsetToFlagsByte, MXOffsetToMemberOffset, MXOffsetToMemberPage,
    MXOffsetToFlagsBitShift, MXOffsetToFlagsOffset.
  unfold_consts. cbv zeta. intros Hpage.
  Z.div_mod_to_equations. lia.
Qed.

Lemma page_entry_decomposition_witness :
  is_uint64 2000
  /\ MultiXactIdToOffsetPage 2000 * MULTIXACT_OFFSETS_PER_PAGE
       + MultiXactIdToOffsetEntry 2000 = 2000
  /\ TransactionIdToCTsPage 2000 * COMMIT_TS_XACTS_PER_PAGE
       + TransactionIdToCTsEntry 2000 = 2000.
Proof.
  assert (H : is_uint64 2000) by (unfold is_uint64, TWO64; lia).
  destruct (page_entry_decomposition 2000 H) as (H1 & _ & H2 & _).
  repeat split; try assumption; unfold TWO64; lia.
Defined.

(* ================================================================== *)
(** * Properties: the read-only multixact accessors *)
(* ================================================================== *)

Lemma clamp_to_first_spec v :
  FirstMultiXactId <= clamp_to_first v
  /\ clamp_to_first v <> InvalidMultiXactId
  /\ (v < FirstMultiXactId -> clamp_to_first v = FirstMultiXactId)
  /\ (FirstMultiXactId <= v -> clamp_to_first v = v).
Proof.
  unfold clamp_to_first.
  destruct (Z.ltb_spec v FirstMultiXactId); unfold_consts; lia.
Qed.

(** C10 -- [ReadNextMultiXactId] and [ReadMultiXactIdRange] return, with
    the shared state untouched, the shared [nextMXact] (and
    [oldestMultiXactId]) clamped up to [FirstMultiXactId]: a counter that
    has wrapped into the reserved range [0, FirstMultiXactId) is reported
    as [FirstMultiXactId], so no caller sees [InvalidMultiXactId] or any
    other reserved value. *)
Theorem read_multixact_accessors_clamp :
  forall s : PgState,
    (exists tr, ReadNextMultiXactId s
                = Done (clamp_to_first (nextMXact (MultiXactState s))) s tr)
    /\ (exists tr, ReadMultiXactIdRange s
                   = Done (clamp_to_first (oldestMultiXactId (MultiXactState s)),
                           clamp_to_first (nextMXact (MultiXactState s))) s tr)
    /\ (forall v, FirstMultiXactId <= clamp_to_first v
                  /\ clamp_to_first v <> InvalidMultiXactId
                  /\ (v < FirstMultiXactId -> clamp_to_first v = FirstMultiXactId)
                  /\ (FirstMultiXactId <= v -> clamp_to_first v = v)).
Proof.
  intros s. split; [|split].
  - eexists. reflexivity.
  - eexists. reflexivity.
  - apply clamp_to_first_spec.
Qed.

(* ================================================================== *)
(** * Outcomes and slot arithmetic *)
(* ================================================================== *)

(** ** Reasoning about outcomes *)

Lemma res_ok_bind {S A B} (m : M S A) (k : A -> M S B) s
    (Q : B -> S -> Prop) (E : S -> Prop) :
  res_ok (fun a s1 => res_ok Q E (k a s1)) E (m s) ->
  res_ok Q E (bind m k s).
Proof.
  unfold bind. destruct (m s) as [a s1 t1|e s1 t1|]; simpl; auto.
  destruct (k a s1); simpl; auto.
Qed.

Lemma res_total_bind {S A B} (m : M S A) (k : A -> M S B) s
    (Q : B -> S -> Prop) (E : S -> Prop) :
  res_total (fun a s1 => res_total Q E (k a s1)) E (m s) ->
  res_total Q E (bind m k s).
Proof.
  unfold bind. destruct (m s) as [a s1 t1|e s1 t1|]; simpl; auto.
  destruct (k a s1); simpl; auto.
Qed.

Lemma res_total_weaken {S A} (Q Q' : A -> S -> Prop) (E E' : S -> Prop) r :
  res_total Q E r -> (forall a s, Q a s -> Q' a s) -> (forall s, E s -> E' s) ->
  res_total Q' E' r.
Proof. destruct r; simpl; auto. Qed.

Lemma res_ok_weaken {S A} (Q Q' : A -> S -> Prop) (E E' : S -> Prop) r :
  res_ok Q E r -> (forall a s, Q a s -> Q' a s) -> (forall s, E s -> E' s) ->
  res_ok Q' E' r.
Proof. destruct r; simpl; auto. Qed.

Lemma res_total_ok {S A} (Q : A -> S -> Prop) (E : S -> Prop) r :
  res_total Q E r -> res_ok Q E r.
Proof. destruct r; simpl; auto. Qed.

(** ** Slot arithmetic *)

Lemma status_eqb_eq a b : status_eqb a b = true <-> a = b.
Proof. destruct a, b; simpl; split; congruence. Qed.

Lemma status_eqb_neq a b : status_eqb a b = false <-> a <> b.
Proof. destruct a, b; simpl; split; congruence. Qed.

Lemma upd_same {A} (f : Z -> A) i v : upd f i v i = v.
Proof. unfold upd. rewrite Z.eqb_refl. reflexivity. Qed.

Lemma upd_other {A} (f : Z -> A) i v j : j <> i -> upd f i v j = f j.
Proof. unfold upd. intros H. apply Z.eqb_neq in H. rewrite H. reflexivity. Qed.

Lemma SlotGetBankNumber_div slotno : SlotGetBankNumber slotno = slotno / 16.
Proof. unfold SlotGetBankNumber. rewrite Z.shiftr_div_pow2 by (cbv; congruence). reflexivity. Qed.

Lemma bank_size_value : SLRU_BANK_SIZE = 16.
Proof. reflexivity. Qed.

Lemma in_bank_number ctl pageno slotno :
  in_bank ctl pageno slotno ->
  SlotGetBankNumber slotno = Z.rem pageno (nbanks ctl).
Proof.
  unfold in_bank, bank_start. rewrite SlotGetBankNumber_div, bank_size_value.
  intros H. symmetry. apply Z.div_unique with (r := slotno - Z.rem pageno (nbanks ctl) * 16); lia.
Qed.

Lemma same_bank_in_bank ctl pageno i j :
  in_bank ctl pageno i -> SlotGetBankNumber i = SlotGetBankNumber j ->
  in_bank ctl pageno j.
Proof.
  intros Hi Hij. pose proof (in_bank_number _ _ _ Hi) as Hb.
  rewrite Hij in Hb. rewrite SlotGetBankNumber_div in Hb.
  unfold in_bank, bank_start in *. rewrite bank_size_value in *.
  rewrite <- Hb. Z.div_mod_to_equations. lia.
Qed.

(* ================================================================== *)
(** * The victim scan *)
(* ================================================================== *)

Lemma same_but_lru_refl sh : same_but_lru sh sh.
Proof. unfold same_but_lru. tauto. Qed.

Lemma same_but_lru_trans sh1 sh2 sh3 :
  same_but_lru sh1 sh2 -> same_but_lru sh2 sh3 -> same_but_lru sh1 sh3.
Proof.
  unfold same_but_lru. intros (?&?&?&?&?&?&?) (?&?&?&?&?&?&?).
  repeat split; congruence.
Qed.

Lemma same_but_lru_set_page_lru_count sh i v :
  same_but_lru sh (set_page_lru_count sh i v).
Proof. unfold same_but_lru. simpl. tauto. Qed.

Lemma same_but_lru_set_bank_cur_lru_count sh i v :
  same_but_lru sh (set_bank_cur_lru_count sh i v).
Proof. unfold same_but_lru. simpl. tauto. Qed.

Lemma same_but_lru_SlruRecentlyUsed sh i :
  same_but_lru sh (SlruRecentlyUsed sh i).
Proof.
  unfold SlruRecentlyUsed.
  destruct (negb _); [|apply same_but_lru_refl].
  unfold same_but_lru. simpl. tauto.
Qed.

Lemma scan_inv_ext sh sh' lo hi v :
  same_but_lru sh sh' -> scan_inv sh lo hi v -> scan_inv sh' lo hi v.
Proof.
  unfold same_but_lru, scan_inv. intros (_&_&Hs&_&Hn&Hl&_).
  rewrite Hs, Hn, Hl. tauto.
Qed.

Lemma find_page_slot_Some sh pageno n start slot :
  find_page_slot sh pageno n start = Some slot ->
  start <= slot < start + Z.of_nat n /\ slot_holds sh slot pageno.
Proof.
  revert start. induction n as [|n IH]; intros start; simpl; [discriminate|].
  destruct (negb (status_eqb (page_status sh start) SLRU_PAGE_EMPTY)
            && (page_number sh start =? pageno)) eqn:E.
  - intros H. injection H as <-.
    apply andb_true_iff in E. destruct E as [E1 E2].
    apply negb_true_iff, status_eqb_neq in E1. apply Z.eqb_eq in E2.
    split; [lia | split; assumption].
  - intros H. apply IH in H. destruct H as [H1 H2]. split; [lia | assumption].
Qed.

Lemma find_page_slot_None sh pageno n start :
  find_page_slot sh pageno n start = None ->
  forall j, start <= j < start + Z.of_nat n -> ~ slot_holds sh j pageno.
Proof.
  revert start. induction n as [|n IH]; intros start; simpl; [intros; lia|].
  destruct (negb (status_eqb (page_status sh start) SLRU_PAGE_EMPTY)
            && (page_number sh start =? pageno)) eqn:E; [discriminate|].
  intros H j Hj [Hs Hp].
  destruct (Z.eq_dec j start) as [->|Hne].
  - apply andb_false_iff in E. destruct E as [E|E].
    + apply negb_false_iff, status_eqb_eq in E. contradiction.
    + apply Z.eqb_neq in E. contradiction.
  - apply (IH _ H j); [lia | split; assumption].
Qed.

Lemma wrap_int_clamp_nonneg d : 0 <= (if d <? 0 then 0 else d).
Proof. destruct (Z.ltb_spec d 0); lia. Qed.

Lemma io_in_progress_iff st :
  io_in_progress st = true <->
  st <> SLRU_PAGE_EMPTY /\ st <> SLRU_PAGE_VALID.
Proof. destruct st; simpl; split; intros; try discriminate; try tauto; split; congruence. Qed.

Ltac scan_inv_part H :=
  let Hd := fresh "Hd" in
  intros Hd; try (specialize (H Hd); destruct H as (?&?&?));
  repeat split; try assumption; try lia;
  try (apply io_in_progress_iff; split; assumption).

Ltac scan_inv_tac lo hi :=
  unfold scan_inv; simpl;
  let H1 := fresh "H1" in let H2 := fresh "H2" in let H3 := fresh "H3" in
  let H4 := fresh "H4" in let H5 := fresh "H5" in
  intros (H1 & H2 & H3 & H4 & H5); intros;
  split; [lia|];
  split; [lia|];
  split; [scan_inv_part H3|];
  split; [scan_inv_part H4|];
  let j := fresh "j" in
  let Hj := fresh "Hj" in
  intros j Hj;
  destruct (Z.eq_dec j hi) as [->|Hne];
  [ split; [try assumption; try congruence|];
    intros; split; intros; try contradiction; try congruence; try lia; try assumption
  | let Hlo := fresh "Hlo" in
    assert (Hlo : lo <= j < hi) by lia;
    let Hne1 := fresh "Hne1" in let Himp := fresh "Himp" in
    destruct (H5 j Hlo) as (Hne1 & Himp);
    split; [assumption|];
    let Hx := fresh "Hx" in let Hv := fresh "Hv" in let Hi := fresh "Hi" in
    let Hst := fresh "Hst" in
    intros Hx; destruct (Himp Hx) as (Hv & Hi);
    split; intros Hst; [specialize (Hv Hst) | specialize (Hi Hst)]; lia ].

Lemma scan_inv_skip sh lo hi v :
  scan_inv sh lo hi v ->
  page_status sh hi <> SLRU_PAGE_EMPTY ->
  u64 (page_number sh hi) = latest_page_number sh ->
  scan_inv sh lo (hi + 1) v.
Proof. scan_inv_tac lo hi. Qed.

Lemma scan_inv_keep_valid sh lo hi v :
  scan_inv sh lo hi v ->
  page_status sh hi = SLRU_PAGE_VALID ->
  0 <= best_valid_delta v ->
  scan_inv sh lo (hi + 1) v.
Proof. scan_inv_tac lo hi. Qed.

Lemma scan_inv_keep_invalid sh lo hi v :
  scan_inv sh lo hi v ->
  page_status sh hi <> SLRU_PAGE_EMPTY ->
  page_status sh hi <> SLRU_PAGE_VALID ->
  0 <= best_invalid_delta v ->
  scan_inv sh lo (hi + 1) v.
Proof. scan_inv_tac lo hi. Qed.

Lemma scan_inv_new_valid sh lo hi v d pn :
  scan_inv sh lo hi v ->
  lo <= hi ->
  page_status sh hi = SLRU_PAGE_VALID ->
  u64 (page_number sh hi) <> latest_page_number sh ->
  0 <= d ->
  scan_inv sh lo (hi + 1)
    (mkVictimScan hi d pn (bestinvalidslot v) (best_invalid_delta v)
       (best_invalid_page_number v)).
Proof. scan_inv_tac lo hi. Qed.

Lemma scan_inv_new_invalid sh lo hi v d pn :
  scan_inv sh lo hi v ->
  lo <= hi ->
  page_status sh hi <> SLRU_PAGE_EMPTY ->
  page_status sh hi <> SLRU_PAGE_VALID ->
  u64 (page_number sh hi) <> latest_page_number sh ->
  0 <= d ->
  scan_inv sh lo (hi + 1)
    (mkVictimScan (bestvalidslot v) (best_valid_delta v)
       (best_valid_page_number v) hi d pn).
Proof. scan_inv_tac lo hi. Qed.

(* ================================================================== *)
(** * The victim scan, continued *)
(* ================================================================== *)

Lemma same_but_lru_sym sh sh' : same_but_lru sh sh' -> same_but_lru sh' sh.
Proof. unfold same_but_lru. intros (?&?&?&?&?&?&?). repeat split; congruence. Qed.

Lemma victim_scan_spec ctl cur n :
  forall slotno v sh lo,
    lo <= slotno ->
    scan_inv sh lo slotno v ->
    match victim_scan ctl cur n slotno v sh with
    | (FoundEmpty k, sh') =>
        same_but_lru sh sh'
        /\ slotno <= k < slotno + Z.of_nat n
        /\ page_status sh k = SLRU_PAGE_EMPTY
    | (Scanned v', sh') =>
        same_but_lru sh sh' /\ scan_inv sh lo (slotno + Z.of_nat n) v'
    end.
Proof.
  induction n as [|n IH]; intros slotno v sh lo Hlo Hinv.
  - simpl. rewrite Z.add_0_r. split; [apply same_but_lru_refl | assumption].
  - cbn [victim_scan].
    destruct (status_eqb (page_status sh slotno) SLRU_PAGE_EMPTY) eqn:Hempty.
    { apply status_eqb_eq in Hempty.
      split; [apply same_but_lru_refl|]. split; [lia | assumption]. }
    apply status_eqb_neq in Hempty.
    set (d0 := wrap_int (cur - page_lru_count sh slotno)).
    set (sh1 := if d0 <? 0 then set_page_lru_count sh slotno cur else sh).
    set (d := if d0 <? 0 then 0 else d0).
    assert (Hd : 0 <= d) by (subst d; destruct (Z.ltb_spec d0 0); lia).
    assert (Hsame : same_but_lru sh sh1).
    { subst sh1. destruct (d0 <? 0);
        [apply same_but_lru_set_page_lru_count | apply same_but_lru_refl]. }
    assert (Hinv1 : scan_inv sh1 lo slotno v) by (eapply scan_inv_ext; eassumption).
    assert (Hst : page_status sh1 = page_status sh) by apply Hsame.
    assert (Hnonempty1 : page_status sh1 slotno <> SLRU_PAGE_EMPTY)
      by (rewrite Hst; assumption).
    assert (Hfinish : forall v2,
      scan_inv sh1 lo (slotno + 1) v2 ->
      match victim_scan ctl cur n (slotno + 1) v2 sh1 with
      | (FoundEmpty k, sh') =>
          same_but_lru sh sh'
          /\ slotno <= k < slotno + Z.of_nat (S n)
          /\ page_status sh k = SLRU_PAGE_EMPTY
      | (Scanned v', sh') =>
          same_but_lru sh sh' /\ scan_inv sh lo (slotno + Z.of_nat (S n)) v'
      end).
    { intros v2 H2.
      specialize (IH (slotno + 1) v2 sh1 lo ltac:(lia) H2).
      destruct (victim_scan ctl cur n (slotno + 1) v2 sh1) as [[k|v'] sh'].
      - destruct IH as (Hs & Hk & He).
        split; [eapply same_but_lru_trans; eassumption|].
        split; [lia|]. rewrite <- Hst. assumption.
      - destruct IH as (Hs & Hi).
        split; [eapply same_but_lru_trans; eassumption|].
        replace (slotno + Z.of_nat (S n)) with (slotno + 1 + Z.of_nat n) by lia.
        eapply scan_inv_ext; [apply same_but_lru_sym; eassumption | assumption]. }
    destruct (u64 (page_number sh1 slotno) =? latest_page_number sh1) eqn:Hlatest.
    { apply Z.eqb_eq in Hlatest. apply Hfinish.
      apply scan_inv_skip; assumption. }
    apply Z.eqb_neq in Hlatest.
    destruct (status_eqb (page_status sh1 slotno) SLRU_PAGE_VALID) eqn:Hvalid.
    + apply status_eqb_eq in Hvalid.
      destruct ((best_valid_delta v <? d)
                || (d =? best_valid_delta v)
                   && PagePrecedes ctl (page_number sh1 slotno)
                        (best_valid_page_number v)) eqn:Hbetter.
      * apply Hfinish. apply scan_inv_new_valid; assumption.
      * apply Hfinish. apply scan_inv_keep_valid; [assumption..|].
        apply orb_false_iff in Hbetter. destruct Hbetter as [Hb _].
        apply Z.ltb_ge in Hb. lia.
    + apply status_eqb_neq in Hvalid.
      destruct ((best_invalid_delta v <? d)
                || (d =? best_invalid_delta v)
                   && PagePrecedes ctl (page_number sh1 slotno)
                        (best_invalid_page_number v)) eqn:Hbetter.
      * apply Hfinish. apply scan_inv_new_invalid; assumption.
      * apply Hfinish. apply scan_inv_keep_invalid; [assumption..|].
        apply orb_false_iff in Hbetter. destruct Hbetter as [Hb _].
        apply Z.ltb_ge in Hb. lia.
Qed.

Lemma scan_inv_init sh lo : scan_inv sh lo lo victim_scan_init.
Proof.
  unfold scan_inv, victim_scan_init. simpl.
  repeat split; try lia; intros; lia.
Qed.

(* ================================================================== *)
(** * SlruSelectLRUPage: the slot it returns *)
(* ================================================================== *)

Lemma bank_slots_value : Z.of_nat BANK_SLOTS = SLRU_BANK_SIZE.
Proof. reflexivity. Qed.

Lemma slot_holds_ext sh sh' j pageno :
  same_but_lru sh sh' -> slot_holds sh j pageno -> slot_holds sh' j pageno.
Proof.
  unfold same_but_lru, slot_holds. intros (_&_&Hs&_&Hn&_) H.
  rewrite Hs, Hn. assumption.
Qed.

(** Partial correctness of the victim search, whatever the other
    backends do meanwhile. *)
Lemma SlruSelectLRUPage_post fuel ctl pageno :
  forall sh,
    res_ok (select_post ctl pageno) (fun _ => True)
      (SlruSelectLRUPage fuel ctl pageno sh).
Proof.
  induction fuel as [|fuel IH]; intros sh; [exact I|].
  cbn [SlruSelectLRUPage].
  apply res_ok_bind. cbn [get res_ok].
  fold (bank_start ctl pageno).
  destruct (find_page_slot sh pageno BANK_SLOTS (bank_start ctl pageno))
    as [slot|] eqn:Hfind.
  { apply find_page_slot_Some in Hfind. rewrite bank_slots_value in Hfind.
    destruct Hfind as [Hr Hh]. cbn. split; [exact Hr | left; exact Hh]. }
  pose proof (find_page_slot_None _ _ _ _ Hfind) as Hnone.
  rewrite bank_slots_value in Hnone.
  set (cur := bank_cur_lru_count sh (Z.rem pageno (nbanks ctl))).
  set (sh0 := set_bank_cur_lru_count sh (Z.rem pageno (nbanks ctl))
                (wrap_int (cur + 1))).
  assert (Hsame0 : same_but_lru sh sh0)
    by apply same_but_lru_set_bank_cur_lru_count.
  pose proof (victim_scan_spec ctl cur BANK_SLOTS (bank_start ctl pageno)
                victim_scan_init sh0 (bank_start ctl pageno) (Z.le_refl _)
                (scan_inv_init _ _)) as Hscan.
  rewrite bank_slots_value in Hscan.
  destruct (victim_scan ctl cur BANK_SLOTS (bank_start ctl pageno)
              victim_scan_init sh0) as [[k|v] sh1].
  - destruct Hscan as (Hs1 & Hk & He).
    apply res_ok_bind. cbn.
    assert (Hs : same_but_lru sh sh1) by exact (same_but_lru_trans _ _ _ Hsame0 Hs1).
    split; [exact Hk|]. right.
    split; [|split].
    + intros j Hj Hh. apply (Hnone j Hj).
      eapply slot_holds_ext; [apply same_but_lru_sym; exact Hs | exact Hh].
    + left. destruct Hs1 as (_&_&Hst&_). rewrite Hst. exact He.
    + intros [Hne _]. destruct Hs1 as (_&_&Hst&_). rewrite Hst in Hne. contradiction.
  - destruct Hscan as (Hs1 & Hinv).
    assert (Hs : same_but_lru sh sh1) by exact (same_but_lru_trans _ _ _ Hsame0 Hs1).
    apply res_ok_bind. cbn [put res_ok].
    destruct (best_valid_delta v <? 0) eqn:Hbv.
    { apply res_ok_bind.
      destruct (SimpleLruWaitIO ctl (bestinvalidslot v) sh1); cbn; auto; apply IH.
      }
    apply Z.ltb_ge in Hbv.
    destruct (negb (page_dirty sh1 (bestvalidslot v))) eqn:Hdirty.
    { cbn. apply negb_true_iff in Hdirty.
      eapply scan_inv_ext in Hinv; [|exact Hs1].
      destruct Hinv as (_&_&Hv&_&_). destruct (Hv Hbv) as (Hr & Hst & Hl).
      split; [exact Hr|]. right. split; [|split].
      - intros j Hj Hh. apply (Hnone j Hj).
        eapply slot_holds_ext; [apply same_but_lru_sym; exact Hs | exact Hh].
      - right. split; assumption.
      - intros [_ Hl']. contradiction. }
    apply res_ok_bind.
    destruct (SlruInternalWritePage fuel ctl (bestvalidslot v) sh1); cbn; auto; apply IH.

Qed.

(* ================================================================== *)
(** * Directories and the wait for I/O *)
(* ================================================================== *)

Ltac fields :=
  cbn [num_slots page_buffer page_status page_dirty page_number page_lru_count
       bank_cur_lru_count latest_page_number files
       set_page_buffer set_page_status set_page_dirty set_page_number
       set_page_lru_count set_bank_cur_lru_count set_latest_page_number
       set_files] in *.

(** ** The directory *)

Lemma dir_lookup_remove d s s' :
  dir_lookup (dir_remove d s) s' = if s' =? s then None else dir_lookup d s'.
Proof.
  unfold dir_lookup, dir_remove.
  induction d as [|[k f] d IH]; simpl.
  - destruct (s' =? s); reflexivity.
  - destruct (k =? s) eqn:Eks; simpl.
    + rewrite IH. apply Z.eqb_eq in Eks. subst k.
      destruct (s' =? s) eqn:E; [reflexivity|].
      rewrite Z.eqb_sym, E. reflexivity.
    + destruct (k =? s') eqn:Eks'.
      * apply Z.eqb_eq in Eks'. subst k. rewrite Eks. reflexivity.
      * exact IH.
Qed.

Lemma dir_lookup_not_in d s :
  ~ In s (map fst d) -> dir_lookup d s = None.
Proof.
  unfold dir_lookup. induction d as [|[k f] d IH]; simpl; intros H; [reflexivity|].
  destruct (k =? s) eqn:E.
  - apply Z.eqb_eq in E. tauto.
  - apply IH. tauto.
Qed.

Lemma dir_lookup_map_update d s f s' :
  dir_lookup (map (fun e => if fst e =? s then (s, f) else e) d) s'
  = if s' =? s
    then match dir_lookup d s with Some _ => Some f | None => None end
    else dir_lookup d s'.
Proof.
  unfold dir_lookup. induction d as [|[k g] d IH]; simpl.
  - destruct (s' =? s); reflexivity.
  - destruct (k =? s) eqn:Ek; simpl.
    + apply Z.eqb_eq in Ek. subst k. rewrite (Z.eqb_sym s s').
      destruct (s' =? s) eqn:E; [reflexivity | exact IH].
    + destruct (k =? s') eqn:Ek'.
      * apply Z.eqb_eq in Ek'. subst k. rewrite Ek. reflexivity.
      * exact IH.
Qed.

Lemma dir_lookup_app d s f s' :
  dir_lookup (d ++ [(s, f)]) s'
  = match dir_lookup d s' with
    | Some x => Some x
    | None => if s' =? s then Some f else None
    end.
Proof.
  unfold dir_lookup. induction d as [|[k g] d IH]; simpl.
  - rewrite (Z.eqb_sym s s'). destruct (s' =? s); reflexivity.
  - destruct (k =? s'); [reflexivity | exact IH].
Qed.

Lemma dir_lookup_store d s f s' :
  dir_lookup (dir_store d s f) s'
  = if s' =? s then Some f else dir_lookup d s'.
Proof.
  unfold dir_store. destruct (dir_lookup d s) eqn:Es.
  - rewrite dir_lookup_map_update, Es. reflexivity.
  - rewrite dir_lookup_app.
    destruct (s' =? s) eqn:E.
    + apply Z.eqb_eq in E. subst s'. rewrite Es. reflexivity.
    + destruct (dir_lookup d s'); reflexivity.
Qed.

Lemma files_kept_refl sh : files_kept sh sh.
Proof. unfold files_kept. auto. Qed.

Lemma files_kept_trans sh1 sh2 sh3 :
  files_kept sh1 sh2 -> files_kept sh2 sh3 -> files_kept sh1 sh3.
Proof. unfold files_kept. auto. Qed.

Lemma files_kept_eq sh sh' : files sh' = files sh -> files_kept sh sh'.
Proof. unfold files_kept. intros ->. auto. Qed.

Lemma wait_result_files sh k : files (wait_result sh k) = files sh.
Proof.
  unfold wait_result. destruct (io_in_progress _); [|reflexivity].
  destruct (status_eqb _ _); reflexivity.
Qed.

Ltac prim_unfold :=
  unfold LWLockAcquire, LWLockRelease, START_CRIT_SECTION, END_CRIT_SECTION,
    ereport_LOG, XLogInsert, others_run, when.

Ltac tstep :=
  apply res_total_bind; prim_unfold;
  cbn [res_total emit modify get gets put ret].

Ltac ostep :=
  apply res_ok_bind; prim_unfold;
  cbn [res_ok emit modify get gets put ret].

Lemma cache_step_refl sh : cache_step sh sh.
Proof. unfold cache_step. repeat split; auto. Qed.

Lemma cache_step_trans sh1 sh2 sh3 :
  cache_step sh1 sh2 -> cache_step sh2 sh3 -> cache_step sh1 sh3.
Proof.
  unfold cache_step.
  intros (A1&A2&A3&A4&A5&A6) (B1&B2&B3&B4&B5&B6).
  repeat split; try congruence.
  - intros j. destruct (A5 j) as [Ea|[Ia Ea]], (B5 j) as [Eb|[Ib Eb]].
    + left. congruence.
    + right. rewrite <- Ea. split; assumption.
    + right. split; [assumption|]. rewrite Eb. assumption.
    + exfalso. destruct Ea as [Ea|Ea]; rewrite Ea in Ib; discriminate.
  - intros j. specialize (A6 j). specialize (B6 j). lia.
Qed.

Lemma same_but_lru_cache_step sh sh' : same_but_lru sh sh' -> cache_step sh sh'.
Proof.
  unfold same_but_lru, cache_step, slot_rank.
  intros (?&?&Hs&Hd&?&?&?). rewrite Hs, Hd. repeat split; auto.
Qed.

Lemma cache_step_set_files sh d : cache_step sh (set_files sh d).
Proof. unfold cache_step, slot_rank. simpl. repeat split; auto. Qed.

Lemma SimpleLruWaitIO_quiet ctl k sh :
  quiet ctl ->
  exists tr, SimpleLruWaitIO ctl k sh = Done tt (wait_result sh k) tr.
Proof.
  intros [Hq Hb]. unfold SimpleLruWaitIO, wait_result.
  unfold bind, LWLockRelease, LWLockAcquire, others_run, emit, modify, get, put, ret.
  rewrite Hq.
  destruct (io_in_progress (page_status sh k)); [|eexists; reflexivity].
  rewrite Hb. cbn [negb].
  destruct (status_eqb (page_status sh k) SLRU_PAGE_READ_IN_PROGRESS);
    eexists; reflexivity.
Qed.

Lemma wait_result_cache_step sh k : cache_step sh (wait_result sh k).
Proof.
  unfold wait_result.
  destruct (io_in_progress (page_status sh k)) eqn:Hio; [|apply cache_step_refl].
  destruct (status_eqb (page_status sh k) SLRU_PAGE_READ_IN_PROGRESS) eqn:Hr;
    unfold cache_step, slot_rank; simpl; (repeat split; auto); intros j;
    unfold upd; destruct (j =? k) eqn:Hjk;
    try (apply Z.eqb_eq in Hjk; subst j); auto;
    try (right; split; [assumption | auto]);
    destruct (page_status sh k); simpl in *; try discriminate; lia.
Qed.

Lemma wait_result_rank sh k :
  io_in_progress (page_status sh k) = true ->
  (slot_rank (wait_result sh k) k < slot_rank sh k)%nat.
Proof.
  intros Hio. unfold wait_result. rewrite Hio.
  unfold slot_rank.
  destruct (page_status sh k) eqn:E; simpl in *; try discriminate;
    rewrite !upd_same; lia.
Qed.

Lemma wait_result_not_in_progress sh k :
  io_in_progress (page_status sh k) = false -> wait_result sh k = sh.
Proof. intros H. unfold wait_result. rewrite H. reflexivity. Qed.

Lemma wait_write_in_progress_quiet ctl k pageno :
  quiet ctl ->
  forall fuel sh, (2 <= fuel)%nat ->
    res_total
      (fun _ sh' =>
         cache_step sh sh'
         /\ files sh' = files sh
         /\ (page_status sh k <> SLRU_PAGE_WRITE_IN_PROGRESS -> sh' = sh)
         /\ (page_number sh k = pageno ->
             page_status sh' k <> SLRU_PAGE_WRITE_IN_PROGRESS))
      (fun _ => False)
      (wait_write_in_progress fuel ctl k pageno sh).
Proof.
  intros Hq fuel sh Hfuel.
  destruct fuel as [|[|fuel]]; try lia.
  cbn [wait_write_in_progress]. tstep.
  destruct (status_eqb (page_status sh k) SLRU_PAGE_WRITE_IN_PROGRESS
            && (page_number sh k =? pageno)) eqn:Hc.
  - apply andb_true_iff in Hc. destruct Hc as [Hw Hp].
    apply status_eqb_eq in Hw. apply Z.eqb_eq in Hp.
    apply res_total_bind.
    destruct (SimpleLruWaitIO_quiet ctl k sh Hq) as [tr ->]. cbn [res_total].
    tstep.
    assert (Hst : page_status (wait_result sh k) k = SLRU_PAGE_VALID).
    { unfold wait_result. rewrite Hw. simpl. apply upd_same. }
    rewrite Hst. cbn.
    split; [apply wait_result_cache_step|].
    split; [apply wait_result_files|]. split; [congruence|].
    intros _. rewrite Hst. discriminate.
  - cbn. split; [apply cache_step_refl|]. split; [reflexivity|].
    split; [reflexivity|].
    intros Hp Hw. apply andb_false_iff in Hc. destruct Hc as [Hc|Hc].
    + apply status_eqb_neq in Hc. contradiction.
    + apply Z.eqb_neq in Hc. contradiction.
Qed.

(* ================================================================== *)
(** * Write-back by a backend that is alone *)
(* ================================================================== *)

Lemma cache_step_pointwise sh sh' :
  num_slots sh' = num_slots sh ->
  page_buffer sh' = page_buffer sh ->
  page_number sh' = page_number sh ->
  latest_page_number sh' = latest_page_number sh ->
  (forall j, page_status sh' j = page_status sh j) ->
  (forall j, page_dirty sh' j = true -> page_dirty sh j = true) ->
  cache_step sh sh'.
Proof.
  intros H1 H2 H3 H4 H5 H6. unfold cache_step, slot_rank.
  repeat split; auto. intros j. rewrite H5.
  destruct (page_status sh j); try lia.
  destruct (page_dirty sh' j) eqn:E; [rewrite (H6 j E); lia|].
  destruct (page_dirty sh j); lia.
Qed.

Lemma SlruPhysicalWritePage_quiet ctl pageno k sh :
  res_total
    (fun ok sh' =>
       ok = negb (write_fails (world ctl) pageno)
       /\ exists d, sh' = set_files sh d
                    /\ files_kept sh (set_files sh d))
    (fun _ => False)
    (SlruPhysicalWritePage ctl pageno k sh).
Proof.
  unfold SlruPhysicalWritePage. tstep.
  destruct (write_fails (world ctl) pageno).
  - tstep. cbn [res_total ret]. split; [reflexivity|].
    eexists. split; [reflexivity|].
    intros segno. fields. rewrite dir_lookup_store.
    destruct (segno =? _); [discriminate | auto].
  - tstep. tstep. cbn [res_total ret]. split; [reflexivity|].
    eexists. split; [reflexivity|].
    intros segno. fields. rewrite dir_lookup_store.
    destruct (segno =? _); [discriminate | auto].
Qed.

(** [SlruInternalWritePage] by a backend that is alone: it returns or
    raises the I/O error; a VALID dirty page is clean afterwards unless
    the write failed. *)
Lemma SlruInternalWritePage_quiet ctl k :
  quiet ctl ->
  forall fuel sh, (2 <= fuel)%nat ->
    res_total
      (fun _ sh' =>
         (cache_step sh sh' /\ files_kept sh sh')
         /\ (page_status sh k = SLRU_PAGE_VALID ->
             page_status sh' k = SLRU_PAGE_VALID /\ page_dirty sh' k = false))
      (fun sh' => cache_step sh sh' /\ files_kept sh sh')
      (SlruInternalWritePage fuel ctl k sh).
Proof.
  intros Hq fuel sh Hfuel. unfold SlruInternalWritePage. tstep.
  apply res_total_bind.
  eapply res_total_weaken;
    [apply (wait_write_in_progress_quiet ctl k (page_number sh k) Hq fuel sh Hfuel)
    | | intros ? []].
  intros [] sh1 (Hstep1 & Hfiles1 & Hsame1 & Hnw). cbn beta.
  apply files_kept_eq in Hfiles1.
  tstep.
  destruct (negb (page_dirty sh1 k)
            || negb (status_eqb (page_status sh1 k) SLRU_PAGE_VALID)
            || negb (page_number sh1 k =? page_number sh k)) eqn:Hc.
  { cbn. split; [split; assumption|]. intros Hv.
    rewrite (Hsame1 ltac:(congruence)) in *.
    rewrite Hv, Z.eqb_refl in Hc. simpl in Hc.
    rewrite !orb_false_r in Hc. apply negb_true_iff in Hc.
    split; assumption. }
  apply orb_false_iff in Hc. destruct Hc as [Hc Hpn].
  apply orb_false_iff in Hc. destruct Hc as [Hd Hv].
  apply negb_false_iff in Hd, Hv, Hpn.
  apply status_eqb_eq in Hv.
  tstep. tstep. tstep.
  apply res_total_bind.
  eapply res_total_weaken;
    [apply SlruPhysicalWritePage_quiet | | intros ? []].
  intros ok sh2 (Hok & d & -> & Hfk). cbn beta. fields.
  tstep. destruct Hq as [Hq Hb]. rewrite Hq.
  tstep.
  destruct ok; cbn [negb].
  - tstep. tstep. tstep. cbn.
    match goal with |- (cache_step _ ?s /\ _) /\ _ => assert (Hs : cache_step sh1 s) end.
    { apply cache_step_pointwise; simpl; auto.
      - intros j. unfold upd. destruct (j =? k) eqn:E; auto.
        apply Z.eqb_eq in E. subst. auto.
      - intros j. unfold upd. destruct (j =? k) eqn:E; auto. discriminate. }
    split; [split; [eapply cache_step_trans; eassumption|]|].
    { eapply files_kept_trans; [exact Hfiles1|]. exact Hfk. }
    intros _. simpl. rewrite !upd_same. auto.
  - tstep. tstep. tstep. cbn.
    split; [|eapply files_kept_trans; [exact Hfiles1 | exact Hfk]].
    eapply cache_step_trans; [eassumption|].
    apply cache_step_pointwise; simpl; auto.
    + intros j. unfold upd. destruct (j =? k) eqn:E; auto.
      apply Z.eqb_eq in E. subst. auto.
    + intros j. unfold upd. destruct (j =? k) eqn:E; auto.
      apply Z.eqb_eq in E. subst. auto.
Qed.

Lemma rank_sum_le sh sh' n :
  forall start,
    (forall j, (slot_rank sh' j <= slot_rank sh j)%nat) ->
    (rank_sum sh' n start <= rank_sum sh n start)%nat.
Proof.
  induction n as [|n IH]; intros start H; simpl; [lia|].
  specialize (IH (start + 1) H). specialize (H start). lia.
Qed.

Lemma rank_sum_lt sh sh' n :
  forall start k,
    (forall j, (slot_rank sh' j <= slot_rank sh j)%nat) ->
    start <= k < start + Z.of_nat n ->
    (slot_rank sh' k < slot_rank sh k)%nat ->
    (rank_sum sh' n start < rank_sum sh n start)%nat.
Proof.
  induction n as [|n IH]; intros start k H Hk Hlt; simpl; [lia|].
  destruct (Z.eq_dec k start) as [->|Hne].
  - pose proof (rank_sum_le sh sh' n (start + 1) H). lia.
  - specialize (IH (start + 1) k H ltac:(lia) Hlt). specialize (H start). lia.
Qed.

Lemma cache_step_rank_sum sh sh' n start :
  cache_step sh sh' -> (rank_sum sh' n start <= rank_sum sh n start)%nat.
Proof. intros H. apply rank_sum_le. apply H. Qed.

Lemma rank_sum_bound sh n : forall start, (rank_sum sh n start <= 2 * n)%nat.
Proof.
  induction n as [|n IH]; intros start; simpl; [lia|].
  specialize (IH (start + 1)).
  assert (slot_rank sh start <= 2)%nat.
  { unfold slot_rank. destruct (page_status sh start); try lia.
    destruct (page_dirty sh start); lia. }
  lia.
Qed.

Lemma candidate_exists_step ctl pageno sh sh' :
  cache_step sh sh' -> candidate_exists ctl pageno sh ->
  candidate_exists ctl pageno sh'.
Proof.
  intros (_&_&Hn&Hl&Hs&_) (j & Hj & Hc). exists j. split; [assumption|].
  rewrite Hn, Hl. destruct Hc as [He|Hne]; [|right; assumption].
  left. destruct (Hs j) as [E|[Hio _]]; [congruence|].
  rewrite He in Hio. discriminate.
Qed.

Lemma u64_inj_int64 a b : is_int64 a -> is_int64 b -> u64 a = u64 b -> a = b.
Proof.
  unfold is_int64, u64, TWO63, TWO64. intros Ha Hb H.
  Z.div_mod_to_equations. lia.
Qed.

Lemma cache_wf_candidate ctl pageno sh :
  cache_wf sh -> candidate_exists ctl pageno sh.
Proof.
  intros [Hrange Hnd]. unfold candidate_exists.
  set (b := bank_start ctl pageno).
  assert (Hb0 : in_bank ctl pageno b) by (unfold in_bank; fold b; rewrite bank_size_value; lia).
  assert (Hb1 : in_bank ctl pageno (b + 1)) by (unfold in_bank; fold b; rewrite bank_size_value; lia).
  destruct (status_eqb (page_status sh b) SLRU_PAGE_EMPTY) eqn:E0.
  { apply status_eqb_eq in E0. exists b. split; auto. }
  destruct (status_eqb (page_status sh (b + 1)) SLRU_PAGE_EMPTY) eqn:E1.
  { apply status_eqb_eq in E1. exists (b + 1). split; auto. }
  apply status_eqb_neq in E0, E1.
  destruct (Z.eq_dec (u64 (page_number sh b)) (latest_page_number sh)) as [Hl|Hl].
  - exists (b + 1). split; [assumption|]. right.
    intros Hl'.
    apply (Hnd b (b + 1)); try assumption; try lia.
    + rewrite (in_bank_number _ _ _ Hb0), (in_bank_number _ _ _ Hb1). reflexivity.
    + apply u64_inj_int64; auto. congruence.
  - exists b. split; auto.
Qed.

(* ================================================================== *)
(** * SlruSelectLRUPage returns *)
(* ================================================================== *)

Lemma res_total_and_ok {S A} (Q Q' : A -> S -> Prop) (E E' : S -> Prop) r :
  res_total Q E r -> res_ok Q' E' r ->
  res_total (fun a s => Q a s /\ Q' a s) (fun s => E s /\ E' s) r.
Proof. destruct r; simpl; auto. Qed.

Lemma rank_sum_ge sh n :
  forall start k, start <= k < start + Z.of_nat n ->
    (slot_rank sh k <= rank_sum sh n start)%nat.
Proof.
  induction n as [|n IH]; intros start k Hk; simpl; [lia|].
  destruct (Z.eq_dec k start) as [->|Hne]; [lia|].
  specialize (IH (start + 1) k ltac:(lia)). lia.
Qed.

Lemma SlruSelectLRUPage_terminates ctl pageno :
  quiet ctl ->
  forall fuel sh,
    (rank_sum sh BANK_SLOTS (bank_start ctl pageno) + 2 <= fuel)%nat ->
    candidate_exists ctl pageno sh ->
    res_total (fun _ sh' => cache_step sh sh') (fun sh' => cache_step sh sh')
      (SlruSelectLRUPage fuel ctl pageno sh).
Proof.
  intros Hq. induction fuel as [|fuel IH]; intros sh Hfuel Hcand; [lia|].
  cbn [SlruSelectLRUPage]. tstep.
  fold (bank_start ctl pageno).
  destruct (find_page_slot sh pageno BANK_SLOTS (bank_start ctl pageno))
    as [slot|] eqn:Hfind.
  { cbn. apply cache_step_refl. }
  set (cur := bank_cur_lru_count sh (Z.rem pageno (nbanks ctl))).
  set (sh0 := set_bank_cur_lru_count sh (Z.rem pageno (nbanks ctl))
                (wrap_int (cur + 1))).
  assert (Hsame0 : same_but_lru sh sh0)
    by apply same_but_lru_set_bank_cur_lru_count.
  pose proof (victim_scan_spec ctl cur BANK_SLOTS (bank_start ctl pageno)
                victim_scan_init sh0 (bank_start ctl pageno) (Z.le_refl _)
                (scan_inv_init _ _)) as Hscan.
  rewrite bank_slots_value in Hscan.
  destruct (victim_scan ctl cur BANK_SLOTS (bank_start ctl pageno)
              victim_scan_init sh0) as [[k|v] sh1].
  - destruct Hscan as (Hs1 & Hk & He).
    tstep. cbn. apply same_but_lru_cache_step.
    exact (same_but_lru_trans _ _ _ Hsame0 Hs1).
  - destruct Hscan as (Hs1 & Hinv).
    assert (Hs : same_but_lru sh sh1) by exact (same_but_lru_trans _ _ _ Hsame0 Hs1).
    assert (Hstep : cache_step sh sh1) by (apply same_but_lru_cache_step; exact Hs).
    eapply scan_inv_ext in Hinv; [|exact Hs1].
    assert (Hcand1 : candidate_exists ctl pageno sh1)
      by (eapply candidate_exists_step; eassumption).
    pose proof (cache_step_rank_sum _ _ BANK_SLOTS (bank_start ctl pageno) Hstep) as Hrk.
    tstep.
    destruct Hinv as (Hbv1 & Hbi1 & Hv & Hi & Hall).
    destruct (best_valid_delta v <? 0) eqn:Hbv.
    { apply Z.ltb_lt in Hbv.
      assert (Hbi : 0 <= best_invalid_delta v).
      { destruct Hcand1 as (j & Hj & Hc).
        destruct (Hall j Hj) as (Hne & Himp).
        destruct Hc as [Hc|Hc]; [contradiction|].
        destruct (Himp Hc) as (Hv1 & Hi1).
        apply Hi1. intros Hst. specialize (Hv1 Hst). lia. }
      destruct (Hi Hbi) as (Hr & Hio & _).
      apply res_total_bind.
      destruct (SimpleLruWaitIO_quiet ctl (bestinvalidslot v) sh1 Hq) as [tr ->].
      cbn [res_total].
      pose proof (wait_result_cache_step sh1 (bestinvalidslot v)) as Hw.
      pose proof (wait_result_rank sh1 (bestinvalidslot v) Hio) as Hlt.
      pose proof (rank_sum_lt sh1 (wait_result sh1 (bestinvalidslot v)) BANK_SLOTS
                    (bank_start ctl pageno) (bestinvalidslot v)
                    ltac:(apply Hw) ltac:(rewrite bank_slots_value; exact Hr) Hlt) as Hsum.
      eapply res_total_weaken.
      - apply IH; [lia|]. eapply candidate_exists_step; eassumption.
      - intros ? s Hc. cbn beta.
        eapply cache_step_trans; [exact Hstep|].
        eapply cache_step_trans; eassumption.
      - intros s Hc. cbn beta.
        eapply cache_step_trans; [exact Hstep|].
        eapply cache_step_trans; eassumption. }
    apply Z.ltb_ge in Hbv.
    destruct (Hv Hbv) as (Hr & Hst & _).
    destruct (negb (page_dirty sh1 (bestvalidslot v))) eqn:Hdirty.
    { cbn. exact Hstep. }
    apply negb_false_iff in Hdirty.
    assert (Hrank1 : slot_rank sh1 (bestvalidslot v) = 1%nat)
      by (unfold slot_rank; rewrite Hst, Hdirty; reflexivity).
    pose proof (rank_sum_ge sh1 BANK_SLOTS (bank_start ctl pageno) (bestvalidslot v)
                  ltac:(rewrite bank_slots_value; exact Hr)) as Hge.
    apply res_total_bind.
    eapply res_total_weaken;
      [apply (SlruInternalWritePage_quiet ctl (bestvalidslot v) Hq fuel sh1); lia | |].
    + intros [] sh2 ((Hstep2 & _) & Hclean). cbn beta.
      destruct (Hclean Hst) as (Hst2 & Hd2).
      assert (Hlt : (slot_rank sh2 (bestvalidslot v) < slot_rank sh1 (bestvalidslot v))%nat)
        by (rewrite Hrank1; unfold slot_rank; rewrite Hst2, Hd2; lia).
      pose proof (rank_sum_lt sh1 sh2 BANK_SLOTS
                    (bank_start ctl pageno) (bestvalidslot v)
                    ltac:(apply Hstep2) ltac:(rewrite bank_slots_value; exact Hr) Hlt) as Hsum.
      eapply res_total_weaken.
      * apply IH; [lia|]. eapply candidate_exists_step; eassumption.
      * intros ? s Hc. cbn beta.
        eapply cache_step_trans; [exact Hstep|].
        eapply cache_step_trans; eassumption.
      * intros s Hc. cbn beta.
        eapply cache_step_trans; [exact Hstep|].
        eapply cache_step_trans; eassumption.
    + intros s [Hc _]. cbn beta. eapply cache_step_trans; eassumption.
Qed.

(** The victim search by a backend that is alone returns (or raises the
    I/O error of the write it had to do) within [2 * SLRU_BANK_SIZE + 2]
    turns, with a slot as [select_post] describes. *)
Lemma SlruSelectLRUPage_total ctl pageno fuel sh :
  quiet ctl ->
  (2 * BANK_SLOTS + 2 <= fuel)%nat ->
  candidate_exists ctl pageno sh ->
  res_total
    (fun slot sh' => cache_step sh sh' /\ select_post ctl pageno slot sh')
    (fun sh' => cache_step sh sh')
    (SlruSelectLRUPage fuel ctl pageno sh).
Proof.
  intros Hq Hfuel Hcand.
  pose proof (rank_sum_bound sh BANK_SLOTS (bank_start ctl pageno)) as Hb.
  eapply res_total_weaken.
  - apply res_total_and_ok.
    + apply (SlruSelectLRUPage_terminates ctl pageno Hq fuel sh); [lia | assumption].
    + apply SlruSelectLRUPage_post.
  - intros a s H. exact H.
  - intros s [H _]. exact H.
Qed.

(* ================================================================== *)
(** * SimpleLruZeroPage *)
(* ================================================================== *)

Lemma keeps_latest_refl sh : keeps_latest sh sh.
Proof. unfold keeps_latest. auto. Qed.

Lemma keeps_latest_trans sh1 sh2 sh3 :
  keeps_latest sh1 sh2 -> keeps_latest sh2 sh3 -> keeps_latest sh1 sh3.
Proof.
  unfold keeps_latest. intros [A1 A2] [B1 B2]. split; [congruence|].
  intros k Hv Hl. destruct (A2 k Hv Hl) as [Hv2 Hn2].
  destruct (B2 k Hv2 ltac:(congruence)) as [Hv3 Hn3].
  split; congruence.
Qed.

Lemma cache_step_keeps_latest sh sh' : cache_step sh sh' -> keeps_latest sh sh'.
Proof.
  intros (_&_&Hn&Hl&Hs&_). split; [assumption|].
  intros k Hv _. rewrite Hn. split; [|reflexivity].
  destruct (Hs k) as [E|[Hio _]]; [congruence|].
  rewrite Hv in Hio. discriminate.
Qed.

Lemma cache_step_nonempty sh sh' j :
  cache_step sh sh' ->
  page_status sh' j <> SLRU_PAGE_EMPTY -> page_status sh j <> SLRU_PAGE_EMPTY.
Proof.
  intros (_&_&_&_&Hs&_) Hne He.
  destruct (Hs j) as [E|[Hio _]]; [congruence|].
  rewrite He in Hio. discriminate.
Qed.

Lemma cache_wf_step sh sh' : cache_step sh sh' -> cache_wf sh -> cache_wf sh'.
Proof.
  intros Hstep [Hr Hnd].
  pose proof Hstep as (_&_&Hn&_).
  split.
  - intros j Hne. rewrite Hn. apply Hr. eapply cache_step_nonempty; eassumption.
  - intros i j Hb Hij Hi Hj. rewrite Hn.
    apply Hnd; auto; eapply cache_step_nonempty; eassumption.
Qed.

(** Giving slot [k] to page [q] keeps the cache well formed when no
    other slot of the bank holds [q]. *)
Lemma cache_wf_claim_slot ctl q k sh sh' :
  cache_wf sh -> is_int64 q -> in_bank ctl q k ->
  (slot_holds sh k q
   \/ (forall j, in_bank ctl q j -> ~ slot_holds sh j q)) ->
  page_number sh' = upd (page_number sh) k q ->
  (forall j, j <> k -> page_status sh' j = page_status sh j) ->
  cache_wf sh'.
Proof.
  intros [Hr Hnd] Hq Hk Hsel Hn Hs.
  assert (Hother : forall j, j <> k -> SlotGetBankNumber k = SlotGetBankNumber j ->
                     page_status sh j <> SLRU_PAGE_EMPTY -> page_number sh j <> q).
  { intros j Hjk Hb Hne Hpq.
    destruct Hsel as [[Hkne Hkq]|Hnone].
    - apply (Hnd k j); auto. congruence.
    - apply (Hnone j); [eapply same_bank_in_bank; eassumption | split; assumption]. }
  split.
  - intros j Hne. rewrite Hn. unfold upd.
    destruct (j =? k) eqn:E; [assumption|].
    apply Z.eqb_neq in E. apply Hr. rewrite <- (Hs j E). assumption.
  - intros i j Hb Hij Hi Hj. rewrite Hn. unfold upd.
    destruct (i =? k) eqn:Ei, (j =? k) eqn:Ej.
    + apply Z.eqb_eq in Ei, Ej. congruence.
    + apply Z.eqb_eq in Ei. apply Z.eqb_neq in Ej. subst i.
      rewrite (Hs j Ej) in Hj. intros Heq. eapply Hother; eauto.
    + apply Z.eqb_eq in Ej. apply Z.eqb_neq in Ei. subst j.
      rewrite (Hs i Ei) in Hi. eapply Hother; eauto.
    + apply Z.eqb_neq in Ei, Ej. rewrite (Hs i Ei) in Hi. rewrite (Hs j Ej) in Hj.
      apply Hnd; auto.
Qed.

Lemma SlruRecentlyUsed_fields sh k :
  page_status (SlruRecentlyUsed sh k) = page_status sh
  /\ page_dirty (SlruRecentlyUsed sh k) = page_dirty sh
  /\ page_number (SlruRecentlyUsed sh k) = page_number sh
  /\ latest_page_number (SlruRecentlyUsed sh k) = latest_page_number sh
  /\ page_buffer (SlruRecentlyUsed sh k) = page_buffer sh
  /\ files (SlruRecentlyUsed sh k) = files sh.
Proof.
  pose proof (same_but_lru_SlruRecentlyUsed sh k) as (?&?&?&?&?&?&?). tauto.
Qed.

(** [SimpleLruZeroPage] by a backend that is alone. *)
Lemma SimpleLruZeroPage_total ctl L fuel sh :
  quiet ctl -> (2 * BANK_SLOTS + 2 <= fuel)%nat ->
  cache_wf sh -> is_int64 L ->
  res_total
    (fun k sh' => cache_wf sh' /\ in_bank ctl L k /\ latest_in_slot sh' k L
                  /\ page_buffer sh' k = zero_page)
    (fun sh' => cache_wf sh' /\ keeps_latest sh sh')
    (SimpleLruZeroPage fuel ctl L sh).
Proof.
  intros Hq Hfuel Hwf HL. unfold SimpleLruZeroPage.
  apply res_total_bind.
  eapply res_total_weaken;
    [apply (SlruSelectLRUPage_total ctl L fuel sh Hq Hfuel);
     apply cache_wf_candidate; assumption | |].
  - intros k sh1 (Hstep & Hk & Hsel). cbn beta.
    tstep. tstep. cbn [res_total ret].
    pose proof (cache_wf_step _ _ Hstep Hwf) as Hwf1.
    unfold zero_slot.
    match goal with |- context [SlruRecentlyUsed ?s k] =>
      pose proof (SlruRecentlyUsed_fields s k) as (Hs&Hd&Hn&Hl&Hb&Hf) end.
    split; [|split; [exact Hk|split]].
    + eapply (cache_wf_claim_slot ctl L k sh1); try eassumption.
      * destruct Hsel as [?|[? _]]; auto.
      * intros j Hj. fields. rewrite Hs. fields. apply upd_other. assumption.
    + unfold latest_in_slot. fields. rewrite Hs, Hn. fields.
      rewrite !upd_same. auto.
    + fields. apply upd_same.
  - intros sh1 Hstep. cbn beta.
    split; [eapply cache_wf_step; eassumption | apply cache_step_keeps_latest; assumption].
Qed.

(* ================================================================== *)
(** * SimpleLruReadPage *)
(* ================================================================== *)

Lemma SlruPhysicalReadPage_frame ctl q k sh :
  res_total
    (fun _ sh' =>
       page_status sh' = page_status sh
       /\ page_dirty sh' = page_dirty sh
       /\ page_number sh' = page_number sh
       /\ latest_page_number sh' = latest_page_number sh
       /\ files sh' = files sh
       /\ (forall j, j <> k -> page_buffer sh' j = page_buffer sh j))
    (fun _ => False)
    (SlruPhysicalReadPage ctl q k sh).
Proof.
  unfold SlruPhysicalReadPage. tstep.
  destruct (dir_lookup (files sh) (Z.quot q SLRU_PAGES_PER_SEGMENT)) as [f|].
  - destruct (read_fails (world ctl) q
              || (f_size f <? Z.rem q SLRU_PAGES_PER_SEGMENT * BLCKSZ + BLCKSZ)).
    + cbn. repeat split; auto.
    + tstep. tstep. cbn [res_total ret]. fields.
      repeat split; auto. intros j Hj. apply upd_other. assumption.
  - destruct (negb (InRecovery (world ctl))).
    + cbn. repeat split; auto.
    + tstep. tstep. cbn [res_total ret]. fields.
      repeat split; auto. intros j Hj. apply upd_other. assumption.
Qed.

Lemma not_holds_latest_neq sh slot k :
  ~ holds_latest_page sh slot ->
  page_status sh k = SLRU_PAGE_VALID ->
  u64 (page_number sh k) = latest_page_number sh ->
  k <> slot.
Proof.
  intros Hn Hv Hl ->. apply Hn. split; [congruence | assumption].
Qed.

(** [SimpleLruReadPage] by a backend that is alone. *)
Lemma SimpleLruReadPage_terminates ctl q write_ok xid :
  quiet ctl -> is_int64 q ->
  forall fuel sh,
    (rank_sum sh BANK_SLOTS (bank_start ctl q) + 2 * BANK_SLOTS + 4 <= fuel)%nat ->
    cache_wf sh ->
    res_total
      (fun slot sh' =>
         cache_wf sh' /\ keeps_latest sh sh'
         /\ in_bank ctl q slot
         /\ page_number sh' slot = q
         /\ (page_status sh' slot = SLRU_PAGE_VALID
             \/ (page_status sh' slot = SLRU_PAGE_WRITE_IN_PROGRESS
                 /\ write_ok = true)))
      (fun sh' => cache_wf sh' /\ keeps_latest sh sh')
      (SimpleLruReadPage fuel ctl q write_ok xid sh).
Proof.
  intros Hq Hint. induction fuel as [|fuel IH]; intros sh Hfuel Hwf; [lia|].
  cbn [SimpleLruReadPage].
  apply res_total_bind.
  eapply res_total_weaken;
    [apply (SlruSelectLRUPage_total ctl q fuel sh Hq); [lia|];
     apply cache_wf_candidate; assumption | |].
  2:{ intros sh1 Hstep. cbn beta.
      split; [eapply cache_wf_step; eassumption
             | apply cache_step_keeps_latest; assumption]. }
  intros slot sh1 (Hstep & Hk & Hsel). cbn beta.
  pose proof (cache_wf_step _ _ Hstep Hwf) as Hwf1.
  pose proof (cache_step_keeps_latest _ _ Hstep) as Hkeep1.
  pose proof (cache_step_rank_sum _ _ BANK_SLOTS (bank_start ctl q) Hstep) as Hrk.
  tstep.
  destruct (negb (status_eqb (page_status sh1 slot) SLRU_PAGE_EMPTY)
            && (page_number sh1 slot =? q)) eqn:Hhit.
  - apply andb_true_iff in Hhit. destruct Hhit as [Hne Hpn].
    apply negb_true_iff, status_eqb_neq in Hne. apply Z.eqb_eq in Hpn.
    destruct (status_eqb (page_status sh1 slot) SLRU_PAGE_READ_IN_PROGRESS
              || status_eqb (page_status sh1 slot) SLRU_PAGE_WRITE_IN_PROGRESS
                 && negb write_ok) eqn:Hbusy.
    + assert (Hio : io_in_progress (page_status sh1 slot) = true).
      { unfold io_in_progress. apply orb_true_iff in Hbusy.
        destruct Hbusy as [->|Hb]; [reflexivity|].
        apply andb_true_iff in Hb. destruct Hb as [-> _]. apply orb_true_r. }
      apply res_total_bind.
      destruct (SimpleLruWaitIO_quiet ctl slot sh1 Hq) as [tr ->].
      cbn [res_total].
      pose proof (wait_result_cache_step sh1 slot) as Hw.
      pose proof (wait_result_rank sh1 slot Hio) as Hlt.
      pose proof (rank_sum_lt sh1 (wait_result sh1 slot) BANK_SLOTS
                    (bank_start ctl q) slot
                    ltac:(apply Hw) ltac:(rewrite bank_slots_value; exact Hk) Hlt) as Hsum.
      eapply res_total_weaken.
      * apply IH; [lia|]. eapply cache_wf_step; eassumption.
      * intros a s (H1 & H2 & H3). cbn beta. split; [assumption|].
        split; [|assumption].
        eapply keeps_latest_trans; [exact Hkeep1|].
        eapply keeps_latest_trans; [apply cache_step_keeps_latest; exact Hw | exact H2].
      * intros s (H1 & H2). cbn beta. split; [assumption|].
        eapply keeps_latest_trans; [exact Hkeep1|].
        eapply keeps_latest_trans; [apply cache_step_keeps_latest; exact Hw | exact H2].
    + tstep. cbn [res_total ret].
      pose proof (same_but_lru_SlruRecentlyUsed sh1 slot) as Hru.
      pose proof (same_but_lru_cache_step _ _ Hru) as Hstep2.
      destruct Hru as (_&_&Hs&_&Hn&_).
      split; [eapply cache_wf_step; eassumption|].
      split; [eapply keeps_latest_trans;
              [exact Hkeep1 | apply cache_step_keeps_latest; exact Hstep2]|].
      split; [exact Hk|]. rewrite Hs, Hn. split; [exact Hpn|].
      apply orb_false_iff in Hbusy. destruct Hbusy as [Hr Hw].
      apply status_eqb_neq in Hr.
      destruct (page_status sh1 slot) eqn:Est; try congruence; [left; reflexivity|].
      right. split; [reflexivity|]. simpl in Hw. destruct write_ok; [reflexivity|discriminate].
  - assert (Hnothold : ~ slot_holds sh1 slot q).
    { intros [Hne Hpn]. apply andb_false_iff in Hhit. destruct Hhit as [H|H].
      - apply negb_false_iff, status_eqb_eq in H. contradiction.
      - apply Z.eqb_neq in H. contradiction. }
    destruct Hsel as [Hh|(Hnone & Hfree & Hnl)]; [contradiction|].
    tstep. tstep. tstep.
    apply res_total_bind.
    eapply res_total_weaken; [apply SlruPhysicalReadPage_frame | | intros ? []].
    intros ok sh3 (Hs3 & Hd3 & Hn3 & Hl3 & Hf3 & Hb3). cbn beta. fields.
    tstep. destruct Hq as [Hq Hb]. rewrite Hq.
    tstep. tstep. tstep.
    set (sh4 := set_page_status sh3 slot (if ok then SLRU_PAGE_VALID else SLRU_PAGE_EMPTY)).
    assert (Hn4 : page_number sh4 = upd (page_number sh1) slot q)
      by (subst sh4; fields; rewrite Hn3; reflexivity).
    assert (Hs4 : forall j, j <> slot -> page_status sh4 j = page_status sh1 j).
    { intros j Hj. subst sh4. fields. rewrite upd_other by assumption.
      rewrite Hs3. rewrite !upd_other by assumption. reflexivity. }
    assert (Hl4 : latest_page_number sh4 = latest_page_number sh1)
      by (subst sh4; fields; rewrite Hl3; reflexivity).
    assert (Hwf4 : cache_wf sh4).
    { eapply (cache_wf_claim_slot ctl q slot sh1); eauto. }
    assert (Hkeep4 : keeps_latest sh1 sh4).
    { split; [exact Hl4|]. intros k Hv Hl.
      pose proof (not_holds_latest_neq _ _ _ Hnl Hv Hl) as Hks.
      rewrite Hs4, Hn4, upd_other by assumption. auto. }
    destruct ok; cbn [negb].
    + tstep. tstep. cbn [res_total ret].
      pose proof (same_but_lru_SlruRecentlyUsed sh4 slot) as Hru.
      pose proof (same_but_lru_cache_step _ _ Hru) as Hstep5.
      destruct Hru as (_&_&Hs5&_&Hn5&_).
      split; [eapply cache_wf_step; eassumption|].
      split; [eapply keeps_latest_trans; [exact Hkeep1|];
              eapply keeps_latest_trans;
              [exact Hkeep4 | apply cache_step_keeps_latest; exact Hstep5]|].
      split; [exact Hk|]. rewrite Hs5, Hn5, Hn4. rewrite upd_same.
      split; [reflexivity|]. left. subst sh4. fields. apply upd_same.
    + apply res_total_bind. unfold SlruReportIOError, ereport_ERROR. cbn [res_total].
      split; [exact Hwf4|].
      eapply keeps_latest_trans; eassumption.
Qed.

(* ================================================================== *)
(** * The latest page is never evicted *)
(* ================================================================== *)

Lemma SimpleLruReadPage_total ctl q write_ok xid fuel sh :
  quiet ctl -> is_int64 q -> (SLRU_FUEL <= fuel)%nat -> cache_wf sh ->
  res_total
    (fun slot sh' =>
       cache_wf sh' /\ keeps_latest sh sh'
       /\ in_bank ctl q slot
       /\ page_number sh' slot = q
       /\ (page_status sh' slot = SLRU_PAGE_VALID
           \/ (page_status sh' slot = SLRU_PAGE_WRITE_IN_PROGRESS
               /\ write_ok = true)))
    (fun sh' => cache_wf sh' /\ keeps_latest sh sh')
    (SimpleLruReadPage fuel ctl q write_ok xid sh).
Proof.
  intros Hq Hint Hfuel Hwf.
  apply SimpleLruReadPage_terminates; auto.
  pose proof (rank_sum_bound sh BANK_SLOTS (bank_start ctl q)).
  unfold SLRU_FUEL in Hfuel. lia.
Qed.

Lemma latest_in_slot_kept sh sh' k L :
  latest_in_slot sh k L -> keeps_latest sh sh' -> latest_in_slot sh' k L.
Proof.
  intros (Hv & Hn & Hl) [Hl' Hk].
  destruct (Hk k Hv ltac:(congruence)) as [Hv' Hn'].
  repeat split; congruence.
Qed.

Lemma run_op_wf ctl fuel op sh :
  quiet ctl -> (SLRU_FUEL <= fuel)%nat -> cache_wf sh -> is_int64 (op_page op) ->
  exists sh', res_state (run_op fuel ctl op sh) = Some sh'
              /\ cache_wf sh'
              /\ (is_read_op op = true -> keeps_latest sh sh').
Proof.
  intros Hq Hfuel Hwf Hint. destruct op as [p|p w x]; simpl in *.
  - pose proof (SimpleLruZeroPage_total ctl p fuel sh Hq
                  ltac:(unfold SLRU_FUEL in Hfuel; lia) Hwf Hint) as H.
    destruct (SimpleLruZeroPage fuel ctl p sh) as [k s t|e s t|]; simpl in *.
    + exists s. split; [reflexivity|]. split; [tauto | discriminate].
    + exists s. split; [reflexivity|]. split; [tauto | discriminate].
    + contradiction.
  - pose proof (SimpleLruReadPage_total ctl p w x fuel sh Hq Hint Hfuel Hwf) as H.
    destruct (SimpleLruReadPage fuel ctl p w x sh) as [k s t|e s t|]; simpl in *.
    + exists s. split; [reflexivity|]. tauto.
    + exists s. split; [reflexivity|]. tauto.
    + contradiction.
Qed.

Lemma run_ops_wf ctl fuel :
  quiet ctl -> (SLRU_FUEL <= fuel)%nat ->
  forall ops sh,
    cache_wf sh -> Forall (fun op => is_int64 (op_page op)) ops ->
    exists sh', run_ops fuel ctl ops sh = Some sh'
                /\ cache_wf sh'
                /\ (forallb is_read_op ops = true -> keeps_latest sh sh').
Proof.
  intros Hq Hfuel. induction ops as [|op ops IH]; intros sh Hwf Hall.
  - exists sh. simpl. split; [reflexivity|]. split; [assumption|].
    intros _. apply keeps_latest_refl.
  - inversion Hall as [|? ? Hop Hrest]; subst.
    destruct (run_op_wf ctl fuel op sh Hq Hfuel Hwf Hop) as (sh1 & Hrun & Hwf1 & Hk1).
    destruct (IH sh1 Hwf1 Hrest) as (sh2 & Hrun2 & Hwf2 & Hk2).
    exists sh2. cbn [run_ops]. rewrite Hrun. split; [assumption|].
    split; [assumption|].
    cbn [forallb]. intros Hr. apply andb_true_iff in Hr. destruct Hr as [Hr1 Hr2].
    eapply keeps_latest_trans; eauto.
Qed.

(** C6 -- [SlruSelectLRUPage ctl pageno] returns a slot of the bank of
    [pageno] that either already holds [pageno] (in any state but
    EMPTY) or can be reused at once (EMPTY, or VALID and not dirty), and
    a slot it takes away from another page is never the one in use for
    [latest_page_number]; this holds whatever the other backends do
    while the bank lock is released.  A backend that is alone always
    gets such a slot (or the I/O error of a write-back), and then, over
    any run of [SimpleLruZeroPage]/[SimpleLruReadPage] calls, however
    long, the page zeroed last stays VALID in the slot it was given for
    as long as only reads follow. *)
Theorem SlruSelectLRUPage_spares_latest_page :
  (forall (ctl : SlruCtlData) (fuel : nat) (pageno : Z) (sh : SlruShared),
      res_ok (select_post ctl pageno) (fun _ => True)
        (SlruSelectLRUPage fuel ctl pageno sh))
  /\ (forall (ctl : SlruCtlData) (fuel : nat) (sh : SlruShared),
        quiet ctl -> (SLRU_FUEL <= fuel)%nat -> cache_wf sh ->
        (forall pageno : Z,
            res_total (select_post ctl pageno) (fun _ => True)
              (SlruSelectLRUPage fuel ctl pageno sh))
        /\ (forall (ops1 ops2 : list SlruOp) (L : Z),
              Forall (fun op => is_int64 (op_page op)) (ops1 ++ ops2) ->
              is_int64 L ->
              forallb is_read_op ops2 = true ->
              exists sh1,
                run_ops fuel ctl ops1 sh = Some sh1
                /\ res_total
                     (fun k sh2 =>
                        in_bank ctl L k
                        /\ exists sh3,
                             run_ops fuel ctl ops2 sh2 = Some sh3
                             /\ latest_in_slot sh3 k L)
                     (fun _ => True)
                     (SimpleLruZeroPage fuel ctl L sh1))).
Proof.
  split; [intros; apply SlruSelectLRUPage_post|].
  intros ctl fuel sh Hq Hfuel Hwf. split.
  - intros pageno.
    eapply res_total_weaken.
    + apply (SlruSelectLRUPage_total ctl pageno fuel sh Hq);
        [unfold SLRU_FUEL in Hfuel; lia | apply cache_wf_candidate; assumption].
    + intros a s [_ H]. exact H.
    + intros. exact I.
  - intros ops1 ops2 L Hall HL Hreads.
    apply Forall_app in Hall. destruct Hall as [Hall1 Hall2].
    destruct (run_ops_wf ctl fuel Hq Hfuel ops1 sh Hwf Hall1) as (sh1 & Hrun1 & Hwf1 & _).
    exists sh1. split; [assumption|].
    eapply res_total_weaken.
    + apply (SimpleLruZeroPage_total ctl L fuel sh1 Hq);
        [unfold SLRU_FUEL in Hfuel; lia | assumption | assumption].
    + intros k sh2 (Hwf2 & Hk & Hlat & _). cbn beta.
      split; [assumption|].
      destruct (run_ops_wf ctl fuel Hq Hfuel ops2 sh2 Hwf2 Hall2) as (sh3 & Hrun3 & _ & Hk3).
      exists sh3. split; [assumption|].
      eapply latest_in_slot_kept; eauto.
    + intros. exact I.
Qed.

(* ================================================================== *)
(** * Events of a truncation *)
(* ================================================================== *)

(** ** Event logs *)

Lemma trace_ok_bind {S A B} (P : Event -> Prop) (m : M S A) (k : A -> M S B) s :
  trace_ok P (m s) ->
  (forall a s1, trace_ok P (k a s1)) ->
  trace_ok P (bind m k s).
Proof.
  unfold trace_ok, bind. intros Hm Hk.
  destruct (m s) as [a s1 t1|e s1 t1|]; simpl in *; auto.
  specialize (Hk a s1).
  destruct (k a s1); simpl in *; auto; apply Forall_app; auto.
Qed.

Lemma trace_ok_zoom {S T A} (P : Event -> Prop) (proj : S -> T) inj (m : M T A) s :
  trace_ok P (m (proj s)) -> trace_ok P (zoom proj inj m s).
Proof.
  unfold trace_ok, zoom. destruct (m (proj s)); simpl; auto.
Qed.

Lemma trace_ok_nil {S A} (P : Event -> Prop) (r : Res S A) :
  res_trace r = [] -> trace_ok P r.
Proof. unfold trace_ok. intros ->. constructor. Qed.

Lemma trace_ok_emit {S} (P : Event -> Prop) e (s : S) :
  P e -> trace_ok P (emit e s).
Proof. unfold trace_ok, emit. simpl. auto. Qed.

(** Steps through a piece of monadic code whose events all satisfy the
    predicate at hand; [tac] proves it for the events met and for the
    calls. *)
Ltac trace_steps tac :=
  repeat first
    [ tac
    | apply trace_ok_bind; [|intros]
    | apply trace_ok_zoom
    | apply trace_ok_nil; reflexivity
    | apply trace_ok_emit; tac
    | progress (unfold LWLockAcquire, LWLockRelease, START_CRIT_SECTION,
                END_CRIT_SECTION, ereport_LOG, XLogInsert, others_run, when,
                SlruReportIOError, switch_bank_lock)
    | match goal with
      | |- trace_ok _ ((if ?c then _ else _) _) => destruct c
      | |- trace_ok _ ((match ?c with Some _ => _ | None => _ end) _) => destruct c
      | |- trace_ok _ ((match ?c with inl _ => _ | inr _ => _ end) _) => destruct c
      | |- trace_ok _ ((let '(_, _) := ?c in _) _) => destruct c
      end ].

Lemma SimpleLruWaitIO_no_unlink ctl k sh :
  trace_ok not_unlink (SimpleLruWaitIO ctl k sh).
Proof. unfold SimpleLruWaitIO. trace_steps ltac:(exact I). Qed.

Lemma wait_write_in_progress_no_unlink ctl k p fuel :
  forall sh, trace_ok not_unlink (wait_write_in_progress fuel ctl k p sh).
Proof.
  induction fuel as [|fuel IH]; intros sh; cbn [wait_write_in_progress].
  - apply trace_ok_nil. reflexivity.
  - trace_steps ltac:(first [exact I | apply SimpleLruWaitIO_no_unlink | apply IH]).
Qed.

Lemma SlruPhysicalWritePage_no_unlink ctl p k sh :
  trace_ok not_unlink (SlruPhysicalWritePage ctl p k sh).
Proof. unfold SlruPhysicalWritePage. trace_steps ltac:(exact I). Qed.

Lemma SlruInternalWritePage_no_unlink fuel ctl k sh :
  trace_ok not_unlink (SlruInternalWritePage fuel ctl k sh).
Proof.
  unfold SlruInternalWritePage.
  trace_steps ltac:(first [exact I | apply wait_write_in_progress_no_unlink
                          | apply SlruPhysicalWritePage_no_unlink]).
Qed.

Lemma truncate_slots_no_unlink fuel ctl cutoff n :
  forall slotno prevbank sh,
    trace_ok not_unlink (truncate_slots fuel ctl cutoff n slotno prevbank sh).
Proof.
  induction n as [|n IH]; intros slotno prevbank sh; cbn [truncate_slots].
  - apply trace_ok_nil. reflexivity.
  - trace_steps ltac:(first [exact I | apply IH | apply SlruInternalWritePage_no_unlink
                            | apply SimpleLruWaitIO_no_unlink]).
Qed.

Lemma trace_ok_weaken {S A} (P Q : Event -> Prop) (r : Res S A) :
  (forall e, P e -> Q e) -> trace_ok P r -> trace_ok Q r.
Proof. unfold trace_ok. intros H. apply Forall_impl. assumption. Qed.

Lemma not_unlink_allowed dir ok e : not_unlink e -> unlink_allowed dir ok e.
Proof. intros H segno ->. destruct H. Qed.

Lemma quot_segment segno :
  Z.quot (segno * SLRU_PAGES_PER_SEGMENT) SLRU_PAGES_PER_SEGMENT = segno.
Proof. apply Z.quot_mul. discriminate. Qed.

Lemma to_int64_small z : is_int64 z -> to_int64 z = z.
Proof.
  unfold is_int64, to_int64, u64, TWO63, TWO64. intros H.
  destruct (Z.ltb_spec (z mod 18446744073709551616) 9223372036854775808);
    Z.div_mod_to_equations; lia.
Qed.

(** The page [SlruScanDirectory] computes for an entry is a multiple of
    SLRU_PAGES_PER_SEGMENT also when the product has wrapped: it is the
    first page of the segment the delete callbacks derive from it. *)
Lemma unlinked_segment_page segno :
  unlinked_segment segno * SLRU_PAGES_PER_SEGMENT
  = to_int64 (segno * SLRU_PAGES_PER_SEGMENT).
Proof.
  unfold unlinked_segment, to_int64, u64, TWO63, TWO64, SLRU_PAGES_PER_SEGMENT.
  replace ((segno * 32) mod 18446744073709551616)
    with ((segno mod 576460752303423488) * 32)
    by (change 18446744073709551616 with (576460752303423488 * 32);
        rewrite Z.mul_mod_distr_r by discriminate; reflexivity).
  set (t := segno mod 576460752303423488).
  destruct (t * 32 <? 9223372036854775808).
  - rewrite Z.quot_mul by discriminate. reflexivity.
  - replace (t * 32 - 18446744073709551616)
      with ((t - 576460752303423488) * 32) by lia.
    rewrite Z.quot_mul by discriminate. reflexivity.
Qed.

(** The product does not wrap for a segment that holds pages. *)
Lemma unlinked_segment_small segno :
  holds_pages segno -> unlinked_segment segno = segno.
Proof.
  intros H. unfold unlinked_segment.
  rewrite to_int64_small by exact H. apply quot_segment.
Qed.

Lemma holds_pages_quot pageno :
  is_int64 pageno -> holds_pages (Z.quot pageno SLRU_PAGES_PER_SEGMENT).
Proof.
  unfold holds_pages, is_int64, TWO63, SLRU_PAGES_PER_SEGMENT. intros H.
  Z.to_euclidean_division_equations. lia.
Qed.

(** The test a delete callback makes on the page of the scan is the
    test of the segment it unlinks. *)
Lemma may_delete_scanned ctl cutoff segno :
  SlruMayDeleteSegment ctl (to_int64 (segno * SLRU_PAGES_PER_SEGMENT)) cutoff
  = may_delete_segno ctl cutoff (unlinked_segment segno).
Proof. unfold may_delete_segno. rewrite unlinked_segment_page. reflexivity. Qed.

Lemma scan_delete_cutoff_unlinks ctl cutoff entries :
  forall sh,
    trace_ok (unlink_allowed (Dir ctl) (may_delete_segno ctl cutoff))
      (scan_entries (SlruScanDirCbDeleteCutoff ctl cutoff) entries sh).
Proof.
  induction entries as [|segno rest IH]; intros sh; cbn [scan_entries].
  - apply trace_ok_nil. reflexivity.
  - unfold SlruScanDirCbDeleteCutoff at 1, SlruInternalDeleteSegment.
    rewrite may_delete_scanned. fold (unlinked_segment segno).
    destruct (may_delete_segno ctl cutoff (unlinked_segment segno)) eqn:E.
    + trace_steps ltac:(first [apply IH
        | intros s Hs; injection Hs as <-; exact E ]).
    + trace_steps ltac:(first [apply IH | exact I]).
Qed.

Lemma SimpleLruTruncate_unlinks ctl cutoff fuel :
  forall sh,
    trace_ok (unlink_allowed (Dir ctl) (may_delete_segno ctl cutoff))
      (SimpleLruTruncate fuel ctl cutoff sh).
Proof.
  induction fuel as [|fuel IH]; intros sh; cbn [SimpleLruTruncate].
  - apply trace_ok_nil. reflexivity.
  - unfold SlruScanDirectory.
    trace_steps ltac:(first
      [ apply IH
      | apply scan_delete_cutoff_unlinks
      | eapply trace_ok_weaken;
        [apply not_unlink_allowed | apply truncate_slots_no_unlink]
      | intros s Hs; discriminate Hs ]).
Qed.

(* ================================================================== *)
(** * The directory scan of a truncation *)
(* ================================================================== *)

Lemma existsb_eqb_In s l : existsb (Z.eqb s) l = true <-> In s l.
Proof.
  rewrite existsb_exists. split.
  - intros (x & Hx & E). apply Z.eqb_eq in E. subst. assumption.
  - intros H. exists s. split; [assumption | apply Z.eqb_refl].
Qed.

(** The scan of a truncation removes the segments the callback derives
    from the entries, when the cutoff allows it, and no other file. *)
Lemma scan_delete_cutoff_files ctl cutoff entries :
  forall sh,
    res_total
      (fun _ sh' =>
         forall segno,
           dir_lookup (files sh') segno
           = if existsb (fun e => segno =? unlinked_segment e) entries
                && may_delete_segno ctl cutoff segno
             then None else dir_lookup (files sh) segno)
      (fun _ => False)
      (scan_entries (SlruScanDirCbDeleteCutoff ctl cutoff) entries sh).
Proof.
  induction entries as [|e rest IH]; intros sh; cbn [scan_entries].
  - cbn. intros segno. reflexivity.
  - unfold SlruScanDirCbDeleteCutoff at 1, SlruInternalDeleteSegment.
    rewrite may_delete_scanned. fold (unlinked_segment e).
    destruct (may_delete_segno ctl cutoff (unlinked_segment e)) eqn:E.
    + repeat tstep.
      eapply res_total_weaken; [apply IH | | intros ? []].
      intros ? sh' H segno. cbn beta. rewrite H. fields.
      rewrite dir_lookup_remove. cbn [existsb].
      destruct (segno =? unlinked_segment e) eqn:Ese.
      * apply Z.eqb_eq in Ese. subst segno. rewrite E. cbn.
        destruct (existsb _ rest); reflexivity.
      * cbn. reflexivity.
    + repeat tstep.
      eapply res_total_weaken; [apply IH | | intros ? []].
      intros ? sh' H segno. cbn beta. rewrite H. cbn [existsb].
      destruct (segno =? unlinked_segment e) eqn:Ese.
      * apply Z.eqb_eq in Ese. subst segno. rewrite E. cbn.
        rewrite andb_false_r. reflexivity.
      * cbn. reflexivity.
Qed.

(** A segment that holds pages is scanned under its own number. *)
Lemma unlinked_own_segment segno entries :
  holds_pages segno -> In segno entries ->
  existsb (fun e => segno =? unlinked_segment e) entries = true.
Proof.
  intros Hh Hin. apply existsb_exists. exists segno. split; [assumption|].
  rewrite (unlinked_segment_small _ Hh). apply Z.eqb_refl.
Qed.

(** After the scan of a truncation, no file is left of a segment that
    holds pages and that the cutoff allows to delete. *)
Lemma scan_delete_cutoff_gone ctl cutoff sh sh' :
  (forall segno,
      dir_lookup (files sh') segno
      = if existsb (fun e => segno =? unlinked_segment e) (map fst (files sh))
           && may_delete_segno ctl cutoff segno
        then None else dir_lookup (files sh) segno) ->
  forall segno, holds_pages segno -> may_delete_segno ctl cutoff segno = true ->
                dir_lookup (files sh') segno = None.
Proof.
  intros H segno Hh Hm. rewrite H, Hm.
  destruct (existsb _ (map fst (files sh))) eqn:E; [reflexivity|].
  cbn. apply dir_lookup_not_in. intros Hin.
  rewrite (unlinked_own_segment _ _ Hh Hin) in E. discriminate.
Qed.

Lemma SlruScanDirectory_delete_cutoff ctl cutoff sh :
  res_total
    (fun _ sh' =>
       forall segno, holds_pages segno ->
                     may_delete_segno ctl cutoff segno = true ->
                     dir_lookup (files sh') segno = None)
    (fun _ => False)
    (SlruScanDirectory ctl (SlruScanDirCbDeleteCutoff ctl cutoff) sh).
Proof.
  unfold SlruScanDirectory. tstep.
  eapply res_total_weaken; [apply scan_delete_cutoff_files | | intros ? []].
  intros ? sh' H. cbn beta. apply (scan_delete_cutoff_gone ctl cutoff sh sh' H).
Qed.

(** ** SimpleLruTruncate *)

Lemma SimpleLruTruncate_noop ctl cutoff fuel sh :
  PagePrecedes ctl (to_int64 (latest_page_number sh)) cutoff = true ->
  SimpleLruTruncate (S fuel) ctl cutoff sh
  = Done tt sh [EvLog (msg_apparent_wraparound_truncate (Dir ctl))].
Proof.
  intros H. cbn [SimpleLruTruncate]. unfold bind, get. rewrite H. reflexivity.
Qed.

Lemma trunc_step_refl sh : trunc_step sh sh.
Proof. unfold trunc_step. auto. Qed.

Lemma trunc_step_trans sh1 sh2 sh3 :
  trunc_step sh1 sh2 -> trunc_step sh2 sh3 -> trunc_step sh1 sh3.
Proof.
  unfold trunc_step. intros (A1&A2&A3) (B1&B2&B3).
  repeat split; try congruence. intros j. specialize (A3 j). specialize (B3 j). lia.
Qed.

Lemma cache_step_trunc_step sh sh' : cache_step sh sh' -> trunc_step sh sh'.
Proof. intros (H1&_&_&H4&_&H6). repeat split; auto. Qed.

(* ================================================================== *)
(** * SimpleLruTruncate by a backend that is alone *)
(* ================================================================== *)

Lemma switch_bank_lock_state ctl prev cur sh :
  exists tr, switch_bank_lock ctl prev cur sh = Done tt sh tr.
Proof.
  unfold switch_bank_lock. destruct (negb (cur =? prev)); eexists; reflexivity.
Qed.

Lemma trunc_step_set_empty sh k :
  page_status sh k = SLRU_PAGE_VALID -> page_dirty sh k = false ->
  trunc_step sh (set_page_status sh k SLRU_PAGE_EMPTY).
Proof.
  intros Hv Hd. unfold trunc_step, slot_rank. fields.
  repeat split; auto. intros j. unfold upd.
  destruct (j =? k) eqn:E; [lia|]. lia.
Qed.

Lemma truncate_slots_quiet ctl cutoff fuel :
  quiet ctl -> (2 <= fuel)%nat ->
  forall n slotno prevbank sh,
    res_total
      (fun r sh' =>
         trunc_step sh sh' /\ files_kept sh sh'
         /\ (r = inr tt ->
             exists k, slotno <= k < slotno + Z.of_nat n
                       /\ (slot_rank sh' k < slot_rank sh k)%nat))
      (fun sh' => trunc_step sh sh' /\ files_kept sh sh')
      (truncate_slots fuel ctl cutoff n slotno prevbank sh).
Proof.
  intros Hq Hfuel.
  induction n as [|n IH]; intros slotno prevbank sh; cbn [truncate_slots].
  { cbn. split; [apply trunc_step_refl|]. split; [apply files_kept_refl|]. discriminate. }
  apply res_total_bind.
  destruct (switch_bank_lock_state ctl prevbank (SlotGetBankNumber slotno) sh) as [tr ->].
  cbn [res_total]. tstep.
  assert (Hnext : forall sh1,
    trunc_step sh sh1 -> files_kept sh sh1 ->
    res_total
      (fun r sh' =>
         trunc_step sh sh' /\ files_kept sh sh'
         /\ (r = inr tt ->
             exists k, slotno <= k < slotno + Z.of_nat (S n)
                       /\ (slot_rank sh' k < slot_rank sh k)%nat))
      (fun sh' => trunc_step sh sh' /\ files_kept sh sh')
      (truncate_slots fuel ctl cutoff n (slotno + 1) (SlotGetBankNumber slotno) sh1)).
  { intros sh1 Hs1 Hf1.
    eapply res_total_weaken; [apply IH | |].
    - intros r s (Hs & Hf & Hr). cbn beta.
      split; [eapply trunc_step_trans; eassumption|].
      split; [eapply files_kept_trans; eassumption|].
      intros Hrr. destruct (Hr Hrr) as (k & Hk & Hlt).
      exists k. split; [lia|].
      destruct Hs1 as (_&_&Hle). specialize (Hle k). lia.
    - intros s (Hs & Hf). cbn beta.
      split; [eapply trunc_step_trans; eassumption
             | eapply files_kept_trans; eassumption]. }
  destruct (status_eqb (page_status sh slotno) SLRU_PAGE_EMPTY) eqn:He.
  { apply Hnext; [apply trunc_step_refl | apply files_kept_refl]. }
  apply status_eqb_neq in He.
  destruct (negb (PagePrecedes ctl (page_number sh slotno) cutoff)).
  { apply Hnext; [apply trunc_step_refl | apply files_kept_refl]. }
  destruct (status_eqb (page_status sh slotno) SLRU_PAGE_VALID
            && negb (page_dirty sh slotno)) eqn:Hclean.
  { apply andb_true_iff in Hclean. destruct Hclean as [Hv Hd].
    apply status_eqb_eq in Hv. apply negb_true_iff in Hd.
    tstep. apply Hnext; [apply trunc_step_set_empty; assumption|].
    apply files_kept_eq. reflexivity. }
  apply res_total_bind.
  destruct (status_eqb (page_status sh slotno) SLRU_PAGE_VALID) eqn:Hv.
  - apply status_eqb_eq in Hv. cbn in Hclean.
    apply negb_false_iff in Hclean.
    eapply res_total_weaken;
      [apply (SlruInternalWritePage_quiet ctl slotno Hq fuel sh Hfuel) | |].
    + intros [] sh1 ((Hs1 & Hf1) & Hc). cbn beta.
      tstep. cbn [res_total ret].
      split; [apply cache_step_trunc_step; assumption|].
      split; [assumption|]. intros _.
      exists slotno. split; [lia|].
      destruct (Hc Hv) as [Hv1 Hd1].
      unfold slot_rank. rewrite Hv1, Hd1, Hv, Hclean. lia.
    + intros s [Hs1 Hf1]. cbn beta.
      split; [apply cache_step_trunc_step; assumption | assumption].
  - apply status_eqb_neq in Hv.
    destruct (SimpleLruWaitIO_quiet ctl slotno sh Hq) as [tr' ->].
    cbn [res_total]. tstep. cbn [res_total ret].
    split; [apply cache_step_trunc_step; apply wait_result_cache_step|].
    split; [apply files_kept_eq; apply wait_result_files|]. intros _.
    exists slotno. split; [lia|].
    apply wait_result_rank. apply io_in_progress_iff. split; assumption.
Qed.

(** [SimpleLruTruncate] by a backend that is alone, when the safety
    check lets it proceed: it returns (or raises the I/O error of a
    write-back); when it returns, every segment that holds pages and
    that the cutoff allows to delete is gone, and every other segment
    file is still there. *)
Lemma SimpleLruTruncate_quiet ctl cutoff :
  quiet ctl ->
  forall fuel sh,
    (rank_sum sh (Z.to_nat (num_slots sh)) 0 + 3 <= fuel)%nat ->
    PagePrecedes ctl (to_int64 (latest_page_number sh)) cutoff = false ->
    res_total
      (fun _ sh' =>
         (forall segno, holds_pages segno ->
                        may_delete_segno ctl cutoff segno = true ->
                        dir_lookup (files sh') segno = None)
         /\ (forall segno, may_delete_segno ctl cutoff segno = false ->
                           dir_lookup (files sh) segno <> None ->
                           dir_lookup (files sh') segno <> None))
      (fun _ => True)
      (SimpleLruTruncate fuel ctl cutoff sh).
Proof.
  intros Hq. induction fuel as [|fuel IH]; intros sh Hfuel Hlatest; [lia|].
  cbn [SimpleLruTruncate]. tstep. rewrite Hlatest.
  tstep.
  apply res_total_bind.
  eapply res_total_weaken;
    [apply (truncate_slots_quiet ctl cutoff fuel Hq ltac:(lia)) | | auto].
  intros r sh1 (Hs1 & Hf1 & Hr). cbn beta.
  destruct r as [prevbank|[]].
  - tstep. apply res_total_bind. unfold SlruScanDirectory. tstep.
    eapply res_total_weaken; [apply scan_delete_cutoff_files | | intros ? []].
    intros ? sh2 H. cbn beta. cbn [res_total ret]. split.
    + apply (scan_delete_cutoff_gone ctl cutoff sh1 sh2 H).
    + intros segno Hm Hpresent. rewrite H, Hm, andb_false_r.
      apply Hf1. assumption.
  - destruct (Hr eq_refl) as (k & Hk & Hlt).
    destruct Hs1 as (Hn1 & Hl1 & Hle1).
    pose proof (rank_sum_lt sh sh1 (Z.to_nat (num_slots sh)) 0 k Hle1 Hk Hlt) as Hsum.
    eapply res_total_weaken.
    + apply IH; [rewrite Hn1; lia | rewrite Hl1; assumption].
    + intros ? s (H1 & H2). cbn beta. split; [assumption|].
      intros segno Hm Hp. apply H2; [assumption|]. apply Hf1. assumption.
    + auto.
Qed.

(* ================================================================== *)
(** * The page comparisons on whole segments *)
(* ================================================================== *)

(** ** The page comparisons on whole segments *)

Lemma u64_shift x : exists k, u64 x = x + k * TWO64.
Proof.
  exists (- (x / TWO64)). unfold u64.
  pose proof (Z.div_mod x TWO64 ltac:(discriminate)). lia.
Qed.

Lemma mod_shift a k : (a + k * TWO64) mod TWO64 = a mod TWO64.
Proof. apply Z_mod_plus_full. Qed.

(** Both comparisons of a page callback at once: the difference of the
    first items of the two pages lies on the arc of the ring that is
    behind the whole of the second page. *)
Lemma page_arc_iff n x :
  0 < n < TWO63 ->
  (TWO63 <= x mod TWO64 /\ TWO63 <= (x - (n - 1)) mod TWO64)
  <-> TWO63 + (n - 1) <= x mod TWO64.
Proof.
  intros Hn. unfold TWO63, TWO64 in *.
  pose proof (Z.div_mod x (2 ^ 64) ltac:(discriminate)).
  pose proof (Z.mod_pos_bound x (2 ^ 64) eq_refl).
  pose proof (Z.div_mod (x - (n - 1)) (2 ^ 64) ltac:(discriminate)).
  pose proof (Z.mod_pos_bound (x - (n - 1)) (2 ^ 64) eq_refl).
  change (2 ^ 64) with 18446744073709551616 in *.
  change (2 ^ 63) with 9223372036854775808 in *.
  lia.
Qed.

(** A walk of less than half the ring that starts and ends on the arc
    stays on it. *)
Lemma arc_walk lo x d D :
  TWO63 <= lo -> 0 <= d <= D -> D < TWO63 ->
  lo <= x mod TWO64 -> lo <= (x + D) mod TWO64 ->
  lo <= (x + d) mod TWO64.
Proof.
  unfold TWO63, TWO64. intros Hlo Hd HD H0 H1.
  pose proof (Z.div_mod x (2 ^ 64) ltac:(discriminate)).
  pose proof (Z.mod_pos_bound x (2 ^ 64) eq_refl).
  pose proof (Z.div_mod (x + D) (2 ^ 64) ltac:(discriminate)).
  pose proof (Z.mod_pos_bound (x + D) (2 ^ 64) eq_refl).
  pose proof (Z.div_mod (x + d) (2 ^ 64) ltac:(discriminate)).
  pose proof (Z.mod_pos_bound (x + d) (2 ^ 64) eq_refl).
  change (2 ^ 64) with 18446744073709551616 in *.
  change (2 ^ 63) with 9223372036854775808 in *.
  lia.
Qed.

(** Arithmetic modulo 2^64 sees through the wrap-around of the
    intermediate results. *)
Lemma TWO64_nonzero : TWO64 <> 0.
Proof. discriminate. Qed.

#[local] Instance cong64_equiv : Equivalence cong64.
Proof. split; unfold cong64; congruence. Qed.

#[local] Instance cong64_add : Proper (cong64 ==> cong64 ==> cong64) Z.add.
Proof.
  intros a b H c d H'. unfold cong64 in *.
  rewrite (Z.add_mod a), (Z.add_mod b) by apply TWO64_nonzero. congruence.
Qed.

#[local] Instance cong64_sub : Proper (cong64 ==> cong64 ==> cong64) Z.sub.
Proof.
  intros a b H c d H'. unfold cong64 in *.
  rewrite (Zminus_mod a), (Zminus_mod b). congruence.
Qed.

#[local] Instance cong64_mul : Proper (cong64 ==> cong64 ==> cong64) Z.mul.
Proof.
  intros a b H c d H'. unfold cong64 in *.
  rewrite (Z.mul_mod a), (Z.mul_mod b) by apply TWO64_nonzero. congruence.
Qed.

Lemma cong64_u64 x : cong64 (u64 x) x.
Proof. unfold cong64, u64. apply Z.mod_mod. apply TWO64_nonzero. Qed.

Lemma cong64_mod a b : cong64 a b -> a mod TWO64 = b mod TWO64.
Proof. exact (fun H => H). Qed.

Lemma cong64_of_eq a b : a = b -> cong64 a b.
Proof. intros ->. reflexivity. Qed.

#[local] Opaque cong64.

Ltac unwrap_u64 :=
  apply cong64_mod; rewrite !cong64_u64; apply cong64_of_eq; ring.

Lemma offset_page_arc p q :
  MultiXactOffsetPagePrecedes p q = true
  <-> TWO63 + 1023 <= ((p - q) * 1024) mod TWO64.
Proof.
  unfold MultiXactOffsetPagePrecedes. cbv zeta.
  rewrite andb_true_iff, !MultiXactIdPrecedes_iff.
  change MULTIXACT_OFFSETS_PER_PAGE with 1024.
  change FirstMultiXactId with 1.
  rewrite <- (page_arc_iff 1024 ((p - q) * 1024)) by (unfold TWO63; lia).
  match goal with |- (_ <= ?a /\ _ <= ?b) <-> (_ <= ?a' /\ _ <= ?b') =>
    replace a with a' by (symmetry; unwrap_u64);
    replace b with b' by (symmetry; unwrap_u64)
  end.
  reflexivity.
Qed.

Lemma member_page_arc p q :
  MultiXactMemberPagePrecedes p q = true
  <-> TWO63 + 903 <= ((p - q) * 904) mod TWO64.
Proof.
  unfold MultiXactMemberPagePrecedes, MultiXactOffsetPrecedes. cbv zeta.
  rewrite andb_true_iff, !Z.ltb_lt, !to_int64_neg_iff.
  change MULTIXACT_MEMBERS_PER_PAGE with 904.
  rewrite <- (page_arc_iff 904 ((p - q) * 904)) by (unfold TWO63; lia).
  match goal with |- (_ <= ?a /\ _ <= ?b) <-> (_ <= ?a' /\ _ <= ?b') =>
    replace a with a' by (symmetry; unwrap_u64);
    replace b with b' by (symmetry; unwrap_u64)
  end.
  reflexivity.
Qed.

Lemma commit_ts_page_arc p q :
  CommitTsPagePrecedes p q = true
  <-> TWO63 + 818 <= ((p - q) * 819) mod TWO64.
Proof.
  unfold CommitTsPagePrecedes. cbv zeta.
  rewrite andb_true_iff, !TransactionIdPrecedes_iff.
  change COMMIT_TS_XACTS_PER_PAGE with 819.
  change FirstNormalTransactionId with 3.
  rewrite <- (page_arc_iff 819 ((p - q) * 819)) by (unfold TWO63; lia).
  match goal with |- (_ <= ?a /\ _ <= ?b) <-> (_ <= ?a' /\ _ <= ?b') =>
    replace a with a' by (symmetry; unwrap_u64);
    replace b with b' by (symmetry; unwrap_u64)
  end.
  reflexivity.
Qed.

(** A segment that the cutoff allows to delete has no page at or after
    the cutoff: with the first and the last page of the segment, every
    page between them precedes the cutoff. *)
Lemma segment_pages_precede precedes segpage cutoff k :
  is_log_page_order precedes ->
  0 <= k < SLRU_PAGES_PER_SEGMENT ->
  precedes segpage cutoff = true ->
  precedes (segpage + SLRU_PAGES_PER_SEGMENT - 1) cutoff = true ->
  precedes (segpage + k) cutoff = true.
Proof.
  change SLRU_PAGES_PER_SEGMENT with 32.
  intros [H|[H|H]] Hk; rewrite !H.
  - rewrite !offset_page_arc. intros H0 H1.
    replace ((segpage + k - cutoff) * 1024)
      with ((segpage - cutoff) * 1024 + k * 1024) by ring.
    apply (arc_walk _ _ _ (31 * 1024)); try (unfold TWO63; lia); [assumption|].
    replace ((segpage - cutoff) * 1024 + 31 * 1024)
      with ((segpage + 32 - 1 - cutoff) * 1024) by ring.
    assumption.
  - rewrite !member_page_arc. intros H0 H1.
    replace ((segpage + k - cutoff) * 904)
      with ((segpage - cutoff) * 904 + k * 904) by ring.
    apply (arc_walk _ _ _ (31 * 904)); try (unfold TWO63; lia); [assumption|].
    replace ((segpage - cutoff) * 904 + 31 * 904)
      with ((segpage + 32 - 1 - cutoff) * 904) by ring.
    assumption.
  - rewrite !commit_ts_page_arc. intros H0 H1.
    replace ((segpage + k - cutoff) * 819)
      with ((segpage - cutoff) * 819 + k * 819) by ring.
    apply (arc_walk _ _ _ (31 * 819)); try (unfold TWO63; lia); [assumption|].
    replace ((segpage - cutoff) * 819 + 31 * 819)
      with ((segpage + 32 - 1 - cutoff) * 819) by ring.
    assumption.
Qed.

(* ================================================================== *)
(** * SimpleLruTruncate *)
(* ================================================================== *)

Lemma res_ok_trivial {S A} (r : Res S A) :
  res_ok (fun _ _ => True) (fun _ => True) r.
Proof. destruct r; exact I. Qed.

Lemma gone_of_lookup ctl cutoff sh :
  (forall segno, holds_pages segno ->
                 may_delete_segno ctl cutoff segno = true ->
                 dir_lookup (files sh) segno = None) ->
  truncated_pages_gone ctl cutoff sh.
Proof.
  intros H pageno Hp Hm. unfold SimpleLruDoesPhysicalPageExist, bind, get.
  rewrite (H _ (holds_pages_quot _ Hp) Hm). reflexivity.
Qed.

Lemma TRUNCATE_FUEL_enough sh fuel :
  (TRUNCATE_FUEL sh <= fuel)%nat ->
  (rank_sum sh (Z.to_nat (num_slots sh)) 0 + 3 <= fuel)%nat.
Proof.
  unfold TRUNCATE_FUEL. intros H.
  pose proof (rank_sum_bound sh (Z.to_nat (num_slots sh)) 0). lia.
Qed.

Lemma may_delete_segno_pages ctl cutoff segno :
  may_delete_segno ctl cutoff segno = true
  <-> PagePrecedes ctl (segno * SLRU_PAGES_PER_SEGMENT) cutoff = true
      /\ PagePrecedes ctl (segno * SLRU_PAGES_PER_SEGMENT
                           + SLRU_PAGES_PER_SEGMENT - 1) cutoff = true.
Proof.
  unfold may_delete_segno, SlruMayDeleteSegment. cbv zeta.
  apply andb_true_iff.
Qed.

Lemma segment_with_later_page_kept ctl cutoff segno k :
  is_log_page_order (PagePrecedes ctl) ->
  0 <= k < SLRU_PAGES_PER_SEGMENT ->
  PagePrecedes ctl (segno * SLRU_PAGES_PER_SEGMENT + k) cutoff = false ->
  may_delete_segno ctl cutoff segno = false.
Proof.
  intros Hord Hk Hp.
  destruct (may_delete_segno ctl cutoff segno) eqn:E; [|reflexivity].
  apply may_delete_segno_pages in E. destruct E as [E0 E1].
  rewrite (segment_pages_precede _ _ _ k Hord Hk E0 E1) in Hp.
  discriminate.
Qed.

Example SimpleLruTruncate_example :
  let r := SimpleLruTruncate (TRUNCATE_FUEL offsets_cache) offsets_ctl 70 offsets_cache in
  segments_on_disk (res_state r) = [2; 3]
  /\ unlinks_of (res_trace r)
     = [EvUnlink "pg_multixact/offsets" 0; EvUnlink "pg_multixact/offsets" 1].
Proof. vm_compute. split; reflexivity. Qed.

(** C3 -- [SimpleLruTruncate] at [cutoffPage] only logs the
    apparent-wraparound message and changes nothing when the latest page
    of the log precedes [cutoffPage].  Whatever the environment does, a
    segment file is removed only if [SlruMayDeleteSegment] holds of it,
    that is if both its first and its last page precede [cutoffPage] in
    the page order of the log; for the page orders of the three logs such
    a segment has no page at or after [cutoffPage].  When the backend
    runs alone and the safety check passes, the call ends, by returning
    or by the I/O error of a write-back; when it returns,
    [SimpleLruDoesPhysicalPageExist] is false for every page whose
    segment lay wholly before [cutoffPage], and every other segment file
    is still there. *)
Theorem SimpleLruTruncate_removes_only_preceding_segments :
  (forall ctl fuel cutoffPage sh,
      PagePrecedes ctl (to_int64 (latest_page_number sh)) cutoffPage = true ->
      SimpleLruTruncate (S fuel) ctl cutoffPage sh
      = Done tt sh [EvLog (msg_apparent_wraparound_truncate (Dir ctl))])
  /\ (forall ctl fuel cutoffPage sh,
         trace_ok (unlink_allowed (Dir ctl) (may_delete_segno ctl cutoffPage))
           (SimpleLruTruncate fuel ctl cutoffPage sh))
  /\ (forall ctl cutoffPage segno,
         may_delete_segno ctl cutoffPage segno = true
         <-> PagePrecedes ctl (segno * SLRU_PAGES_PER_SEGMENT) cutoffPage = true
             /\ PagePrecedes ctl (segno * SLRU_PAGES_PER_SEGMENT
                                  + SLRU_PAGES_PER_SEGMENT - 1) cutoffPage = true)
  /\ (forall ctl cutoffPage segno k,
         is_log_page_order (PagePrecedes ctl) ->
         0 <= k < SLRU_PAGES_PER_SEGMENT ->
         PagePrecedes ctl (segno * SLRU_PAGES_PER_SEGMENT + k) cutoffPage = false ->
         may_delete_segno ctl cutoffPage segno = false)
  /\ (forall ctl fuel cutoffPage sh,
         quiet ctl -> (TRUNCATE_FUEL sh <= fuel)%nat ->
         PagePrecedes ctl (to_int64 (latest_page_number sh)) cutoffPage = false ->
         res_total
           (fun _ sh' => truncated_pages_gone ctl cutoffPage sh'
                         /\ other_segments_kept ctl cutoffPage sh sh')
           (fun _ => True)
           (SimpleLruTruncate fuel ctl cutoffPage sh)).
Proof.
  split; [intros; apply SimpleLruTruncate_noop; assumption|].
  split; [intros; apply SimpleLruTruncate_unlinks|].
  split; [intros; apply may_delete_segno_pages|].
  split; [intros; eapply segment_with_later_page_kept; eassumption|].
  intros ctl fuel cutoffPage sh Hq Hfuel Hlatest.
  eapply res_total_weaken.
  - apply (SimpleLruTruncate_quiet ctl cutoffPage Hq fuel sh
             (TRUNCATE_FUEL_enough _ _ Hfuel) Hlatest).
  - intros ? sh' [Hgone Hkept]. split.
    + apply gone_of_lookup. assumption.
    + exact Hkept.
  - auto.
Qed.

Lemma quiet_offsets_ctl : quiet offsets_ctl.
Proof. split; intros; reflexivity. Qed.

Lemma SimpleLruTruncate_removes_only_preceding_segments_witness :
  PagePrecedes offsets_ctl (to_int64 (latest_page_number offsets_cache)) 70 = false
  /\ res_total
       (fun _ sh' => truncated_pages_gone offsets_ctl 70 sh'
                     /\ other_segments_kept offsets_ctl 70 offsets_cache sh')
       (fun _ => True)
       (SimpleLruTruncate (TRUNCATE_FUEL offsets_cache) offsets_ctl 70 offsets_cache).
Proof.
  split; [reflexivity|].
  apply (proj2 (proj2 (proj2 (proj2
           SimpleLruTruncate_removes_only_preceding_segments)))).
  - split; intros; reflexivity.
  - apply Nat.le_refl.
  - reflexivity.
Defined.

(* ================================================================== *)
(** * Examples of the page cache *)
(* ================================================================== *)

Lemma cache_wf_empty_cache : cache_wf empty_cache.
Proof.
  split.
  - intros j H. exfalso. apply H. reflexivity.
  - intros i j _ _ H. exfalso. apply H. reflexivity.
Qed.

Lemma read_pages_are_reads pageno n :
  forallb is_read_op (read_pages pageno n) = true.
Proof. revert pageno. induction n; intros; cbn; auto. Qed.

(** Page 5 is zeroed in an empty cache of one bank, then forty other
    pages are read through the same sixteen buffers: page 5 is still in
    the buffer it was given. *)
Example latest_page_survives_reads :
  match SimpleLruZeroPage SLRU_FUEL offsets_ctl 5 empty_cache with
  | Done k sh1 _ =>
      slot_summary (run_ops SLRU_FUEL offsets_ctl (read_pages 100 40) sh1) k
      = Some (SLRU_PAGE_VALID, 5, 5)
  | _ => False
  end.
Proof. vm_compute. reflexivity. Qed.

Lemma SlruSelectLRUPage_spares_latest_page_witness :
  quiet offsets_ctl /\ cache_wf empty_cache
  /\ exists sh1, run_ops SLRU_FUEL offsets_ctl [] empty_cache = Some sh1
       /\ res_total (fun k sh2 => in_bank offsets_ctl 5 k
              /\ exists sh3, run_ops SLRU_FUEL offsets_ctl (read_pages 100 40) sh2 = Some sh3
                             /\ latest_in_slot sh3 k 5)
            (fun _ => True) (SimpleLruZeroPage SLRU_FUEL offsets_ctl 5 sh1).
Proof.
  split; [exact quiet_offsets_ctl|].
  split; [exact cache_wf_empty_cache|].
  apply (proj2 (proj2 SlruSelectLRUPage_spares_latest_page offsets_ctl SLRU_FUEL
                  empty_cache quiet_offsets_ctl (Nat.le_refl _) cache_wf_empty_cache)
           [] (read_pages 100 40) 5).
  - cbn [app read_pages].
    repeat (constructor; [cbn [op_page]; unfold is_int64, TWO63; lia|]).
    constructor.
  - unfold is_int64, TWO63. lia.
  - apply read_pages_are_reads.
Defined.

(* ================================================================== *)
(** * commit_ts.c: the cached last commit and the deactivation *)
(* ================================================================== *)

(** ** Frames *)

Ltac pgfields :=
  cbn [TransamVariables commitTsShared MultiXactState MyProc ProcGlobal
       MXactCache CommitTsSlru MultiXactOffsetSlru MultiXactMemberSlru
       set_TransamVariables set_commitTsShared set_CommitTsSlru
       xidLastCommit dataLastCommit commitTsActive entry_time entry_nodeid
       nextXid xidVacLimit oldestCommitTsXid newestCommitTsXid
       set_oldestCommitTsXid set_newestCommitTsXid] in *.

Lemma commit_ts_frame_refl s : commit_ts_frame s s.
Proof. destruct s; reflexivity. Qed.

Lemma commit_ts_frame_trans s1 s2 s3 :
  commit_ts_frame s1 s2 -> commit_ts_frame s2 s3 -> commit_ts_frame s1 s3.
Proof.
  unfold commit_ts_frame. intros H1 H2. rewrite H2, H1. reflexivity.
Qed.

Lemma commit_ts_frame_set sh s : commit_ts_frame s (set_CommitTsSlru sh s).
Proof. reflexivity. Qed.

Lemma on_CommitTs_frame {A} (m : M SlruShared A) s :
  res_ok (fun _ s' => commit_ts_frame s s') (fun s' => commit_ts_frame s s')
    (on_CommitTs m s).
Proof.
  unfold on_CommitTs, zoom. destruct (m (CommitTsSlru s)); cbn; auto;
    apply commit_ts_frame_set.
Qed.

Lemma set_commit_ts_groups_frame n fuel B ts nodeid :
  forall headxid subxids s,
    res_ok (fun _ s' => commit_ts_frame s s') (fun s' => commit_ts_frame s s')
      (set_commit_ts_groups n fuel B headxid subxids ts nodeid s).
Proof.
  induction n as [|n IH]; intros headxid subxids s; cbn [set_commit_ts_groups].
  - exact I.
  - destruct (same_page_prefix (TransactionIdToCTsPage headxid) subxids) as [group rest].
    apply res_ok_bind. unfold SetXidCommitTsInPage.
    eapply res_ok_weaken; [apply on_CommitTs_frame | | auto].
    intros [] s1 H1. cbn beta.
    destruct rest as [|newhead rest'].
    + cbn. assumption.
    + eapply res_ok_weaken; [apply IH | |];
        intros; eapply commit_ts_frame_trans; eassumption.
Qed.

Lemma bind_Done_inv {S A B} (m : M S A) (k : A -> M S B) s b s2 tr :
  bind m k s = Done b s2 tr ->
  exists a s1 t1 t2, m s = Done a s1 t1 /\ k a s1 = Done b s2 t2 /\ tr = t1 ++ t2.
Proof.
  unfold bind. destruct (m s) as [a s1 t1|e s1 t1|]; try discriminate.
  destruct (k a s1) as [b' s2' t2|e s2' t2|] eqn:E; try discriminate.
  intros H. inversion H; subst. exists a, s1, t1, t2. auto.
Qed.

(** What [TransactionTreeSetCommitTsData] leaves in shared memory when
    it returns with the module active. *)
Lemma TransactionTreeSetCommitTsData_Done fuel B xid subxids ts nodeid s s1 tr :
  commitTsActive (commitTsShared s) = true ->
  TransactionTreeSetCommitTsData fuel B xid subxids ts nodeid s = Done tt s1 tr ->
  exists s0 tr0,
    set_commit_ts_groups (S (List.length subxids)) fuel B xid subxids ts nodeid s
    = Done tt s0 tr0
    /\ commit_ts_frame s s0
    /\ commitTsShared s1 = mkCommitTsShared xid (mkCommitTsEntry ts nodeid) true
    /\ CommitTsSlru s1 = CommitTsSlru s0
    /\ oldestCommitTsXid (TransamVariables s1) = oldestCommitTsXid (TransamVariables s)
    /\ newestCommitTsXid (TransamVariables s1)
       = (if TransactionIdPrecedes (newestCommitTsXid (TransamVariables s))
               (last subxids xid)
          then last subxids xid
          else newestCommitTsXid (TransamVariables s)).
Proof.
  intros Hact H. unfold TransactionTreeSetCommitTsData in H.
  apply bind_Done_inv in H. destruct H as (a & s' & t1 & t2 & Hget & H & ->).
  unfold get in Hget. injection Hget as Ha Hs Ht. subst a s' t1.
  rewrite Hact in H. cbn [negb] in H.
  apply bind_Done_inv in H. destruct H as ([] & s0 & tr0 & t3 & Hg & H & ->).
  pose proof (set_commit_ts_groups_frame (S (List.length subxids)) fuel B ts nodeid
                xid subxids s) as Hframe.
  rewrite Hg in Hframe. cbn in Hframe.
  exists s0, tr0. split; [assumption|]. split; [assumption|].
  unfold LWLockAcquire, LWLockRelease, bind, emit, modify in H.
  injection H as Hs1 Ht3. subst s1 t3.
  rewrite Hframe. pgfields. rewrite Hact.
  destruct (TransactionIdPrecedes (newestCommitTsXid (TransamVariables s))
              (last subxids xid)); pgfields; auto.
Qed.

Lemma normal_is_valid xid :
  TransactionIdIsNormal xid = true -> TransactionIdIsValid xid = true.
Proof.
  unfold TransactionIdIsNormal, TransactionIdIsValid.
  change FirstNormalTransactionId with 3. change InvalidTransactionId with 0.
  intros H. apply Z.leb_le in H. apply negb_true_iff. apply Z.eqb_neq. lia.
Qed.

(** The answer of [TransactionIdGetCommitTsData] from the cached last
    commit. *)
Lemma TransactionIdGetCommitTsData_cached fuel B xid s :
  TransactionIdIsNormal xid = true ->
  commitTsActive (commitTsShared s) = true ->
  xidLastCommit (commitTsShared s) = xid ->
  TransactionIdGetCommitTsData fuel B xid s
  = Done (negb (entry_time (dataLastCommit (commitTsShared s)) =? 0),
          entry_time (dataLastCommit (commitTsShared s)),
          entry_nodeid (dataLastCommit (commitTsShared s)))
      s [EvAcquire CommitTsLock LW_SHARED; EvRelease CommitTsLock].
Proof.
  intros Hn Hact Hlast. unfold TransactionIdGetCommitTsData.
  rewrite (normal_is_valid _ Hn), Hn. cbn [negb].
  unfold bind, LWLockAcquire, LWLockRelease, emit, get, ret.
  rewrite Hact, Hlast, Z.eqb_refl. reflexivity.
Qed.

Lemma TransactionIdGetCommitTsData_disabled fuel B xid s :
  TransactionIdIsNormal xid = true ->
  commitTsActive (commitTsShared s) = false ->
  TransactionIdGetCommitTsData fuel B xid s
  = Raise msg_commit_ts_disabled s [EvAcquire CommitTsLock LW_SHARED].
Proof.
  intros Hn Hact. unfold TransactionIdGetCommitTsData.
  rewrite (normal_is_valid _ Hn), Hn. cbn [negb].
  unfold bind, LWLockAcquire, emit, get, error_commit_ts_disabled, ereport_ERROR.
  rewrite Hact. reflexivity.
Qed.

(** ** Deactivation *)

Lemma filter_twice {A} (f g : A -> bool) l :
  filter f (filter g l) = filter (fun x => g x && f x) l.
Proof.
  induction l as [|a l IH]; cbn; [reflexivity|].
  destruct (g a); cbn; [destruct (f a)|]; rewrite ?IH; reflexivity.
Qed.

Lemma filter_all {A} (f : A -> bool) l :
  (forall x, f x = true) -> filter f l = l.
Proof.
  intros H. induction l as [|a l IH]; cbn; [reflexivity|].
  rewrite H, IH. reflexivity.
Qed.

Lemma filter_none {A} (f : A -> bool) l :
  (forall x, In x l -> f x = false) -> filter f l = [].
Proof.
  induction l as [|a l IH]; cbn; intros H; [reflexivity|].
  rewrite (H a) by auto. apply IH. auto.
Qed.

(** The files a scan with [SlruScanDirCbDeleteAll] leaves in the
    directory [d], [entries] being the segment numbers it was given. *)
Lemma scan_delete_all_files ctl entries :
  forall sh,
    exists tr,
      scan_entries (SlruScanDirCbDeleteAll ctl) entries sh
      = Done false
          (set_files sh
             (filter (fun e => negb (existsb (Z.eqb (fst e))
                                       (map unlinked_segment entries)))
                (files sh)))
          tr
      /\ unlinks_of tr = map (EvUnlink (Dir ctl)) (map unlinked_segment entries).
Proof.
  induction entries as [|e rest IH]; intros sh; cbn [scan_entries map].
  - exists []. cbn [existsb negb]. split; [|reflexivity].
    unfold ret. f_equal. rewrite filter_all by reflexivity.
    destruct sh; reflexivity.
  - unfold SlruScanDirCbDeleteAll at 1, SlruInternalDeleteSegment.
    fold (unlinked_segment e).
    destruct (IH (set_files sh (dir_remove (files sh) (unlinked_segment e))))
      as (tr & Hrun & Htr).
    exists (EvUnlink (Dir ctl) (unlinked_segment e) :: tr).
    unfold bind, modify, emit, ret in *. cbn [app]. rewrite Hrun. split.
    + f_equal. unfold set_files. fields. f_equal.
      unfold dir_remove. rewrite filter_twice.
      apply filter_ext. intros [k f]. cbn.
      destruct (k =? unlinked_segment e); reflexivity.
    + cbn. f_equal. exact Htr.
Qed.

Lemma SlruScanDirectory_delete_all ctl sh :
  exists tr,
    SlruScanDirectory ctl (SlruScanDirCbDeleteAll ctl) sh
    = Done false
        (set_files sh
           (filter (fun e => negb (existsb (Z.eqb (fst e))
                                     (map unlinked_segment (segments_of sh))))
              (files sh)))
        tr
    /\ unlinks_of tr
       = map (EvUnlink (Dir ctl)) (map unlinked_segment (segments_of sh)).
Proof.
  unfold SlruScanDirectory, segments_of.
  destruct (scan_delete_all_files ctl (map fst (files sh)) sh) as (tr & Hrun & Htr).
  exists tr. unfold bind, get. rewrite Hrun. cbn [app]. split; [|assumption].
  reflexivity.
Qed.

Lemma dir_lookup_filter_gone (d : Directory) (keep : Z -> bool) segno :
  (In segno (map fst d) -> keep segno = false) ->
  dir_lookup (filter (fun e => keep (fst e)) d) segno = None.
Proof.
  unfold dir_lookup. induction d as [|[k f] d IH]; cbn; intros H; [reflexivity|].
  destruct (keep k) eqn:Ek; cbn.
  - destruct (k =? segno) eqn:E.
    + apply Z.eqb_eq in E. subst k. rewrite H in Ek by auto. discriminate.
    + apply IH. auto.
  - apply IH. auto.
Qed.

Lemma unlinked_segments_small entries :
  Forall holds_pages entries -> map unlinked_segment entries = entries.
Proof.
  induction 1 as [|e rest He _ IH]; cbn; [reflexivity|].
  rewrite (unlinked_segment_small _ He), IH. reflexivity.
Qed.

(** [DeactivateCommitTs] returns, in any environment; it resets the
    cached last commit and the bounds, and unlinks the segment the
    callback derives from each file of pg_commit_ts. *)
Lemma DeactivateCommitTs_resets B s :
  exists s' tr,
    DeactivateCommitTs B s = Done tt s' tr
    /\ commit_ts_reset s'
    /\ files (CommitTsSlru s')
       = filter (fun e => negb (existsb (Z.eqb (fst e))
                                 (map unlinked_segment (segments_of (CommitTsSlru s)))))
           (files (CommitTsSlru s))
    /\ unlinks_of tr
       = map (EvUnlink "pg_commit_ts")
           (map unlinked_segment (segments_of (CommitTsSlru s))).
Proof.
  unfold DeactivateCommitTs, on_CommitTs, zoom.
  match goal with |- context [SlruScanDirectory ?c ?cb] =>
    pose proof (fun sh => SlruScanDirectory_delete_all c sh) as Hscan end.
  unfold bind at 1 2 3, LWLockAcquire, emit, modify. pgfields.
  unfold bind.
  match goal with |- context [SlruScanDirectory ?c ?cb ?sh] =>
    destruct (Hscan sh) as (tr & Hrun & Htr); rewrite Hrun end.
  unfold LWLockRelease, emit. eexists _, _. split; [reflexivity|].
  split; [|split].
  - unfold commit_ts_reset. pgfields. fields. auto.
  - pgfields. fields. reflexivity.
  - cbn [app unlinks_of filter]. rewrite filter_app. cbn [filter app].
    rewrite app_nil_r. exact Htr.
Qed.

(** No file is left of a segment that holds pages. *)
Lemma delete_all_page_segments_gone (d : Directory) segno :
  holds_pages segno ->
  dir_lookup
    (filter (fun e => negb (existsb (Z.eqb (fst e))
                              (map unlinked_segment (map fst d)))) d) segno
  = None.
Proof.
  intros Hh.
  apply (dir_lookup_filter_gone d
           (fun k => negb (existsb (Z.eqb k) (map unlinked_segment (map fst d))))).
  intros Hin. apply negb_false_iff. apply existsb_exists.
  exists segno. split; [|apply Z.eqb_refl].
  apply in_map_iff. exists segno. split; [|assumption].
  apply unlinked_segment_small. assumption.
Qed.

Lemma delete_all_nothing_left (d : Directory) :
  Forall holds_pages (map fst d) ->
  filter (fun e => negb (existsb (Z.eqb (fst e))
                           (map unlinked_segment (map fst d)))) d
  = [].
Proof.
  intros H. rewrite (unlinked_segments_small _ H).
  apply filter_none. intros [k f] Hin. cbn.
  apply negb_false_iff. apply existsb_exists. exists k. split.
  - apply in_map_iff. exists (k, f). auto.
  - apply Z.eqb_refl.
Qed.

(* ================================================================== *)
(** * Little-endian fields and commit-timestamp entries *)
(* ================================================================== *)

(** ** Little-endian fields of a page *)

Lemma write_le_outside n :
  forall pg off v o,
    o < off \/ off + Z.of_nat n <= o -> write_le n pg off v o = pg o.
Proof.
  induction n as [|n IH]; intros pg off v o Ho; cbn [write_le]; [reflexivity|].
  unfold upd. destruct (o =? off) eqn:E; [apply Z.eqb_eq in E; lia|].
  apply IH. lia.
Qed.

Lemma read_le_ext n :
  forall pg pg' off,
    (forall o, off <= o < off + Z.of_nat n -> pg o = pg' o) ->
    read_le n pg off = read_le n pg' off.
Proof.
  induction n as [|n IH]; intros pg pg' off H; cbn [read_le]; [reflexivity|].
  rewrite (H off) by lia. f_equal. f_equal. apply IH. intros o Ho. apply H. lia.
Qed.

Lemma read_write_le n :
  forall pg off v,
    read_le n (write_le n pg off v) off = v mod 256 ^ Z.of_nat n.
Proof.
  induction n as [|n IH]; intros pg off v.
  - cbn. symmetry. apply Z.mod_1_r.
  - cbn [read_le write_le].
    rewrite (read_le_ext n _ (write_le n pg (off + 1) (v / 256))).
    2:{ intros o Ho. unfold upd.
        destruct (o =? off) eqn:E; [apply Z.eqb_eq in E; lia | reflexivity]. }
    rewrite IH. unfold upd. rewrite Z.eqb_refl.
    rewrite Nat2Z.inj_succ, Z.pow_succ_r by lia.
    rewrite Z.rem_mul_r by (try apply Z.pow_nonzero; lia). reflexivity.
Qed.

Lemma read_le_write_le_disjoint n m pg off off' v :
  off' + Z.of_nat m <= off \/ off + Z.of_nat n <= off' ->
  read_le m (write_le n pg off v) off' = read_le m pg off'.
Proof.
  intros H. apply read_le_ext. intros o Ho. apply write_le_outside. lia.
Qed.

Lemma to_int64_u64 z : is_int64 z -> to_int64 (u64 z) = z.
Proof.
  unfold is_int64, to_int64, u64, TWO63, TWO64. intros H.
  rewrite Z.mod_mod by discriminate.
  destruct (Z.ltb_spec (z mod 18446744073709551616) 9223372036854775808);
    Z.div_mod_to_equations; lia.
Qed.

(** ** Entries of a commit-timestamp page *)

Lemma load_store_same pg entryno ts nodeid :
  is_int64 ts -> is_RepOriginId nodeid ->
  load_commit_ts_entry
    (store_commit_ts_entry pg entryno (mkCommitTsEntry ts nodeid)) entryno
  = mkCommitTsEntry ts nodeid.
Proof.
  intros Hts Hn. unfold load_commit_ts_entry, store_commit_ts_entry.
  cbv zeta. cbn [entry_time entry_nodeid]. f_equal.
  - rewrite read_le_write_le_disjoint
      by (change (Z.of_nat 8) with 8; change (Z.of_nat 2) with 2; lia).
    rewrite read_write_le.
    change (256 ^ Z.of_nat 8) with TWO64.
    rewrite (Z.mod_small (u64 ts)) by apply u64_range.
    apply to_int64_u64. assumption.
  - rewrite read_write_le. apply Z.mod_small. exact Hn.
Qed.

Lemma load_store_other pg e e' v :
  e <> e' ->
  load_commit_ts_entry (store_commit_ts_entry pg e v) e'
  = load_commit_ts_entry pg e'.
Proof.
  intros Hne. unfold load_commit_ts_entry, store_commit_ts_entry.
  cbv zeta. change SizeOfCommitTimestampEntry with 10. f_equal.
  - rewrite !read_le_write_le_disjoint
      by (change (Z.of_nat 8) with 8; change (Z.of_nat 2) with 2; lia).
    reflexivity.
  - rewrite !read_le_write_le_disjoint
      by (change (Z.of_nat 8) with 8; change (Z.of_nat 2) with 2; lia).
    reflexivity.
Qed.

Lemma load_store_kept pg e e' ts nodeid :
  is_int64 ts -> is_RepOriginId nodeid ->
  e = e' \/ load_commit_ts_entry pg e' = mkCommitTsEntry ts nodeid ->
  load_commit_ts_entry (store_commit_ts_entry pg e (mkCommitTsEntry ts nodeid)) e'
  = mkCommitTsEntry ts nodeid.
Proof.
  intros Hts Hn H. destruct (Z.eq_dec e e') as [->|Hne].
  - apply load_store_same; assumption.
  - rewrite load_store_other by assumption. destruct H; [contradiction|assumption].
Qed.

(* ================================================================== *)
(** * Recording a commit timestamp *)
(* ================================================================== *)

(** ** Recording a commit timestamp on one page *)

Lemma res_total_zoom {S T A} (proj : S -> T) (inj : T -> S -> S) (m : M T A) s
    (Q : A -> S -> Prop) (E : S -> Prop) :
  res_total (fun a t => Q a (inj t s)) (fun t => E (inj t s)) (m (proj s)) ->
  res_total Q E (zoom proj inj m s).
Proof. unfold zoom. destruct (m (proj s)); cbn; auto. Qed.

Lemma cache_wf_ext sh sh' :
  page_status sh' = page_status sh -> page_number sh' = page_number sh ->
  cache_wf sh -> cache_wf sh'.
Proof.
  unfold cache_wf, no_duplicate_pages. intros Hs Hn [H1 H2].
  rewrite Hs, Hn. split; assumption.
Qed.

Lemma TransactionIdSetCommitTs_recorded xid ts nodeid k sh :
  is_int64 ts -> is_RepOriginId nodeid ->
  res_total
    (fun _ sh' =>
       page_status sh' = page_status sh /\ page_number sh' = page_number sh
       /\ forall y, y = xid \/ commit_ts_recorded sh k y ts nodeid ->
                    commit_ts_recorded sh' k y ts nodeid)
    (fun _ => False)
    (TransactionIdSetCommitTs xid ts nodeid k sh).
Proof.
  intros Hts Hn. unfold TransactionIdSetCommitTs, modify. cbn [res_total].
  split; [reflexivity|]. split; [reflexivity|].
  intros y Hy. unfold commit_ts_recorded. fields. unfold upd.
  rewrite Z.eqb_refl. apply load_store_kept; try assumption.
  destruct Hy as [->|Hy]; [left; reflexivity | right; exact Hy].
Qed.

Lemma set_subxids_commit_ts_recorded ts nodeid k :
  is_int64 ts -> is_RepOriginId nodeid ->
  forall subxids sh,
    res_total
      (fun _ sh' =>
         page_status sh' = page_status sh /\ page_number sh' = page_number sh
         /\ forall y, In y subxids \/ commit_ts_recorded sh k y ts nodeid ->
                      commit_ts_recorded sh' k y ts nodeid)
      (fun _ => False)
      (set_subxids_commit_ts subxids ts nodeid k sh).
Proof.
  intros Hts Hn. induction subxids as [|x rest IH]; intros sh;
    cbn [set_subxids_commit_ts].
  - cbn. split; [reflexivity|]. split; [reflexivity|].
    intros y [[]|H]. exact H.
  - apply res_total_bind.
    eapply res_total_weaken;
      [apply TransactionIdSetCommitTs_recorded; assumption | | auto].
    intros [] sh1 (Hs1 & Hn1 & Hr1). cbn beta.
    eapply res_total_weaken; [apply IH | | auto].
    intros [] sh2 (Hs2 & Hn2 & Hr2). cbn beta.
    split; [congruence|]. split; [congruence|].
    intros y Hy. apply Hr2. destruct Hy as [[<-|Hin]|Hrec].
    + right. apply Hr1. left. reflexivity.
    + left. assumption.
    + right. apply Hr1. right. assumption.
Qed.

Lemma CTsPage_is_int64 xid : is_uint64 xid -> is_int64 (TransactionIdToCTsPage xid).
Proof.
  unfold is_uint64, is_int64, TransactionIdToCTsPage, TWO63, TWO64.
  change COMMIT_TS_XACTS_PER_PAGE with 819. intros H.
  Z.div_mod_to_equations. lia.
Qed.

(** [SetXidCommitTsInPage] by a backend that is alone: it ends, and when
    it returns the page is in a buffer with the entries of the
    transaction and of its subtransactions. *)
Lemma SetXidCommitTsInPage_total fuel B xid subxids ts nodeid pageno s :
  quiet (CommitTsCtl B) -> (SLRU_FUEL <= fuel)%nat ->
  cache_wf (CommitTsSlru s) -> is_int64 pageno ->
  is_int64 ts -> is_RepOriginId nodeid ->
  res_total
    (fun _ s' =>
       commit_ts_frame s s' /\ cache_wf (CommitTsSlru s')
       /\ exists k, slot_readable (CommitTsCtl B) (CommitTsSlru s') pageno k
                    /\ forall y, In y (xid :: subxids) ->
                                 commit_ts_recorded (CommitTsSlru s') k y ts nodeid)
    (fun s' => commit_ts_frame s s' /\ cache_wf (CommitTsSlru s'))
    (SetXidCommitTsInPage fuel B xid subxids ts nodeid pageno s).
Proof.
  intros Hq Hfuel Hwf Hp Hts Hn. unfold SetXidCommitTsInPage, on_CommitTs.
  apply res_total_zoom. pgfields.
  tstep. apply res_total_bind.
  eapply res_total_weaken;
    [apply (SimpleLruReadPage_total (CommitTsCtl B) pageno true xid fuel
              (CommitTsSlru s) Hq Hp Hfuel Hwf) | |].
  2:{ intros sh [Hwf1 _]. split; [apply commit_ts_frame_set | exact Hwf1]. }
  intros k sh1 (Hwf1 & _ & Hbank & Hnum & Hst). cbn beta.
  apply res_total_bind.
  eapply res_total_weaken;
    [apply TransactionIdSetCommitTs_recorded; assumption | | intros ? []].
  intros [] sh2 (Hs2 & Hn2 & Hr2). cbn beta.
  apply res_total_bind.
  eapply res_total_weaken;
    [apply set_subxids_commit_ts_recorded; assumption | | intros ? []].
  intros [] sh3 (Hs3 & Hn3 & Hr3). cbn beta.
  tstep.
  split; [apply commit_ts_frame_set|].
  split.
  - apply (cache_wf_ext sh1); fields; congruence.
  - exists k. split.
    + unfold slot_readable. fields. rewrite Hs3, Hs2, Hn3, Hn2.
      split; [assumption|]. split; [assumption|].
      destruct Hst as [?|[? _]]; auto.
    + intros y Hy. unfold commit_ts_recorded. fields.
      apply Hr3. destruct Hy as [<-|Hin].
      * right. apply Hr2. left. reflexivity.
      * left. assumption.
Qed.

(* ================================================================== *)
(** * Reading a commit timestamp back *)
(* ================================================================== *)

Lemma same_page_prefix_all pageno subxids :
  same_page_prefix pageno subxids = (subxids, []) ->
  forall y, In y subxids -> TransactionIdToCTsPage y = pageno.
Proof.
  induction subxids as [|x rest IH]; cbn [same_page_prefix]; intros H y Hy.
  - destruct Hy.
  - destruct (TransactionIdToCTsPage x =? pageno) eqn:E; cbn [negb] in H.
    2:{ inversion H. }
    destruct (same_page_prefix pageno rest) as [a b] eqn:Er.
    injection H as Ha Hb. subst a b.
    destruct Hy as [<-|Hy]; [apply Z.eqb_eq; exact E | apply IH; auto].
Qed.

(** A transaction tree whose entries are all on one page. *)
Lemma TransactionTreeSetCommitTsData_one_page fuel B xid subxids ts nodeid s :
  quiet (CommitTsCtl B) -> (SLRU_FUEL <= fuel)%nat ->
  cache_wf (CommitTsSlru s) ->
  commitTsActive (commitTsShared s) = true ->
  is_uint64 xid ->
  same_page_prefix (TransactionIdToCTsPage xid) subxids = (subxids, []) ->
  is_int64 ts -> is_RepOriginId nodeid ->
  res_total
    (fun _ s1 =>
       commitTsShared s1 = mkCommitTsShared xid (mkCommitTsEntry ts nodeid) true
       /\ cache_wf (CommitTsSlru s1)
       /\ exists k,
           slot_readable (CommitTsCtl B) (CommitTsSlru s1)
             (TransactionIdToCTsPage xid) k
           /\ forall y, In y (xid :: subxids) ->
                        commit_ts_recorded (CommitTsSlru s1) k y ts nodeid)
    (fun _ => True)
    (TransactionTreeSetCommitTsData fuel B xid subxids ts nodeid s).
Proof.
  intros Hq Hfuel Hwf Hact Hx Hpage Hts Hn.
  unfold TransactionTreeSetCommitTsData. tstep. rewrite Hact. cbn [negb].
  apply res_total_bind. cbn [set_commit_ts_groups]. rewrite Hpage.
  apply res_total_bind.
  eapply res_total_weaken;
    [apply (SetXidCommitTsInPage_total fuel B xid subxids ts nodeid _ s Hq Hfuel Hwf
              (CTsPage_is_int64 _ Hx) Hts Hn) | | auto].
  intros [] s0 (Hframe & Hwf0 & k & Hk & Hrec). cbn beta. cbn [res_total ret].
  tstep. tstep. tstep.
  rewrite Hframe. pgfields. rewrite Hact.
  assert (Hgoal : forall s1,
             commitTsShared s1 = mkCommitTsShared xid (mkCommitTsEntry ts nodeid) true ->
             CommitTsSlru s1 = CommitTsSlru s0 ->
             commitTsShared s1 = mkCommitTsShared xid (mkCommitTsEntry ts nodeid) true
             /\ cache_wf (CommitTsSlru s1)
             /\ exists k,
                 slot_readable (CommitTsCtl B) (CommitTsSlru s1)
                   (TransactionIdToCTsPage xid) k
                 /\ forall y, In y (xid :: subxids) ->
                              commit_ts_recorded (CommitTsSlru s1) k y ts nodeid).
  { intros s1 H1 H2. rewrite H2. split; [assumption|]. split; [assumption|].
    exists k. split; assumption. }
  match goal with |- context [if ?c then _ else _] => destruct c end;
    apply Hgoal; reflexivity.
Qed.

(** ** Reading an entry back through the page cache *)

Lemma find_readable_slot_found ctl sh pageno k :
  cache_wf sh -> slot_readable ctl sh pageno k ->
  forall n start,
    (forall i, start <= i < start + Z.of_nat n -> in_bank ctl pageno i) ->
    start <= k < start + Z.of_nat n ->
    find_readable_slot sh pageno n start = Some k.
Proof.
  intros [_ Hdup] (Hbank & Hnum & Hst).
  assert (Hne : page_status sh k <> SLRU_PAGE_EMPTY)
    by (destruct Hst as [-> | ->]; discriminate).
  assert (Hnr : page_status sh k <> SLRU_PAGE_READ_IN_PROGRESS)
    by (destruct Hst as [-> | ->]; discriminate).
  induction n as [|n IH]; intros start Hin Hk; [lia|].
  cbn [find_readable_slot].
  destruct (Z.eq_dec start k) as [->|Hsk].
  - rewrite Hnum, Z.eqb_refl.
    destruct (page_status sh k); try contradiction; try reflexivity;
      destruct Hst; discriminate.
  - destruct (negb (status_eqb (page_status sh start) SLRU_PAGE_EMPTY)
              && (page_number sh start =? pageno)
              && negb (status_eqb (page_status sh start) SLRU_PAGE_READ_IN_PROGRESS))
      eqn:E.
    + exfalso. apply andb_true_iff in E. destruct E as [E _].
      apply andb_true_iff in E. destruct E as [E1 E2].
      apply negb_true_iff in E1. apply status_eqb_neq in E1.
      apply Z.eqb_eq in E2.
      apply (Hdup start k); try assumption; try congruence.
      rewrite (in_bank_number ctl pageno start) by (apply Hin; lia).
      rewrite (in_bank_number ctl pageno k) by assumption. reflexivity.
    + apply IH; [intros i Hi; apply Hin; lia | lia].
Qed.

Lemma SimpleLruReadPage_ReadOnly_hit fuel ctl pageno xid sh k :
  cache_wf sh -> slot_readable ctl sh pageno k ->
  SimpleLruReadPage_ReadOnly fuel ctl pageno xid sh
  = Done k (SlruRecentlyUsed sh k)
      [EvAcquire (SimpleLruGetBankLock ctl pageno) LW_SHARED].
Proof.
  intros Hwf Hk. unfold SimpleLruReadPage_ReadOnly.
  unfold bind at 1 2, LWLockAcquire, emit, get.
  rewrite (find_readable_slot_found ctl sh pageno k Hwf Hk).
  - reflexivity.
  - intros i Hi. unfold in_bank, bank_start. unfold BANK_SLOTS in Hi.
    rewrite bank_size_value in *. change (Z.of_nat (Z.to_nat 16)) with 16 in Hi. lia.
  - destruct Hk as [Hb _]. unfold in_bank, bank_start in Hb. unfold BANK_SLOTS.
    rewrite bank_size_value in *. change (Z.of_nat (Z.to_nat 16)) with 16. lia.
Qed.

(** The answer of [TransactionIdGetCommitTsData] from the page of the
    transaction, when it is in a buffer. *)
Lemma TransactionIdGetCommitTsData_buffered fuel B xid s k ts nodeid :
  TransactionIdIsNormal xid = true ->
  commitTsActive (commitTsShared s) = true ->
  xidLastCommit (commitTsShared s) <> xid ->
  commit_ts_in_range s xid = true ->
  cache_wf (CommitTsSlru s) ->
  slot_readable (CommitTsCtl B) (CommitTsSlru s) (TransactionIdToCTsPage xid) k ->
  commit_ts_recorded (CommitTsSlru s) k xid ts nodeid ->
  exists s' tr,
    TransactionIdGetCommitTsData fuel B xid s
    = Done (negb (ts =? 0), ts, nodeid) s' tr.
Proof.
  intros Hn Hact Hlast Hrange Hwf Hk Hrec. unfold TransactionIdGetCommitTsData.
  rewrite (normal_is_valid _ Hn), Hn. cbn [negb].
  unfold bind at 1 2, LWLockAcquire, emit, get.
  rewrite Hact. cbn [negb].
  apply Z.eqb_neq in Hlast. rewrite Hlast.
  unfold commit_ts_in_range in Hrange.
  apply andb_true_iff in Hrange. destruct Hrange as [Hr Hr3].
  apply andb_true_iff in Hr. destruct Hr as [Hr1 Hr2].
  apply negb_true_iff in Hr2, Hr3. rewrite Hr1, Hr2, Hr3. cbn [negb orb].
  unfold bind at 1, LWLockRelease, emit.
  unfold on_CommitTs, zoom, bind at 1.
  rewrite (SimpleLruReadPage_ReadOnly_hit fuel _ _ xid _ k Hwf Hk).
  unfold bind, get, LWLockRelease, emit, ret.
  destruct (SlruRecentlyUsed_fields (CommitTsSlru s) k) as (_&_&_&_&Hbuf&_).
  rewrite Hbuf. unfold commit_ts_recorded in Hrec. rewrite Hrec.
  cbn [entry_time entry_nodeid]. eexists _, _. reflexivity.
Qed.

(* ================================================================== *)
(** * Activation of the commit timestamps *)
(* ================================================================== *)

(** ** Activation after a deactivation *)

Lemma on_CommitTs_ok {A} (m : M SlruShared A) s (Q : A -> PgState -> Prop)
    (E : PgState -> Prop) :
  (forall a sh, Q a (set_CommitTsSlru sh s)) ->
  (forall sh, E (set_CommitTsSlru sh s)) ->
  res_ok Q E (on_CommitTs m s).
Proof.
  intros HQ HE. unfold on_CommitTs, zoom.
  destruct (m (CommitTsSlru s)); cbn; auto.
Qed.

(** When [ActivateCommitTs] returns after a deactivation, the module is
    active, nothing is cached, and both bounds are the next transaction
    id. *)
Lemma ActivateCommitTs_after_reset fuel B s :
  IsBootstrapProcessingMode B = false ->
  commit_ts_reset s ->
  res_ok
    (fun _ s2 =>
       commitTsActive (commitTsShared s2) = true
       /\ xidLastCommit (commitTsShared s2) = InvalidTransactionId
       /\ oldestCommitTsXid (TransamVariables s2) = nextXid (TransamVariables s)
       /\ newestCommitTsXid (TransamVariables s2) = nextXid (TransamVariables s))
    (fun _ => True)
    (ActivateCommitTs fuel B s).
Proof.
  intros Hboot (Hshared & Hold & Hnew). unfold ActivateCommitTs.
  rewrite Hboot. ostep. ostep. rewrite Hshared. pgfields.
  repeat ostep. pgfields. rewrite Hold.
  change (InvalidTransactionId =? InvalidTransactionId) with true. cbv iota.
  unfold ReadNextTransactionId, ReadNextFullTransactionId, XidFromFullTransactionId.
  repeat ostep. apply on_CommitTs_ok; [|auto].
  intros exists_ sh2. apply res_ok_bind.
  assert (Hrest : forall s3 : PgState,
    commitTsShared s3 = commitTsShared s ->
    oldestCommitTsXid (TransamVariables s3) = nextXid (TransamVariables s) ->
    newestCommitTsXid (TransamVariables s3) = nextXid (TransamVariables s) ->
    res_ok
    (fun _ s2 =>
       commitTsActive (commitTsShared s2) = true
       /\ xidLastCommit (commitTsShared s2) = InvalidTransactionId
       /\ oldestCommitTsXid (TransamVariables s2) = nextXid (TransamVariables s)
       /\ newestCommitTsXid (TransamVariables s2) = nextXid (TransamVariables s))
    (fun _ => True)
    ((LWLockAcquire CommitTsLock LW_EXCLUSIVE;;;
      modify (fun s => set_commitTsShared
                (mkCommitTsShared (xidLastCommit (commitTsShared s))
                   (dataLastCommit (commitTsShared s)) true) s);;;
      LWLockRelease CommitTsLock) s3)).
  { intros s3 H1 H2 H3. ostep. ostep. pgfields. rewrite H1, Hshared. pgfields. auto. }
  unfold when. destruct (negb exists_).
  - apply on_CommitTs_ok; [|auto]. intros [] sh3.
    apply Hrest; pgfields; auto.
  - cbn [res_ok ret]. apply Hrest; pgfields; auto.
Qed.

Lemma SimpleLruZeroAndWritePage_total ctl pageno fuel sh :
  quiet ctl -> (SLRU_FUEL <= fuel)%nat -> cache_wf sh -> is_int64 pageno ->
  res_total (fun _ _ => True) (fun _ => True)
    (SimpleLruZeroAndWritePage fuel ctl pageno sh).
Proof.
  intros Hq Hfuel Hwf Hp. unfold SimpleLruZeroAndWritePage, SimpleLruWritePage.
  assert (H2 : (2 * BANK_SLOTS + 2 <= fuel)%nat) by (unfold SLRU_FUEL in Hfuel; lia).
  tstep. apply res_total_bind.
  eapply res_total_weaken;
    [apply (SimpleLruZeroPage_total ctl pageno fuel sh Hq H2 Hwf Hp) | | auto].
  intros k sh1 _. cbn beta. apply res_total_bind.
  eapply res_total_weaken;
    [apply (SlruInternalWritePage_quiet ctl k Hq fuel sh1);
     unfold SLRU_FUEL in Hfuel; lia | | auto].
  intros [] sh2 _. cbn beta. prim_unfold. exact I.
Qed.

Lemma ActivateCommitTs_returns fuel B s :
  quiet (CommitTsCtl B) -> (SLRU_FUEL <= fuel)%nat ->
  cache_wf (CommitTsSlru s) -> is_uint64 (nextXid (TransamVariables s)) ->
  res_total (fun _ _ => True) (fun _ => True) (ActivateCommitTs fuel B s).
Proof.
  intros Hq Hfuel Hwf Hx. unfold ActivateCommitTs.
  destruct (IsBootstrapProcessingMode B); [exact I|].
  tstep. tstep.
  destruct (commitTsActive (commitTsShared s)); [prim_unfold; exact I|].
  repeat tstep. pgfields.
  set (pageno := TransactionIdToCTsPage
                   (XidFromFullTransactionId (nextXid (TransamVariables s)))).
  assert (Hp : is_int64 pageno) by (apply CTsPage_is_int64; exact Hx).
  eapply res_total_weaken with
    (Q := fun _ s1 => cache_wf (CommitTsSlru s1)) (E := fun _ => True); [| |auto].
  - assert (Hwf1 : cache_wf (set_latest_page_number (CommitTsSlru s) (u64 pageno)))
      by (apply (cache_wf_ext (CommitTsSlru s)); [reflexivity | reflexivity | exact Hwf]).
    destruct (oldestCommitTsXid (TransamVariables s) =? InvalidTransactionId).
    + unfold ReadNextTransactionId, ReadNextFullTransactionId.
      repeat tstep. pgfields. exact Hwf1.
    + cbn [res_total ret]. pgfields. exact Hwf1.
  - intros [] s1 Hwf1. cbn beta.
    tstep. apply res_total_bind. apply res_total_zoom.
    unfold SimpleLruDoesPhysicalPageExist. tstep.
    assert (Hrest : forall s2 : PgState,
      res_total (fun _ _ => True) (fun _ => True)
        ((emit (EvAcquire CommitTsLock LW_EXCLUSIVE);;;
          modify (fun s0 : PgState =>
                    set_commitTsShared
                      (mkCommitTsShared (xidLastCommit (commitTsShared s0))
                         (dataLastCommit (commitTsShared s0)) true) s0);;;
          emit (EvRelease CommitTsLock)) s2)).
    { intros s2. repeat tstep. exact I. }
    assert (Hzero :
      res_total (fun _ s2 => True) (fun _ => True)
        (((on_CommitTs (SimpleLruZeroAndWritePage fuel (CommitTsCtl B) pageno));;;
          emit (EvAcquire CommitTsLock LW_EXCLUSIVE);;;
          modify (fun s0 : PgState =>
                    set_commitTsShared
                      (mkCommitTsShared (xidLastCommit (commitTsShared s0))
                         (dataLastCommit (commitTsShared s0)) true) s0);;;
          emit (EvRelease CommitTsLock)) (set_CommitTsSlru (CommitTsSlru s1) s1))).
    { apply res_total_bind. apply res_total_zoom. pgfields.
      eapply res_total_weaken;
        [apply (SimpleLruZeroAndWritePage_total _ pageno fuel _ Hq Hfuel Hwf1 Hp) | | auto].
      intros [] sh2 _. cbn beta. apply Hrest. }
    destruct (dir_lookup (files (CommitTsSlru s1))
                (Z.quot pageno SLRU_PAGES_PER_SEGMENT)) as [f|].
    + cbn [res_total ret].
      destruct (Z.rem pageno SLRU_PAGES_PER_SEGMENT * BLCKSZ + BLCKSZ <=? f_size f);
        cbn [negb].
      * apply res_total_bind. cbn [res_total ret]. apply Hrest.
      * exact Hzero.
    + cbn [res_total ret negb]. exact Hzero.
Qed.

(* ================================================================== *)
(** * Commit timestamps: round trip and deactivation *)
(* ================================================================== *)

Lemma TransactionIdGetCommitTsData_out_of_range fuel B xid s :
  TransactionIdIsNormal xid = true ->
  commitTsActive (commitTsShared s) = true ->
  xidLastCommit (commitTsShared s) <> xid ->
  commit_ts_in_range s xid = false ->
  TransactionIdGetCommitTsData fuel B xid s
  = Done (false, 0, InvalidRepOriginId) s
      [EvAcquire CommitTsLock LW_SHARED; EvRelease CommitTsLock].
Proof.
  intros Hn Hact Hlast Hrange. unfold TransactionIdGetCommitTsData.
  rewrite (normal_is_valid _ Hn), Hn. cbn [negb].
  unfold bind at 1 2, LWLockAcquire, emit, get.
  rewrite Hact. cbn [negb].
  apply Z.eqb_neq in Hlast. rewrite Hlast.
  unfold commit_ts_in_range in Hrange.
  assert (Hc : negb (TransactionIdIsValid (oldestCommitTsXid (TransamVariables s)))
               || TransactionIdPrecedes xid (oldestCommitTsXid (TransamVariables s))
               || TransactionIdPrecedes (newestCommitTsXid (TransamVariables s)) xid
               = true).
  { destruct (TransactionIdIsValid _), (TransactionIdPrecedes xid _),
      (TransactionIdPrecedes _ xid); cbn in *; congruence. }
  unfold bind, LWLockRelease, emit, ret. rewrite Hc. reflexivity.
Qed.

Lemma reactivated_serves_nothing_old fuel B s s2 xid :
  commitTsActive (commitTsShared s2) = true
  /\ xidLastCommit (commitTsShared s2) = InvalidTransactionId
  /\ oldestCommitTsXid (TransamVariables s2) = nextXid (TransamVariables s)
  /\ newestCommitTsXid (TransamVariables s2) = nextXid (TransamVariables s) ->
  TransactionIdIsNormal xid = true ->
  TransactionIdPrecedes xid (nextXid (TransamVariables s)) = true ->
  TransactionIdGetCommitTsData fuel B xid s2
  = Done (false, 0, InvalidRepOriginId) s2
      [EvAcquire CommitTsLock LW_SHARED; EvRelease CommitTsLock].
Proof.
  intros (Hact & Hlast & Hold & Hnew) Hn Hprec.
  apply TransactionIdGetCommitTsData_out_of_range; try assumption.
  - rewrite Hlast. apply normal_is_valid in Hn.
    unfold TransactionIdIsValid in Hn. apply negb_true_iff in Hn.
    apply Z.eqb_neq in Hn. congruence.
  - unfold commit_ts_in_range. rewrite Hold, Hprec.
    cbn [negb]. rewrite andb_false_r. reflexivity.
Qed.

(** C8 -- With the module active, once [TransactionTreeSetCommitTsData]
    has recorded the timestamp [ts] (not zero) and the origin [nodeid]
    for the normal transaction [xid], [TransactionIdGetCommitTsData xid]
    returns true with [ts] and [nodeid]; run by a backend that is alone,
    the recording ends, and the same answer is given for [xid] and for
    every normal subtransaction of the tree on its page that is within
    [oldestCommitTsXid, newestCommitTsXid].  [DeactivateCommitTs] always
    returns; it resets the cached last commit and the two bounds to
    invalid and removes every segment of pg_commit_ts: no file is left
    of a segment that holds pages, so that no page of the log is on
    disk, and the directory is empty when it held such segments only,
    each of them unlinked under its own number.  (The scan computes the
    first page of a file as an [int64]; for a file whose number is 2^58
    or more, which holds no page, the product wraps, the segment
    [unlinked_segment] gives is unlinked, and the file stays.)  From
    then on [TransactionIdGetCommitTsData] raises the error that the
    module is disabled.  When [ActivateCommitTs] has run after that,
    the answer for a transaction before the next xid is "no data". *)
Theorem commit_ts_round_trip_and_deactivation :
  (forall fuel fuel' B xid subxids ts nodeid s s1 tr,
      commitTsActive (commitTsShared s) = true ->
      TransactionIdIsNormal xid = true -> ts <> 0 ->
      TransactionTreeSetCommitTsData fuel B xid subxids ts nodeid s = Done tt s1 tr ->
      TransactionIdGetCommitTsData fuel' B xid s1
      = Done (true, ts, nodeid) s1
          [EvAcquire CommitTsLock LW_SHARED; EvRelease CommitTsLock])
  /\ (forall fuel B xid subxids ts nodeid s,
         quiet (CommitTsCtl B) -> (SLRU_FUEL <= fuel)%nat ->
         cache_wf (CommitTsSlru s) ->
         commitTsActive (commitTsShared s) = true ->
         is_uint64 xid ->
         same_page_prefix (TransactionIdToCTsPage xid) subxids = (subxids, []) ->
         is_int64 ts -> ts <> 0 -> is_RepOriginId nodeid ->
         res_total
           (fun _ s1 =>
              forall fuel' y,
                In y (xid :: subxids) ->
                TransactionIdIsNormal y = true ->
                y = xid \/ commit_ts_in_range s1 y = true ->
                exists s2 tr,
                  TransactionIdGetCommitTsData fuel' B y s1
                  = Done (true, ts, nodeid) s2 tr)
           (fun _ => True)
           (TransactionTreeSetCommitTsData fuel B xid subxids ts nodeid s))
  /\ (forall B s,
         exists s' tr,
           DeactivateCommitTs B s = Done tt s' tr
           /\ commit_ts_reset s'
           /\ (forall segno, holds_pages segno ->
                             dir_lookup (files (CommitTsSlru s')) segno = None)
           /\ no_page_on_disk (CommitTsCtl B) (CommitTsSlru s')
           /\ unlinks_of tr
              = map (EvUnlink "pg_commit_ts")
                  (map unlinked_segment (segments_of (CommitTsSlru s)))
           /\ (Forall holds_pages (segments_of (CommitTsSlru s)) ->
               files (CommitTsSlru s') = []
               /\ unlinks_of tr
                  = map (EvUnlink "pg_commit_ts") (segments_of (CommitTsSlru s)))
           /\ forall fuel xid,
               TransactionIdIsNormal xid = true ->
               TransactionIdGetCommitTsData fuel B xid s'
               = Raise msg_commit_ts_disabled s' [EvAcquire CommitTsLock LW_SHARED])
  /\ (forall fuel B s,
         IsBootstrapProcessingMode B = false -> commit_ts_reset s ->
         let no_old_data := fun (_ : unit) s2 =>
           forall fuel' xid,
             TransactionIdIsNormal xid = true ->
             TransactionIdPrecedes xid (nextXid (TransamVariables s)) = true ->
             TransactionIdGetCommitTsData fuel' B xid s2
             = Done (false, 0, InvalidRepOriginId) s2
                 [EvAcquire CommitTsLock LW_SHARED; EvRelease CommitTsLock] in
         res_ok no_old_data (fun _ => True) (ActivateCommitTs fuel B s)
         /\ (quiet (CommitTsCtl B) -> (SLRU_FUEL <= fuel)%nat ->
             cache_wf (CommitTsSlru s) -> is_uint64 (nextXid (TransamVariables s)) ->
             res_total no_old_data (fun _ => True) (ActivateCommitTs fuel B s))).
Proof.
  split; [|split; [|split]].
  - intros fuel fuel' B xid subxids ts nodeid s s1 tr Hact Hn Hts Hset.
    destruct (TransactionTreeSetCommitTsData_Done _ _ _ _ _ _ _ _ _ Hact Hset)
      as (s0 & tr0 & _ & _ & Hshared & _).
    rewrite (TransactionIdGetCommitTsData_cached fuel' B xid s1 Hn);
      rewrite Hshared; pgfields; try reflexivity.
    apply Z.eqb_neq in Hts. rewrite Hts. reflexivity.
  - intros fuel B xid subxids ts nodeid s Hq Hfuel Hwf Hact Hx Hpage Hts Hnz Hnode.
    eapply res_total_weaken;
      [apply (TransactionTreeSetCommitTsData_one_page fuel B xid subxids ts nodeid s);
       assumption | | auto].
    intros [] s1 (Hshared & Hwf1 & k & Hk & Hrec) fuel' y Hy Hn Hrange.
    apply Z.eqb_neq in Hnz.
    destruct (Z.eq_dec y xid) as [->|Hne].
    + exists s1. eexists.
      rewrite (TransactionIdGetCommitTsData_cached fuel' B xid s1 Hn);
        rewrite Hshared; pgfields; try reflexivity.
      rewrite Hnz. reflexivity.
    + destruct Hrange as [?|Hrange]; [contradiction|].
      assert (Hpy : TransactionIdToCTsPage y = TransactionIdToCTsPage xid).
      { destruct Hy as [?|Hy]; [congruence|].
        eapply same_page_prefix_all; eassumption. }
      destruct (TransactionIdGetCommitTsData_buffered fuel' B y s1 k ts nodeid)
        as (s2 & tr & Hget); try assumption.
      * rewrite Hshared. reflexivity.
      * rewrite Hshared. pgfields. congruence.
      * rewrite Hpy. assumption.
      * apply Hrec. assumption.
      * exists s2, tr. rewrite Hget, Hnz. reflexivity.
  - intros B s.
    destruct (DeactivateCommitTs_resets B s) as (s' & tr & Hrun & Hreset & Hfiles & Htr).
    assert (Hgone : forall segno, holds_pages segno ->
                      dir_lookup (files (CommitTsSlru s')) segno = None).
    { intros segno Hh. rewrite Hfiles.
      apply delete_all_page_segments_gone. exact Hh. }
    exists s', tr. split; [assumption|]. split; [assumption|].
    split; [exact Hgone|]. split; [|split; [assumption|split]].
    + intros pageno Hp. unfold SimpleLruDoesPhysicalPageExist, bind, get.
      rewrite (Hgone _ (holds_pages_quot _ Hp)). reflexivity.
    + intros Hall. split.
      * rewrite Hfiles. apply delete_all_nothing_left. exact Hall.
      * rewrite Htr, (unlinked_segments_small _ Hall). reflexivity.
    + intros fuel xid Hn. apply TransactionIdGetCommitTsData_disabled; [assumption|].
      destruct Hreset as [-> _]. reflexivity.
  - intros fuel B s Hboot Hreset no_old_data.
    assert (Hok : res_ok no_old_data (fun _ => True) (ActivateCommitTs fuel B s)).
    { eapply res_ok_weaken; [apply ActivateCommitTs_after_reset; assumption | | auto].
      intros [] s2 H fuel' xid Hn Hprec.
      eapply reactivated_serves_nothing_old; eassumption. }
    split; [exact Hok|].
    intros Hq Hfuel Hwf Hx.
    eapply res_total_weaken.
    + apply res_total_and_ok;
        [apply ActivateCommitTs_returns; assumption | exact Hok].
    + intros a s2 [_ H]. exact H.
    + auto.
Qed.

Lemma quiet_alone_backend : quiet (CommitTsCtl alone_backend).
Proof. split; intros; reflexivity. Qed.

Lemma commit_ts_round_trip_and_deactivation_witness :
  res_total
    (fun _ s1 =>
       forall fuel' y,
         In y [500; 501; 502] ->
         TransactionIdIsNormal y = true ->
         y = 500 \/ commit_ts_in_range s1 y = true ->
         exists s2 tr,
           TransactionIdGetCommitTsData fuel' alone_backend y s1
           = Done (true, 123456, 7) s2 tr)
    (fun _ => True)
    (TransactionTreeSetCommitTsData SLRU_FUEL alone_backend 500 [501; 502]
       123456 7 example_state)
  /\ Forall holds_pages (segments_of offsets_cache)
  /\ exists s' tr,
       DeactivateCommitTs alone_backend (set_CommitTsSlru offsets_cache example_state)
       = Done tt s' tr
       /\ files (CommitTsSlru s') = []
       /\ unlinks_of tr = map (EvUnlink "pg_commit_ts") [0; 1; 2; 3].
Proof.
  split.
  - apply (proj1 (proj2 commit_ts_round_trip_and_deactivation)).
    + split; intros; reflexivity.
    + apply Nat.le_refl.
    + exact cache_wf_empty_cache.
    + reflexivity.
    + unfold is_uint64, TWO64. lia.
    + reflexivity.
    + unfold is_int64, TWO63. lia.
    + lia.
    + unfold is_RepOriginId. lia.
  - assert (Hall : Forall holds_pages (segments_of offsets_cache)).
    { unfold segments_of. cbn [map fst files offsets_cache].
      repeat (apply Forall_cons;
              [unfold holds_pages, is_int64, TWO63, SLRU_PAGES_PER_SEGMENT; lia|]).
      apply Forall_nil. }
    split; [exact Hall|].
    destruct (proj1 (proj2 (proj2 commit_ts_round_trip_and_deactivation))
                alone_backend (set_CommitTsSlru offsets_cache example_state))
      as (s' & tr & Hrun & _ & _ & _ & _ & Hdir & _).
    exists s', tr. split; [exact Hrun|]. exact (Hdir Hall).
Defined.

(** A file of pg_commit_ts whose number is 2^58 holds no page: the scan
    of [DeactivateCommitTs] computes the page -2^63 for it, the callback
    unlinks the segment -2^58, and the file stays; the segment 3 is
    removed. *)
Example DeactivateCommitTs_example :
  let s := set_CommitTsSlru
             (set_files empty_cache
                [(3, full_segment); (288230376151711744, full_segment)])
             example_state in
  let r := DeactivateCommitTs alone_backend s in
  option_map (fun s' => segments_of (CommitTsSlru s')) (res_state r)
  = Some [288230376151711744]
  /\ unlinks_of (res_trace r)
     = [EvUnlink "pg_commit_ts" 3; EvUnlink "pg_commit_ts" (-288230376151711744)].
Proof. vm_compute. split; reflexivity. Qed.

(** The timestamp 123456 and the origin 7 are recorded for transaction
    500 and its subtransactions 501 and 502; they are read back for 501
    from the page and for 500 from the cached last commit; after the
    deactivation the call raises the error. *)
Example commit_ts_example :
  let set := TransactionTreeSetCommitTsData SLRU_FUEL alone_backend 500 [501; 502]
               123456 7 example_state in
  res_value (and_then set (TransactionIdGetCommitTsData SLRU_FUEL alone_backend 501))
  = Some (true, 123456, 7)
  /\ res_value (and_then set (TransactionIdGetCommitTsData SLRU_FUEL alone_backend 500))
     = Some (true, 123456, 7)
  /\ res_error
       (and_then (and_then set (DeactivateCommitTs alone_backend))
          (TransactionIdGetCommitTsData SLRU_FUEL alone_backend 501))
     = Some msg_commit_ts_disabled.
Proof. vm_compute. repeat split; reflexivity. Qed.

(* ================================================================== *)
(** * The events of the page cache *)
(* ================================================================== *)

(** ** The events of the page cache *)

Lemma SimpleLruWaitIO_cache_events ctl k sh :
  trace_ok cache_event (SimpleLruWaitIO ctl k sh).
Proof. unfold SimpleLruWaitIO. trace_steps ltac:(exact I). Qed.

Lemma wait_write_in_progress_cache_events ctl k p fuel :
  forall sh, trace_ok cache_event (wait_write_in_progress fuel ctl k p sh).
Proof.
  induction fuel as [|fuel IH]; intros sh; cbn [wait_write_in_progress].
  - apply trace_ok_nil. reflexivity.
  - trace_steps ltac:(first [exact I | apply SimpleLruWaitIO_cache_events | apply IH]).
Qed.

Lemma SlruPhysicalWritePage_cache_events ctl p k sh :
  trace_ok cache_event (SlruPhysicalWritePage ctl p k sh).
Proof. unfold SlruPhysicalWritePage. trace_steps ltac:(exact I). Qed.

Lemma SlruPhysicalReadPage_cache_events ctl p k sh :
  trace_ok cache_event (SlruPhysicalReadPage ctl p k sh).
Proof. unfold SlruPhysicalReadPage. trace_steps ltac:(exact I). Qed.

Lemma SlruInternalWritePage_cache_events fuel ctl k sh :
  trace_ok cache_event (SlruInternalWritePage fuel ctl k sh).
Proof.
  unfold SlruInternalWritePage.
  trace_steps ltac:(first [exact I | apply wait_write_in_progress_cache_events
                          | apply SlruPhysicalWritePage_cache_events]).
Qed.

Lemma SlruSelectLRUPage_cache_events ctl pageno fuel :
  forall sh, trace_ok cache_event (SlruSelectLRUPage fuel ctl pageno sh).
Proof.
  induction fuel as [|fuel IH]; intros sh; cbn [SlruSelectLRUPage].
  - apply trace_ok_nil. reflexivity.
  - apply trace_ok_bind; [apply trace_ok_nil; reflexivity|]. intros sh0 s1.
    destruct (find_page_slot sh0 pageno BANK_SLOTS _);
      [apply trace_ok_nil; reflexivity|].
    destruct (victim_scan _ _ _ _ _ _) as [[slot|v] sh1].
    + trace_steps ltac:(exact I).
    + trace_steps ltac:(first [exact I | apply SimpleLruWaitIO_cache_events
                              | apply SlruInternalWritePage_cache_events
                              | apply IH]).
Qed.

Lemma SimpleLruReadPage_cache_events ctl pageno write_ok xid fuel :
  forall sh, trace_ok cache_event (SimpleLruReadPage fuel ctl pageno write_ok xid sh).
Proof.
  induction fuel as [|fuel IH]; intros sh; cbn [SimpleLruReadPage].
  - apply trace_ok_nil. reflexivity.
  - trace_steps ltac:(first [exact I | apply SlruSelectLRUPage_cache_events
                            | apply SimpleLruWaitIO_cache_events
                            | apply SlruPhysicalReadPage_cache_events
                            | apply IH]).
Qed.


Lemma cache_event_not_bounds e : cache_event e -> not_bounds_event e.
Proof. destruct e as [[] ?|[]| | | | | | | | | | | | | | | | | |]; cbn; auto. Qed.

(* ================================================================== *)
(** * GetMultiXactIdMembers: before the lookup *)
(* ================================================================== *)

(** ** Outcomes behind a prefix of events *)

Lemma bind_after {S A B} (m : M S A) (k : A -> M S B) s a s1 t1 :
  m s = Done a s1 t1 -> bind m k s = after_events t1 (k a s1).
Proof. unfold bind. intros ->. destruct (k a s1); reflexivity. Qed.

Lemma after_events_nil {S A} (r : Res S A) : after_events [] r = r.
Proof. destruct r; reflexivity. Qed.

Lemma after_events_app {S A} t1 t2 (r : Res S A) :
  after_events t1 (after_events t2 r) = after_events (t1 ++ t2) r.
Proof. destruct r; cbn; rewrite ?app_assoc; reflexivity. Qed.

Lemma res_trace_after {S A} tr (r : Res S A) :
  finished r -> res_trace (after_events tr r) = tr ++ res_trace r.
Proof. destruct r; cbn; tauto. Qed.

Lemma res_error_after {S A} tr (r : Res S A) :
  res_error (after_events tr r) = res_error r.
Proof. destruct r; reflexivity. Qed.

Lemma finished_after {S A} tr (r : Res S A) :
  finished (after_events tr r) <-> finished r.
Proof. destruct r; cbn; tauto. Qed.

Ltac mxfields :=
  cbn [MultiXactState nextMXact nextOffset finishedStartup oldestMultiXactId
       oldestMultiXactDB multiVacLimit OldestMemberMXactId OldestVisibleMXactId
       set_MultiXactState set_nextMXact set_nextOffset set_oldestMultiXact
       set_OldestVisibleMXactId MXactCache TransamVariables commitTsShared
       MyProc ProcGlobal CommitTsSlru MultiXactOffsetSlru MultiXactMemberSlru
       set_MXactCache set_MultiXactOffsetSlru set_MultiXactMemberSlru] in *.

(** ** The steps of [GetMultiXactIdMembers] before the lookup *)

Lemma MultiXactIdSetOldestVisible_runs B s :
  exists s1 tr,
    MultiXactIdSetOldestVisible B s = Done tt s1 tr
    /\ Forall (fun e => ~ cache_event e) tr
    /\ oldestMultiXactId (MultiXactState s1) = oldestMultiXactId (MultiXactState s)
    /\ nextMXact (MultiXactState s1) = nextMXact (MultiXactState s)
    /\ nextOffset (MultiXactState s1) = nextOffset (MultiXactState s)
    /\ MXactCache s1 = MXactCache s
    /\ MultiXactOffsetSlru s1 = MultiXactOffsetSlru s
    /\ MultiXactMemberSlru s1 = MultiXactMemberSlru s.
Proof.
  unfold MultiXactIdSetOldestVisible, GetOldestVisibleMXactId,
    SetOldestVisibleMXactId, LWLockAcquire, LWLockRelease, bind, gets, get,
    modify, emit, ret.
  destruct (negb (MultiXactIdIsValid _)); eexists _, _;
    (split; [reflexivity|]); mxfields; cbn [app].
  - split; [|repeat split]. repeat constructor; intros [].
  - split; [constructor | repeat split].
Qed.

Lemma mXactCacheGetById_miss multi s :
  cache_find_by_id multi (MXactCache s) = None ->
  mXactCacheGetById multi s = Done None s [].
Proof. unfold mXactCacheGetById, bind, get. intros ->. reflexivity. Qed.

Lemma mXactCacheGetById_hit multi s entry others :
  cache_find_by_id multi (MXactCache s) = Some (entry, others) ->
  mXactCacheGetById multi s
  = Done (Some (ent_nmembers entry, ent_members entry))
      (set_MXactCache (entry :: others) s) [].
Proof. unfold mXactCacheGetById, bind, get, put, ret. intros ->. reflexivity. Qed.

(** ** The events of the lookup *)

Lemma trace_ok_bind_inv {S A B} (P : Event -> Prop) (m : M S A) (k : A -> M S B) s :
  trace_ok P (m s) ->
  (forall a s1 t1, m s = Done a s1 t1 -> trace_ok P (k a s1)) ->
  trace_ok P (bind m k s).
Proof.
  unfold trace_ok, bind. intros Hm Hk.
  destruct (m s) as [a s1 t1|e s1 t1|]; simpl in *; auto.
  specialize (Hk a s1 t1 eq_refl).
  destruct (k a s1); simpl in *; auto; apply Forall_app; auto.
Qed.

Lemma read_next_offset_events fuel ctl tmpMXact prev_pageno slotno p sh :
  trace_ok cache_event
    (read_next_offset fuel ctl tmpMXact prev_pageno slotno
       (SimpleLruGetBankLock ctl p) sh).
Proof.
  unfold read_next_offset.
  trace_steps ltac:(first [exact I | apply SimpleLruReadPage_cache_events]).
Qed.

(** The lock [read_next_offset] hands back is a bank lock of the log. *)
Lemma read_next_offset_lock fuel ctl tmpMXact prev_pageno slotno p sh v l sh' tr :
  read_next_offset fuel ctl tmpMXact prev_pageno slotno
    (SimpleLruGetBankLock ctl p) sh = Done (v, l) sh' tr ->
  exists p', l = SimpleLruGetBankLock ctl p'.
Proof.
  unfold read_next_offset. intros Hr.
  apply bind_Done_inv in Hr. destruct Hr as ([k l0] & s1 & t1 & t2 & Hr & Hrest & _).
  assert (Hl0 : exists p', l0 = SimpleLruGetBankLock ctl p').
  { match type of Hr with (if ?c then _ else _) _ = _ => destruct c end.
    - apply bind_Done_inv in Hr. destruct Hr as (? & ? & ? & ? & _ & Hr & _).
      apply bind_Done_inv in Hr. destruct Hr as (? & ? & ? & ? & _ & Hr & _).
      unfold ret in Hr. injection Hr as _ Hl _ _. eauto.
    - unfold ret in Hr. injection Hr as _ Hl _ _. eauto. }
  unfold bind, get, ret in Hrest. injection Hrest as _ Hl _ _. subst l. exact Hl0.
Qed.

Lemma get_members_length_events fuel B multi nextMXact_ nextOffset_ s :
  trace_ok cache_event (get_members_length fuel B multi nextMXact_ nextOffset_ s).
Proof.
  unfold get_members_length, on_MultiXactOffset. apply trace_ok_zoom.
  apply trace_ok_bind; [apply trace_ok_emit; exact I|]. intros _ s0.
  apply trace_ok_bind; [apply SimpleLruReadPage_cache_events|]. intros slotno s1.
  apply trace_ok_bind; [apply trace_ok_nil; reflexivity|]. intros sh s2.
  destruct (read_offset_entry sh slotno (MultiXactIdToOffsetEntry multi) =? 0);
    [apply trace_ok_nil; reflexivity|].
  destruct (nextMXact_ =? u64 (multi + 1)); [trace_steps ltac:(exact I)|].
  apply trace_ok_bind_inv.
  - apply read_next_offset_events.
  - intros [z l] s3 t3 Hr.
    destruct (read_next_offset_lock _ _ _ _ _ _ _ _ _ _ _ Hr) as [p ->].
    trace_steps ltac:(exact I).
Qed.

Lemma get_members_retry_events fuel B multi nextMXact_ nextOffset_ n :
  forall s,
    trace_ok not_bounds_event
      (get_members_retry n fuel B multi nextMXact_ nextOffset_ s).
Proof.
  induction n as [|n IH]; intros s; cbn [get_members_retry].
  - apply trace_ok_nil. reflexivity.
  - trace_steps ltac:(first
      [ exact I
      | apply IH
      | apply (trace_ok_weaken cache_event);
        [apply cache_event_not_bounds | apply get_members_length_events] ]).
Qed.

Lemma read_members_events fuel B multi n :
  forall offset prev_pageno slotno acc sh,
    trace_ok cache_event
      (read_members fuel B multi n offset prev_pageno slotno acc sh).
Proof.
  induction n as [|n IH]; intros offset prev_pageno slotno acc sh;
    cbn [read_members].
  - apply trace_ok_nil. reflexivity.
  - trace_steps ltac:(first [exact I | apply SimpleLruReadPage_cache_events | apply IH]).
Qed.

(* ================================================================== *)
(** * GetMultiXactIdMembers: the read of the bounds *)
(* ================================================================== *)

Lemma lookup_members_events fuel B multi nextMXact_ nextOffset_ s :
  trace_ok not_bounds_event (lookup_members fuel B multi nextMXact_ nextOffset_ s).
Proof.
  unfold lookup_members, collect_members, mXactCachePut.
  trace_steps ltac:(first
    [ exact I
    | apply get_members_retry_events
    | apply (trace_ok_weaken cache_event);
      [apply cache_event_not_bounds | apply read_members_events] ]).
Qed.

(** The three events of the read of the bounds. *)
Lemma GetMultiXactIdMembers_to_bounds_check fuel B multi isLockOnly s :
  reaches_bounds_check B multi false isLockOnly s ->
  exists tr1,
    Forall (fun e => ~ cache_event e) tr1
    /\ GetMultiXactIdMembers fuel B multi false isLockOnly s
       = after_events
           (tr1 ++ [EvAcquire MultiXactGenLock LW_SHARED;
                    EvReadMultiBounds (oldestMultiXactId (MultiXactState s))
                      (nextMXact (MultiXactState s))
                      (nextOffset (MultiXactState s));
                    EvRelease MultiXactGenLock])
           (if MultiXactIdPrecedes multi (oldestMultiXactId (MultiXactState s))
            then Raise (msg_multi_no_longer_exists multi)
                   (state_after (MultiXactIdSetOldestVisible B) s) []
            else if negb (MultiXactIdPrecedes multi (nextMXact (MultiXactState s)))
            then Raise (msg_multi_not_created_yet multi)
                   (state_after (MultiXactIdSetOldestVisible B) s) []
            else lookup_members fuel B multi (nextMXact (MultiXactState s))
                   (nextOffset (MultiXactState s))
                   (state_after (MultiXactIdSetOldestVisible B) s)).
Proof.
  intros (Hvalid & _ & Hmiss & Hfast).
  destruct (MultiXactIdSetOldestVisible_runs B s)
    as (s1 & tr1 & Hrun & Htr1 & Ho & Hn & Hoff & Hcache & _).
  unfold state_after in *. rewrite Hrun in *.
  exists tr1. split; [assumption|].
  unfold GetMultiXactIdMembers. rewrite Hvalid. cbn [negb orb].
  rewrite (bind_after _ _ _ _ _ _ (mXactCacheGetById_miss multi s Hmiss)).
  rewrite after_events_nil.
  rewrite (bind_after _ _ _ _ _ _ Hrun).
  unfold GetOldestVisibleMXactId.
  rewrite (bind_after (gets _) _ s1 _ s1 [] eq_refl), after_events_nil.
  rewrite Hfast.
  unfold LWLockAcquire, LWLockRelease.
  rewrite (bind_after (emit _) _ s1 tt s1 _ eq_refl).
  rewrite (bind_after get _ s1 s1 s1 [] eq_refl), after_events_nil.
  rewrite (bind_after (emit _) _ s1 tt s1 _ eq_refl).
  rewrite (bind_after (emit _) _ s1 tt s1 _ eq_refl).
  rewrite !after_events_app. rewrite Ho, Hn, Hoff.
  f_equal.
  - rewrite <- !app_assoc. reflexivity.
  - destruct (MultiXactIdPrecedes multi (oldestMultiXactId (MultiXactState s)));
      [reflexivity|].
    destruct (negb (MultiXactIdPrecedes multi (nextMXact (MultiXactState s))));
      reflexivity.
Qed.

(* ================================================================== *)
(** * GetMultiXactIdMembers: the range check *)
(* ================================================================== *)

Lemma GetMultiXactIdMembers_invalid fuel B multi from_pgupgrade isLockOnly s :
  MultiXactIdIsValid multi = false \/ from_pgupgrade = true ->
  GetMultiXactIdMembers fuel B multi from_pgupgrade isLockOnly s = Done (-1, []) s [].
Proof.
  intros H. unfold GetMultiXactIdMembers.
  destruct H as [-> | ->]; [reflexivity|].
  rewrite orb_true_r. reflexivity.
Qed.

Lemma GetMultiXactIdMembers_cached fuel B multi isLockOnly s entry others :
  MultiXactIdIsValid multi = true ->
  cache_find_by_id multi (MXactCache s) = Some (entry, others) ->
  GetMultiXactIdMembers fuel B multi false isLockOnly s
  = Done (ent_nmembers entry, ent_members entry)
      (set_MXactCache (entry :: others) s) [].
Proof.
  intros Hv Hhit. unfold GetMultiXactIdMembers. rewrite Hv. cbn [negb orb].
  rewrite (bind_after _ _ _ _ _ _ (mXactCacheGetById_hit multi s _ _ Hhit)).
  reflexivity.
Qed.

Lemma GetMultiXactIdMembers_lock_only_too_old fuel B multi s :
  MultiXactIdIsValid multi = true ->
  cache_find_by_id multi (MXactCache s) = None ->
  MultiXactIdPrecedes multi
    (OldestVisibleMXactId
       (MultiXactState (state_after (MultiXactIdSetOldestVisible B) s))
       (MyProcNumber B)) = true ->
  exists s1 tr,
    GetMultiXactIdMembers fuel B multi false true s = Done (-1, []) s1 tr.
Proof.
  intros Hvalid Hmiss Hold.
  destruct (MultiXactIdSetOldestVisible_runs B s) as (s1 & tr1 & Hrun & _).
  unfold state_after in Hold. rewrite Hrun in Hold.
  unfold GetMultiXactIdMembers. rewrite Hvalid. cbn [negb orb].
  rewrite (bind_after _ _ _ _ _ _ (mXactCacheGetById_miss multi s Hmiss)).
  rewrite after_events_nil.
  rewrite (bind_after _ _ _ _ _ _ Hrun).
  unfold GetOldestVisibleMXactId.
  rewrite (bind_after (gets _) _ s1 _ s1 [] eq_refl), after_events_nil.
  rewrite Hold. cbn [andb]. eexists _, _. reflexivity.
Qed.

(** C7 -- When [GetMultiXactIdMembers] gets as far as the bounds check
    (the multixact is valid, not flagged as from pg_upgrade, not in the
    cache of the backend, and the lock-only fast path does not apply), it
    raises "does no longer exist" for a multixact that precedes
    [oldestMultiXactId] and the different error "has not been created
    yet" for one that does not precede [nextMXact]; and whenever it
    ends, its events are: no page access first, then one shared
    acquisition of [MultiXactGenLock] under which [oldestMultiXactId],
    [nextMXact] and [nextOffset] are read, then the lookup, in which the
    lock is not taken and the counters are not read again.  When one of
    the preconditions fails the call returns a result. *)
Theorem GetMultiXactIdMembers_checks_bounds_once :
  (forall fuel B multi isLockOnly s,
      reaches_bounds_check B multi false isLockOnly s ->
      let r := GetMultiXactIdMembers fuel B multi false isLockOnly s in
      let oldestMXact := oldestMultiXactId (MultiXactState s) in
      let nextMXact_ := nextMXact (MultiXactState s) in
      (MultiXactIdPrecedes multi oldestMXact = true ->
       res_error r = Some (msg_multi_no_longer_exists multi))
      /\ (MultiXactIdPrecedes multi oldestMXact = false ->
          MultiXactIdPrecedes multi nextMXact_ = false ->
          res_error r = Some (msg_multi_not_created_yet multi))
      /\ msg_multi_no_longer_exists multi <> msg_multi_not_created_yet multi
      /\ (finished r -> bounds_read_once s (res_trace r)))
  /\ (forall fuel B multi from_pgupgrade isLockOnly s,
         MultiXactIdIsValid multi = false \/ from_pgupgrade = true ->
         GetMultiXactIdMembers fuel B multi from_pgupgrade isLockOnly s
         = Done (-1, []) s [])
  /\ (forall fuel B multi isLockOnly s entry others,
         MultiXactIdIsValid multi = true ->
         cache_find_by_id multi (MXactCache s) = Some (entry, others) ->
         GetMultiXactIdMembers fuel B multi false isLockOnly s
         = Done (ent_nmembers entry, ent_members entry)
             (set_MXactCache (entry :: others) s) [])
  /\ (forall fuel B multi s,
         MultiXactIdIsValid multi = true ->
         cache_find_by_id multi (MXactCache s) = None ->
         MultiXactIdPrecedes multi
           (OldestVisibleMXactId
              (MultiXactState (state_after (MultiXactIdSetOldestVisible B) s))
              (MyProcNumber B)) = true ->
         exists s1 tr,
           GetMultiXactIdMembers fuel B multi false true s = Done (-1, []) s1 tr).
Proof.
  split; [|split; [|split]].
  - intros fuel B multi isLockOnly s Hpre r oldestMXact nextMXact_.
    destruct (GetMultiXactIdMembers_to_bounds_check fuel B multi isLockOnly s Hpre)
      as (tr1 & Htr1 & Heq).
    subst r oldestMXact nextMXact_. rewrite Heq.
    split; [|split; [|split]].
    + intros ->. rewrite res_error_after. reflexivity.
    + intros -> ->. rewrite res_error_after. reflexivity.
    + discriminate.
    + intros Hfin. apply finished_after in Hfin.
      rewrite res_trace_after by assumption.
      eexists tr1, _. split; [rewrite <- app_assoc; reflexivity|].
      split; [assumption|].
      destruct (MultiXactIdPrecedes multi (oldestMultiXactId (MultiXactState s)));
        [constructor|].
      destruct (negb (MultiXactIdPrecedes multi (nextMXact (MultiXactState s))));
        [constructor|].
      apply lookup_members_events.
  - intros. apply GetMultiXactIdMembers_invalid. assumption.
  - intros. apply GetMultiXactIdMembers_cached; assumption.
  - intros. apply GetMultiXactIdMembers_lock_only_too_old; assumption.
Qed.

Lemma GetMultiXactIdMembers_checks_bounds_once_witness :
  res_error (GetMultiXactIdMembers SLRU_FUEL alone_backend 20 false false example_state)
  = Some (msg_multi_not_created_yet 20).
Proof.
  apply (proj1 GetMultiXactIdMembers_checks_bounds_once
           SLRU_FUEL alone_backend 20 false example_state).
  - repeat split; reflexivity.
  - reflexivity.
  - reflexivity.
Defined.

(* ================================================================== *)
(** * GetNewMultiXactId: the offset it hands out *)
(* ================================================================== *)

(** ** The extensions of the multixact logs *)

Lemma on_MultiXactOffset_ok {A} (m : M SlruShared A) s (Q : A -> PgState -> Prop)
    (E : PgState -> Prop) :
  (forall a sh, Q a (set_MultiXactOffsetSlru sh s)) ->
  (forall sh, E (set_MultiXactOffsetSlru sh s)) ->
  res_ok Q E (on_MultiXactOffset m s).
Proof.
  intros HQ HE. unfold on_MultiXactOffset, zoom.
  destruct (m (MultiXactOffsetSlru s)); cbn; auto.
Qed.

Lemma on_MultiXactMember_ok {A} (m : M SlruShared A) s (Q : A -> PgState -> Prop)
    (E : PgState -> Prop) :
  (forall a sh, Q a (set_MultiXactMemberSlru sh s)) ->
  (forall sh, E (set_MultiXactMemberSlru sh s)) ->
  res_ok Q E (on_MultiXactMember m s).
Proof.
  intros HQ HE. unfold on_MultiXactMember, zoom.
  destruct (m (MultiXactMemberSlru s)); cbn; auto.
Qed.

Lemma ExtendMultiXactOffset_frame fuel B multi s :
  res_ok (fun _ s' => MultiXactState s' = MultiXactState s)
         (fun s' => MultiXactState s' = MultiXactState s)
         (ExtendMultiXactOffset fuel B multi s).
Proof.
  unfold ExtendMultiXactOffset.
  destruct (_ && _); [reflexivity|].
  apply on_MultiXactOffset_ok; reflexivity.
Qed.

Lemma extend_member_loop_frame fuel B n :
  forall offset nmembers s,
    res_ok (fun _ s' => MultiXactState s' = MultiXactState s)
           (fun s' => MultiXactState s' = MultiXactState s)
           (extend_member_loop n fuel B offset nmembers s).
Proof.
  induction n as [|n IH]; intros offset nmembers s; cbn [extend_member_loop];
    destruct (nmembers <=? 0); try reflexivity; try exact I.
  apply res_ok_bind.
  eapply res_ok_weaken with (Q := fun _ s' => MultiXactState s' = MultiXactState s);
    [| |intros ? H; exact H].
  - destruct (_ && _); [|reflexivity].
    apply on_MultiXactMember_ok; reflexivity.
  - intros [] s1 H1. cbn beta.
    eapply res_ok_weaken; [apply IH | |]; cbn beta; intros; congruence.
Qed.

Lemma GetNewMultiXactId_offset fuel B nmembers s :
  res_ok
    (fun r s' =>
       exists start,
         offset_reserved nmembers start (snd r) s'
         /\ (MultiXactIdPrecedes
               (if nextMXact (MultiXactState s) <? FirstMultiXactId
                then FirstMultiXactId else nextMXact (MultiXactState s))
               (multiVacLimit (MultiXactState s)) = true
             \/ (forall x, while_unlocked B x = x) ->
             start = nextOffset (MultiXactState s)))
    (fun _ => True)
    (GetNewMultiXactId fuel B nmembers s).
Proof.
  unfold GetNewMultiXactId. destruct (RecoveryInProgress B); [exact I|].
  ostep. ostep. ostep.
  set (s0 := if nextMXact (MultiXactState s) <? FirstMultiXactId
             then set_MultiXactState
                    (set_nextMXact FirstMultiXactId (MultiXactState s)) s
             else s).
  assert (Hoff0 : nextOffset (MultiXactState s0) = nextOffset (MultiXactState s))
    by (subst s0; destruct (_ <? _); reflexivity).
  assert (Hnext0 : nextMXact (MultiXactState s0)
                   = if nextMXact (MultiXactState s) <? FirstMultiXactId
                     then FirstMultiXactId else nextMXact (MultiXactState s))
    by (subst s0; destruct (_ <? _); reflexivity).
  assert (Hvac0 : multiVacLimit (MultiXactState s0) = multiVacLimit (MultiXactState s))
    by (subst s0; destruct (_ <? _); reflexivity).
  rewrite <- Hnext0, <- Hvac0, <- Hoff0. clearbody s0. clear Hoff0 Hnext0 Hvac0.
  assert (Htail : forall result s1,
    (MultiXactIdPrecedes (nextMXact (MultiXactState s0))
       (multiVacLimit (MultiXactState s0)) = true
     \/ (forall x, while_unlocked B x = x) ->
     nextOffset (MultiXactState s1) = nextOffset (MultiXactState s0)) ->
    res_ok
      (fun r s' =>
         exists start,
           offset_reserved nmembers start (snd r) s'
           /\ (MultiXactIdPrecedes (nextMXact (MultiXactState s0))
                 (multiVacLimit (MultiXactState s0)) = true
               \/ (forall x, while_unlocked B x = x) ->
               start = nextOffset (MultiXactState s0)))
      (fun _ => True)
      ((ExtendMultiXactOffset fuel B result;;;
        s <- get;;
        let nextOffset_ := nextOffset (MultiXactState s) in
        let offset := if nextOffset_ =? 0 then 1 else nextOffset_ in
        let nmembers := if nextOffset_ =? 0 then wrap_int (nmembers + 1) else nmembers in
        ExtendMultiXactMember fuel B nextOffset_ nmembers;;;
        START_CRIT_SECTION;;;
        modify (fun s => set_MultiXactState
                  (set_nextMXact (u64 (nextMXact (MultiXactState s) + 1))
                     (MultiXactState s)) s);;;
        modify (fun s => set_MultiXactState
                  (set_nextOffset (u64 (nextOffset (MultiXactState s) + nmembers))
                     (MultiXactState s)) s);;;
        LWLockRelease MultiXactGenLock;;;
        ret (result, offset)) s1)).
  { intros result s1 Hs1. apply res_ok_bind.
    eapply res_ok_weaken; [apply ExtendMultiXactOffset_frame | | auto].
    intros [] s2 H2. cbn beta. ostep. cbv zeta.
    apply res_ok_bind. unfold ExtendMultiXactMember.
    eapply res_ok_weaken; [apply extend_member_loop_frame | | auto].
    intros [] s3 H3. cbn beta. repeat ostep. cbn [snd].
    exists (nextOffset (MultiXactState s2)). split.
    - unfold offset_reserved. split; [|split].
      + destruct (nextOffset (MultiXactState s2) =? 0) eqn:E; [discriminate|].
        apply Z.eqb_neq. exact E.
      + reflexivity.
      + cbn [MultiXactState set_MultiXactState nextOffset set_nextOffset set_nextMXact].
        rewrite H3. reflexivity.
    - intros H. rewrite H2. apply Hs1. exact H. }
  apply res_ok_bind.
  destruct (negb (MultiXactIdPrecedes (nextMXact (MultiXactState s0))
                    (multiVacLimit (MultiXactState s0)))) eqn:Evac.
  - apply negb_true_iff in Evac.
    ostep. apply res_ok_bind.
    eapply res_ok_weaken with (Q := fun _ s' => s' = s0) (E := fun _ => True);
      [| |auto].
    { unfold when. destruct (_ && _); reflexivity. }
    intros [] ? ->. ostep. ostep. ostep.
    apply Htail. intros [H|H]; [congruence|]. rewrite H. reflexivity.
  - cbn [res_ok ret]. apply Htail. reflexivity.
Qed.

(* ================================================================== *)
(** * GetNewMultiXactId returns *)
(* ================================================================== *)

(** ** [GetNewMultiXactId] returns *)

Lemma wrap_int_small z : is_int z -> wrap_int z = z.
Proof.
  unfold is_int, wrap_int. intros H. cbv zeta.
  destruct (Z.ltb_spec (z mod 4294967296) 2147483648);
    Z.div_mod_to_equations; lia.
Qed.

Lemma wrap_int_range z : is_int (wrap_int z).
Proof.
  unfold is_int, wrap_int. cbv zeta.
  destruct (Z.ltb_spec (z mod 4294967296) 2147483648);
    Z.div_mod_to_equations; lia.
Qed.

Lemma OffsetPage_is_int64 multi : is_uint64 multi -> is_int64 (MultiXactIdToOffsetPage multi).
Proof.
  unfold is_uint64, is_int64, MultiXactIdToOffsetPage, TWO63, TWO64.
  change MULTIXACT_OFFSETS_PER_PAGE with 1024. intros H.
  Z.div_mod_to_equations. lia.
Qed.

Lemma MemberPage_is_int64 offset : is_uint64 offset -> is_int64 (MXOffsetToMemberPage offset).
Proof.
  unfold is_uint64, is_int64, MXOffsetToMemberPage, TWO63, TWO64.
  change MULTIXACT_MEMBERS_PER_PAGE with 904. intros H.
  Z.div_mod_to_equations. lia.
Qed.

Lemma SLRU_FUEL_zero_page fuel :
  (SLRU_FUEL <= fuel)%nat -> (2 * BANK_SLOTS + 2 <= fuel)%nat.
Proof. unfold SLRU_FUEL. lia. Qed.

Lemma ExtendMultiXactOffset_total fuel B multi s :
  quiet (MultiXactOffsetCtl B) -> (SLRU_FUEL <= fuel)%nat ->
  multixact_wf s -> is_uint64 multi ->
  res_total (fun _ s' => multixact_wf s') (fun _ => True)
    (ExtendMultiXactOffset fuel B multi s).
Proof.
  intros Hq Hfuel [Hwo Hwm] Hm. unfold ExtendMultiXactOffset.
  destruct (_ && _); [split; assumption|].
  unfold on_MultiXactOffset. apply res_total_zoom. tstep.
  apply res_total_bind.
  eapply res_total_weaken;
    [apply (SimpleLruZeroPage_total _ _ fuel _ Hq (SLRU_FUEL_zero_page _ Hfuel) Hwo
              (OffsetPage_is_int64 _ Hm)) | | auto].
  intros k sh1 (Hwf1 & _). cbn beta. tstep. split; assumption.
Qed.

Lemma extend_member_loop_total fuel B :
  quiet (MultiXactMemberCtl B) -> (SLRU_FUEL <= fuel)%nat ->
  forall n offset nmembers s,
    multixact_wf s -> is_uint64 offset -> is_int nmembers ->
    nmembers <= Z.of_nat n ->
    res_total (fun _ s' => multixact_wf s') (fun _ => True)
      (extend_member_loop n fuel B offset nmembers s).
Proof.
  intros Hq Hfuel.
  induction n as [|n IH]; intros offset nmembers s Hwf Hoff Hint Hn;
    cbn [extend_member_loop];
    destruct (Z.leb_spec nmembers 0) as [Hle|Hgt]; try exact Hwf; [lia|].
  apply res_total_bind.
  eapply res_total_weaken with (Q := fun _ s' => multixact_wf s')
                               (E := fun _ => True); [| |auto].
  - destruct (_ && _); [|exact Hwf].
    destruct Hwf as [Hwo Hwm].
    unfold on_MultiXactMember. apply res_total_zoom. tstep.
    apply res_total_bind.
    eapply res_total_weaken;
      [apply (SimpleLruZeroPage_total _ _ fuel _ Hq (SLRU_FUEL_zero_page _ Hfuel) Hwm
                (MemberPage_is_int64 _ Hoff)) | | auto].
    intros k sh1 (Hwf1 & _). cbn beta. tstep. split; assumption.
  - intros [] s1 Hwf1. cbn beta.
    assert (Hd : 1 <= MULTIXACT_MEMBERS_PER_PAGE - offset mod MULTIXACT_MEMBERS_PER_PAGE
                 <= 904).
    { change MULTIXACT_MEMBERS_PER_PAGE with 904.
      pose proof (Z.mod_pos_bound offset 904 eq_refl). lia. }
    apply IH; try assumption.
    + apply u64_range.
    + apply wrap_int_range.
    + rewrite wrap_int_small; unfold is_int in *; lia.
Qed.

Lemma GetNewMultiXactId_returns fuel B nmembers s :
  alone B -> (SLRU_FUEL <= fuel)%nat -> multixact_wf s ->
  is_uint64 (nextMXact (MultiXactState s)) ->
  is_uint64 (nextOffset (MultiXactState s)) ->
  is_int nmembers -> 0 <= nmembers ->
  res_total (fun _ _ => True) (fun _ => True) (GetNewMultiXactId fuel B nmembers s).
Proof.
  intros (_ & Hqo & Hqm & Hun & _) Hfuel Hwf Hnext Hoff Hint Hpos.
  unfold GetNewMultiXactId. destruct (RecoveryInProgress B); [exact I|].
  tstep. tstep. tstep.
  set (s0 := if nextMXact (MultiXactState s) <? FirstMultiXactId
             then set_MultiXactState
                    (set_nextMXact FirstMultiXactId (MultiXactState s)) s
             else s).
  assert (Hwf0 : multixact_wf s0) by (subst s0; destruct (_ <? _); exact Hwf).
  assert (Hoff0 : is_uint64 (nextOffset (MultiXactState s0)))
    by (subst s0; destruct (_ <? _); exact Hoff).
  assert (Hnext0 : is_uint64 (nextMXact (MultiXactState s0))).
  { subst s0. destruct (_ <? _); [|exact Hnext]. cbn. unfold is_uint64, TWO64.
    change FirstMultiXactId with 1. lia. }
  clearbody s0.
  assert (Htail : forall result,
    is_uint64 result ->
    res_total (fun _ _ => True) (fun _ => True)
      ((ExtendMultiXactOffset fuel B result;;;
        s <- get;;
        let nextOffset_ := nextOffset (MultiXactState s) in
        let offset := if nextOffset_ =? 0 then 1 else nextOffset_ in
        let nmembers := if nextOffset_ =? 0 then wrap_int (nmembers + 1) else nmembers in
        ExtendMultiXactMember fuel B nextOffset_ nmembers;;;
        START_CRIT_SECTION;;;
        modify (fun s => set_MultiXactState
                  (set_nextMXact (u64 (nextMXact (MultiXactState s) + 1))
                     (MultiXactState s)) s);;;
        modify (fun s => set_MultiXactState
                  (set_nextOffset (u64 (nextOffset (MultiXactState s) + nmembers))
                     (MultiXactState s)) s);;;
        LWLockRelease MultiXactGenLock;;;
        ret (result, offset)) s0)).
  { intros result Hres. apply res_total_bind.
    eapply res_total_weaken;
      [apply res_total_and_ok;
       [apply (ExtendMultiXactOffset_total fuel B result s0 Hqo Hfuel Hwf0 Hres)
       |apply ExtendMultiXactOffset_frame] | | auto].
    intros [] s2 [Hwf2 H2]. cbn beta. tstep. cbv zeta.
    apply res_total_bind. unfold ExtendMultiXactMember.
    eapply res_total_weaken;
      [apply (extend_member_loop_total fuel B Hqm Hfuel); try assumption | | auto].
    - rewrite H2. assumption.
    - destruct (_ =? 0); [apply wrap_int_range | assumption].
    - destruct (_ =? 0).
      + pose proof (wrap_int_range (nmembers + 1)) as Hr.
        destruct (Z.leb_spec (wrap_int (nmembers + 1)) 0); [lia|].
        rewrite Z2Nat.id; lia.
      + rewrite Z2Nat.id; lia.
    - intros [] s3 _. cbn beta. repeat tstep. exact I. }
  apply res_total_bind.
  destruct (negb (MultiXactIdPrecedes (nextMXact (MultiXactState s0))
                    (multiVacLimit (MultiXactState s0)))).
  - tstep. apply res_total_bind.
    eapply res_total_weaken with (Q := fun _ s' => s' = s0) (E := fun _ => True);
      [| |auto].
    { unfold when. destruct (_ && _); reflexivity. }
    intros [] ? ->. tstep. tstep. tstep. rewrite Hun.
    apply Htail. destruct (_ <? _); [|assumption].
    unfold is_uint64, TWO64. change FirstMultiXactId with 1. lia.
  - cbn [res_total ret]. apply Htail. assumption.
Qed.

(* ================================================================== *)
(** * GetMultiXactIdMembers: zero offsets *)
(* ================================================================== *)

(** ** Zero offsets and zero members in [GetMultiXactIdMembers] *)

Lemma zoom_after {S T A} (proj : S -> T) inj (m : M T A) s :
  zoom proj inj m s
  = match m (proj s) with
    | Done a t tr => Done a (inj t s) tr
    | Raise e t tr => Raise e (inj t s) tr
    | OutOfFuel => OutOfFuel
    end.
Proof. reflexivity. Qed.

Lemma bind_after_events {S A B} tr (r : Res S A) (k : A -> M S B) :
  match after_events tr r with
  | Done a s1 t1 =>
      match k a s1 with
      | Done b s2 t2 => Done b s2 (t1 ++ t2)
      | Raise e s2 t2 => Raise e s2 (t1 ++ t2)
      | OutOfFuel => OutOfFuel
      end
  | Raise e s1 t1 => Raise e s1 t1
  | OutOfFuel => OutOfFuel
  end
  = after_events tr
      match r with
      | Done a s1 t1 =>
          match k a s1 with
          | Done b s2 t2 => Done b s2 (t1 ++ t2)
          | Raise e s2 t2 => Raise e s2 (t1 ++ t2)
          | OutOfFuel => OutOfFuel
          end
      | Raise e s1 t1 => Raise e s1 t1
      | OutOfFuel => OutOfFuel
      end.
Proof.
  destruct r as [a s1 t1|e s1 t1|]; cbn; try reflexivity.
  destruct (k a s1); cbn; rewrite ?app_assoc; reflexivity.
Qed.

(** The offset of the multixact itself reads as zero: an error. *)
Lemma get_members_length_zero_offset fuel B multi nextMXact_ nextOffset_ s k sh1 tr :
  SimpleLruReadPage fuel (MultiXactOffsetCtl B) (MultiXactIdToOffsetPage multi)
    true multi (MultiXactOffsetSlru s) = Done k sh1 tr ->
  read_offset_entry sh1 k (MultiXactIdToOffsetEntry multi) = 0 ->
  get_members_length fuel B multi nextMXact_ nextOffset_ s
  = Raise (msg_multi_zero_offset multi) (set_MultiXactOffsetSlru sh1 s)
      (EvAcquire (SimpleLruGetBankLock (MultiXactOffsetCtl B)
                    (MultiXactIdToOffsetPage multi)) LW_EXCLUSIVE :: tr).
Proof.
  intros Hread Hzero. unfold get_members_length, on_MultiXactOffset.
  rewrite zoom_after. unfold LWLockAcquire.
  rewrite (bind_after (emit _) _ _ tt _ _ eq_refl).
  rewrite (bind_after _ _ _ _ _ _ Hread).
  rewrite (bind_after get _ sh1 sh1 sh1 [] eq_refl).
  rewrite Hzero. cbn. rewrite app_nil_r. reflexivity.
Qed.

(** The offset of the next multixact reads as zero: no length is
    computed, the bank lock is released and [None] tells the caller to
    sleep. *)
Lemma get_members_length_next_zero fuel B multi nextMXact_ nextOffset_ s
    k sh1 tr lock2 sh2 tr2 :
  SimpleLruReadPage fuel (MultiXactOffsetCtl B) (MultiXactIdToOffsetPage multi)
    true multi (MultiXactOffsetSlru s) = Done k sh1 tr ->
  read_offset_entry sh1 k (MultiXactIdToOffsetEntry multi) <> 0 ->
  nextMXact_ <> u64 (multi + 1) ->
  read_next_offset fuel (MultiXactOffsetCtl B) (next_multi multi)
    (MultiXactIdToOffsetPage multi) k
    (SimpleLruGetBankLock (MultiXactOffsetCtl B) (MultiXactIdToOffsetPage multi))
    sh1 = Done (0, lock2) sh2 tr2 ->
  get_members_length fuel B multi nextMXact_ nextOffset_ s
  = Done None (set_MultiXactOffsetSlru sh2 s)
      (EvAcquire (SimpleLruGetBankLock (MultiXactOffsetCtl B)
                    (MultiXactIdToOffsetPage multi)) LW_EXCLUSIVE
       :: tr ++ tr2 ++ [EvRelease lock2]).
Proof.
  intros Hread Hown Hnext Hread2. unfold get_members_length, on_MultiXactOffset.
  rewrite zoom_after. unfold LWLockAcquire.
  rewrite (bind_after (emit _) _ _ tt _ _ eq_refl).
  rewrite (bind_after _ _ _ _ _ _ Hread).
  rewrite (bind_after get _ sh1 sh1 sh1 [] eq_refl).
  apply Z.eqb_neq in Hown, Hnext. rewrite Hown, Hnext.
  fold (next_multi multi).
  rewrite (bind_after _ _ _ _ _ _ Hread2).
  cbn. reflexivity.
Qed.

(** After [None] the caller sleeps on the condition variable and goes
    back to [retry]. *)
Lemma get_members_retry_sleeps n fuel B multi nextMXact_ nextOffset_ s s1 t1 :
  get_members_length fuel B multi nextMXact_ nextOffset_ s = Done None s1 t1 ->
  get_members_retry (S n) fuel B multi nextMXact_ nextOffset_ s
  = after_events (t1 ++ [EvCVSleep])
      (get_members_retry n fuel B multi nextMXact_ nextOffset_ (while_asleep B s1)).
Proof.
  intros H. cbn [get_members_retry].
  rewrite (bind_after _ _ _ _ _ _ H).
  rewrite (bind_after (emit _) _ _ tt _ _ eq_refl).
  rewrite (bind_after (modify _) _ _ tt _ _ eq_refl).
  rewrite !after_events_app. rewrite app_nil_r. reflexivity.
Qed.

Lemma get_members_retry_zero_offset n fuel B multi nextMXact_ nextOffset_ s k sh1 tr :
  SimpleLruReadPage fuel (MultiXactOffsetCtl B) (MultiXactIdToOffsetPage multi)
    true multi (MultiXactOffsetSlru s) = Done k sh1 tr ->
  read_offset_entry sh1 k (MultiXactIdToOffsetEntry multi) = 0 ->
  res_error (get_members_retry (S n) fuel B multi nextMXact_ nextOffset_ s)
  = Some (msg_multi_zero_offset multi).
Proof.
  intros Hread Hzero. cbn [get_members_retry]. unfold bind.
  rewrite (get_members_length_zero_offset _ _ _ _ _ _ _ _ _ Hread Hzero).
  reflexivity.
Qed.

(* ================================================================== *)
(** * GetMultiXactIdMembers: lengths and members *)
(* ================================================================== *)

Lemma res_ok_after {S A} (Q : A -> S -> Prop) (E : S -> Prop) tr (r : Res S A) :
  res_ok Q E r -> res_ok Q E (after_events tr r).
Proof. destruct r; cbn; auto. Qed.

Lemma res_ok_zoom {S T A} (proj : S -> T) (inj : T -> S -> S) (m : M T A) s
    (Q : A -> S -> Prop) (E : S -> Prop) :
  res_ok (fun a t => Q a (inj t s)) (fun t => E (inj t s)) (m (proj s)) ->
  res_ok Q E (zoom proj inj m s).
Proof. unfold zoom. destruct (m (proj s)); cbn; auto. Qed.

Lemma state_after_oldest_visible B s :
  MultiXactOffsetSlru (state_after (MultiXactIdSetOldestVisible B) s)
  = MultiXactOffsetSlru s
  /\ MultiXactMemberSlru (state_after (MultiXactIdSetOldestVisible B) s)
     = MultiXactMemberSlru s.
Proof.
  destruct (MultiXactIdSetOldestVisible_runs B s)
    as (s1 & tr1 & Hrun & _ & _ & _ & _ & _ & Ho & Hm).
  unfold state_after. rewrite Hrun. split; assumption.
Qed.

(** ** What [get_members_length] computes a length from *)

Lemma get_members_length_result fuel B multi nextMXact_ nextOffset_ s :
  res_ok
    (fun r _ =>
       match r with
       | Some (length, offset) =>
           offset <> 0
           /\ ((nextMXact_ = u64 (multi + 1)
                /\ length = wrap_int (u64 (nextOffset_ - offset)))
               \/ (nextMXact_ <> u64 (multi + 1)
                   /\ exists nextMXOffset,
                       nextMXOffset <> 0
                       /\ length = wrap_int (u64 (nextMXOffset - offset))))
       | None => nextMXact_ <> u64 (multi + 1)
       end)
    (fun _ => True)
    (get_members_length fuel B multi nextMXact_ nextOffset_ s).
Proof.
  unfold get_members_length, on_MultiXactOffset. apply res_ok_zoom.
  ostep. apply res_ok_bind.
  eapply res_ok_weaken with (Q := fun _ _ => True) (E := fun _ => True);
    [apply res_ok_trivial | | auto].
  intros k sh1 _. cbn beta. ostep.
  destruct (read_offset_entry sh1 k (MultiXactIdToOffsetEntry multi) =? 0) eqn:Eown;
    [exact I|].
  apply Z.eqb_neq in Eown.
  destruct (nextMXact_ =? u64 (multi + 1)) eqn:Enext.
  - apply Z.eqb_eq in Enext. ostep. split; [assumption|]. left. auto.
  - apply Z.eqb_neq in Enext. apply res_ok_bind.
    eapply res_ok_weaken with (Q := fun _ _ => True) (E := fun _ => True);
      [apply res_ok_trivial | | auto].
    intros [nextMXOffset lock] sh2 _. cbn beta.
    destruct (nextMXOffset =? 0) eqn:Ez.
    + ostep. assumption.
    + apply Z.eqb_neq in Ez. ostep. split; [assumption|]. right.
      split; [assumption|]. exists nextMXOffset. auto.
Qed.

(** ** Members with an invalid transaction id are left out *)

Lemma read_members_valid fuel B multi n :
  forall offset prev_pageno slotno acc sh,
    Forall (fun m => member_xid m <> InvalidTransactionId) acc ->
    res_ok (fun r _ => Forall (fun m => member_xid m <> InvalidTransactionId) (fst r))
           (fun _ => True)
           (read_members fuel B multi n offset prev_pageno slotno acc sh).
Proof.
  induction n as [|n IH]; intros offset prev_pageno slotno acc sh Hacc;
    cbn [read_members].
  - cbn. apply Forall_rev. assumption.
  - apply res_ok_bind.
    eapply res_ok_weaken with (Q := fun _ _ => True) (E := fun _ => True);
      [apply res_ok_trivial | | auto].
    intros k sh1 _. cbn beta. ostep.
    destruct (negb (TransactionIdIsValid _)) eqn:E.
    + apply IH. assumption.
    + apply IH. constructor; [|assumption]. cbn [member_xid].
      apply negb_false_iff in E. unfold TransactionIdIsValid in E.
      apply negb_true_iff in E. apply Z.eqb_neq in E. exact E.
Qed.

Lemma collect_members_valid fuel B multi lo s :
  res_ok (fun r _ => members_valid r) (fun _ => True)
    (collect_members fuel B multi lo s).
Proof.
  unfold collect_members. destruct lo as [length offset].
  apply res_ok_bind. unfold on_MultiXactMember, zoom.
  pose proof (read_members_valid fuel B multi (Z.to_nat length) offset (-1) 0 []
                (MultiXactMemberSlru s) (Forall_nil _)) as H.
  destruct (read_members _ _ _ _ _ _ _ _ _) as [[members p] sh1 t1|e sh1 t1|];
    cbn in *; auto.
  unfold mXactCachePut. repeat ostep.
  split; [reflexivity | exact H].
Qed.

Lemma lookup_members_valid fuel B multi nextMXact_ nextOffset_ s :
  res_ok (fun r _ => members_valid r) (fun _ => True)
    (lookup_members fuel B multi nextMXact_ nextOffset_ s).
Proof.
  unfold lookup_members. apply res_ok_bind.
  eapply res_ok_weaken with (Q := fun _ _ => True) (E := fun _ => True);
    [apply res_ok_trivial | | auto].
  intros lo s1 _. apply collect_members_valid.
Qed.

Lemma GetMultiXactIdMembers_valid fuel B multi isLockOnly s :
  reaches_bounds_check B multi false isLockOnly s ->
  res_ok (fun r _ => members_valid r) (fun _ => True)
    (GetMultiXactIdMembers fuel B multi false isLockOnly s).
Proof.
  intros Hpre.
  destruct (GetMultiXactIdMembers_to_bounds_check fuel B multi isLockOnly s Hpre)
    as (tr1 & _ & ->).
  apply res_ok_after.
  destruct (MultiXactIdPrecedes multi _); [exact I|].
  destruct (negb _); [exact I|].
  apply lookup_members_valid.
Qed.

(** ** The two zero offsets, seen from [GetMultiXactIdMembers] *)

Lemma GetMultiXactIdMembers_zero_offset n B multi isLockOnly s k sh1 tr :
  reaches_bounds_check B multi false isLockOnly s ->
  within_bounds multi s ->
  SimpleLruReadPage (S n) (MultiXactOffsetCtl B) (MultiXactIdToOffsetPage multi)
    true multi (MultiXactOffsetSlru s) = Done k sh1 tr ->
  read_offset_entry sh1 k (MultiXactIdToOffsetEntry multi) = 0 ->
  res_error (GetMultiXactIdMembers (S n) B multi false isLockOnly s)
  = Some (msg_multi_zero_offset multi).
Proof.
  intros Hpre [Hold Hnext] Hread Hzero.
  destruct (GetMultiXactIdMembers_to_bounds_check (S n) B multi isLockOnly s Hpre)
    as (tr1 & _ & ->).
  rewrite res_error_after, Hold, Hnext. cbn [negb].
  unfold lookup_members, bind.
  destruct (state_after_oldest_visible B s) as [Ho _].
  rewrite <- Ho in Hread.
  pose proof (get_members_retry_zero_offset n (S n) B multi
                (nextMXact (MultiXactState s)) (nextOffset (MultiXactState s))
                _ _ _ _ Hread Hzero) as H.
  destruct (get_members_retry _ _ _ _ _ _ _) as [a s2 t2|e s2 t2|];
    cbn in H; try discriminate.
  exact H.
Qed.

Lemma GetMultiXactIdMembers_next_zero n B multi isLockOnly s k sh1 tr lock2 sh2 tr2 :
  reaches_bounds_check B multi false isLockOnly s ->
  within_bounds multi s ->
  SimpleLruReadPage (S n) (MultiXactOffsetCtl B) (MultiXactIdToOffsetPage multi)
    true multi (MultiXactOffsetSlru s) = Done k sh1 tr ->
  read_offset_entry sh1 k (MultiXactIdToOffsetEntry multi) <> 0 ->
  nextMXact (MultiXactState s) <> u64 (multi + 1) ->
  read_next_offset (S n) (MultiXactOffsetCtl B) (next_multi multi)
    (MultiXactIdToOffsetPage multi) k
    (SimpleLruGetBankLock (MultiXactOffsetCtl B) (MultiXactIdToOffsetPage multi))
    sh1 = Done (0, lock2) sh2 tr2 ->
  exists pre,
    GetMultiXactIdMembers (S n) B multi false isLockOnly s
    = after_events (pre ++ [EvRelease lock2; EvCVSleep])
        (bind (get_members_retry n (S n) B multi (nextMXact (MultiXactState s))
                 (nextOffset (MultiXactState s)))
           (collect_members (S n) B multi)
           (while_asleep B
              (set_MultiXactOffsetSlru sh2
                 (state_after (MultiXactIdSetOldestVisible B) s)))).
Proof.
  intros Hpre [Hold Hnext] Hread Hown Hne Hread2.
  destruct (GetMultiXactIdMembers_to_bounds_check (S n) B multi isLockOnly s Hpre)
    as (tr1 & _ & ->).
  rewrite Hold, Hnext. cbn [negb].
  destruct (state_after_oldest_visible B s) as [Ho _].
  rewrite <- Ho in Hread.
  pose proof (get_members_length_next_zero (S n) B multi
                (nextMXact (MultiXactState s)) (nextOffset (MultiXactState s))
                _ _ _ _ _ _ _ Hread Hown Hne Hread2) as Hlen.
  unfold lookup_members. unfold bind at 1.
  rewrite (get_members_retry_sleeps _ _ _ _ _ _ _ _ _ Hlen).
  rewrite bind_after_events. rewrite after_events_app.
  exists ((tr1 ++ [EvAcquire MultiXactGenLock LW_SHARED;
                   EvReadMultiBounds (oldestMultiXactId (MultiXactState s))
                     (nextMXact (MultiXactState s))
                     (nextOffset (MultiXactState s));
                   EvRelease MultiXactGenLock])
          ++ EvAcquire (SimpleLruGetBankLock (MultiXactOffsetCtl B)
                          (MultiXactIdToOffsetPage multi)) LW_EXCLUSIVE
             :: tr ++ tr2).
  f_equal.
  rewrite <- (app_assoc _ _ [EvRelease lock2; EvCVSleep]). f_equal.
  cbn [app]. f_equal.
  rewrite <- !app_assoc. reflexivity.
Qed.

(* ================================================================== *)
(** * Examples of the multixact logs *)
(* ================================================================== *)

(** The members of multixact 7 are read without the slot left zero; the
    zero offset of multixact 5 is an error; for multixact 8 the call
    sleeps once, until the offset of multixact 9 is there. *)
Example GetMultiXactIdMembers_example :
  res_value (GetMultiXactIdMembers SLRU_FUEL alone_backend 7 false false
               example_multixact_state)
  = Some (2, [mkMember 700 1; mkMember 702 2])
  /\ res_error (GetMultiXactIdMembers SLRU_FUEL alone_backend 5 false false
                  example_multixact_state)
     = Some (msg_multi_zero_offset 5)
  /\ (let r := GetMultiXactIdMembers SLRU_FUEL backend_with_writer 8 false false
                 example_multixact_state in
      res_value r = Some (3, [mkMember 800 0; mkMember 801 1; mkMember 802 3])
      /\ sleeps_of (res_trace r) = 1%nat).
Proof. vm_compute. repeat split; reflexivity. Qed.

(** From the wrapped counter the offset handed out is 1, and the counter
    moves on by four for three members. *)
Example GetNewMultiXactId_example :
  let r := GetNewMultiXactId SLRU_FUEL alone_backend 3 wrapped_offset_state in
  res_value r = Some (10, 1)
  /\ option_map (fun s => nextOffset (MultiXactState s)) (res_state r) = Some 4.
Proof. vm_compute. split; reflexivity. Qed.

(* ================================================================== *)
(** * The reserved member offset zero *)
(* ================================================================== *)

(** C4 -- [GetNewMultiXactId] never hands out 0 as the starting member
    offset: when the shared [nextOffset] is 0 under the lock the offset
    returned is 1 and [nextOffset] advances by one more than the number
    of members, and otherwise the offset is [nextOffset] itself; run by
    a backend that is alone, with room for the loop counters, the call
    ends.  [GetMultiXactIdMembers], once past the bounds check: raises
    the zero-offset error when the offset it reads for the multixact
    itself is zero; when the offset it reads for the next multixact is
    zero it computes no length, but releases the bank lock, sleeps on
    the condition variable and goes back to [retry]; a length is only
    ever computed from a nonzero offset of the multixact and either the
    saved [nextOffset] or a nonzero offset of the next one; and every
    member it returns has a valid transaction id, the slots that hold
    the invalid id being left out of the result and of its count. *)
Theorem multixact_offset_zero_is_reserved :
  let allocated := fun B nmembers (s : PgState) (r : Z * Z) (s' : PgState) =>
    exists start,
      offset_reserved nmembers start (snd r) s'
      /\ (MultiXactIdPrecedes
            (if nextMXact (MultiXactState s) <? FirstMultiXactId
             then FirstMultiXactId else nextMXact (MultiXactState s))
            (multiVacLimit (MultiXactState s)) = true
          \/ (forall x, while_unlocked B x = x) ->
          start = nextOffset (MultiXactState s)) in
  (forall fuel B nmembers s,
      res_ok (allocated B nmembers s) (fun _ => True)
        (GetNewMultiXactId fuel B nmembers s))
  /\ (forall fuel B nmembers s,
         alone B -> (SLRU_FUEL <= fuel)%nat -> multixact_wf s ->
         is_uint64 (nextMXact (MultiXactState s)) ->
         is_uint64 (nextOffset (MultiXactState s)) ->
         is_int nmembers -> 0 <= nmembers ->
         res_total (allocated B nmembers s) (fun _ => True)
           (GetNewMultiXactId fuel B nmembers s))
  /\ (forall n B multi isLockOnly s k sh1 tr,
         reaches_bounds_check B multi false isLockOnly s ->
         within_bounds multi s ->
         SimpleLruReadPage (S n) (MultiXactOffsetCtl B)
           (MultiXactIdToOffsetPage multi) true multi (MultiXactOffsetSlru s)
         = Done k sh1 tr ->
         read_offset_entry sh1 k (MultiXactIdToOffsetEntry multi) = 0 ->
         res_error (GetMultiXactIdMembers (S n) B multi false isLockOnly s)
         = Some (msg_multi_zero_offset multi))
  /\ (forall n B multi isLockOnly s k sh1 tr lock2 sh2 tr2,
         reaches_bounds_check B multi false isLockOnly s ->
         within_bounds multi s ->
         SimpleLruReadPage (S n) (MultiXactOffsetCtl B)
           (MultiXactIdToOffsetPage multi) true multi (MultiXactOffsetSlru s)
         = Done k sh1 tr ->
         read_offset_entry sh1 k (MultiXactIdToOffsetEntry multi) <> 0 ->
         nextMXact (MultiXactState s) <> u64 (multi + 1) ->
         read_next_offset (S n) (MultiXactOffsetCtl B) (next_multi multi)
           (MultiXactIdToOffsetPage multi) k
           (SimpleLruGetBankLock (MultiXactOffsetCtl B)
              (MultiXactIdToOffsetPage multi))
           sh1 = Done (0, lock2) sh2 tr2 ->
         exists pre,
           GetMultiXactIdMembers (S n) B multi false isLockOnly s
           = after_events (pre ++ [EvRelease lock2; EvCVSleep])
               (bind (get_members_retry n (S n) B multi
                        (nextMXact (MultiXactState s))
                        (nextOffset (MultiXactState s)))
                  (collect_members (S n) B multi)
                  (while_asleep B
                     (set_MultiXactOffsetSlru sh2
                        (state_after (MultiXactIdSetOldestVisible B) s)))))
  /\ (forall fuel B multi nextMXact_ nextOffset_ s,
         res_ok
           (fun r _ =>
              match r with
              | Some (length, offset) =>
                  offset <> 0
                  /\ ((nextMXact_ = u64 (multi + 1)
                       /\ length = wrap_int (u64 (nextOffset_ - offset)))
                      \/ (nextMXact_ <> u64 (multi + 1)
                          /\ exists nextMXOffset,
                              nextMXOffset <> 0
                              /\ length = wrap_int (u64 (nextMXOffset - offset))))
              | None => nextMXact_ <> u64 (multi + 1)
              end)
           (fun _ => True)
           (get_members_length fuel B multi nextMXact_ nextOffset_ s))
  /\ (forall fuel B multi isLockOnly s,
         reaches_bounds_check B multi false isLockOnly s ->
         res_ok (fun r _ => members_valid r) (fun _ => True)
           (GetMultiXactIdMembers fuel B multi false isLockOnly s)).
Proof.
  intros allocated.
  split; [|split; [|split; [|split; [|split]]]].
  - intros. apply GetNewMultiXactId_offset.
  - intros fuel B nmembers s Halone Hfuel Hwf Hn Ho Hi Hp.
    eapply res_total_weaken.
    + apply res_total_and_ok;
        [apply (GetNewMultiXactId_returns fuel B nmembers s); assumption
        |apply GetNewMultiXactId_offset].
    + intros a s' [_ H]. exact H.
    + auto.
  - intros. eapply GetMultiXactIdMembers_zero_offset; eassumption.
  - intros. eapply GetMultiXactIdMembers_next_zero; eassumption.
  - intros. apply get_members_length_result.
  - intros. apply GetMultiXactIdMembers_valid. assumption.
Qed.

Lemma alone_alone_backend : alone alone_backend.
Proof. repeat split; intros; reflexivity. Qed.

Lemma multixact_wf_empty s :
  MultiXactOffsetSlru s = empty_cache -> MultiXactMemberSlru s = empty_cache ->
  multixact_wf s.
Proof. intros Ho Hm. unfold multixact_wf. rewrite Ho, Hm. split; apply cache_wf_empty_cache. Qed.

Lemma multixact_offset_zero_is_reserved_witness :
  res_total
    (fun r s' =>
       exists start,
         offset_reserved 3 start (snd r) s'
         /\ (MultiXactIdPrecedes
               (if nextMXact (MultiXactState wrapped_offset_state) <? FirstMultiXactId
                then FirstMultiXactId
                else nextMXact (MultiXactState wrapped_offset_state))
               (multiVacLimit (MultiXactState wrapped_offset_state)) = true
             \/ (forall x, while_unlocked alone_backend x = x) ->
             start = nextOffset (MultiXactState wrapped_offset_state)))
    (fun _ => True)
    (GetNewMultiXactId SLRU_FUEL alone_backend 3 wrapped_offset_state).
Proof.
  apply (proj1 (proj2 multixact_offset_zero_is_reserved)).
  - repeat split; intros; reflexivity.
  - apply Nat.le_refl.
  - apply multixact_wf_empty; reflexivity.
  - unfold is_uint64, TWO64. cbn. lia.
  - unfold is_uint64, TWO64. cbn. lia.
  - unfold is_int. lia.
  - lia.
Defined.

(* ================================================================== *)
(** * The order of the steps of TruncateMultiXact: the events of the page caches *)
(* ================================================================== *)

(** ** Phases along a trace *)

Lemma trunc_phase_run_app p t1 t2 :
  trunc_phase_run p (t1 ++ t2)
  = match trunc_phase_run p t1 with
    | Some q => trunc_phase_run q t2
    | None => None
    end.
Proof.
  revert p. induction t1 as [|e t1 IH]; intros p; cbn; [reflexivity|].
  destruct (trunc_phase_step p e); [apply IH | reflexivity].
Qed.

Lemma phase_spec_bind {S A B} (Pre Mid Post : TruncPhase -> Prop)
    (m : M S A) (k : A -> M S B) s :
  phase_spec Pre Mid (m s) ->
  (forall a s1, phase_spec Mid Post (k a s1)) ->
  phase_spec Pre Post (bind m k s).
Proof.
  unfold phase_spec, bind. intros Hm Hk p Hp.
  destruct (Hm p Hp) as (q & Hrun & Hq).
  destruct (m s) as [a s1 t1|e s1 t1|]; cbn in *.
  - destruct (Hk a s1 q (Hq ltac:(discriminate))) as (q' & Hrun' & Hq').
    destruct (k a s1) as [b s2 t2|e s2 t2|]; cbn in *.
    + exists q'. rewrite trunc_phase_run_app, Hrun. auto.
    + exists q'. rewrite trunc_phase_run_app, Hrun. split; [assumption|]. congruence.
    + exists p. split; [reflexivity|]. congruence.
  - exists q. split; [assumption|]. congruence.
  - exists p. split; [reflexivity|]. congruence.
Qed.

Lemma phase_spec_zoom {S T A} Pre Post (proj : S -> T) inj (m : M T A) s :
  phase_spec Pre Post (m (proj s)) -> phase_spec Pre Post (zoom proj inj m s).
Proof.
  unfold phase_spec, zoom. intros H p Hp. destruct (H p Hp) as (q & Hrun & Hq).
  destruct (m (proj s)); cbn in *; eauto.
Qed.

Lemma phase_spec_silent {S A} (Pre Post : TruncPhase -> Prop) (r : Res S A) :
  res_trace r = [] -> (forall p, Pre p -> Post p) -> phase_spec Pre Post r.
Proof.
  unfold phase_spec. intros Htr H p Hp. rewrite Htr. exists p. cbn. auto.
Qed.

Lemma phase_spec_emit {S} (Pre Post : TruncPhase -> Prop) e (s : S) :
  (forall p, Pre p -> exists q, trunc_phase_step p e = Some q /\ Post q) ->
  phase_spec Pre Post (emit e s).
Proof.
  unfold phase_spec, emit. intros H p Hp. destruct (H p Hp) as (q & Hstep & Hq).
  exists q. cbn. rewrite Hstep. auto.
Qed.

(** Events of one kind that keep the phases of [Pre] within [Pre]. *)
Lemma phase_spec_trace {S A} (P : Event -> Prop) (Pre : TruncPhase -> Prop)
    (r : Res S A) :
  (forall p e, Pre p -> P e -> exists q, trunc_phase_step p e = Some q /\ Pre q) ->
  trace_ok P r -> phase_spec Pre Pre r.
Proof.
  unfold phase_spec, trace_ok. intros Hstep Htr p Hp.
  revert p Hp. induction Htr as [|e tr He Htr IH]; intros p Hp.
  - exists p. cbn. auto.
  - destruct (Hstep p e Hp He) as (q & Hs & Hq).
    destruct (IH q Hq) as (q' & Hrun & Hq').
    exists q'. cbn. rewrite Hs. auto.
Qed.

Lemma phase_spec_weaken {S A} (Pre Pre' Post Post' : TruncPhase -> Prop)
    (r : Res S A) :
  phase_spec Pre Post r ->
  (forall p, Pre' p -> Pre p) -> (forall p, Post p -> Post' p) ->
  phase_spec Pre' Post' r.
Proof.
  unfold phase_spec. intros H H1 H2 p Hp.
  destruct (H p (H1 p Hp)) as (q & Hrun & Hq). exists q. auto.
Qed.

Lemma cache_event_keeps_phase p e :
  cache_event e -> trunc_phase_step p e = Some p.
Proof.
  destruct e as [[] ?|[]| | | | | | | | | | | | | | | | | |]; cbn;
    try contradiction; reflexivity.
Qed.

Lemma phase_spec_cache {S A} (Pre : TruncPhase -> Prop) (r : Res S A) :
  trace_ok cache_event r -> phase_spec Pre Pre r.
Proof.
  apply phase_spec_trace. intros p e Hp He. exists p.
  split; [apply cache_event_keeps_phase; assumption | assumption].
Qed.

(** ** The events of the other page-cache operations *)

Lemma switch_bank_lock_cache_events ctl prev cur sh :
  trace_ok cache_event (switch_bank_lock ctl prev cur sh).
Proof. unfold switch_bank_lock. trace_steps ltac:(exact I). Qed.

Lemma write_all_slots_cache_events fuel ctl n :
  forall slotno prevbank sh,
    trace_ok cache_event (write_all_slots fuel ctl n slotno prevbank sh).
Proof.
  induction n as [|n IH]; intros slotno prevbank sh; cbn [write_all_slots].
  - apply trace_ok_nil. reflexivity.
  - trace_steps ltac:(first [exact I | apply switch_bank_lock_cache_events
                            | apply SlruInternalWritePage_cache_events | apply IH]).
Qed.

Lemma SimpleLruWriteAll_cache_events fuel ctl allow sh :
  trace_ok cache_event (SimpleLruWriteAll fuel ctl allow sh).
Proof.
  unfold SimpleLruWriteAll.
  trace_steps ltac:(first [exact I | apply write_all_slots_cache_events]).
Qed.

Lemma SimpleLruReadPage_ReadOnly_cache_events fuel ctl pageno xid sh :
  trace_ok cache_event (SimpleLruReadPage_ReadOnly fuel ctl pageno xid sh).
Proof.
  unfold SimpleLruReadPage_ReadOnly.
  trace_steps ltac:(first [exact I | apply SimpleLruReadPage_cache_events]).
Qed.

Lemma find_multixact_start_cache_events fuel B multi s :
  trace_ok cache_event (find_multixact_start fuel B multi s).
Proof.
  unfold find_multixact_start, on_MultiXactOffset, on_MultiXactMember,
    SimpleLruDoesPhysicalPageExist.
  trace_steps ltac:(first [exact I | apply SimpleLruWriteAll_cache_events
                          | apply SimpleLruReadPage_ReadOnly_cache_events]).
Qed.

(* ================================================================== *)
(** * The order of the steps of TruncateMultiXact *)
(* ================================================================== *)

Lemma cache_is_cache_or_unlink dir e : cache_event e -> cache_or_unlink dir e.
Proof. left. assumption. Qed.

Ltac cache_or_unlink_steps tac :=
  trace_steps ltac:(first
    [ left; exact I
    | right; eexists; reflexivity
    | tac
    | match goal with
      | |- trace_ok (cache_or_unlink _) _ =>
          apply (trace_ok_weaken cache_event);
          [ apply cache_is_cache_or_unlink
          | first [ apply switch_bank_lock_cache_events
                  | apply SlruInternalWritePage_cache_events
                  | apply SimpleLruWaitIO_cache_events ] ]
      end ]).

Lemma delete_segment_slots_events fuel ctl segno n :
  forall slotno prevbank did_write sh,
    trace_ok cache_event
      (delete_segment_slots fuel ctl segno n slotno prevbank did_write sh).
Proof.
  induction n as [|n IH]; intros slotno prevbank did_write sh;
    cbn [delete_segment_slots].
  - apply trace_ok_nil. reflexivity.
  - trace_steps ltac:(first [exact I | apply switch_bank_lock_cache_events
                            | apply SlruInternalWritePage_cache_events
                            | apply SimpleLruWaitIO_cache_events | apply IH]).
Qed.

Lemma delete_segment_restart_events ctl segno fuel :
  forall prevbank sh,
    trace_ok (cache_or_unlink (Dir ctl))
      (delete_segment_restart fuel ctl segno prevbank sh).
Proof.
  induction fuel as [|fuel IH]; intros prevbank sh; cbn [delete_segment_restart].
  - apply trace_ok_nil. reflexivity.
  - unfold SlruInternalDeleteSegment.
    trace_steps ltac:(first
      [ left; exact I
      | right; eexists; reflexivity
      | apply IH
      | apply (trace_ok_weaken cache_event);
        [apply cache_is_cache_or_unlink | apply delete_segment_slots_events] ]).
Qed.

Lemma SlruDeleteSegment_events fuel ctl segno sh :
  trace_ok (cache_or_unlink (Dir ctl)) (SlruDeleteSegment fuel ctl segno sh).
Proof.
  unfold SlruDeleteSegment.
  trace_steps ltac:(first [left; exact I | apply delete_segment_restart_events]).
Qed.

Lemma truncate_slots_cache_events fuel ctl cutoff n :
  forall slotno prevbank sh,
    trace_ok cache_event (truncate_slots fuel ctl cutoff n slotno prevbank sh).
Proof.
  induction n as [|n IH]; intros slotno prevbank sh; cbn [truncate_slots].
  - apply trace_ok_nil. reflexivity.
  - trace_steps ltac:(first [exact I | apply switch_bank_lock_cache_events
                            | apply SlruInternalWritePage_cache_events
                            | apply SimpleLruWaitIO_cache_events | apply IH]).
Qed.

Lemma scan_delete_cutoff_events ctl cutoff entries :
  forall sh,
    trace_ok (cache_or_unlink (Dir ctl))
      (scan_entries (SlruScanDirCbDeleteCutoff ctl cutoff) entries sh).
Proof.
  induction entries as [|segno rest IH]; intros sh; cbn [scan_entries].
  - apply trace_ok_nil. reflexivity.
  - unfold SlruScanDirCbDeleteCutoff at 1, SlruInternalDeleteSegment.
    trace_steps ltac:(first
      [ left; exact I | right; eexists; reflexivity | apply IH ]).
Qed.

Lemma SimpleLruTruncate_events ctl cutoff fuel :
  forall sh,
    trace_ok (cache_or_unlink (Dir ctl)) (SimpleLruTruncate fuel ctl cutoff sh).
Proof.
  induction fuel as [|fuel IH]; intros sh; cbn [SimpleLruTruncate].
  - apply trace_ok_nil. reflexivity.
  - unfold SlruScanDirectory.
    trace_steps ltac:(first
      [ left; exact I
      | apply IH
      | apply scan_delete_cutoff_events
      | apply (trace_ok_weaken cache_event);
        [apply cache_is_cache_or_unlink | apply truncate_slots_cache_events] ]).
Qed.

Lemma members_truncation_loop_events fuel B maxsegment endsegment n :
  forall segment s,
    trace_ok (cache_or_unlink "pg_multixact/members")
      (members_truncation_loop n fuel B maxsegment endsegment segment s).
Proof.
  induction n as [|n IH]; intros segment s; cbn [members_truncation_loop];
    destruct (segment =? endsegment); try (apply trace_ok_nil; reflexivity).
  apply trace_ok_bind; [|intros; apply IH].
  unfold on_MultiXactMember. apply trace_ok_zoom.
  apply (SlruDeleteSegment_events fuel (MultiXactMemberCtl B)).
Qed.

Lemma members_unlink_phase p e :
  p = BoundsSet -> cache_or_unlink "pg_multixact/members" e ->
  exists q, trunc_phase_step p e = Some q /\ q = BoundsSet.
Proof.
  intros -> [He|[segno ->]].
  - exists BoundsSet. split; [apply cache_event_keeps_phase; assumption | reflexivity].
  - exists BoundsSet. split; reflexivity.
Qed.

Lemma offsets_unlink_phase p e :
  p = BoundsSet \/ p = OffsetsPhase ->
  cache_or_unlink "pg_multixact/offsets" e ->
  exists q, trunc_phase_step p e = Some q /\ (q = BoundsSet \/ q = OffsetsPhase).
Proof.
  intros Hp [He|[segno ->]].
  - exists p. split; [apply cache_event_keeps_phase; assumption | assumption].
  - exists OffsetsPhase. split; [|right; reflexivity].
    destruct Hp as [-> | ->]; reflexivity.
Qed.

(** X1 -- The steps of [TruncateMultiXact] come in one order, whatever
    the other backends do and whether it returns or fails: nothing is
    removed and the oldest bounds are not moved outside the critical
    section; inside it the truncation WAL record is written first, then
    the oldest bounds are moved, then segments of pg_multixact/members
    are removed, then segments of pg_multixact/offsets.  When the call
    returns, it has either not entered the critical section or gone
    through all of it. *)
Theorem TruncateMultiXact_steps_in_order fuel B newOldestMulti newOldestMultiDB s :
  phase_spec (fun p => p = BeforeCrit)
             (fun q => q = BeforeCrit \/ q = AfterCrit)
             (TruncateMultiXact fuel B newOldestMulti newOldestMultiDB s).
Proof.
  unfold TruncateMultiXact.
  assert (Hlock : forall (S : Type) (Pre : TruncPhase -> Prop) e (s : S),
            cache_event e \/ (forall p, trunc_phase_step p e = Some p) ->
            phase_spec Pre Pre (emit e s)).
  { intros S Pre e s0 H. apply phase_spec_emit. intros p Hp. exists p.
    split; [|assumption].
    destruct H as [H|H]; [apply cache_event_keeps_phase; assumption | apply H]. }
  assert (Hfind : forall multi c s0,
            phase_spec (fun p => p = BeforeCrit) (fun p => p = BeforeCrit)
              ((if c : bool then ret (Some (nextOffset (MultiXactState s)))
                else find_multixact_start fuel B multi) s0)).
  { intros multi c s0. destruct c.
    - apply phase_spec_silent; [reflexivity | auto].
    - apply phase_spec_cache. apply find_multixact_start_cache_events. }
  unfold LWLockAcquire, LWLockRelease, START_CRIT_SECTION, END_CRIT_SECTION,
    ereport_LOG, WriteMTruncateXlogRec, XLogInsert.
  apply phase_spec_bind with (Mid := fun p => p = BeforeCrit);
    [apply Hlock; right; reflexivity|]. intros _ s0.
  apply phase_spec_bind with (Mid := fun p => p = BeforeCrit);
    [apply Hlock; right; reflexivity|]. intros _ s1.
  apply phase_spec_bind with (Mid := fun p => p = BeforeCrit);
    [apply phase_spec_silent; [reflexivity | auto]|]. intros s2 s3.
  apply phase_spec_bind with (Mid := fun p => p = BeforeCrit);
    [apply Hlock; right; reflexivity|]. intros _ s4.
  destruct (MultiXactIdPrecedesOrEquals _ _).
  { apply (phase_spec_weaken (fun p => p = BeforeCrit) _ (fun p => p = BeforeCrit));
      [apply Hlock; right; reflexivity | auto | auto]. }
  destruct (MultiXactIdPrecedes _ _).
  { apply (phase_spec_weaken (fun p => p = BeforeCrit) _ (fun p => p = BeforeCrit));
      [apply Hlock; right; reflexivity | auto | auto]. }
  apply phase_spec_bind with (Mid := fun p => p = BeforeCrit).
  { destruct (_ =? _).
    - apply phase_spec_silent; [reflexivity | auto].
    - apply phase_spec_cache. apply find_multixact_start_cache_events. }
  intros [oldestOffset|] s5.
  2:{ apply phase_spec_bind with (Mid := fun p => p = BeforeCrit);
        [apply Hlock; left; exact I|]. intros _ s6.
      apply (phase_spec_weaken (fun p => p = BeforeCrit) _ (fun p => p = BeforeCrit));
      [apply Hlock; right; reflexivity | auto | auto]. }
  apply phase_spec_bind with (Mid := fun p => p = BeforeCrit).
  { destruct (_ =? _).
    - apply phase_spec_silent; [reflexivity | auto].
    - apply phase_spec_cache. apply find_multixact_start_cache_events. }
  intros [newOldestOffset|] s6.
  2:{ apply phase_spec_bind with (Mid := fun p => p = BeforeCrit);
        [apply Hlock; left; exact I|]. intros _ s7.
      apply (phase_spec_weaken (fun p => p = BeforeCrit) _ (fun p => p = BeforeCrit));
      [apply Hlock; right; reflexivity | auto | auto]. }
  apply phase_spec_bind with (Mid := fun p => p = InCrit).
  { apply phase_spec_emit. intros p ->. exists InCrit. split; reflexivity. }
  intros _ s7.
  apply phase_spec_bind with (Mid := fun p => p = InCrit);
    [apply phase_spec_silent; [reflexivity | auto]|]. intros _ s8.
  apply phase_spec_bind with (Mid := fun p => p = InCrit);
    [apply Hlock; right; reflexivity|]. intros _ s9.
  apply phase_spec_bind with (Mid := fun p => p = Logged).
  { apply phase_spec_emit. intros p ->. exists Logged. split; reflexivity. }
  intros _ s10.
  apply phase_spec_bind with (Mid := fun p => p = Logged);
    [apply Hlock; right; reflexivity|]. intros _ s11.
  apply phase_spec_bind with (Mid := fun p => p = Logged);
    [apply phase_spec_silent; [reflexivity | auto]|]. intros _ s12.
  apply phase_spec_bind with (Mid := fun p => p = BoundsSet).
  { apply phase_spec_emit. intros p ->. exists BoundsSet. split; reflexivity. }
  intros _ s13.
  apply phase_spec_bind with (Mid := fun p => p = BoundsSet);
    [apply Hlock; right; reflexivity|]. intros _ s14.
  apply phase_spec_bind with (Mid := fun p => p = BoundsSet).
  { unfold PerformMembersTruncation.
    apply (phase_spec_trace (cache_or_unlink "pg_multixact/members"));
      [apply members_unlink_phase | apply members_truncation_loop_events]. }
  intros _ s15.
  apply phase_spec_bind with (Mid := fun p => p = BoundsSet \/ p = OffsetsPhase).
  { unfold PerformOffsetsTruncation, on_MultiXactOffset. apply phase_spec_zoom.
    apply (phase_spec_weaken (fun p => p = BoundsSet \/ p = OffsetsPhase) _
             (fun p => p = BoundsSet \/ p = OffsetsPhase)).
    - apply (phase_spec_trace (cache_or_unlink "pg_multixact/offsets")
               (fun p => p = BoundsSet \/ p = OffsetsPhase));
        [apply offsets_unlink_phase
        | apply (SimpleLruTruncate_events (MultiXactOffsetCtl B))].
    - intros p ->. left. reflexivity.
    - auto. }
  intros _ s16.
  apply phase_spec_bind with (Mid := fun p => p = BoundsSet \/ p = OffsetsPhase);
    [apply phase_spec_silent; [reflexivity | auto]|]. intros _ s17.
  apply phase_spec_bind with (Mid := fun p => p = BoundsSet \/ p = OffsetsPhase);
    [apply Hlock; right; reflexivity|]. intros _ s18.
  apply phase_spec_bind with (Mid := fun p => p = AfterCrit).
  { apply phase_spec_emit. intros p [-> | ->]; exists AfterCrit; split; reflexivity. }
  intros _ s19.
  apply (phase_spec_weaken (fun p => p = AfterCrit) _ (fun p => p = AfterCrit));
      [apply Hlock; right; reflexivity | auto | auto].
Qed.

(* ================================================================== *)
(** * What TruncateMultiXact does to the shared counters *)
(* ================================================================== *)

(** ** What [TruncateMultiXact] does to the shared counters *)

Lemma on_MultiXactOffset_keeps_state {A} (m : M SlruShared A) s (X : MultiXactStateData) :
  MultiXactState s = X ->
  res_ok (fun _ s' => MultiXactState s' = X) (fun s' => MultiXactState s' = X)
    (on_MultiXactOffset m s).
Proof. intros H. apply on_MultiXactOffset_ok; intros; destruct s; exact H. Qed.

Lemma on_MultiXactMember_keeps_state {A} (m : M SlruShared A) s (X : MultiXactStateData) :
  MultiXactState s = X ->
  res_ok (fun _ s' => MultiXactState s' = X) (fun s' => MultiXactState s' = X)
    (on_MultiXactMember m s).
Proof. intros H. apply on_MultiXactMember_ok; intros; destruct s; exact H. Qed.

Lemma find_multixact_start_keeps_state fuel B multi s X :
  MultiXactState s = X ->
  res_ok (fun _ s' => MultiXactState s' = X) (fun s' => MultiXactState s' = X)
    (find_multixact_start fuel B multi s).
Proof.
  intros H. unfold find_multixact_start.
  apply res_ok_bind.
  eapply res_ok_weaken; [apply on_MultiXactOffset_keeps_state, H| |auto].
  intros ? s1 H1; cbv beta in H1 |- *.
  apply res_ok_bind.
  eapply res_ok_weaken; [apply on_MultiXactMember_keeps_state, H1| |auto].
  intros ? s2 H2; cbv beta in H2 |- *.
  apply res_ok_bind.
  eapply res_ok_weaken; [apply on_MultiXactOffset_keeps_state, H2| |auto].
  intros ex s3 H3; cbv beta in H3 |- *.
  destruct (negb ex); [exact H3|].
  apply on_MultiXactOffset_keeps_state, H3.
Qed.

Lemma members_truncation_loop_keeps_state fuel B maxsegment endsegment X n :
  forall segment s,
    MultiXactState s = X ->
    res_ok (fun _ s' => MultiXactState s' = X) (fun s' => MultiXactState s' = X)
      (members_truncation_loop n fuel B maxsegment endsegment segment s).
Proof.
  induction n as [|n IH]; intros segment s H; cbn [members_truncation_loop];
    destruct (segment =? endsegment); try exact H; try exact I.
  apply res_ok_bind.
  eapply res_ok_weaken; [apply on_MultiXactMember_keeps_state, H| |auto].
  intros ? s1 H1; cbv beta in H1. apply IH, H1.
Qed.

Lemma MultiXactIdPrecedes_of_not_le a b :
  MultiXactIdPrecedesOrEquals a b = false -> MultiXactIdPrecedes b a = true.
Proof.
  unfold MultiXactIdPrecedesOrEquals, MultiXactIdPrecedes, to_int64, u64.
  intros H. apply Z.leb_gt in H. apply Z.ltb_lt.
  assert (HT : TWO64 = 2 * TWO63) by reflexivity.
  assert (Hp : 0 < TWO63) by reflexivity.
  pose proof (Z.mod_pos_bound (a - b) TWO64 ltac:(lia)) as Hab.
  pose proof (Z.mod_pos_bound (b - a) TWO64 ltac:(lia)) as Hba.
  assert (Hsum : ((a - b) mod TWO64 + (b - a) mod TWO64) mod TWO64 = 0).
  { rewrite <- Z.add_mod by lia. replace (a - b + (b - a)) with 0 by ring.
    reflexivity. }
  destruct (Z.ltb_spec ((a - b) mod TWO64) TWO63);
    destruct (Z.ltb_spec ((b - a) mod TWO64) TWO63); try lia.
  - assert ((a - b) mod TWO64 + (b - a) mod TWO64 = 0).
    { rewrite Z.mod_small in Hsum by lia. exact Hsum. } lia.
Qed.

(** X2 -- Whatever [TruncateMultiXact] does, and also when it fails, it
    leaves the counters [nextMXact] and [nextOffset] and the per-backend
    entries of [MultiXactState] alone; the oldest multixact and its
    database are either unchanged or set to the arguments, and then the
    oldest multixact has moved forward in the circular order. *)
Theorem TruncateMultiXact_moves_only_oldest_bound fuel B newOldestMulti newOldestMultiDB s :
  res_ok (fun _ => truncate_bounds_post (MultiXactState s)
                     newOldestMulti newOldestMultiDB)
         (truncate_bounds_post (MultiXactState s) newOldestMulti newOldestMultiDB)
         (TruncateMultiXact fuel B newOldestMulti newOldestMultiDB s).
Proof.
  set (old := MultiXactState s).
  set (post := truncate_bounds_post old newOldestMulti newOldestMultiDB).
  unfold TruncateMultiXact.
  do 4 ostep.
  destruct (MultiXactIdPrecedesOrEquals _ _) eqn:Hle; [left; reflexivity|].
  apply MultiXactIdPrecedes_of_not_le in Hle.
  match goal with |- res_ok _ _ ((if ?c then _ else _) _) => destruct c end;
    [left; reflexivity|].
  apply res_ok_bind.
  eapply res_ok_weaken with (Q := fun _ s' => MultiXactState s' = old)
                           (E := fun s' => MultiXactState s' = old);
    [ | | intros; left; assumption].
  { destruct (_ =? _); [cbn; reflexivity|].
    apply find_multixact_start_keeps_state. reflexivity. }
  intros [oldestOffset|] s1 H1; cbv beta in H1 |- *.
  2:{ do 1 ostep. left. exact H1. }
  apply res_ok_bind.
  eapply res_ok_weaken with (Q := fun _ s' => MultiXactState s' = old)
                           (E := fun s' => MultiXactState s' = old);
    [ | | intros; left; assumption].
  { destruct (_ =? _); [exact H1|].
    apply find_multixact_start_keeps_state. exact H1. }
  intros [newOldestOffset|] s2 H2; cbv beta in H2 |- *.
  2:{ do 1 ostep. left. exact H2. }
  unfold WriteMTruncateXlogRec.
  do 8 ostep.
  set (X := set_oldestMultiXact newOldestMulti newOldestMultiDB old).
  apply res_ok_bind.
  eapply res_ok_weaken with (Q := fun _ s' => MultiXactState s' = X)
                           (E := fun s' => MultiXactState s' = X);
    [ | | intros; right; split; assumption].
  { unfold PerformMembersTruncation.
    apply members_truncation_loop_keeps_state.
    unfold set_delayChkptStart. cbn. rewrite H2. reflexivity. }
  intros ? s3 H3; cbv beta in H3 |- *.
  apply res_ok_bind.
  eapply res_ok_weaken with (Q := fun _ s' => MultiXactState s' = X)
                           (E := fun s' => MultiXactState s' = X);
    [ | | intros; right; split; assumption].
  { unfold PerformOffsetsTruncation.
    apply on_MultiXactOffset_keeps_state, H3. }
  intros ? s4 H4; cbv beta in H4 |- *.
  do 3 ostep. right. split; [|exact Hle].
  unfold set_delayChkptStart. cbn. exact H4.
Qed.

(* ================================================================== *)
(** * Sizing, the unit test of the page orders and segment file names (slru.c) *)
(* ================================================================== *)

(** ** Sizing of the page caches *)

Lemma rem_bank_multiple x : Z.rem (x - Z.rem x SLRU_BANK_SIZE) SLRU_BANK_SIZE = 0.
Proof.
  change SLRU_BANK_SIZE with 16.
  pose proof (Z.quot_rem' x 16) as H.
  replace (x - Z.rem x 16) with (Z.quot x 16 * 16) by lia.
  apply Z.rem_mul. lia.
Qed.

Lemma check_slru_buffers_autotune NBuffers divisor max :
  check_slru_buffers (SimpleLruAutotuneBuffers NBuffers divisor max) = true.
Proof.
  unfold check_slru_buffers, SimpleLruAutotuneBuffers. apply Z.eqb_eq.
  apply Z.min_case; [apply rem_bank_multiple|].
  apply Z.max_case; [reflexivity | apply rem_bank_multiple].
Qed.

Lemma SimpleLruAutotuneBuffers_bounds NBuffers divisor max :
  SLRU_BANK_SIZE <= max ->
  SLRU_BANK_SIZE <= SimpleLruAutotuneBuffers NBuffers divisor max <= max.
Proof.
  unfold SimpleLruAutotuneBuffers. change SLRU_BANK_SIZE with 16. intros Hmax.
  pose proof (Z.rem_bound_pos max 16 ltac:(lia) ltac:(lia)) as Hr.
  pose proof (Z.quot_rem' max 16) as Hq.
  assert (1 <= Z.quot max 16) by (apply Z.quot_le_lower_bound; lia).
  lia.
Qed.

(** ** The unit test of the page orders *)

Lemma In_offsets_below n offset :
  0 <= offset < n -> In offset (offsets_below n).
Proof.
  intros H. unfold offsets_below. apply in_map_iff.
  exists (Z.to_nat offset). split; [lia|].
  apply in_seq. lia.
Qed.

Lemma offsets_test_all B :
  forallb (SlruPagePrecedesTestOffset (MultiXactOffsetCtl B) MULTIXACT_OFFSETS_PER_PAGE)
    (offsets_below MULTIXACT_OFFSETS_PER_PAGE) = true.
Proof. vm_compute. reflexivity. Qed.

Lemma commit_ts_test_all B :
  forallb (SlruPagePrecedesTestOffset (CommitTsCtl B) COMMIT_TS_XACTS_PER_PAGE)
    (offsets_below COMMIT_TS_XACTS_PER_PAGE) = true.
Proof. vm_compute. reflexivity. Qed.

(** ** Segment file names *)

Lemma hex_value_digit d :
  0 <= d < 16 -> hex_value (hex_digit d) = Some d.
Proof.
  intros H.
  assert (Hc : d = 0 \/ d = 1 \/ d = 2 \/ d = 3 \/ d = 4 \/ d = 5 \/ d = 6
               \/ d = 7 \/ d = 8 \/ d = 9 \/ d = 10 \/ d = 11 \/ d = 12
               \/ d = 13 \/ d = 14 \/ d = 15) by lia.
  repeat (destruct Hc as [->|Hc]; [reflexivity|]). subst. reflexivity.
Qed.

Lemma hex_value_zero : hex_value "0"%char = Some 0.
Proof. reflexivity. Qed.

Lemma hex_of_length fuel :
  forall v acc k,
    0 <= v < 16 ^ Z.of_nat k -> (1 <= k <= fuel)%nat ->
    (1 + List.length acc <= List.length (hex_of fuel v acc) <= k + List.length acc)%nat.
Proof.
  induction fuel as [|fuel IH]; intros v acc k Hv Hk; [lia|].
  cbn [hex_of]. destruct (v / 16 =? 0) eqn:Hq.
  - cbn [List.length]. lia.
  - apply Z.eqb_neq in Hq.
    assert (16 <= v) by (destruct (Z_lt_le_dec v 16); [rewrite Z.div_small in Hq; lia | lia]).
    destruct k as [|[|k]]; [lia| change (16 ^ Z.of_nat 1) with 16 in Hv; lia |].
    assert (Hpow : 16 ^ Z.of_nat (S (S k)) = 16 * 16 ^ Z.of_nat (S k)).
    { rewrite (Nat2Z.inj_succ (S k)), Z.pow_succ_r by lia. reflexivity. }
    specialize (IH (v / 16) (hex_digit (v mod 16) :: acc) (S k)).
    cbn [List.length] in IH.
    assert (0 <= v / 16 < 16 ^ Z.of_nat (S k)).
    { split; [apply Z.div_pos; lia|]. apply Z.div_lt_upper_bound; lia. }
    specialize (IH ltac:(assumption) ltac:(lia)). lia.
Qed.

Lemma hex_of_span fuel :
  forall v acc,
    0 <= v -> strspn_hex acc = List.length acc ->
    strspn_hex (hex_of fuel v acc) = List.length (hex_of fuel v acc).
Proof.
  induction fuel as [|fuel IH]; intros v acc Hv Hacc; [exact Hacc|].
  cbn [hex_of].
  assert (Hd : strspn_hex (hex_digit (v mod 16) :: acc)
               = List.length (hex_digit (v mod 16) :: acc)).
  { cbn [strspn_hex List.length].
    rewrite hex_value_digit by (apply Z.mod_pos_bound; lia). congruence. }
  destruct (v / 16 =? 0); [exact Hd|].
  apply IH; [apply Z.div_pos; lia | exact Hd].
Qed.

Lemma hex_accumulate_hex_of fuel :
  forall v acc,
    0 <= v < 16 ^ Z.of_nat fuel -> (1 <= fuel)%nat ->
    hex_accumulate (hex_of fuel v acc) 0 = hex_accumulate acc v.
Proof.
  induction fuel as [|fuel IH]; intros v acc Hv Hf; [lia|].
  cbn [hex_of].
  assert (Hd : forall a, hex_accumulate (hex_digit (v mod 16) :: acc) a
                         = hex_accumulate acc (a * 16 + v mod 16)).
  { intros a. cbn [hex_accumulate].
    rewrite hex_value_digit by (apply Z.mod_pos_bound; lia). reflexivity. }
  destruct (v / 16 =? 0) eqn:Hq.
  - apply Z.eqb_eq in Hq. rewrite Hd. f_equal.
    pose proof (Z.div_mod v 16 ltac:(lia)). lia.
  - apply Z.eqb_neq in Hq.
    assert (16 <= v) by (destruct (Z_lt_le_dec v 16); [rewrite Z.div_small in Hq; lia | lia]).
    destruct fuel as [|fuel]; [change (16 ^ Z.of_nat 1) with 16 in Hv; lia|].
    assert (Hpow : 16 ^ Z.of_nat (S (S fuel)) = 16 * 16 ^ Z.of_nat (S fuel)).
    { rewrite (Nat2Z.inj_succ (S fuel)), Z.pow_succ_r by lia. reflexivity. }
    rewrite IH; [| |lia].
    + rewrite Hd. f_equal. pose proof (Z.div_mod v 16 ltac:(lia)). lia.
    + split; [apply Z.div_pos; lia|]. apply Z.div_lt_upper_bound; lia.
Qed.

Lemma strspn_hex_zeros n s :
  strspn_hex s = List.length s ->
  strspn_hex (repeat "0"%char n ++ s) = List.length (repeat "0"%char n ++ s).
Proof.
  intros H. induction n as [|n IH]; [exact H|].
  cbn [repeat app strspn_hex List.length]. rewrite hex_value_zero. congruence.
Qed.

Lemma hex_accumulate_zeros n s :
  hex_accumulate (repeat "0"%char n ++ s) 0 = hex_accumulate s 0.
Proof.
  induction n as [|n IH]; [reflexivity|].
  cbn [repeat app hex_accumulate]. rewrite hex_value_zero. exact IH.
Qed.

Lemma format_hex_parses width v :
  0 <= v < 16 ^ 16 ->
  strspn_hex (format_hex width v) = List.length (format_hex width v)
  /\ hex_accumulate (format_hex width v) 0 = v.
Proof.
  intros Hv. unfold format_hex. split.
  - apply strspn_hex_zeros. apply hex_of_span; [lia | reflexivity].
  - rewrite hex_accumulate_zeros.
    rewrite hex_accumulate_hex_of by (change (Z.of_nat 16) with 16; lia).
    reflexivity.
Qed.

Lemma format_hex_length width v k :
  0 <= v < 16 ^ Z.of_nat k -> (1 <= k <= 16)%nat ->
  (Nat.max width 1 <= List.length (format_hex width v) <= Nat.max width k)%nat.
Proof.
  intros Hv Hk. unfold format_hex.
  pose proof (hex_of_length 16 v [] k Hv Hk) as H. cbn [List.length] in H.
  rewrite length_app, repeat_length. lia.
Qed.

Lemma scanned_segment_of_name ctl segno :
  segno_in_range ctl segno ->
  scanned_segment ctl (SlruSegmentName ctl segno) = Some segno.
Proof.
  unfold segno_in_range, scanned_segment, SlruSegmentName,
    SlruCorrectSegmentFilenameLength.
  destruct (long_segment_names ctl); intros Hs.
  - assert (Hu : u64 segno = segno) by (apply Z.mod_small; unfold TWO64; lia).
    rewrite Hu.
    destruct (format_hex_parses 15 segno ltac:(lia)) as [Hspan Hval].
    pose proof (format_hex_length 15 segno 15 ltac:(change (16 ^ Z.of_nat 15) with 1152921504606846976; lia) ltac:(lia)) as Hlen.
    assert (Hl : List.length (format_hex 15 segno) = 15%nat) by lia.
    rewrite Hspan, Hl. cbn [Nat.eqb andb].
    unfold strtoi64_hex. rewrite Hval. f_equal. unfold TWO63. lia.
  - assert (Hu : u32 segno = segno) by (apply Z.mod_small; lia).
    rewrite Hu.
    destruct (format_hex_parses 4 segno ltac:(lia)) as [Hspan Hval].
    pose proof (format_hex_length 4 segno 6 ltac:(change (16 ^ Z.of_nat 6) with 16777216; lia) ltac:(lia)) as Hlen.
    rewrite Hspan, Nat.eqb_refl, andb_true_r.
    assert (Hl : List.length (format_hex 4 segno) = 4%nat
                 \/ List.length (format_hex 4 segno) = 5%nat
                 \/ List.length (format_hex 4 segno) = 6%nat) by lia.
    assert (Hc : ((List.length (format_hex 4 segno) =? 4)%nat
                  || (List.length (format_hex 4 segno) =? 5)%nat
                  || (List.length (format_hex 4 segno) =? 6)%nat) = true).
    { destruct Hl as [-> | [-> | ->]]; reflexivity. }
    rewrite Hc. unfold strtoi64_hex. rewrite Hval. f_equal. unfold TWO63. lia.
Qed.

(* ================================================================== *)
(** * The order of members and the cache of multixacts *)
(* ================================================================== *)

(** ** The order of members and the cache of multixacts *)

Lemma mxactMemberComparator_le m1 m2 :
  mxactMemberComparator m1 m2 <= 0
  <-> member_xid m1 < member_xid m2
      \/ (member_xid m1 = member_xid m2 /\ member_status m1 <= member_status m2).
Proof.
  unfold mxactMemberComparator.
  destruct (Z.ltb_spec (member_xid m2) (member_xid m1));
    destruct (Z.ltb_spec (member_xid m1) (member_xid m2));
    destruct (Z.ltb_spec (member_status m2) (member_status m1));
    destruct (Z.ltb_spec (member_status m1) (member_status m2)); lia.
Qed.

Lemma member_le_total m1 m2 :
  mxactMemberComparator m1 m2 <= 0 \/ mxactMemberComparator m2 m1 <= 0.
Proof. rewrite !mxactMemberComparator_le. lia. Qed.

Lemma member_le_trans m1 m2 m3 :
  mxactMemberComparator m1 m2 <= 0 -> mxactMemberComparator m2 m3 <= 0 ->
  mxactMemberComparator m1 m3 <= 0.
Proof. rewrite !mxactMemberComparator_le. lia. Qed.

Lemma member_le_antisym m1 m2 :
  mxactMemberComparator m1 m2 <= 0 -> mxactMemberComparator m2 m1 <= 0 ->
  m1 = m2.
Proof.
  rewrite !mxactMemberComparator_le. destruct m1, m2; cbn. intros H1 H2.
  f_equal; lia.
Qed.

Lemma member_insert_comm a b l :
  member_insert a (member_insert b l) = member_insert b (member_insert a l).
Proof.
  induction l as [|x r IH]; cbn [member_insert].
  - destruct (Z.leb_spec (mxactMemberComparator a b) 0) as [Hab|Hab];
      destruct (Z.leb_spec (mxactMemberComparator b a) 0) as [Hba|Hba];
      try reflexivity.
    + rewrite (member_le_antisym a b Hab Hba). reflexivity.
    + destruct (member_le_total a b); lia.
  - destruct (Z.leb_spec (mxactMemberComparator a x) 0) as [Hax|Hax];
      destruct (Z.leb_spec (mxactMemberComparator b x) 0) as [Hbx|Hbx];
      cbn [member_insert].
    + destruct (Z.leb_spec (mxactMemberComparator a b) 0) as [Hab|Hab];
        destruct (Z.leb_spec (mxactMemberComparator b a) 0) as [Hba|Hba].
      * rewrite (member_le_antisym a b Hab Hba). reflexivity.
      * cbn [member_insert]. destruct (Z.leb_spec (mxactMemberComparator b x) 0); [reflexivity|lia].
      * cbn [member_insert]. destruct (Z.leb_spec (mxactMemberComparator a x) 0); [reflexivity|lia].
      * destruct (member_le_total a b); lia.
    + destruct (Z.leb_spec (mxactMemberComparator a x) 0); [|lia].
      destruct (Z.leb_spec (mxactMemberComparator b a) 0) as [Hba|Hba].
      * pose proof (member_le_trans b a x Hba Hax). lia.
      * cbn [member_insert].
        destruct (Z.leb_spec (mxactMemberComparator b x) 0); [lia|reflexivity].
    + destruct (Z.leb_spec (mxactMemberComparator b x) 0); [|lia].
      destruct (Z.leb_spec (mxactMemberComparator a b) 0) as [Hab|Hab].
      * pose proof (member_le_trans a b x Hab Hbx). lia.
      * cbn [member_insert].
        destruct (Z.leb_spec (mxactMemberComparator a x) 0); [lia|reflexivity].
    + destruct (Z.leb_spec (mxactMemberComparator a x) 0); [lia|].
      destruct (Z.leb_spec (mxactMemberComparator b x) 0); [lia|].
      f_equal. exact IH.
Qed.

Lemma member_sort_Permutation l l' :
  Permutation l l' -> member_sort l = member_sort l'.
Proof.
  unfold member_sort. induction 1; cbn [fold_right].
  - reflexivity.
  - f_equal. assumption.
  - apply member_insert_comm.
  - congruence.
Qed.

Lemma member_insert_Permutation a l : Permutation (member_insert a l) (a :: l).
Proof.
  induction l as [|x r IH]; cbn [member_insert]; [reflexivity|].
  destruct (_ <=? 0); [reflexivity|].
  rewrite IH. apply perm_swap.
Qed.

Lemma member_sort_is_Permutation l : Permutation (member_sort l) l.
Proof.
  unfold member_sort. induction l as [|a l IH]; cbn [fold_right]; [reflexivity|].
  rewrite member_insert_Permutation. apply perm_skip, IH.
Qed.

Lemma member_sort_length l : List.length (member_sort l) = List.length l.
Proof. apply Permutation_length, member_sort_is_Permutation. Qed.

Lemma member_sort_idempotent l : member_sort (member_sort l) = member_sort l.
Proof. apply member_sort_Permutation, member_sort_is_Permutation. Qed.

Lemma member_eqb_refl m : member_eqb m m = true.
Proof. unfold member_eqb. rewrite !Z.eqb_refl. reflexivity. Qed.

Lemma members_eqb_refl l : members_eqb l l = true.
Proof.
  induction l as [|m l IH]; cbn [members_eqb]; [reflexivity|].
  rewrite member_eqb_refl, IH. reflexivity.
Qed.

Lemma members_eqb_eq l1 : forall l2, members_eqb l1 l2 = true -> l1 = l2.
Proof.
  induction l1 as [|m1 r1 IH]; intros [|m2 r2] H; cbn [members_eqb] in H;
    try discriminate; [reflexivity|].
  apply andb_true_iff in H. destruct H as [Hm Hr].
  unfold member_eqb in Hm. apply andb_true_iff in Hm. destruct Hm as [Hx Hs].
  apply Z.eqb_eq in Hx, Hs. destruct m1, m2; cbn in *. subst.
  f_equal. apply IH, Hr.
Qed.

Lemma set_MXactCache_same s : set_MXactCache (MXactCache s) s = s.
Proof. destruct s; reflexivity. Qed.

Lemma firstn_length_all {A} (l : list A) : firstn (List.length l) l = l.
Proof. apply firstn_all. Qed.

Lemma removelast_cons_length {A} (l : list A) :
  forall x, List.length (removelast (x :: l)) = List.length l.
Proof.
  induction l as [|y l IH]; intros x; [reflexivity|].
  change (removelast (x :: y :: l)) with (x :: removelast (y :: l)).
  cbn [List.length]. f_equal. apply IH.
Qed.

Lemma removelast_In {A} (l : list A) : forall x, In x (removelast l) -> In x l.
Proof.
  induction l as [|y l IH]; intros x Hx; [exact Hx|].
  destruct l as [|z l]; [destruct Hx|].
  change (removelast (y :: z :: l)) with (y :: removelast (z :: l)) in Hx.
  destruct Hx as [->|Hx]; [left; reflexivity | right; apply IH, Hx].
Qed.

Lemma mXactCachePut_head multi nmembers members s :
  exists rest,
    mXactCachePut multi nmembers members s
    = Done tt (set_MXactCache (mkCacheEnt multi nmembers (member_sort members) :: rest) s) []
    /\ (Z.of_nat (List.length (MXactCache s)) <= MAX_CACHE_ENTRIES ->
        Z.of_nat (S (List.length rest)) <= MAX_CACHE_ENTRIES)
    /\ (forall e, In e rest -> In e (MXactCache s)).
Proof.
  unfold mXactCachePut, modify. cbn [List.length].
  destruct (Z.ltb_spec MAX_CACHE_ENTRIES (Z.of_nat (S (List.length (MXactCache s))))) as [Hlt|Hge].
  - destruct (MXactCache s) as [|e0 r0] eqn:Hc.
    { unfold MAX_CACHE_ENTRIES in Hlt. cbn in Hlt. lia. }
    exists (removelast (e0 :: r0)). split; [|split].
    + reflexivity.
    + rewrite removelast_cons_length. cbn [List.length]. lia.
    + intros e He. apply removelast_In, He.
  - exists (MXactCache s). split; [reflexivity|]. split; [|auto].
    intros _. lia.
Qed.

Lemma cache_find_by_set_head nmembers members e rest :
  ent_nmembers e = nmembers ->
  firstn (Z.to_nat nmembers) (ent_members e) = firstn (Z.to_nat nmembers) members ->
  cache_find_by_set nmembers members (e :: rest) = Some (e, rest).
Proof.
  intros Hn Hm. cbn [cache_find_by_set].
  rewrite Hn, Z.eqb_refl, Hm, members_eqb_refl. reflexivity.
Qed.

Lemma cache_find_by_id_head multi e rest :
  ent_multi e = multi -> cache_find_by_id multi (e :: rest) = Some (e, rest).
Proof. intros H. cbn [cache_find_by_id]. rewrite H, Z.eqb_refl. reflexivity. Qed.

Lemma cache_find_by_set_Some nmembers members cache e others :
  cache_find_by_set nmembers members cache = Some (e, others) ->
  In e cache
  /\ ent_nmembers e = nmembers
  /\ firstn (Z.to_nat nmembers) members
     = firstn (Z.to_nat nmembers) (ent_members e)
  /\ (forall x, In x others -> In x cache).
Proof.
  revert e others. induction cache as [|x rest IH]; intros e others H;
    cbn [cache_find_by_set] in H; [discriminate|].
  destruct (_ && _) eqn:Hc.
  - injection H as <- <-. apply andb_true_iff in Hc. destruct Hc as [Hn Hm].
    apply Z.eqb_eq in Hn. apply members_eqb_eq in Hm.
    repeat split; auto. left; reflexivity. intros; right; assumption.
  - destruct (cache_find_by_set nmembers members rest) as [[hit oth]|]; [|discriminate].
    injection H as <- <-. destruct (IH hit oth eq_refl) as (Hin & Hn & Hm & Ho).
    repeat split; auto. right; assumption.
    intros y [->|Hy]; [left; reflexivity | right; apply Ho, Hy].
Qed.

(** X7 -- What [mXactCachePut] stores is found by both lookups: for a
    multixact put with its members, [mXactCacheGetBySet] answers that
    multixact for the same members in any order, and
    [mXactCacheGetById] answers the members, sorted; neither lookup
    changes the cache then.  The cache never grows beyond
    [MAX_CACHE_ENTRIES]. *)
Theorem mXactCachePut_is_found multi members members' s :
  Permutation members members' ->
  let n := Z.of_nat (List.length members) in
  exists s1,
    mXactCachePut multi n members s = Done tt s1 []
    /\ mXactCacheGetBySet n members' s1 = Done multi s1 []
    /\ mXactCacheGetById multi s1 = Done (Some (n, member_sort members)) s1 []
    /\ (Z.of_nat (List.length (MXactCache s)) <= MAX_CACHE_ENTRIES ->
        Z.of_nat (List.length (MXactCache s1)) <= MAX_CACHE_ENTRIES).
Proof.
  intros Hperm n.
  destruct (mXactCachePut_head multi n members s) as (rest & Hput & Hbound & _).
  eexists. split; [exact Hput|].
  set (e := mkCacheEnt multi n (member_sort members)) in *.
  set (s1 := set_MXactCache (e :: rest) s).
  assert (Hc : MXactCache s1 = e :: rest) by (destruct s; reflexivity).
  assert (Hs1 : set_MXactCache (e :: rest) s1 = s1)
    by (rewrite <- Hc; apply set_MXactCache_same).
  split; [|split].
  - unfold mXactCacheGetBySet, bind, get, put, ret. rewrite Hc.
    rewrite cache_find_by_set_head.
    + cbn. rewrite Hs1. reflexivity.
    + reflexivity.
    + cbn [ent_members e]. subst e. cbn [ent_members].
      rewrite (member_sort_Permutation members' members) by (symmetry; exact Hperm).
      reflexivity.
  - rewrite (mXactCacheGetById_hit multi s1 e rest).
    + rewrite Hs1. reflexivity.
    + rewrite Hc. apply cache_find_by_id_head. reflexivity.
  - intros H. rewrite Hc. apply Hbound, H.
Qed.

(** ** Members that update *)

Lemma more_than_one_update_count f l :
  forall has_update,
    more_than_one_update f l has_update
    = (2 <=? Z.of_nat (List.length (updating_members f l))
             + (if has_update then 1 else 0)).
Proof.
  unfold updating_members.
  induction l as [|m l IH]; intros h; cbn [more_than_one_update filter].
  - destruct h; reflexivity.
  - destruct (f (member_status m)); cbn [List.length].
    + destruct h.
      * symmetry. apply Z.leb_le. lia.
      * rewrite IH. f_equal. lia.
    + apply IH.
Qed.

Lemma updating_members_Permutation f l l' :
  Permutation l l' ->
  List.length (updating_members f l) = List.length (updating_members f l').
Proof.
  unfold updating_members. induction 1; cbn [filter].
  - reflexivity.
  - destruct (f _); cbn [List.length]; congruence.
  - destruct (f (member_status x)), (f (member_status y)); reflexivity.
  - congruence.
Qed.

(* ================================================================== *)
(** * The creation of a multixact *)
(* ================================================================== *)

(** ** The creation of a multixact and the cache *)

Lemma on_MultiXactOffset_keeps_cache {A} (m : M SlruShared A) s C :
  MXactCache s = C ->
  res_ok (fun _ s' => MXactCache s' = C) (fun s' => MXactCache s' = C)
    (on_MultiXactOffset m s).
Proof. intros H. apply on_MultiXactOffset_ok; intros; destruct s; exact H. Qed.

Lemma on_MultiXactMember_keeps_cache {A} (m : M SlruShared A) s C :
  MXactCache s = C ->
  res_ok (fun _ s' => MXactCache s' = C) (fun s' => MXactCache s' = C)
    (on_MultiXactMember m s).
Proof. intros H. apply on_MultiXactMember_ok; intros; destruct s; exact H. Qed.

Lemma ExtendMultiXactOffset_keeps_cache fuel B multi s C :
  MXactCache s = C ->
  res_ok (fun _ s' => MXactCache s' = C) (fun s' => MXactCache s' = C)
    (ExtendMultiXactOffset fuel B multi s).
Proof.
  intros H. unfold ExtendMultiXactOffset.
  destruct (_ && _); [exact H|].
  apply on_MultiXactOffset_keeps_cache, H.
Qed.

Lemma extend_member_loop_keeps_cache fuel B C n :
  forall offset nmembers s,
    MXactCache s = C ->
    res_ok (fun _ s' => MXactCache s' = C) (fun s' => MXactCache s' = C)
      (extend_member_loop n fuel B offset nmembers s).
Proof.
  induction n as [|n IH]; intros offset nmembers s H; cbn [extend_member_loop];
    destruct (nmembers <=? 0); try exact H; try exact I.
  apply res_ok_bind.
  eapply res_ok_weaken with (Q := fun _ s' => MXactCache s' = C)
                            (E := fun s' => MXactCache s' = C); [| |auto].
  - destruct (_ && _); [|exact H].
    apply on_MultiXactMember_keeps_cache, H.
  - intros [] s1 H1. cbn beta. apply IH, H1.
Qed.

Lemma GetNewMultiXactId_cache fuel B nmembers s :
  cache_is_private B ->
  res_ok (fun r s' => MXactCache s' = MXactCache s
                      /\ MultiXactIdIsValid (fst r) = true)
         (fun _ => True)
         (GetNewMultiXactId fuel B nmembers s).
Proof.
  intros Hpriv. unfold GetNewMultiXactId.
  destruct (RecoveryInProgress B); [exact I|].
  ostep. ostep. ostep.
  set (s0 := if nextMXact (MultiXactState s) <? FirstMultiXactId
             then set_MultiXactState
                    (set_nextMXact FirstMultiXactId (MultiXactState s)) s
             else s).
  assert (Hc0 : MXactCache s0 = MXactCache s)
    by (subst s0; destruct (_ <? _); [destruct s|]; reflexivity).
  assert (Hn0 : FirstMultiXactId <= nextMXact (MultiXactState s0)).
  { subst s0. destruct (Z.ltb_spec (nextMXact (MultiXactState s)) FirstMultiXactId);
      [destruct s; cbn; lia | assumption]. }
  clearbody s0.
  assert (Hvalid : forall r, FirstMultiXactId <= r -> MultiXactIdIsValid r = true).
  { intros r Hr. unfold MultiXactIdIsValid. change FirstMultiXactId with 1 in Hr.
    change InvalidMultiXactId with 0.
    destruct (Z.eqb_spec r 0); [lia | reflexivity]. }
  assert (Htail : forall result s1,
    FirstMultiXactId <= result -> MXactCache s1 = MXactCache s ->
    res_ok (fun r s' => MXactCache s' = MXactCache s
                        /\ MultiXactIdIsValid (fst r) = true)
      (fun _ => True)
      ((ExtendMultiXactOffset fuel B result;;;
        s <- get;;
        let nextOffset_ := nextOffset (MultiXactState s) in
        let offset := if nextOffset_ =? 0 then 1 else nextOffset_ in
        let nmembers := if nextOffset_ =? 0 then wrap_int (nmembers + 1) else nmembers in
        ExtendMultiXactMember fuel B nextOffset_ nmembers;;;
        START_CRIT_SECTION;;;
        modify (fun s => set_MultiXactState
                  (set_nextMXact (u64 (nextMXact (MultiXactState s) + 1))
                     (MultiXactState s)) s);;;
        modify (fun s => set_MultiXactState
                  (set_nextOffset (u64 (nextOffset (MultiXactState s) + nmembers))
                     (MultiXactState s)) s);;;
        LWLockRelease MultiXactGenLock;;;
        ret (result, offset)) s1)).
  { intros result s1 Hr H1.
    apply res_ok_bind.
    eapply res_ok_weaken with (Q := fun _ s' => MXactCache s' = MXactCache s)
                              (E := fun _ => True);
      [ eapply res_ok_weaken; [apply ExtendMultiXactOffset_keeps_cache, H1 | auto | auto]
      | | auto].
    intros [] s2 H2. cbn beta. ostep.
    apply res_ok_bind.
    eapply res_ok_weaken with (Q := fun _ s' => MXactCache s' = MXactCache s)
                              (E := fun _ => True);
      [ eapply res_ok_weaken;
          [unfold ExtendMultiXactMember; apply extend_member_loop_keeps_cache, H2
          | auto | auto]
      | | auto].
    intros [] s3 H3. cbn beta. do 4 ostep.
    cbn [fst]. split; [|apply Hvalid, Hr].
    destruct s3; exact H3. }
  destruct (negb _).
  - apply res_ok_bind. do 1 ostep.
    apply res_ok_bind. unfold when.
    destruct (_ && _); cbn [emit ret res_ok]; do 3 ostep; apply Htail;
      try (rewrite Hpriv; exact Hc0);
      (destruct (_ <? _) eqn:E; [lia|]; apply Z.ltb_ge in E; exact E).
  - apply res_ok_bind. cbn [ret res_ok]. apply Htail; assumption.
Qed.

Lemma RecordNewMultiXact_keeps_cache fuel B multi offset nmembers members s C :
  MXactCache s = C ->
  res_ok (fun _ s' => MXactCache s' = C) (fun s' => MXactCache s' = C)
    (RecordNewMultiXact fuel B multi offset nmembers members s).
Proof.
  intros H. unfold RecordNewMultiXact.
  apply res_ok_bind.
  eapply res_ok_weaken with (Q := fun _ s' => MXactCache s' = C)
                            (E := fun s' => MXactCache s' = C);
    [apply on_MultiXactOffset_keeps_cache, H | | auto].
  intros slotno s1 H1. cbn beta. ostep.
  apply on_MultiXactMember_keeps_cache. exact H1.
Qed.

Lemma firstn_same_length {A} (l1 l2 : list A) n :
  List.length l1 = n -> List.length l2 = n ->
  firstn n l1 = firstn n l2 -> l1 = l2.
Proof.
  intros H1 H2 H. rewrite <- H1 in H at 1. rewrite <- H2 in H.
  rewrite !firstn_all in H. exact H.
Qed.

(** What [MultiXactIdCreateFromMembers] leaves at the head of the cache. *)
Lemma MultiXactIdCreateFromMembers_cached fuel B ISUPDATE members s :
  cache_is_private B -> cache_entries_wf (MXactCache s) ->
  res_ok
    (fun multi s1 =>
       MultiXactIdIsValid multi = true
       /\ exists rest,
           MXactCache s1
           = mkCacheEnt multi (Z.of_nat (List.length members)) (member_sort members)
             :: rest)
    (fun _ => True)
    (MultiXactIdCreateFromMembers fuel B ISUPDATE
       (Z.of_nat (List.length members)) members s).
Proof.
  intros Hpriv Hwf. unfold MultiXactIdCreateFromMembers.
  set (n := Z.of_nat (List.length members)).
  apply res_ok_bind. unfold mXactCacheGetBySet.
  apply res_ok_bind. cbn [get res_ok].
  destruct (cache_find_by_set n (member_sort members) (MXactCache s))
    as [[entry others]|] eqn:Hfind.
  - apply res_ok_bind. cbn [put ret res_ok].
    destruct (MultiXactIdIsValid (ent_multi entry)) eqn:Hv.
    + cbn [ret res_ok]. split; [exact Hv|]. exists others.
      destruct (cache_find_by_set_Some _ _ _ _ _ Hfind) as (Hin & Hn & Hm & _).
      assert (Hlen : ent_nmembers entry = Z.of_nat (List.length (ent_members entry))).
      { unfold cache_entries_wf in Hwf. rewrite Forall_forall in Hwf.
        apply Hwf, Hin. }
      assert (Hmem : ent_members entry = member_sort members).
      { symmetry. apply (firstn_same_length _ _ (Z.to_nat n)).
        - rewrite member_sort_length. subst n. lia.
        - lia.
        - exact Hm. }
      destruct s, entry; cbn in *. subst. reflexivity.
    + destruct (more_than_one_update _ _ _); [exact I|].
      apply res_ok_bind.
      eapply res_ok_weaken;
        [apply GetNewMultiXactId_cache, Hpriv | | auto].
      intros [multi offset] s1 [Hc1 Hvalid]. cbn [fst] in Hvalid. cbn beta iota.
      ostep.
      apply res_ok_bind.
      eapply res_ok_weaken with (Q := fun _ s' => MXactCache s' = MXactCache s1)
                                (E := fun _ => True);
        [ eapply res_ok_weaken;
            [apply RecordNewMultiXact_keeps_cache; reflexivity | auto | auto]
        | | auto ].
      intros [] s2 H2. cbn beta. ostep.
      apply res_ok_bind.
      destruct (mXactCachePut_head multi n (member_sort members) s2)
        as (rest & Hput & _).
      rewrite Hput. cbn [res_ok ret]. split; [exact Hvalid|].
      exists rest. rewrite member_sort_idempotent. destruct s2; reflexivity.
  - cbn [ret res_ok].
    change (MultiXactIdIsValid InvalidMultiXactId) with false. cbv iota.
    destruct (more_than_one_update _ _ _); [exact I|].
    apply res_ok_bind.
    eapply res_ok_weaken;
      [apply GetNewMultiXactId_cache, Hpriv | | auto].
    intros [multi offset] s1 [Hc1 Hvalid]. cbn [fst] in Hvalid. cbn beta iota.
    ostep.
    apply res_ok_bind.
    eapply res_ok_weaken with (Q := fun _ s' => MXactCache s' = MXactCache s1)
                              (E := fun _ => True);
      [ eapply res_ok_weaken;
          [apply RecordNewMultiXact_keeps_cache; reflexivity | auto | auto]
      | | auto ].
    intros [] s2 H2. cbn beta. ostep.
    apply res_ok_bind.
    destruct (mXactCachePut_head multi n (member_sort members) s2)
      as (rest & Hput & _).
    rewrite Hput. cbn [res_ok ret]. split; [exact Hvalid|].
    exists rest. rewrite member_sort_idempotent. destruct s2; reflexivity.
Qed.

Lemma GetMultiXactIdMembers_cached_head fuel B multi isLockOnly s n members rest :
  MultiXactIdIsValid multi = true ->
  MXactCache s = mkCacheEnt multi n members :: rest ->
  GetMultiXactIdMembers fuel B multi false isLockOnly s = Done (n, members) s [].
Proof.
  intros Hv Hc. unfold GetMultiXactIdMembers. rewrite Hv. cbn [negb orb].
  unfold bind.
  rewrite (mXactCacheGetById_hit multi s (mkCacheEnt multi n members) rest)
    by (rewrite Hc; apply cache_find_by_id_head; reflexivity).
  rewrite <- Hc, set_MXactCache_same. reflexivity.
Qed.

(** X10 -- A multixact that [MultiXactIdCreateFromMembers] has returned,
    newly made or found in the cache, is answered by
    [GetMultiXactIdMembers] in the same backend from the cache, without
    a look at the logs: the answer is the number of members and the
    members in sorted order, and the state stays as it is. *)
Theorem MultiXactIdCreateFromMembers_then_GetMultiXactIdMembers fuel fuel' B ISUPDATE members isLockOnly s multi s1 tr :
  cache_is_private B -> cache_entries_wf (MXactCache s) ->
  MultiXactIdCreateFromMembers fuel B ISUPDATE
    (Z.of_nat (List.length members)) members s = Done multi s1 tr ->
  GetMultiXactIdMembers fuel' B multi false isLockOnly s1
  = Done (Z.of_nat (List.length members), member_sort members) s1 [].
Proof.
  intros Hpriv Hwf Hrun.
  pose proof (MultiXactIdCreateFromMembers_cached fuel B ISUPDATE members s Hpriv Hwf) as H.
  rewrite Hrun in H. cbn [res_ok] in H. destruct H as (Hv & rest & Hc).
  eapply GetMultiXactIdMembers_cached_head; eassumption.
Qed.

(** X9 -- [MultiXactIdCreateFromMembers] refuses a set with more than
    one updating member that is not in the cache: it raises the error
    before anything is done, so that no multixact is consumed, nothing
    is written to WAL or to the logs, and the state is what it was. *)
Theorem MultiXactIdCreateFromMembers_rejects_two_updates fuel B ISUPDATE members s :
  cache_find_by_set (Z.of_nat (List.length members)) (member_sort members)
    (MXactCache s) = None ->
  (2 <= List.length (updating_members ISUPDATE members))%nat ->
  MultiXactIdCreateFromMembers fuel B ISUPDATE
    (Z.of_nat (List.length members)) members s
  = Raise msg_more_than_one_updating_member s [].
Proof.
  intros Hmiss Htwo. unfold MultiXactIdCreateFromMembers, mXactCacheGetBySet.
  unfold bind at 1. unfold bind at 1. cbn [get]. rewrite Hmiss. cbn [ret app].
  change (MultiXactIdIsValid InvalidMultiXactId) with false. cbv iota.
  rewrite Nat2Z.id, <- (member_sort_length members), firstn_all.
  rewrite more_than_one_update_count.
  rewrite (updating_members_Permutation ISUPDATE _ members)
    by apply member_sort_is_Permutation.
  destruct (Z.leb_spec 2 (Z.of_nat (List.length (updating_members ISUPDATE members)) + 0));
    [reflexivity | lia].
Qed.

(* ================================================================== *)
(** * The layout of the pages of the multixact logs *)
(* ================================================================== *)

(** ** The layout of a page of members *)

Lemma read_le_bound n :
  forall pg off, page_of_bytes pg -> 0 <= read_le n pg off < 256 ^ Z.of_nat n.
Proof.
  induction n as [|n IH]; intros pg off Hpg.
  - cbn. lia.
  - cbn [read_le]. rewrite Nat2Z.inj_succ, Z.pow_succ_r by lia.
    specialize (IH pg (off + 1) Hpg). specialize (Hpg off). lia.
Qed.

Lemma testbit_255 j : 0 <= j -> Z.testbit 255 j = (j <? 8).
Proof.
  intros Hj. change 255 with (Z.ones 8).
  destruct (Z.ltb_spec j 8).
  - apply Z.ones_spec_low. lia.
  - apply Z.ones_spec_high. lia.
Qed.

Lemma testbit_ones64 j : 0 <= j -> Z.testbit (TWO64 - 1) j = (j <? 64).
Proof.
  intros Hj. change (TWO64 - 1) with (Z.ones 64).
  destruct (Z.ltb_spec j 64).
  - apply Z.ones_spec_low. lia.
  - apply Z.ones_spec_high. lia.
Qed.

Lemma testbit_small v n j : 0 <= v < 2 ^ n -> 0 <= n <= j -> Z.testbit v j = false.
Proof.
  intros Hv Hj. destruct (Z.eq_dec v 0) as [->|Hne]; [apply Z.bits_0|].
  apply Z.bits_above_log2; [lia|].
  apply Z.log2_lt_pow2; [lia|].
  apply Z.lt_le_trans with (2 ^ n); [lia|].
  apply Z.pow_le_mono_r; lia.
Qed.

(** The status bits of member [k'] of a group after those of member [k]
    have been replaced. *)
Lemma flags_update f0 st k k' :
  0 <= f0 < TWO64 -> 0 <= st < 256 -> 0 <= k < 8 -> 0 <= k' < 8 ->
  Z.land
    (Z.shiftr
       (Z.lor (Z.land f0 (Z.lxor (TWO64 - 1) (Z.shiftl 255 (k * 8))))
              (Z.shiftl st (k * 8)))
       (k' * 8))
    255
  = if k' =? k then st else Z.land (Z.shiftr f0 (k' * 8)) 255.
Proof.
  intros Hf Hst Hk Hk'.
  destruct (Z.eqb_spec k' k) as [->|Hne]; apply Z.bits_inj'; intros i Hi.
  - rewrite Z.land_spec, Z.shiftr_spec, Z.lor_spec, Z.land_spec, Z.lxor_spec,
      !Z.shiftl_spec by lia.
    replace (i + k * 8 - k * 8) with i by lia.
    rewrite (testbit_255 i), (testbit_ones64 (i + k * 8)) by lia.
    destruct (Z.ltb_spec i 8).
    + destruct (Z.ltb_spec (i + k * 8) 64); [|lia].
      cbn. rewrite andb_false_r, andb_true_r. reflexivity.
    + rewrite andb_false_r. symmetry. apply (testbit_small st 8); lia.
  - rewrite !Z.land_spec, !Z.shiftr_spec, Z.lor_spec, Z.land_spec, Z.lxor_spec,
      !Z.shiftl_spec by lia.
    rewrite (testbit_255 i), (testbit_ones64 (i + k' * 8)) by lia.
    destruct (Z.ltb_spec i 8); [|rewrite !andb_false_r; reflexivity].
    rewrite !andb_true_r.
    destruct (Z.ltb_spec (i + k' * 8) 64); [|lia].
    assert (Hst0 : Z.testbit st (i + k' * 8 - k * 8) = false).
    { destruct (Z_lt_le_dec (i + k' * 8 - k * 8) 0).
      - apply Z.testbit_neg_r. lia.
      - apply (testbit_small st 8); lia. }
    rewrite Hst0, orb_false_r.
    assert (Hm : Z.testbit 255 (i + k' * 8 - k * 8) = false).
    { destruct (Z_lt_le_dec (i + k' * 8 - k * 8) 0).
      - apply Z.testbit_neg_r. lia.
      - rewrite testbit_255 by lia. apply Z.ltb_ge. lia. }
    rewrite Hm. cbn. apply andb_true_r.
Qed.

Lemma flags_value_bound f0 st k :
  0 <= f0 < TWO64 -> 0 <= st < 256 -> 0 <= k < 8 ->
  0 <= Z.lor (Z.land f0 (Z.lxor (TWO64 - 1) (Z.shiftl 255 (k * 8))))
             (Z.shiftl st (k * 8)) < TWO64.
Proof.
  intros Hf Hst Hk.
  set (mask := Z.lxor (TWO64 - 1) (Z.shiftl 255 (k * 8))).
  assert (Hl0 : 0 <= Z.land f0 mask) by (apply Z.land_nonneg; left; lia).
  assert (Hs0 : 0 <= Z.shiftl st (k * 8)) by (apply Z.shiftl_nonneg; lia).
  set (F := Z.lor (Z.land f0 mask) (Z.shiftl st (k * 8))).
  assert (H0 : 0 <= F) by (apply Z.lor_nonneg; split; assumption).
  split; [exact H0|].
  destruct (Z.eq_dec F 0) as [->|Hne]; [reflexivity|].
  change TWO64 with (2 ^ 64).
  apply Z.log2_lt_pow2; [lia|].
  unfold F. rewrite Z.log2_lor by assumption.
  apply Z.max_lub_lt.
  - assert (Hb : forall i, 64 <= i -> Z.testbit (Z.land f0 mask) i = false).
    { intros i Hi. rewrite Z.land_spec.
      rewrite (testbit_small f0 64) by (change (2 ^ 64) with TWO64; lia).
      reflexivity. }
    destruct (Z.eq_dec (Z.land f0 mask) 0) as [->|Hl]; [reflexivity|].
    destruct (Z_lt_le_dec (Z.log2 (Z.land f0 mask)) 64) as [|Hge]; [assumption|].
    pose proof (Z.bit_log2 (Z.land f0 mask) ltac:(lia)) as Hbit.
    rewrite Hb in Hbit by lia. discriminate.
  - destruct (Z.eq_dec st 0) as [->|Hst0]; [rewrite Z.shiftl_0_l; reflexivity|].
    rewrite Z.log2_shiftl by lia.
    assert (Z.log2 st < 8) by (apply Z.log2_lt_pow2; [lia | change (2 ^ 8) with 256; lia]).
    lia.
Qed.

Lemma member_layout offset :
  exists g k,
    0 <= g < 113 /\ 0 <= k < 8
    /\ offset mod 904 = g * 8 + k
    /\ MXOffsetToFlagsOffset offset = g * 72
    /\ MXOffsetToFlagsBitShift offset = k * 8
    /\ MXOffsetToMemberOffset offset = g * 72 + 8 + k * 8.
Proof.
  exists ((offset / 8) mod 113), (offset mod 8).
  unfold MXOffsetToMemberOffset, MXOffsetToFlagsOffset, MXOffsetToFlagsBitShift.
  cbv zeta. unfold_consts.
  repeat split; try (Z.div_mod_to_equations; lia).
Qed.

Lemma same_member_page offset offset' :
  MXOffsetToMemberPage offset' = MXOffsetToMemberPage offset ->
  offset' mod 904 = offset mod 904 -> offset' = offset.
Proof.
  unfold MXOffsetToMemberPage. unfold_consts. intros Hp Hm.
  rewrite (Z.div_mod offset 904), (Z.div_mod offset' 904) by lia. congruence.
Qed.

(** A member stored into a page is read back, and the other members of
    the page are as they were. *)
Lemma load_store_member pg offset offset' xid status :
  page_of_bytes pg ->
  MXOffsetToMemberPage offset' = MXOffsetToMemberPage offset ->
  0 <= xid < TWO64 -> 0 <= status < 256 ->
  load_member (store_member pg offset xid status) offset'
  = if offset' =? offset then mkMember xid status else load_member pg offset'.
Proof.
  intros Hpg Hpage Hxid Hst.
  destruct (member_layout offset) as (g & k & Hg & Hk & Hmod & Hfo & Hb & Hmo).
  destruct (member_layout offset') as (g' & k' & Hg' & Hk' & Hmod' & Hfo' & Hb' & Hmo').
  unfold load_member, store_member. cbv zeta.
  rewrite Hfo, Hb, Hmo, Hfo', Hb', Hmo'.
  change (Z.shiftl 1 MXACT_MEMBER_BITS_PER_XACT - 1) with 255.
  change MXACT_MEMBER_XACT_BITMASK with 255.
  set (pg1 := write_le 8 pg (g * 72 + 8 + k * 8) xid).
  assert (Hf0 : read_le 8 pg1 (g * 72) = read_le 8 pg (g * 72)).
  { unfold pg1. apply read_le_write_le_disjoint.
    change (Z.of_nat 8) with 8. lia. }
  rewrite Hf0.
  set (f0 := read_le 8 pg (g * 72)).
  assert (Hf0b : 0 <= f0 < TWO64) by (apply (read_le_bound 8 pg _ Hpg)).
  set (F := Z.lor (Z.land f0 (Z.lxor (TWO64 - 1) (Z.shiftl 255 (k * 8))))
                  (Z.shiftl status (k * 8))).
  assert (HF : 0 <= F < TWO64) by (apply flags_value_bound; assumption).
  (* the xid *)
  assert (Hx : read_le 8 (write_le 8 pg1 (g * 72) F) (g' * 72 + 8 + k' * 8)
               = if offset' =? offset then xid
                 else read_le 8 pg (g' * 72 + 8 + k' * 8)).
  { rewrite read_le_write_le_disjoint by (change (Z.of_nat 8) with 8; lia).
    unfold pg1. destruct (Z.eqb_spec offset' offset) as [->|Hne].
    - assert (g' = g /\ k' = k) as [-> ->] by lia.
      rewrite read_write_le. apply Z.mod_small. exact Hxid.
    - assert (g' <> g \/ k' <> k).
      { destruct (Z.eq_dec g' g) as [->|]; [|left; assumption].
        destruct (Z.eq_dec k' k) as [->|]; [|right; assumption].
        exfalso. apply Hne. apply same_member_page; [exact Hpage | lia]. }
      apply read_le_write_le_disjoint. change (Z.of_nat 8) with 8. lia. }
  (* the flags *)
  assert (Hfl : Z.land (Z.shiftr (read_le 8 (write_le 8 pg1 (g * 72) F) (g' * 72))
                          (k' * 8)) 255
                = if offset' =? offset then status
                  else Z.land (Z.shiftr (read_le 8 pg (g' * 72)) (k' * 8)) 255).
  { destruct (Z.eq_dec g' g) as [->|Hg'ne].
    - rewrite read_write_le.
      rewrite Z.mod_small by exact HF.
      unfold F. rewrite flags_update by assumption.
      destruct (Z.eqb_spec k' k) as [->|Hkne].
      + assert (offset' = offset) as -> by (apply same_member_page; [exact Hpage | lia]).
        rewrite Z.eqb_refl. reflexivity.
      + destruct (Z.eqb_spec offset' offset) as [->|]; [lia|]. reflexivity.
    - destruct (Z.eqb_spec offset' offset) as [->|]; [lia|].
      rewrite read_le_write_le_disjoint by (change (Z.of_nat 8) with 8; lia).
      unfold pg1.
      rewrite read_le_write_le_disjoint by (change (Z.of_nat 8) with 8; lia).
      reflexivity. }
  rewrite Hx, Hfl. destruct (offset' =? offset); reflexivity.
Qed.

(** The start offset stored for a multixact is read back, and the other
    entries of the page are as they were. *)
Lemma read_store_offset sh slotno multi multi' offset :
  MultiXactIdToOffsetPage multi' = MultiXactIdToOffsetPage multi ->
  0 <= offset < TWO64 ->
  read_offset_entry
    (set_page_buffer sh slotno (store_offset (page_buffer sh slotno) multi offset))
    slotno (MultiXactIdToOffsetEntry multi')
  = if multi' =? multi then offset
    else read_offset_entry sh slotno (MultiXactIdToOffsetEntry multi').
Proof.
  intros Hpage Hoff. unfold read_offset_entry, store_offset, set_page_buffer.
  cbn [page_buffer]. rewrite upd_same.
  unfold MultiXactIdToOffsetEntry, MultiXactIdToOffsetPage in *. unfold_consts.
  destruct (Z.eqb_spec multi' multi) as [->|Hne].
  - rewrite read_write_le. apply Z.mod_small. exact Hoff.
  - assert (multi' mod 1024 <> multi mod 1024).
    { intros Hm. apply Hne.
      rewrite (Z.div_mod multi 1024), (Z.div_mod multi' 1024) by lia. congruence. }
    apply read_le_write_le_disjoint. change (Z.of_nat 8) with 8.
    pose proof (Z.mod_pos_bound multi 1024 eq_refl).
    pose proof (Z.mod_pos_bound multi' 1024 eq_refl). lia.
Qed.

(* ================================================================== *)
(** * The oldest multixact among the per-backend entries *)
(* ================================================================== *)

(** ** The oldest multixact among the per-backend entries *)

Lemma to_int64_diff next a b :
  within_window next a -> within_window next b ->
  to_int64 (a - b) = to_int64 (a - next) - to_int64 (b - next).
Proof.
  unfold within_window, to_int64, u64, TWO64, TWO63. intros Ha Hb.
  destruct (Z.ltb_spec ((a - next) mod 18446744073709551616) 9223372036854775808);
    destruct (Z.ltb_spec ((b - next) mod 18446744073709551616) 9223372036854775808);
    destruct (Z.ltb_spec ((a - b) mod 18446744073709551616) 9223372036854775808);
    Z.div_mod_to_equations; lia.
Qed.

Lemma within_window_precedes next a b :
  within_window next a -> within_window next b ->
  MultiXactIdPrecedes a b = (to_int64 (a - next) <? to_int64 (b - next)).
Proof.
  intros Ha Hb. unfold MultiXactIdPrecedes. cbv zeta.
  rewrite (to_int64_diff next a b Ha Hb).
  destruct (Z.ltb_spec (to_int64 (a - next) - to_int64 (b - next)) 0);
    destruct (Z.ltb_spec (to_int64 (a - next)) (to_int64 (b - next))); lia.
Qed.

Lemma within_window_refl next : within_window next next.
Proof.
  unfold within_window. rewrite Z.sub_diag. unfold to_int64, u64, TWO63, TWO64.
  cbn. lia.
Qed.

Lemma precedes_or_equals_window next a :
  within_window next a -> MultiXactIdPrecedesOrEquals a next = true.
Proof.
  unfold within_window, MultiXactIdPrecedesOrEquals. cbv zeta. intros H.
  apply Z.leb_le. lia.
Qed.

Lemma take_older next cur this :
  within_window next cur -> within_window next this ->
  let cur' := if MultiXactIdPrecedes this cur then this else cur in
  within_window next cur'
  /\ to_int64 (cur' - next) <= to_int64 (cur - next)
  /\ to_int64 (cur' - next) <= to_int64 (this - next)
  /\ (cur' = cur \/ cur' = this).
Proof.
  intros Hc Ht. cbv zeta. rewrite (within_window_precedes next this cur Ht Hc).
  unfold within_window in *.
  destruct (Z.ltb_spec (to_int64 (this - next)) (to_int64 (cur - next)));
    repeat split; auto; lia.
Qed.

Lemma validity_of_choice (v cur this : Z) (c : bool) :
  MultiXactIdIsValid cur = true ->
  (c = true -> MultiXactIdIsValid this = true) ->
  MultiXactIdIsValid (if c then this else cur) = true.
Proof. intros Hc Ht. destruct c; auto. Qed.

Lemma scan_step_entry next cur this :
  MultiXactIdIsValid cur = true -> within_window next cur ->
  (MultiXactIdIsValid this = true -> within_window next this) ->
  let cur' := if MultiXactIdIsValid this && MultiXactIdPrecedes this cur
              then this else cur in
  MultiXactIdIsValid cur' = true
  /\ within_window next cur'
  /\ to_int64 (cur' - next) <= to_int64 (cur - next)
  /\ (MultiXactIdIsValid this = true -> MultiXactIdPrecedes this cur' = false).
Proof.
  intros Hv Hc Ht. cbv zeta.
  destruct (MultiXactIdIsValid this) eqn:Hvt; cbn [andb].
  - specialize (Ht eq_refl).
    destruct (take_older next cur this Hc Ht) as (Hw & Hle1 & Hle2 & Hor).
    cbv zeta in *.
    split; [destruct (MultiXactIdPrecedes this cur); assumption|].
    split; [exact Hw|]. split; [exact Hle1|]. intros _.
    rewrite (within_window_precedes next _ _ Ht Hw). apply Z.ltb_ge. exact Hle2.
  - split; [exact Hv|]. split; [exact Hc|]. split; [lia|]. discriminate.
Qed.

Lemma not_preceded_mono next a cur cur' :
  within_window next a -> within_window next cur -> within_window next cur' ->
  to_int64 (cur' - next) <= to_int64 (cur - next) ->
  MultiXactIdPrecedes a cur = false -> MultiXactIdPrecedes a cur' = false.
Proof.
  intros Ha Hc Hc' Hle.
  rewrite (within_window_precedes next a cur Ha Hc),
          (within_window_precedes next a cur' Ha Hc').
  intros H. apply Z.ltb_ge in H. apply Z.ltb_ge. lia.
Qed.

Lemma oldest_multi_scan_bound B m next n :
  forall i cur,
    (forall j, i <= j < i + Z.of_nat n ->
       (MultiXactIdIsValid (OldestMemberMXactId m j) = true ->
        within_window next (OldestMemberMXactId m j))
       /\ (MultiXactIdIsValid (OldestVisibleMXactId m j) = true ->
           within_window next (OldestVisibleMXactId m j))) ->
    (forall j, 0 <= j < i ->
       (MultiXactIdIsValid (OldestMemberMXactId m j) = true ->
        within_window next (OldestMemberMXactId m j))
       /\ (MultiXactIdIsValid (OldestVisibleMXactId m j) = true ->
           within_window next (OldestVisibleMXactId m j))) ->
    0 <= i ->
    scan_bound B m next i cur ->
    scan_bound B m next (i + Z.of_nat n) (oldest_multi_scan m n i cur).
Proof.
  induction n as [|n IH]; intros i cur Hwin Hpast Hi Hinv; cbn [oldest_multi_scan].
  - replace (i + Z.of_nat 0) with i by lia. exact Hinv.
  - destruct Hinv as (Hv & Hw & _ & Hlow).
    destruct (Hwin i ltac:(lia)) as [Hwm Hwv].
    destruct (scan_step_entry next cur (OldestMemberMXactId m i) Hv Hw Hwm)
      as (Hv1 & Hw1 & Hle1 & Hnp1).
    cbv zeta in Hv1, Hw1, Hle1, Hnp1.
    set (cur1 := if MultiXactIdIsValid (OldestMemberMXactId m i)
                    && MultiXactIdPrecedes (OldestMemberMXactId m i) cur
                 then OldestMemberMXactId m i else cur) in *.
    destruct (scan_step_entry next cur1 (OldestVisibleMXactId m i) Hv1 Hw1 Hwv)
      as (Hv2 & Hw2 & Hle2 & Hnp2).
    cbv zeta in Hv2, Hw2, Hle2, Hnp2.
    set (cur2 := if MultiXactIdIsValid (OldestVisibleMXactId m i)
                    && MultiXactIdPrecedes (OldestVisibleMXactId m i) cur1
                 then OldestVisibleMXactId m i else cur1) in *.
    replace (i + Z.of_nat (S n)) with ((i + 1) + Z.of_nat n) by lia.
    apply IH; try lia.
    + intros j Hj. apply Hwin. lia.
    + intros j Hj. destruct (Z.eq_dec j i) as [->|]; [split; assumption|].
      apply Hpast. lia.
    + split; [exact Hv2|]. split; [exact Hw2|].
      split; [apply precedes_or_equals_window, Hw2|].
      intros j Hj. destruct (Z.eq_dec j i) as [->|Hne].
      * split; [|exact Hnp2].
        intros Hvm. apply (not_preceded_mono next _ cur1); auto.
      * destruct (Hlow j ltac:(lia)) as [Hm Hvis].
        destruct (Hpast j ltac:(lia)) as [Hpm Hpv].
        split; intros Hval.
        -- apply (not_preceded_mono next _ cur); auto. lia.
        -- apply (not_preceded_mono next _ cur); auto. lia.
Qed.

Lemma clamp_to_first_valid v : MultiXactIdIsValid (clamp_to_first v) = true.
Proof.
  unfold clamp_to_first, MultiXactIdIsValid.
  change FirstMultiXactId with 1. change InvalidMultiXactId with 0.
  destruct (Z.ltb_spec v 1); [reflexivity|].
  destruct (Z.eqb_spec v 0); [lia | reflexivity].
Qed.

Lemma GetOldestMultiXactId_bound B s :
  0 <= MaxOldestSlot B ->
  oldest_slots_in_window B (MultiXactState s) ->
  exists oldest,
    GetOldestMultiXactId B s
    = Done oldest s [EvAcquire MultiXactGenLock LW_SHARED; EvRelease MultiXactGenLock]
    /\ scan_bound B (MultiXactState s) (clamp_to_first (nextMXact (MultiXactState s)))
         (MaxOldestSlot B) oldest.
Proof.
  intros Hmax Hwin. eexists. split; [reflexivity|].
  fold (clamp_to_first (nextMXact (MultiXactState s))).
  set (next := clamp_to_first (nextMXact (MultiXactState s))).
  replace (MaxOldestSlot B) with (0 + Z.of_nat (Z.to_nat (MaxOldestSlot B))) at 1 by lia.
  apply oldest_multi_scan_bound; try lia.
  - intros j Hj. apply Hwin. lia.
  - split; [apply clamp_to_first_valid|].
    split; [apply within_window_refl|].
    split; [apply precedes_or_equals_window, within_window_refl|].
    intros; lia.
Qed.

(* ================================================================== *)
(** * Truncation and replay of the commit timestamps *)
(* ================================================================== *)

(** ** The truncation of the commit timestamps *)

Lemma quot_segment_first segno :
  Z.quot (segno * SLRU_PAGES_PER_SEGMENT) SLRU_PAGES_PER_SEGMENT = segno.
Proof. apply Z.quot_mul. discriminate. Qed.

Lemma u64_to_int64 x : u64 (to_int64 x) = u64 x.
Proof.
  unfold to_int64, u64. destruct (x mod TWO64 <? TWO63).
  - apply Z.mod_mod. discriminate.
  - rewrite Zminus_mod, Z.mod_same, Z.sub_0_r by discriminate.
    rewrite !Z.mod_mod by discriminate. reflexivity.
Qed.

Lemma u64_to_int64_add x k : u64 (to_int64 x + k) = u64 (x + k).
Proof.
  unfold u64. rewrite Zplus_mod. fold (u64 (to_int64 x)).
  rewrite u64_to_int64. unfold u64. rewrite <- Zplus_mod. reflexivity.
Qed.

(** The page orders of the three logs cast the page to [uint64] first:
    they depend on it modulo 2^64 only. *)
Lemma log_page_order_cong precedes p p' q :
  is_log_page_order precedes -> u64 p = u64 p' ->
  precedes p q = precedes p' q.
Proof.
  intros [H|[H|H]] Hp; rewrite !H;
    unfold MultiXactOffsetPagePrecedes, MultiXactMemberPagePrecedes,
      CommitTsPagePrecedes; cbv zeta; rewrite Hp; reflexivity.
Qed.

(** For these orders the test of [SlruMayDeleteSegment] on the page of
    the scan is the test on the first page of the entry, wrapped or
    not. *)
Lemma may_delete_wrapped ctl cutoff segno :
  is_log_page_order (PagePrecedes ctl) ->
  SlruMayDeleteSegment ctl (to_int64 (segno * SLRU_PAGES_PER_SEGMENT)) cutoff
  = may_delete_segno ctl cutoff segno.
Proof.
  intros Hord. unfold may_delete_segno, SlruMayDeleteSegment. cbv zeta.
  rewrite (log_page_order_cong _ _ (segno * SLRU_PAGES_PER_SEGMENT) _ Hord
             (u64_to_int64 _)).
  rewrite (log_page_order_cong _
             (to_int64 (segno * SLRU_PAGES_PER_SEGMENT) + SLRU_PAGES_PER_SEGMENT - 1)
             (segno * SLRU_PAGES_PER_SEGMENT + SLRU_PAGES_PER_SEGMENT - 1) _ Hord).
  - reflexivity.
  - rewrite <- !Z.add_sub_assoc. apply u64_to_int64_add.
Qed.

Lemma scan_report_presence ctl cutoff entries sh :
  is_log_page_order (PagePrecedes ctl) ->
  scan_entries (SlruScanDirCbReportPresence ctl cutoff) entries sh
  = Done (existsb (may_delete_segno ctl cutoff) entries) sh [].
Proof.
  intros Hord.
  induction entries as [|segno rest IH]; cbn [scan_entries existsb]; [reflexivity|].
  unfold SlruScanDirCbReportPresence at 1. rewrite (may_delete_wrapped _ _ _ Hord).
  destruct (may_delete_segno ctl cutoff segno) eqn:E.
  - reflexivity.
  - cbn [orb]. unfold bind, ret. cbn. rewrite IH. reflexivity.
Qed.

Lemma SlruScanDirectory_report_presence ctl cutoff sh :
  is_log_page_order (PagePrecedes ctl) ->
  SlruScanDirectory ctl (SlruScanDirCbReportPresence ctl cutoff) sh
  = Done (existsb (may_delete_segno ctl cutoff) (segments_of sh)) sh [].
Proof.
  intros Hord. unfold SlruScanDirectory, bind, get.
  rewrite (scan_report_presence _ _ _ _ Hord). reflexivity.
Qed.

Lemma CommitTsCtl_page_order B : is_log_page_order (PagePrecedes (CommitTsCtl B)).
Proof. right. right. intros p q. reflexivity. Qed.

Lemma set_CommitTsSlru_same s : set_CommitTsSlru (CommitTsSlru s) s = s.
Proof. destruct s; reflexivity. Qed.

Lemma TruncateCommitTs_unfold fuel B oldestXact s :
  let ctl := CommitTsCtl B in
  let cutoffPage := TransactionIdToCTsPage oldestXact in
  TruncateCommitTs fuel B oldestXact s
  = if existsb (may_delete_segno ctl cutoffPage) (segments_of (CommitTsSlru s))
    then after_events [EvXLogInsert (COMMIT_TS_TRUNCATE cutoffPage oldestXact)]
           (on_CommitTs (SimpleLruTruncate fuel ctl cutoffPage) s)
    else Done tt s [].
Proof.
  cbv zeta. unfold TruncateCommitTs.
  unfold bind at 1. unfold on_CommitTs at 1, zoom.
  rewrite (SlruScanDirectory_report_presence _ _ _ (CommitTsCtl_page_order B)),
    set_CommitTsSlru_same.
  destruct (existsb _ _); cbn [negb app]; [|reflexivity].
  unfold WriteTruncateXlogRec, XLogInsert, bind, emit.
  destruct (on_CommitTs _ s); reflexivity.
Qed.

Lemma logged_before_unlinks_cons record tr :
  logged_before_unlinks record (EvXLogInsert record :: tr).
Proof.
  intros pre dir segno post H. destruct pre as [|e pre]; [discriminate|].
  injection H as <- _. left. reflexivity.
Qed.

Lemma logged_before_unlinks_nil record : logged_before_unlinks record [].
Proof. intros [|e pre] dir segno post H; discriminate. Qed.

Lemma res_trace_after_events {S A} tr (r : Res S A) :
  r <> OutOfFuel -> res_trace (after_events tr r) = tr ++ res_trace r.
Proof. destruct r; cbn; congruence. Qed.

Lemma TruncateCommitTs_logged fuel B oldestXact s :
  logged_before_unlinks
    (COMMIT_TS_TRUNCATE (TransactionIdToCTsPage oldestXact) oldestXact)
    (res_trace (TruncateCommitTs fuel B oldestXact s)).
Proof.
  rewrite TruncateCommitTs_unfold. cbv zeta.
  destruct (existsb _ _); [|apply logged_before_unlinks_nil].
  destruct (on_CommitTs _ s); cbn [after_events res_trace app];
    try apply logged_before_unlinks_cons.
  apply logged_before_unlinks_nil.
Qed.

(** ** Replay of a truncation of the commit timestamps *)

Lemma SimpleLruWaitIO_no_wraparound_log ctl k sh :
  trace_ok not_wraparound_log (SimpleLruWaitIO ctl k sh).
Proof. unfold SimpleLruWaitIO. trace_steps ltac:(exact I). Qed.

Lemma wait_write_in_progress_no_wraparound_log ctl k p fuel :
  forall sh, trace_ok not_wraparound_log (wait_write_in_progress fuel ctl k p sh).
Proof.
  induction fuel as [|fuel IH]; intros sh; cbn [wait_write_in_progress].
  - apply trace_ok_nil. reflexivity.
  - trace_steps ltac:(first [exact I | apply SimpleLruWaitIO_no_wraparound_log | apply IH]).
Qed.

Lemma SlruPhysicalWritePage_no_wraparound_log ctl p k sh :
  trace_ok not_wraparound_log (SlruPhysicalWritePage ctl p k sh).
Proof. unfold SlruPhysicalWritePage. trace_steps ltac:(exact I). Qed.

Lemma SlruInternalWritePage_no_wraparound_log fuel ctl k sh :
  trace_ok not_wraparound_log (SlruInternalWritePage fuel ctl k sh).
Proof.
  unfold SlruInternalWritePage.
  trace_steps ltac:(first [exact I | apply wait_write_in_progress_no_wraparound_log
                          | apply SlruPhysicalWritePage_no_wraparound_log]).
Qed.

Lemma truncate_slots_no_wraparound_log fuel ctl cutoff n :
  forall slotno prevbank sh,
    trace_ok not_wraparound_log (truncate_slots fuel ctl cutoff n slotno prevbank sh).
Proof.
  induction n as [|n IH]; intros slotno prevbank sh; cbn [truncate_slots].
  - apply trace_ok_nil. reflexivity.
  - trace_steps ltac:(first [exact I | apply IH
                            | apply SlruInternalWritePage_no_wraparound_log
                            | apply SimpleLruWaitIO_no_wraparound_log]).
Qed.

Lemma scan_delete_cutoff_no_wraparound_log ctl cutoff entries :
  forall sh,
    trace_ok not_wraparound_log
      (scan_entries (SlruScanDirCbDeleteCutoff ctl cutoff) entries sh).
Proof.
  induction entries as [|segno rest IH]; intros sh; cbn [scan_entries].
  - apply trace_ok_nil. reflexivity.
  - unfold SlruScanDirCbDeleteCutoff at 1, SlruInternalDeleteSegment.
    trace_steps ltac:(first [exact I | apply IH]).
Qed.

(** [SimpleLruTruncate] by a backend that is alone never reports an
    apparent wraparound when the latest page does not precede the
    cutoff. *)
Lemma SimpleLruTruncate_no_wraparound_log ctl cutoff :
  quiet ctl ->
  forall fuel sh,
    (rank_sum sh (Z.to_nat (num_slots sh)) 0 + 3 <= fuel)%nat ->
    PagePrecedes ctl (to_int64 (latest_page_number sh)) cutoff = false ->
    trace_ok not_wraparound_log (SimpleLruTruncate fuel ctl cutoff sh).
Proof.
  intros Hq. induction fuel as [|fuel IH]; intros sh Hfuel Hlatest; [lia|].
  cbn [SimpleLruTruncate].
  apply trace_ok_bind_inv; [apply trace_ok_nil; reflexivity|].
  intros sh0 s0 t0 Hget. unfold get in Hget. injection Hget as <- <- _.
  rewrite Hlatest. unfold LWLockAcquire.
  apply trace_ok_bind_inv; [apply trace_ok_emit; exact I|].
  intros [] s1 t1 Hemit. unfold emit in Hemit. injection Hemit as <- _.
  apply trace_ok_bind_inv; [apply truncate_slots_no_wraparound_log|].
  intros r sh1 t2 Hrun.
  pose proof (truncate_slots_quiet ctl cutoff fuel Hq ltac:(lia)
                (Z.to_nat (num_slots sh)) 0 (SlotGetBankNumber 0) sh) as Hts.
  rewrite Hrun in Hts. cbn [res_total] in Hts. destruct Hts as (Hs1 & Hf1 & Hr).
  destruct r as [prevbank|[]].
  - unfold SlruScanDirectory.
    trace_steps ltac:(first [exact I | apply scan_delete_cutoff_no_wraparound_log]).
  - destruct (Hr eq_refl) as (k & Hk & Hlt).
    destruct Hs1 as (Hn1 & Hl1 & Hle1).
    pose proof (rank_sum_lt sh sh1 (Z.to_nat (num_slots sh)) 0 k Hle1 Hk Hlt) as Hsum.
    apply IH; [rewrite Hn1; lia | rewrite Hl1; assumption].
Qed.

Lemma CommitTsPagePrecedes_irrefl p : CommitTsPagePrecedes p p = false.
Proof.
  destruct (CommitTsPagePrecedes p p) eqn:E; [|reflexivity].
  apply commit_ts_page_arc in E. rewrite Z.sub_diag in E. cbn in E.
  unfold TWO63 in E. lia.
Qed.

Lemma AdvanceOldestCommitTsXid_result oldestXact s :
  exists s1,
    AdvanceOldestCommitTsXid oldestXact s
    = Done tt s1 [EvAcquire CommitTsLock LW_EXCLUSIVE; EvRelease CommitTsLock]
    /\ CommitTsSlru s1 = CommitTsSlru s
    /\ oldestCommitTsXid (TransamVariables s1)
       = (if negb (oldestCommitTsXid (TransamVariables s) =? InvalidTransactionId)
             && TransactionIdPrecedes (oldestCommitTsXid (TransamVariables s)) oldestXact
          then oldestXact else oldestCommitTsXid (TransamVariables s)).
Proof.
  unfold AdvanceOldestCommitTsXid, LWLockAcquire, LWLockRelease, when, bind, get, emit.
  destruct (_ && _); cbn; eexists; repeat split.
Qed.

Lemma on_CommitTs_modify f s :
  on_CommitTs (modify f) s = Done tt (set_CommitTsSlru (f (CommitTsSlru s)) s) [].
Proof. reflexivity. Qed.

(** X13 -- Replay of a truncation record of the commit timestamps by a
    backend that is alone: the latest page is set to the page of the
    record, so that the check of [SimpleLruTruncate] against an apparent
    wraparound never stops the truncation; the replay ends, by
    returning or by the I/O error of a write-back, and when it returns
    no page of a segment wholly before the page of the record is on
    disk, and every other segment file is still there. *)
Theorem commit_ts_redo_truncates fuel B pageno oldestXid s :
  quiet (CommitTsCtl B) -> is_int64 pageno ->
  (TRUNCATE_FUEL (CommitTsSlru s) <= fuel)%nat ->
  let ctl := CommitTsCtl B in
  let r := commit_ts_redo fuel B (COMMIT_TS_TRUNCATE pageno oldestXid) s in
  res_total
    (fun _ s' =>
       truncated_pages_gone ctl pageno (CommitTsSlru s')
       /\ other_segments_kept ctl pageno (CommitTsSlru s) (CommitTsSlru s'))
    (fun _ => True) r
  /\ trace_ok not_wraparound_log r.
Proof.
  intros Hq Hp Hfuel ctl r. subst r. unfold commit_ts_redo.
  destruct (AdvanceOldestCommitTsXid_result oldestXid s) as (s1 & Hadv & Hslru & _).
  set (sh1 := set_latest_page_number (CommitTsSlru s1) (u64 pageno)).
  assert (Hlatest : PagePrecedes ctl (to_int64 (latest_page_number sh1)) pageno = false).
  { subst sh1. fields. rewrite to_int64_u64 by exact Hp.
    apply CommitTsPagePrecedes_irrefl. }
  assert (Hrank : (rank_sum sh1 (Z.to_nat (num_slots sh1)) 0 + 3 <= fuel)%nat).
  { pose proof (rank_sum_bound sh1 (Z.to_nat (num_slots sh1)) 0) as Hb.
    assert (Hn : num_slots sh1 = num_slots (CommitTsSlru s))
      by (subst sh1; fields; rewrite Hslru; reflexivity).
    rewrite Hn in *. unfold TRUNCATE_FUEL in Hfuel. lia. }
  assert (Hfiles : files sh1 = files (CommitTsSlru s)).
  { subst sh1. fields. rewrite Hslru. reflexivity. }
  split.
  - apply res_total_bind. rewrite Hadv. cbn [res_total].
    apply res_total_bind. rewrite on_CommitTs_modify. cbn [res_total].
    unfold on_CommitTs. apply res_total_zoom. pgfields. fold sh1.
    eapply res_total_weaken;
      [apply (SimpleLruTruncate_quiet ctl pageno Hq fuel sh1 Hrank Hlatest) | | auto].
    intros [] sh' [Hgone Hkept]. cbn beta. pgfields. split.
    + apply gone_of_lookup. exact Hgone.
    + intros segno Hm Hpresent. apply Hkept; [exact Hm|].
      rewrite Hfiles. exact Hpresent.
  - apply trace_ok_bind_inv.
    { rewrite Hadv. unfold trace_ok. cbn. repeat constructor. }
    intros [] s1' t1 H1. rewrite Hadv in H1. injection H1 as <- _.
    apply trace_ok_bind_inv.
    { apply trace_ok_nil. reflexivity. }
    intros [] s2 t2 H2. rewrite on_CommitTs_modify in H2. injection H2 as <- _.
    unfold on_CommitTs. apply trace_ok_zoom. pgfields. fold sh1.
    apply (SimpleLruTruncate_no_wraparound_log ctl pageno Hq fuel sh1 Hrank Hlatest).
Qed.

(** ** The latest commit *)

Lemma GetLatestCommitTsData_result s :
  GetLatestCommitTsData s
  = if commitTsActive (commitTsShared s)
    then Done (xidLastCommit (commitTsShared s),
               entry_time (dataLastCommit (commitTsShared s)),
               entry_nodeid (dataLastCommit (commitTsShared s))) s
           [EvAcquire CommitTsLock LW_SHARED; EvRelease CommitTsLock]
    else Raise msg_commit_ts_disabled s [EvAcquire CommitTsLock LW_SHARED].
Proof.
  unfold GetLatestCommitTsData, LWLockAcquire, LWLockRelease, bind, get, emit,
    error_commit_ts_disabled, ereport_ERROR, ret.
  destruct (commitTsActive (commitTsShared s)); reflexivity.
Qed.

Lemma GetLatestCommitTsData_after_set fuel B xid subxids ts nodeid s s1 tr :
  commitTsActive (commitTsShared s) = true ->
  TransactionTreeSetCommitTsData fuel B xid subxids ts nodeid s = Done tt s1 tr ->
  GetLatestCommitTsData s1
  = Done (xid, ts, nodeid) s1
      [EvAcquire CommitTsLock LW_SHARED; EvRelease CommitTsLock].
Proof.
  intros Hact Hrun.
  destruct (TransactionTreeSetCommitTsData_Done _ _ _ _ _ _ _ _ _ Hact Hrun)
    as (s0 & tr0 & _ & _ & Hshared & _).
  rewrite GetLatestCommitTsData_result, Hshared. reflexivity.
Qed.

(* ================================================================== *)
(** * Further properties of the code *)
(* ================================================================== *)

Lemma run_Done {S A} (m : M S A) s a :
  res_value (m s) = Some a ->
  m s = Done a (state_after m s) (res_trace (m s)).
Proof.
  unfold state_after. destruct (m s); cbn; intros H; try discriminate.
  injection H as ->. reflexivity.
Qed.

(** A truncation that goes through: two segments of offsets go, after
    the WAL record and the new bounds. *)
Example TruncateMultiXact_example :
  let r := TruncateMultiXact SLRU_FUEL alone_backend 70000 1 three_segments_state in
  res_value r = Some tt
  /\ trunc_phase_run BeforeCrit (res_trace r) = Some AfterCrit
  /\ unlinks_of (res_trace r)
     = [EvUnlink "pg_multixact/offsets" 0; EvUnlink "pg_multixact/offsets" 1].
Proof. vm_compute. repeat split. Qed.

(** X3 -- Every assertion of [SlruPagePrecedesTestOffset] holds of the
    page orders of pg_multixact/offsets and of pg_commit_ts, for every
    offset within a page and not only for the three that
    [SlruPagePrecedesUnitTests] tries. *)
Theorem SlruPagePrecedesTestOffset_holds B ctl per_page offset :
  In (ctl, per_page)
     [(MultiXactOffsetCtl B, MULTIXACT_OFFSETS_PER_PAGE);
      (CommitTsCtl B, COMMIT_TS_XACTS_PER_PAGE)] ->
  0 <= offset < per_page ->
  SlruPagePrecedesTestOffset ctl per_page offset = true.
Proof.
  intros [H | [H | []]] Hoff; injection H as <- <-.
  - pose proof (offsets_test_all B) as Hall. rewrite forallb_forall in Hall.
    apply Hall, In_offsets_below, Hoff.
  - pose proof (commit_ts_test_all B) as Hall. rewrite forallb_forall in Hall.
    apply Hall, In_offsets_below, Hoff.
Qed.

Lemma SlruPagePrecedesTestOffset_holds_witness :
  SlruPagePrecedesTestOffset (CommitTsCtl alone_backend) COMMIT_TS_XACTS_PER_PAGE 409
  = true.
Proof.
  apply (SlruPagePrecedesTestOffset_holds alone_backend).
  - right. left. reflexivity.
  - change COMMIT_TS_XACTS_PER_PAGE with 819. lia.
Defined.

(** X4 -- The number of buffers [SimpleLruAutotuneBuffers] computes is
    a multiple of [SLRU_BANK_SIZE], so that [check_slru_buffers] accepts
    it, and lies between [SLRU_BANK_SIZE] and [max] when [max] is at
    least one bank.  [CommitTsShmemBuffers] gives a number of at least
    16 and at most the allowed maximum that [check_slru_buffers]
    accepts, when it accepts the setting and the maximum. *)
Theorem SimpleLruAutotuneBuffers_valid :
  (forall NBuffers divisor max,
      SLRU_BANK_SIZE <= max ->
      let n := SimpleLruAutotuneBuffers NBuffers divisor max in
      check_slru_buffers n = true /\ SLRU_BANK_SIZE <= n <= max)
  /\ (forall NBuffers commit_timestamp_buffers max_allowed,
         check_slru_buffers commit_timestamp_buffers = true ->
         check_slru_buffers max_allowed = true -> 1024 <= max_allowed ->
         let n := CommitTsShmemBuffers NBuffers commit_timestamp_buffers max_allowed in
         check_slru_buffers n = true /\ 16 <= n <= max_allowed).
Proof.
  split.
  - intros NBuffers divisor max Hmax n. split.
    + apply check_slru_buffers_autotune.
    + apply SimpleLruAutotuneBuffers_bounds, Hmax.
  - intros NBuffers guc max_allowed Hguc Hmaxc Hmax n. subst n.
    unfold CommitTsShmemBuffers. destruct (guc =? 0).
    + split; [apply check_slru_buffers_autotune|].
      pose proof (SimpleLruAutotuneBuffers_bounds NBuffers 512 1024) as Hb.
      change SLRU_BANK_SIZE with 16 in Hb. lia.
    + split.
      * apply Z.min_case; [|exact Hmaxc]. apply Z.max_case; [reflexivity | exact Hguc].
      * lia.
Qed.

Lemma SimpleLruAutotuneBuffers_valid_witness :
  (check_slru_buffers (SimpleLruAutotuneBuffers 16384 512 1024) = true
   /\ SLRU_BANK_SIZE <= SimpleLruAutotuneBuffers 16384 512 1024 <= 1024)
  /\ (check_slru_buffers (CommitTsShmemBuffers 16384 100000 131072) = true
      /\ 16 <= CommitTsShmemBuffers 16384 100000 131072 <= 131072).
Proof.
  split.
  - apply (proj1 SimpleLruAutotuneBuffers_valid 16384 512 1024).
    vm_compute. discriminate.
  - apply (proj2 SimpleLruAutotuneBuffers_valid 16384 100000 131072).
    + reflexivity.
    + reflexivity.
    + lia.
Defined.

(** X5 -- The file name [SlruFileName] gives a segment is found again
    by [SlruScanDirectory]: for a segment number in the range
    [SlruFileName] asserts, the name has a length that
    [SlruCorrectSegmentFilenameLength] accepts, consists of upper-case
    hexadecimal digits only, and is parsed back to the same segment
    number.  So distinct segments have distinct names. *)
Theorem SlruFileName_is_scanned_back ctl segno :
  segno_in_range ctl segno ->
  SlruFileName ctl segno
  = (Dir ctl ++ "/" ++ string_of_list_ascii (SlruSegmentName ctl segno))%string
  /\ scanned_segment ctl (SlruSegmentName ctl segno) = Some segno.
Proof.
  intros H. split; [reflexivity|]. apply scanned_segment_of_name, H.
Qed.

Lemma SlruFileName_is_scanned_back_witness :
  SlruFileName (MultiXactOffsetCtl alone_backend) 4660
  = "pg_multixact/offsets/000000000001234"%string
  /\ scanned_segment (MultiXactOffsetCtl alone_backend)
       (SlruSegmentName (MultiXactOffsetCtl alone_backend) 4660) = Some 4660.
Proof.
  apply (SlruFileName_is_scanned_back (MultiXactOffsetCtl alone_backend) 4660).
  unfold segno_in_range. cbn. lia.
Defined.

(** X6 -- [mxactMemberComparator] is a total order on members: it is
    antisymmetric, it answers 0 for equal members only, and "at most"
    is transitive.  So sorting with it gives one result for a set of
    members however the caller has listed them, and the result holds
    the same members. *)
Theorem mxactMemberComparator_total_order :
  (forall m1 m2, mxactMemberComparator m1 m2 = - mxactMemberComparator m2 m1)
  /\ (forall m1 m2, mxactMemberComparator m1 m2 = 0 <-> m1 = m2)
  /\ (forall m1 m2 m3,
         mxactMemberComparator m1 m2 <= 0 -> mxactMemberComparator m2 m3 <= 0 ->
         mxactMemberComparator m1 m3 <= 0)
  /\ (forall l l', Permutation l l' -> member_sort l = member_sort l')
  /\ (forall l, Permutation (member_sort l) l).
Proof.
  split; [|split; [|split; [|split]]].
  - intros m1 m2. unfold mxactMemberComparator.
    destruct (Z.ltb_spec (member_xid m2) (member_xid m1));
      destruct (Z.ltb_spec (member_xid m1) (member_xid m2));
      destruct (Z.ltb_spec (member_status m2) (member_status m1));
      destruct (Z.ltb_spec (member_status m1) (member_status m2)); lia.
  - intros m1 m2. split.
    + intros H. apply member_le_antisym.
      * lia.
      * unfold mxactMemberComparator in *.
        destruct (Z.ltb_spec (member_xid m2) (member_xid m1));
          destruct (Z.ltb_spec (member_xid m1) (member_xid m2));
          destruct (Z.ltb_spec (member_status m2) (member_status m1));
          destruct (Z.ltb_spec (member_status m1) (member_status m2)); lia.
    + intros ->. unfold mxactMemberComparator. rewrite !Z.ltb_irrefl. reflexivity.
  - apply member_le_trans.
  - apply member_sort_Permutation.
  - apply member_sort_is_Permutation.
Qed.

Lemma mxactMemberComparator_total_order_witness :
  member_sort [mkMember 801 4; mkMember 800 1]
  = member_sort [mkMember 800 1; mkMember 801 4].
Proof.
  apply (proj1 (proj2 (proj2 (proj2 mxactMemberComparator_total_order)))).
  apply perm_swap.
Defined.

Lemma mXactCachePut_is_found_witness :
  exists s1,
    mXactCachePut 10 2 example_members example_state = Done tt s1 []
    /\ mXactCacheGetBySet 2 (rev example_members) s1 = Done 10 s1 []
    /\ mXactCacheGetById 10 s1
       = Done (Some (2, member_sort example_members)) s1 []
    /\ (Z.of_nat (List.length (MXactCache example_state)) <= MAX_CACHE_ENTRIES ->
        Z.of_nat (List.length (MXactCache s1)) <= MAX_CACHE_ENTRIES).
Proof.
  apply (mXactCachePut_is_found 10 example_members (rev example_members) example_state).
  apply perm_swap.
Defined.

(** X8 -- What [RecordNewMultiXact] writes into a page is what
    [GetMultiXactIdMembers] reads from it.  The start offset stored for
    a multixact is read back at its entry and the other entries of the
    offsets page are untouched.  A member stored at an offset is read
    back with its xid and its status, and the other members of the
    members page, also those whose status bits share the flags word,
    are untouched. *)
Theorem RecordNewMultiXact_page_round_trip :
  (forall sh slotno multi multi' offset,
      MultiXactIdToOffsetPage multi' = MultiXactIdToOffsetPage multi ->
      0 <= offset < TWO64 ->
      read_offset_entry
        (set_page_buffer sh slotno
           (store_offset (page_buffer sh slotno) multi offset))
        slotno (MultiXactIdToOffsetEntry multi')
      = if multi' =? multi then offset
        else read_offset_entry sh slotno (MultiXactIdToOffsetEntry multi'))
  /\ (forall pg offset offset' xid status,
         page_of_bytes pg ->
         MXOffsetToMemberPage offset' = MXOffsetToMemberPage offset ->
         0 <= xid < TWO64 -> 0 <= status < 256 ->
         load_member (store_member pg offset xid status) offset'
         = if offset' =? offset then mkMember xid status
           else load_member pg offset').
Proof.
  split.
  - intros. apply read_store_offset; assumption.
  - intros. apply load_store_member; assumption.
Qed.

Lemma RecordNewMultiXact_page_round_trip_witness :
  load_member (store_member zero_page 21 700 2) 20
  = (if 20 =? 21 then mkMember 700 2 else load_member zero_page 20).
Proof.
  apply (proj2 RecordNewMultiXact_page_round_trip zero_page 21 20 700 2).
  - intros i. unfold zero_page. lia.
  - reflexivity.
  - unfold TWO64. lia.
  - lia.
Defined.

Lemma MultiXactIdCreateFromMembers_rejects_two_updates_witness :
  MultiXactIdCreateFromMembers SLRU_FUEL alone_backend example_isupdate 2
    [mkMember 801 4; mkMember 800 5] example_multixact_state
  = Raise msg_more_than_one_updating_member example_multixact_state [].
Proof.
  apply (MultiXactIdCreateFromMembers_rejects_two_updates SLRU_FUEL alone_backend
           example_isupdate [mkMember 801 4; mkMember 800 5] example_multixact_state).
  - reflexivity.
  - cbn. lia.
Defined.

Lemma MultiXactIdCreateFromMembers_then_GetMultiXactIdMembers_witness :
  GetMultiXactIdMembers SLRU_FUEL alone_backend 10 false false
    (state_after
       (MultiXactIdCreateFromMembers SLRU_FUEL alone_backend example_isupdate 2
          example_members) example_multixact_state)
  = Done (2, [mkMember 800 1; mkMember 801 4])
      (state_after
         (MultiXactIdCreateFromMembers SLRU_FUEL alone_backend example_isupdate 2
            example_members) example_multixact_state) [].
Proof.
  apply (MultiXactIdCreateFromMembers_then_GetMultiXactIdMembers
           SLRU_FUEL SLRU_FUEL alone_backend example_isupdate example_members false
           example_multixact_state 10 _
           (res_trace (MultiXactIdCreateFromMembers SLRU_FUEL alone_backend
                         example_isupdate 2 example_members example_multixact_state))).
  - intros s. reflexivity.
  - constructor.
  - apply (run_Done (MultiXactIdCreateFromMembers SLRU_FUEL alone_backend
                       example_isupdate 2 example_members)).
    vm_compute. reflexivity.
Defined.

(** X11 -- [GetOldestMultiXactId] returns a lower bound of what the
    backends have published.  When every valid entry of
    [OldestMemberMXactId] and [OldestVisibleMXactId] is at or before the
    next multixact and less than half the ring away from it, the result
    is valid, is not after the next multixact, and no valid entry of
    either array precedes it; shared memory is not changed. *)
Theorem GetOldestMultiXactId_is_lower_bound B s :
  0 <= MaxOldestSlot B ->
  oldest_slots_in_window B (MultiXactState s) ->
  exists oldest,
    GetOldestMultiXactId B s
    = Done oldest s [EvAcquire MultiXactGenLock LW_SHARED; EvRelease MultiXactGenLock]
    /\ oldest_of_slots B (MultiXactState s) oldest.
Proof.
  intros Hmax Hwin.
  destruct (GetOldestMultiXactId_bound B s Hmax Hwin) as (oldest & Hrun & Hb).
  exists oldest. split; [exact Hrun|].
  destruct Hb as (Hv & _ & Hle & Hlow). repeat split; try assumption.
  - apply Hlow. assumption.
  - apply Hlow. assumption.
Qed.

Lemma GetOldestMultiXactId_is_lower_bound_witness :
  (OldestMemberMXactId (MultiXactState published_oldest_state) 2 = 7
   /\ OldestVisibleMXactId (MultiXactState published_oldest_state) 5 = 4)
  /\ GetOldestMultiXactId alone_backend published_oldest_state
     = Done 4 published_oldest_state
         [EvAcquire MultiXactGenLock LW_SHARED; EvRelease MultiXactGenLock]
  /\ oldest_of_slots alone_backend (MultiXactState published_oldest_state) 4.
Proof.
  split; [split; reflexivity|].
  assert (Hmax : 0 <= MaxOldestSlot alone_backend) by (cbn; lia).
  assert (Hwin : oldest_slots_in_window alone_backend
                   (MultiXactState published_oldest_state)).
  { intros i Hi. cbn [MultiXactState published_oldest_state set_MultiXactState
                      OldestMemberMXactId OldestVisibleMXactId nextMXact].
    unfold upd. split; intros Hv.
    - destruct (i =? 2); [|discriminate Hv].
      unfold within_window. vm_compute. split; [reflexivity | discriminate].
    - destruct (i =? 5); [|discriminate Hv].
      unfold within_window. vm_compute. split; [reflexivity | discriminate]. }
  destruct (GetOldestMultiXactId_is_lower_bound alone_backend published_oldest_state
              Hmax Hwin) as (oldest & Hrun & Hlow).
  assert (Hfour : GetOldestMultiXactId alone_backend published_oldest_state
                  = Done 4 published_oldest_state
                      [EvAcquire MultiXactGenLock LW_SHARED;
                       EvRelease MultiXactGenLock])
    by (vm_compute; reflexivity).
  rewrite Hfour in Hrun. injection Hrun as <-.
  split; [exact Hfour | exact Hlow].
Defined.

(** X12 -- [TruncateCommitTs] does nothing at all when no segment file
    of pg_commit_ts lies wholly before the page of [oldestXact]: no WAL
    record, no change.  Otherwise it writes the truncation record and
    then runs [SimpleLruTruncate]; every removal of a file comes after
    the WAL record. *)
Theorem TruncateCommitTs_logs_before_removing fuel B oldestXact s :
  let ctl := CommitTsCtl B in
  let cutoffPage := TransactionIdToCTsPage oldestXact in
  let record := COMMIT_TS_TRUNCATE cutoffPage oldestXact in
  TruncateCommitTs fuel B oldestXact s
  = (if existsb (may_delete_segno ctl cutoffPage) (segments_of (CommitTsSlru s))
     then after_events [EvXLogInsert record]
            (on_CommitTs (SimpleLruTruncate fuel ctl cutoffPage) s)
     else Done tt s [])
  /\ logged_before_unlinks record (res_trace (TruncateCommitTs fuel B oldestXact s)).
Proof.
  cbv zeta. split.
  - apply TruncateCommitTs_unfold.
  - apply TruncateCommitTs_logged.
Qed.

Lemma commit_ts_redo_truncates_witness :
  let s := set_CommitTsSlru offsets_cache example_state in
  let ctl := CommitTsCtl alone_backend in
  let r := commit_ts_redo SLRU_FUEL alone_backend (COMMIT_TS_TRUNCATE 70 60000) s in
  res_total
    (fun _ s' =>
       truncated_pages_gone ctl 70 (CommitTsSlru s')
       /\ other_segments_kept ctl 70 (CommitTsSlru s) (CommitTsSlru s'))
    (fun _ => True) r
  /\ trace_ok not_wraparound_log r.
Proof.
  apply (commit_ts_redo_truncates SLRU_FUEL alone_backend 70 60000
           (set_CommitTsSlru offsets_cache example_state)).
  - split; intros; reflexivity.
  - unfold is_int64, TWO63. lia.
  - vm_compute. lia.
Defined.

(** X14 -- [GetLatestCommitTsData] raises the error that the module is
    disabled when commit timestamps are not active, and otherwise
    returns the cached last commit without changing anything; after
    [TransactionTreeSetCommitTsData] has returned with the module
    active, that is the top-level xid, timestamp and origin it was
    given. *)
Theorem GetLatestCommitTsData_returns_last_commit :
  (forall s,
      GetLatestCommitTsData s
      = if commitTsActive (commitTsShared s)
        then Done (xidLastCommit (commitTsShared s),
                   entry_time (dataLastCommit (commitTsShared s)),
                   entry_nodeid (dataLastCommit (commitTsShared s))) s
               [EvAcquire CommitTsLock LW_SHARED; EvRelease CommitTsLock]
        else Raise msg_commit_ts_disabled s [EvAcquire CommitTsLock LW_SHARED])
  /\ (forall fuel B xid subxids ts nodeid s s1 tr,
         commitTsActive (commitTsShared s) = true ->
         TransactionTreeSetCommitTsData fuel B xid subxids ts nodeid s
         = Done tt s1 tr ->
         GetLatestCommitTsData s1
         = Done (xid, ts, nodeid) s1
             [EvAcquire CommitTsLock LW_SHARED; EvRelease CommitTsLock]).
Proof.
  split.
  - apply GetLatestCommitTsData_result.
  - apply GetLatestCommitTsData_after_set.
Qed.

Lemma GetLatestCommitTsData_returns_last_commit_witness :
  GetLatestCommitTsData
    (state_after (TransactionTreeSetCommitTsData SLRU_FUEL alone_backend 950 []
                    777 3) example_state)
  = Done (950, 777, 3)
      (state_after (TransactionTreeSetCommitTsData SLRU_FUEL alone_backend 950 []
                      777 3) example_state)
      [EvAcquire CommitTsLock LW_SHARED; EvRelease CommitTsLock].
Proof.
  apply (proj2 GetLatestCommitTsData_returns_last_commit SLRU_FUEL alone_backend
           950 [] 777 3 example_state _
           (res_trace (TransactionTreeSetCommitTsData SLRU_FUEL alone_backend 950 []
                         777 3 example_state))).
  - reflexivity.
  - apply (run_Done (TransactionTreeSetCommitTsData SLRU_FUEL alone_backend 950 []
                       777 3)).
    vm_compute. reflexivity.
Defined.

(* ================================================================== *)
(** * Coherence of the page cache with the segment files (slru.c) *)
(* ================================================================== *)

(** ** Pages on disk *)

Lemma same_page_refl pg : same_page pg pg.
Proof. intros o _. reflexivity. Qed.

Lemma same_page_trans pg1 pg2 pg3 :
  same_page pg1 pg2 -> same_page pg2 pg3 -> same_page pg1 pg3.
Proof. intros H1 H2 o Ho. rewrite H1, H2 by assumption. reflexivity. Qed.

Lemma same_page_sym pg1 pg2 : same_page pg1 pg2 -> same_page pg2 pg1.
Proof. intros H o Ho. symmetry. apply H, Ho. Qed.

Lemma on_disk_same_page sh q pg pg' :
  on_disk sh q pg -> same_page pg pg' -> on_disk sh q pg'.
Proof.
  intros (f & Hf & Hsz & Hd) Hs. exists f. repeat split; try assumption.
  intros o Ho. rewrite Hd by assumption. apply Hs, Ho.
Qed.

Lemma on_disk_unique sh q pg pg' :
  on_disk sh q pg -> on_disk sh q pg' -> same_page pg pg'.
Proof.
  intros (f & Hf & _ & Hd) (f' & Hf' & _ & Hd') o Ho.
  rewrite Hf in Hf'. injection Hf' as <-.
  rewrite <- Hd, <- Hd' by assumption. reflexivity.
Qed.

Lemma on_disk_files sh sh' q pg :
  files sh' = files sh -> on_disk sh q pg -> on_disk sh' q pg.
Proof. intros Hf (f & H). exists f. rewrite Hf. exact H. Qed.

Lemma page_place p q :
  0 <= p -> 0 <= q -> p <> q ->
  Z.quot p SLRU_PAGES_PER_SEGMENT <> Z.quot q SLRU_PAGES_PER_SEGMENT
  \/ (Z.quot p SLRU_PAGES_PER_SEGMENT = Z.quot q SLRU_PAGES_PER_SEGMENT
      /\ (Z.rem p SLRU_PAGES_PER_SEGMENT * BLCKSZ + BLCKSZ
          <= Z.rem q SLRU_PAGES_PER_SEGMENT * BLCKSZ
          \/ Z.rem q SLRU_PAGES_PER_SEGMENT * BLCKSZ + BLCKSZ
             <= Z.rem p SLRU_PAGES_PER_SEGMENT * BLCKSZ)).
Proof.
  intros Hp Hq Hne.
  change SLRU_PAGES_PER_SEGMENT with 32. change BLCKSZ with 8192.
  rewrite !Z.quot_div_nonneg, !Z.rem_mod_nonneg by lia.
  destruct (Z.eq_dec (p / 32) (q / 32)) as [He|]; [right | left; assumption].
  split; [exact He|].
  pose proof (Z.div_mod p 32 ltac:(lia)). pose proof (Z.div_mod q 32 ltac:(lia)).
  assert (p mod 32 <> q mod 32) by lia. lia.
Qed.

Lemma rem_page_nonneg p :
  0 <= p -> 0 <= Z.rem p SLRU_PAGES_PER_SEGMENT * BLCKSZ.
Proof.
  intros Hp. change SLRU_PAGES_PER_SEGMENT with 32. change BLCKSZ with 8192.
  rewrite Z.rem_mod_nonneg by lia. pose proof (Z.mod_pos_bound p 32 eq_refl). lia.
Qed.

(** The write of page [p] puts it on disk and leaves the other pages
    on disk as they were. *)
Lemma on_disk_written sh p pg f :
  0 <= p ->
  (f = match dir_lookup (files sh) (Z.quot p SLRU_PAGES_PER_SEGMENT) with
       | Some f => f | None => empty_file end) ->
  let d := dir_store (files sh) (Z.quot p SLRU_PAGES_PER_SEGMENT)
             (file_write_page f (Z.rem p SLRU_PAGES_PER_SEGMENT * BLCKSZ) pg) in
  on_disk (set_files sh d) p pg
  /\ forall q pg', 0 <= q -> q <> p -> on_disk sh q pg' -> on_disk (set_files sh d) q pg'.
Proof.
  intros Hp Hf d. pose proof (rem_page_nonneg p Hp) as Hoff. split.
  - eexists. split; [|split].
    + unfold d. cbn [files set_files]. rewrite dir_lookup_store, Z.eqb_refl. reflexivity.
    + cbn [f_size file_write_page]. lia.
    + intros o Ho. cbn [f_data file_write_page].
      destruct (Z.leb_spec (Z.rem p SLRU_PAGES_PER_SEGMENT * BLCKSZ)
                  (Z.rem p SLRU_PAGES_PER_SEGMENT * BLCKSZ + o)); [|lia].
      destruct (Z.ltb_spec (Z.rem p SLRU_PAGES_PER_SEGMENT * BLCKSZ + o)
                  (Z.rem p SLRU_PAGES_PER_SEGMENT * BLCKSZ + BLCKSZ)); [|lia].
      cbn. f_equal. lia.
  - intros q pg' Hq Hne (g & Hg & Hsz & Hd).
    pose proof (rem_page_nonneg q Hq) as Hoffq.
    destruct (page_place q p Hq Hp Hne) as [Hseg | [Hseg Hoffs]].
    + exists g. unfold d. cbn [files set_files]. rewrite dir_lookup_store.
      destruct (Z.eqb_spec (Z.quot q SLRU_PAGES_PER_SEGMENT)
                  (Z.quot p SLRU_PAGES_PER_SEGMENT)); [contradiction|].
      repeat split; assumption.
    + eexists. split; [|split].
      * unfold d. cbn [files set_files]. rewrite dir_lookup_store, Hseg, Z.eqb_refl.
        reflexivity.
      * rewrite <- Hseg, Hg in Hf. subst f. cbn [f_size file_write_page]. lia.
      * intros o Ho. rewrite <- Hseg, Hg in Hf. subst f.
        cbn [f_data file_write_page]. rewrite <- Hd by assumption.
        destruct ((Z.rem p SLRU_PAGES_PER_SEGMENT * BLCKSZ
                   <=? Z.rem q SLRU_PAGES_PER_SEGMENT * BLCKSZ + o)
                  && (Z.rem q SLRU_PAGES_PER_SEGMENT * BLCKSZ + o
                      <? Z.rem p SLRU_PAGES_PER_SEGMENT * BLCKSZ + BLCKSZ)) eqn:E;
          [|reflexivity].
        apply andb_true_iff in E. destruct E as [E1 E2].
        apply Z.leb_le in E1. apply Z.ltb_lt in E2. lia.
Qed.

(** A failed write creates the file if need be and changes no page. *)
Lemma on_disk_write_failed sh p f q pg :
  (f = match dir_lookup (files sh) (Z.quot p SLRU_PAGES_PER_SEGMENT) with
       | Some f => f | None => empty_file end) ->
  on_disk sh q pg ->
  on_disk (set_files sh (dir_store (files sh) (Z.quot p SLRU_PAGES_PER_SEGMENT) f)) q pg.
Proof.
  intros Hf (g & Hg & Hsz & Hd). exists g. cbn [files set_files].
  rewrite dir_lookup_store.
  destruct (Z.eqb_spec (Z.quot q SLRU_PAGES_PER_SEGMENT)
              (Z.quot p SLRU_PAGES_PER_SEGMENT)) as [E|]; [|repeat split; assumption].
  rewrite <- E, Hg in Hf. subst f. repeat split; assumption.
Qed.

(** What is read from disk is the page on disk. *)
Lemma on_disk_read sh q f :
  0 <= q ->
  dir_lookup (files sh) (Z.quot q SLRU_PAGES_PER_SEGMENT) = Some f ->
  Z.rem q SLRU_PAGES_PER_SEGMENT * BLCKSZ + BLCKSZ <= f_size f ->
  on_disk sh q (file_read_page f (Z.rem q SLRU_PAGES_PER_SEGMENT * BLCKSZ)).
Proof.
  intros Hq Hf Hsz. exists f. repeat split; try assumption.
  intros o Ho. unfold file_read_page.
  destruct (Z.leb_spec 0 o); [|lia]. destruct (Z.ltb_spec o BLCKSZ); [|lia].
  reflexivity.
Qed.

(** ** Slots and pages of a coherent cache *)

Lemma holder_unique ctl sh j k q :
  cache_wf sh -> pages_in_bank ctl sh ->
  slot_holds sh j q -> slot_holds sh k q -> j = k.
Proof.
  intros [_ Hnd] Hbank [Hj Hpj] [Hk Hpk].
  destruct (Z.eq_dec j k) as [|Hne]; [assumption|]. exfalso.
  destruct (Hbank j Hj) as [_ Hbj]. destruct (Hbank k Hk) as [_ Hbk].
  rewrite Hpj in Hbj. rewrite Hpk in Hbk.
  apply (Hnd j k); try assumption; [|congruence].
  rewrite (in_bank_number _ _ _ Hbj), (in_bank_number _ _ _ Hbk). reflexivity.
Qed.

Lemma settled_not_busy sh k : settled sh -> io_in_progress (page_status sh k) = false.
Proof. intros H. destruct (H k) as [-> | ->]; reflexivity. Qed.

Lemma settled_valid sh k :
  settled sh -> page_status sh k <> SLRU_PAGE_EMPTY -> page_status sh k = SLRU_PAGE_VALID.
Proof. intros H Hne. destruct (H k); [contradiction | assumption]. Qed.

(** The invariant only looks at the slots and the files. *)
Lemma keeps_content_ext ctl C sh sh' :
  page_buffer sh' = page_buffer sh -> page_status sh' = page_status sh ->
  page_dirty sh' = page_dirty sh -> page_number sh' = page_number sh ->
  files sh' = files sh ->
  keeps_content ctl C sh -> keeps_content ctl C sh'.
Proof.
  intros Hb Hs Hd Hn Hf ((Hwf & Hset & Hbank & Hclean) & Hc).
  split; [split; [|split; [|split]]|].
  - eapply cache_wf_ext; eassumption.
  - intros k. rewrite Hs. apply Hset.
  - intros k. rewrite Hs, Hn. apply Hbank.
  - intros k. rewrite Hs, Hd, Hn, Hb. intros Hv Hcl.
    eapply on_disk_files; [exact Hf | apply Hclean; assumption].
  - intros q pg Hq HC. destruct (Hc q pg Hq HC) as [(k & Hh & Hsp) | [Hno Hod]].
    + left. exists k. unfold slot_holds in *. rewrite Hs, Hn, Hb. split; assumption.
    + right. split.
      * intros k. unfold slot_holds. rewrite Hs, Hn. apply Hno.
      * eapply on_disk_files; eassumption.
Qed.

Lemma keeps_content_same_but_lru ctl C sh sh' :
  same_but_lru sh sh' -> keeps_content ctl C sh -> keeps_content ctl C sh'.
Proof.
  intros (_ & Hb & Hs & Hd & Hn & _ & Hf). apply keeps_content_ext; assumption.
Qed.

Lemma slots_kept_refl sh : slots_kept sh sh.
Proof. unfold slots_kept. auto 10. Qed.

Lemma slots_kept_trans sh1 sh2 sh3 :
  slots_kept sh1 sh2 -> slots_kept sh2 sh3 -> slots_kept sh1 sh3.
Proof.
  unfold slots_kept. intros (A1&A2&A3&A4&A5&A6) (B1&B2&B3&B4&B5&B6).
  split; [congruence|]. split; [congruence|]. split; [congruence|].
  split; [congruence|]. split.
  - intros j. rewrite B5. apply A5.
  - intros j H. apply A6, B6, H.
Qed.

Lemma slots_kept_same_but_lru sh sh' : same_but_lru sh sh' -> slots_kept sh sh'.
Proof.
  intros (H1 & H2 & H3 & H4 & H5 & H6 & _). unfold slots_kept.
  split; [assumption|]. split; [assumption|]. split; [assumption|].
  split; [assumption|]. split.
  - intros j. rewrite H3. reflexivity.
  - intros j. rewrite H4. auto.
Qed.

(** ** Writing a page back *)

Lemma wait_write_in_progress_settled ctl k p fuel sh :
  page_status sh k <> SLRU_PAGE_WRITE_IN_PROGRESS ->
  res_ok (fun _ sh' => sh' = sh) (fun _ => False)
    (wait_write_in_progress fuel ctl k p sh).
Proof.
  intros H. destruct fuel as [|fuel]; cbn [wait_write_in_progress]; [exact I|].
  unfold bind, get.
  destruct (status_eqb (page_status sh k) SLRU_PAGE_WRITE_IN_PROGRESS) eqn:E.
  - apply status_eqb_eq in E. contradiction.
  - cbn. reflexivity.
Qed.

Lemma SlruInternalWritePage_keeps_content ctl C k fuel sh :
  quiet ctl -> keeps_content ctl C sh ->
  res_ok
    (fun _ sh' =>
       keeps_content ctl C sh' /\ slots_kept sh sh'
       /\ (forall j, j <> k -> page_dirty sh' j = page_dirty sh j)
       /\ (page_status sh k = SLRU_PAGE_VALID -> page_dirty sh' k = false))
    (fun sh' => keeps_content ctl C sh' /\ slots_kept sh sh')
    (SlruInternalWritePage fuel ctl k sh).
Proof.
  intros [Hq Hbusy] Hinv.
  pose proof Hinv as ((Hwf & Hset & Hbank & Hclean) & Hc).
  unfold SlruInternalWritePage. ostep.
  apply res_ok_bind.
  eapply res_ok_weaken;
    [apply (wait_write_in_progress_settled ctl k (page_number sh k) fuel sh) | | intros ? []].
  { destruct (Hset k) as [-> | ->]; discriminate. }
  intros [] sh1 ->. cbn beta. ostep.
  destruct (negb (page_dirty sh k)
            || negb (status_eqb (page_status sh k) SLRU_PAGE_VALID)
            || negb (page_number sh k =? page_number sh k)) eqn:Hskip.
  { cbn [ret res_ok]. split; [exact Hinv|]. split; [apply slots_kept_refl|].
    split; [auto|]. intros Hv. rewrite Hv, Z.eqb_refl in Hskip. cbn in Hskip.
    rewrite !orb_false_r in Hskip. apply negb_true_iff in Hskip. exact Hskip. }
  apply orb_false_iff in Hskip. destruct Hskip as [Hskip _].
  apply orb_false_iff in Hskip. destruct Hskip as [Hd Hv].
  apply negb_false_iff in Hd, Hv. apply status_eqb_eq in Hv.
  destruct (Hbank k ltac:(congruence)) as [Hp0 Hkbank].
  ostep. ostep. ostep.
  apply res_ok_bind. unfold SlruPhysicalWritePage. ostep. fields.
  set (p := page_number sh k).
  set (f := match dir_lookup (files sh) (Z.quot p SLRU_PAGES_PER_SEGMENT) with
            | Some f => f | None => empty_file end).
  assert (Hholds : forall j q, slot_holds sh j q -> q = p -> j = k).
  { intros j q Hj ->. apply (holder_unique ctl sh j k p); try assumption.
    split; [congruence | reflexivity]. }
  destruct (write_fails (world ctl) p) eqn:Hwf_.
  - (* the write fails: the page is dirty again, and the error is raised *)
    ostep. cbn [ret res_ok]. ostep. rewrite Hq. ostep. ostep. ostep. ostep.
    cbn [negb]. unfold SlruReportIOError, ereport_ERROR. cbn [res_ok]. fields.
    set (d := dir_store (files sh) (Z.quot p SLRU_PAGES_PER_SEGMENT) f).
    assert (Hst : forall j, upd (upd (page_status sh) k SLRU_PAGE_WRITE_IN_PROGRESS)
                              k SLRU_PAGE_VALID j = page_status sh j).
    { intros j. unfold upd. destruct (j =? k) eqn:E; [|reflexivity].
      apply Z.eqb_eq in E. subst j. symmetry. exact Hv. }
    assert (Hdy : forall j, upd (upd (page_dirty sh) k false) k true j = page_dirty sh j).
    { intros j. unfold upd. destruct (j =? k) eqn:E; [|reflexivity].
      apply Z.eqb_eq in E. subst j. symmetry. exact Hd. }
    split.
    + split; [split; [|split; [|split]]|].
      * split.
        -- intros j. fields. rewrite Hst. apply Hwf.
        -- intros i j Hb Hij. fields. rewrite !Hst. apply Hwf; assumption.
      * intros j. fields. rewrite Hst. apply Hset.
      * intros j. fields. rewrite Hst. apply Hbank.
      * intros j. fields. rewrite Hst, Hdy. intros Hvj Hcj.
        apply (on_disk_files (set_files sh d)); [reflexivity|].
        apply on_disk_write_failed; [reflexivity|]. apply Hclean; assumption.
      * intros q pg Hq0 HC. destruct (Hc q pg Hq0 HC) as [(j & Hh & Hsp) | [Hno Hod]].
        -- left. exists j. unfold slot_holds in *. fields. rewrite Hst.
           split; assumption.
        -- right. split.
           ++ intros j. unfold slot_holds. fields. rewrite Hst. apply Hno.
           ++ apply (on_disk_files (set_files sh d)); [reflexivity|].
              apply on_disk_write_failed; [reflexivity | exact Hod].
    + unfold slots_kept. fields.
      split; [reflexivity|]. split; [reflexivity|]. split; [reflexivity|].
      split; [reflexivity|]. split; [exact Hst|].
      intros j. rewrite Hdy. auto.
  - (* the page is written *)
    ostep. ostep. ostep. rewrite Hq. ostep. ostep. ostep. ostep.
    cbn [negb ret res_ok]. fields.
    set (d := dir_store (files sh) (Z.quot p SLRU_PAGES_PER_SEGMENT)
                (file_write_page f (Z.rem p SLRU_PAGES_PER_SEGMENT * BLCKSZ)
                   (page_buffer sh k))).
    destruct (on_disk_written sh p (page_buffer sh k) f Hp0 eq_refl) as [Hwritten Hothers].
    cbv zeta in Hwritten, Hothers. fold d in Hwritten, Hothers.
    assert (Hst : forall j, upd (upd (page_status sh) k SLRU_PAGE_WRITE_IN_PROGRESS)
                              k SLRU_PAGE_VALID j = page_status sh j).
    { intros j. unfold upd. destruct (j =? k) eqn:E; [|reflexivity].
      apply Z.eqb_eq in E. subst j. symmetry. exact Hv. }
    assert (Hod : forall q pg, on_disk (set_files sh d) q pg ->
              on_disk (set_page_status
                         (set_files
                            (set_page_dirty
                               (set_page_status sh k SLRU_PAGE_WRITE_IN_PROGRESS) k false)
                            d) k SLRU_PAGE_VALID) q pg).
    { intros q pg H. eapply on_disk_files; [|exact H]. reflexivity. }
    split; [|split; [|split]].
    + split; [split; [|split; [|split]]|].
      * split.
        -- intros j. fields. rewrite Hst. apply Hwf.
        -- intros i j Hb Hij. fields. rewrite !Hst. apply Hwf; assumption.
      * intros j. fields. rewrite Hst. apply Hset.
      * intros j. fields. rewrite Hst. apply Hbank.
      * intros j. fields. rewrite Hst. unfold upd at 1.
        destruct (j =? k) eqn:E.
        -- apply Z.eqb_eq in E. subst j. intros _ _. apply Hod. exact Hwritten.
        -- intros Hvj Hcj. apply Hod. apply Hothers.
           ++ apply Hbank. congruence.
           ++ intros Heq. apply Z.eqb_neq in E. apply E.
              apply (Hholds j (page_number sh j)); [|exact Heq].
              split; [congruence | reflexivity].
           ++ apply Hclean; assumption.
      * intros q pg Hq0 HC. destruct (Hc q pg Hq0 HC) as [(j & Hh & Hsp) | [Hno Hodq]].
        -- left. exists j. unfold slot_holds in *. fields. rewrite Hst.
           split; assumption.
        -- right. split.
           ++ intros j. unfold slot_holds. fields. rewrite Hst. apply Hno.
           ++ apply Hod. apply Hothers; [exact Hq0 | | exact Hodq].
              intros ->. apply (Hno k). split; [congruence | reflexivity].
    + unfold slots_kept. fields.
      split; [reflexivity|]. split; [reflexivity|]. split; [reflexivity|].
      split; [reflexivity|]. split; [exact Hst|].
      intros j. unfold upd. destruct (j =? k) eqn:E; [discriminate | auto].
    + intros j Hj. fields. rewrite upd_other by assumption. reflexivity.
    + intros _. fields. apply upd_same.
Qed.

(** ** The choice of a slot *)

Lemma SimpleLruWaitIO_settled ctl k sh :
  quiet ctl -> settled sh ->
  exists tr, SimpleLruWaitIO ctl k sh = Done tt sh tr.
Proof.
  intros Hq Hset. destruct (SimpleLruWaitIO_quiet ctl k sh Hq) as [tr H].
  exists tr. rewrite H, wait_result_not_in_progress; [reflexivity|].
  apply settled_not_busy, Hset.
Qed.

Lemma res_ok_and {S A} (Q Q' : A -> S -> Prop) (E E' : S -> Prop) (r : Res S A) :
  res_ok Q E r -> res_ok Q' E' r ->
  res_ok (fun a s => Q a s /\ Q' a s) (fun s => E s /\ E' s) r.
Proof. destruct r; simpl; auto. Qed.

Lemma SlruInternalWritePage_error_cause ctl k fuel sh :
  quiet ctl ->
  res_ok (fun _ _ => True) (fun _ => exists p, write_fails (world ctl) p = true)
    (SlruInternalWritePage fuel ctl k sh).
Proof.
  intros Hq.
  assert (Htail : forall sh1,
    res_ok (fun _ _ => True) (fun _ => exists p, write_fails (world ctl) p = true)
      ((sh2 <- get;;
        if negb (page_dirty sh2 k)
           || negb (status_eqb (page_status sh2 k) SLRU_PAGE_VALID)
           || negb (page_number sh2 k =? page_number sh k)
        then ret tt
        else
          put (set_page_dirty (set_page_status sh2 k SLRU_PAGE_WRITE_IN_PROGRESS)
                 k false);;;
          LWLockAcquire (buffer_lock ctl k) LW_EXCLUSIVE;;;
          LWLockRelease (bank_lock ctl (SlotGetBankNumber k));;;
          ok <- SlruPhysicalWritePage ctl (page_number sh k) k;;
          others_run ctl;;;
          LWLockAcquire (bank_lock ctl (SlotGetBankNumber k)) LW_EXCLUSIVE;;;
          when (negb ok) (modify (fun sh => set_page_dirty sh k true));;;
          modify (fun sh => set_page_status sh k SLRU_PAGE_VALID);;;
          LWLockRelease (buffer_lock ctl k);;;
          if negb ok then SlruReportIOError ctl (page_number sh k) InvalidTransactionId
          else ret tt) sh1)).
  { intros sh1. ostep.
    destruct (negb (page_dirty sh1 k)
              || negb (status_eqb (page_status sh1 k) SLRU_PAGE_VALID)
              || negb (page_number sh1 k =? page_number sh k)); [exact I|].
    ostep. ostep. ostep. apply res_ok_bind. unfold SlruPhysicalWritePage. ostep.
    destruct Hq as [Hqi Hb].
    destruct (write_fails (world ctl) (page_number sh k)) eqn:Hw.
    - ostep. cbn [ret res_ok]. ostep. rewrite Hqi.
      ostep. unfold when. cbn [negb]. ostep. ostep. ostep.
      unfold SlruReportIOError, ereport_ERROR. cbn [res_ok].
      eexists; exact Hw.
    - ostep. ostep. cbn [ret res_ok]. ostep. rewrite Hqi.
      ostep. unfold when. cbn [negb]. ostep. ostep. ostep. exact I. }
  unfold SlruInternalWritePage. ostep.
  apply res_ok_bind.
  destruct fuel as [|[|fuel]].
  - exact I.
  - cbn [wait_write_in_progress]. ostep.
    destruct (status_eqb (page_status sh k) SLRU_PAGE_WRITE_IN_PROGRESS
              && (page_number sh k =? page_number sh k)).
    + apply res_ok_bind.
      destruct (SimpleLruWaitIO_quiet ctl k sh Hq) as [tr ->]. exact I.
    + cbn [ret res_ok]. apply Htail.
  - eapply res_ok_weaken;
      [apply res_total_ok;
       apply (wait_write_in_progress_quiet ctl k (page_number sh k) Hq (S (S fuel)) sh);
       lia | | intros ? []].
    intros [] sh1 _. cbn beta. apply Htail.
Qed.

Lemma SlruSelectLRUPage_keeps_content ctl C pageno :
  quiet ctl ->
  forall fuel sh,
    keeps_content ctl C sh ->
    res_ok (fun _ sh' => keeps_content ctl C sh' /\ slots_kept sh sh')
           (fun sh' => keeps_content ctl C sh' /\ slots_kept sh sh'
                       /\ exists p, write_fails (world ctl) p = true)
           (SlruSelectLRUPage fuel ctl pageno sh).
Proof.
  intros Hq. induction fuel as [|fuel IH]; intros sh Hinv; [exact I|].
  cbn [SlruSelectLRUPage]. ostep.
  fold (bank_start ctl pageno).
  destruct (find_page_slot sh pageno BANK_SLOTS (bank_start ctl pageno)) as [slot|].
  { cbn. split; [exact Hinv | apply slots_kept_refl]. }
  set (cur := bank_cur_lru_count sh (Z.rem pageno (nbanks ctl))).
  set (sh0 := set_bank_cur_lru_count sh (Z.rem pageno (nbanks ctl))
                (wrap_int (cur + 1))).
  assert (Hsame0 : same_but_lru sh sh0)
    by apply same_but_lru_set_bank_cur_lru_count.
  pose proof (victim_scan_spec ctl cur BANK_SLOTS (bank_start ctl pageno)
                victim_scan_init sh0 (bank_start ctl pageno) (Z.le_refl _)
                (scan_inv_init _ _)) as Hscan.
  destruct (victim_scan ctl cur BANK_SLOTS (bank_start ctl pageno)
              victim_scan_init sh0) as [[slot|v] sh1].
  - destruct Hscan as (Hsame1 & _).
    pose proof (same_but_lru_trans _ _ _ Hsame0 Hsame1) as Hs.
    ostep. cbn [ret res_ok]. split.
    + eapply keeps_content_same_but_lru; eassumption.
    + apply slots_kept_same_but_lru, Hs.
  - destruct Hscan as (Hsame1 & _).
    pose proof (same_but_lru_trans _ _ _ Hsame0 Hsame1) as Hs.
    assert (Hinv1 : keeps_content ctl C sh1)
      by (eapply keeps_content_same_but_lru; eassumption).
    pose proof (slots_kept_same_but_lru _ _ Hs) as Hk1.
    ostep.
    destruct (best_valid_delta v <? 0).
    + apply res_ok_bind.
      destruct (SimpleLruWaitIO_settled ctl (bestinvalidslot v) sh1 Hq) as [tr ->].
      { apply Hinv1. }
      cbn [res_ok].
      eapply res_ok_weaken; [apply IH, Hinv1 | |]; cbn beta.
      * intros _ s [H1 H2]. split; [exact H1|]. eapply slots_kept_trans; eassumption.
      * intros s (H1 & H2 & H3). split; [exact H1|].
        split; [eapply slots_kept_trans; eassumption | exact H3].
    + destruct (negb (page_dirty sh1 (bestvalidslot v))).
      * cbn [ret res_ok]. split; assumption.
      * apply res_ok_bind.
        eapply res_ok_weaken;
          [apply (res_ok_and _ _ _ _ _
                    (SlruInternalWritePage_keeps_content ctl C (bestvalidslot v)
                       fuel sh1 Hq Hinv1)
                    (SlruInternalWritePage_error_cause ctl (bestvalidslot v) fuel sh1 Hq))
          | |]; cbn beta.
        -- intros [] sh2 ((Hinv2 & Hk2 & _) & _).
           eapply res_ok_weaken; [apply IH, Hinv2 | |]; cbn beta.
           ++ intros _ s [H1 H2]. split; [exact H1|].
              eapply slots_kept_trans; [exact Hk1|].
              eapply slots_kept_trans; eassumption.
           ++ intros s (H1 & H2 & H3). split; [exact H1|].
              split; [|exact H3].
              eapply slots_kept_trans; [exact Hk1|].
              eapply slots_kept_trans; eassumption.
        -- intros sh2 ([Hinv2 Hk2] & Hw). split; [exact Hinv2|].
           split; [eapply slots_kept_trans; eassumption | exact Hw].
Qed.

(** ** Reading a page into a slot *)

(** Slot [slot], which can be reused at once, is given to page [q],
    which no slot holds: either the page is read from disk into the
    slot, or the slot is left empty. *)
Lemma keeps_content_claim ctl C sh1 sh4 slot q :
  keeps_content ctl C sh1 -> is_int64 q -> 0 <= q -> in_bank ctl q slot ->
  (forall j, ~ slot_holds sh1 j q) -> slot_freeable sh1 slot ->
  page_number sh4 = upd (page_number sh1) slot q ->
  (forall j, j <> slot -> page_status sh4 j = page_status sh1 j) ->
  (forall j, j <> slot -> page_dirty sh4 j = page_dirty sh1 j) ->
  (forall j, j <> slot -> page_buffer sh4 j = page_buffer sh1 j) ->
  files sh4 = files sh1 ->
  (page_status sh4 slot = SLRU_PAGE_EMPTY
   \/ (page_status sh4 slot = SLRU_PAGE_VALID
       /\ page_dirty sh4 slot = false
       /\ on_disk sh1 q (page_buffer sh4 slot))) ->
  keeps_content ctl C sh4.
Proof.
  intros ((Hwf & Hset & Hbank & Hclean) & Hc) Hint Hq0 Hin Hnone Hfree Hn Hs Hd Hb Hf Hslot.
  assert (Hold : forall pg, page_status sh1 slot <> SLRU_PAGE_EMPTY ->
            same_page (page_buffer sh1 slot) pg ->
            on_disk sh4 (page_number sh1 slot) pg).
  { intros pg Hne Hsp. destruct Hfree as [He | [Hv Hcl]]; [contradiction|].
    eapply on_disk_files; [exact Hf|].
    eapply on_disk_same_page; [apply Hclean; assumption | exact Hsp]. }
  assert (Hpn : forall j, j <> slot -> page_number sh4 j = page_number sh1 j).
  { intros j Hj. rewrite Hn. apply upd_other, Hj. }
  assert (Hpq : page_number sh4 slot = q) by (rewrite Hn; apply upd_same).
  split; [split; [|split; [|split]]|].
  - apply (cache_wf_claim_slot ctl q slot sh1); auto.
  - intros j. destruct (Z.eq_dec j slot) as [->|Hj].
    + destruct Hslot as [-> | [-> _]]; auto.
    + rewrite Hs by assumption. apply Hset.
  - intros j Hne. destruct (Z.eq_dec j slot) as [->|Hj].
    + rewrite Hpq. split; assumption.
    + rewrite Hpn by assumption. apply Hbank. rewrite <- Hs by assumption. exact Hne.
  - intros j Hv Hcl. destruct (Z.eq_dec j slot) as [->|Hj].
    + destruct Hslot as [He | (_ & _ & Hod)]; [congruence|].
      rewrite Hpq. eapply on_disk_files; eassumption.
    + rewrite Hpn, Hb by assumption. eapply on_disk_files; [exact Hf|].
      apply Hclean; [rewrite <- Hs | rewrite <- Hd]; assumption.
  - intros q' pg Hq' HC.
    destruct (Hc q' pg Hq' HC) as [(j & [Hne Hpj] & Hsp) | [Hno Hod]].
    + destruct (Z.eq_dec j slot) as [->|Hj].
      * (* the page that was in the slot is now on disk only *)
        right. split.
        -- intros i [Hi Hpi]. destruct (Z.eq_dec i slot) as [->|Hneq].
           ++ rewrite Hpq in Hpi. apply (Hnone slot). split; [exact Hne | congruence].
           ++ apply Hneq.
              apply (holder_unique ctl sh1 i slot q'); try assumption.
              ** split; [rewrite <- Hs by assumption; exact Hi
                        | rewrite <- Hpn by assumption; exact Hpi].
              ** split; assumption.
        -- rewrite <- Hpj. apply Hold; assumption.
      * left. exists j. split.
        -- split; [rewrite Hs by assumption; exact Hne
                  | rewrite Hpn by assumption; exact Hpj].
        -- rewrite Hb by assumption. exact Hsp.
    + destruct (Z.eq_dec q' q) as [->|Hqq].
      * destruct Hslot as [He | (Hv & _ & Hod4)].
        -- right. split.
           ++ intros i [Hi Hpi]. destruct (Z.eq_dec i slot) as [->|Hneq];
                [contradiction|].
              apply (Hno i). split; [rewrite <- Hs by assumption; exact Hi
                                    | rewrite <- Hpn by assumption; exact Hpi].
           ++ eapply on_disk_files; eassumption.
        -- left. exists slot. split.
           ++ split; [congruence | exact Hpq].
           ++ eapply on_disk_unique; eassumption.
      * right. split.
        -- intros i [Hi Hpi]. destruct (Z.eq_dec i slot) as [->|Hneq].
           ++ rewrite Hpq in Hpi. congruence.
           ++ apply (Hno i). split; [rewrite <- Hs by assumption; exact Hi
                                    | rewrite <- Hpn by assumption; exact Hpi].
        -- eapply on_disk_files; eassumption.
Qed.

Lemma held_page_content ctl C sh slot q :
  keeps_content ctl C sh -> 0 <= q -> slot_holds sh slot q ->
  forall pg, C q pg -> same_page (page_buffer sh slot) pg.
Proof.
  intros ((Hwf & Hset & Hbank & Hclean) & Hc) Hq Hh pg HC.
  destruct (Hc q pg Hq HC) as [(k & Hk & Hsp) | [Hno _]].
  - rewrite (holder_unique ctl sh slot k q Hwf Hbank Hh Hk). exact Hsp.
  - destruct (Hno slot Hh).
Qed.

Lemma SimpleLruReadPage_keeps_content ctl C q write_ok xid :
  quiet ctl -> InRecovery (world ctl) = false -> is_int64 q -> 0 <= q ->
  forall fuel sh,
    keeps_content ctl C sh ->
    res_ok (read_post ctl C q)
      (fun sh' => keeps_content ctl C sh'
                  /\ ((exists p, write_fails (world ctl) p = true)
                      \/ read_fails (world ctl) q = true
                      \/ forall pg, ~ C q pg))
      (SimpleLruReadPage fuel ctl q write_ok xid sh).
Proof.
  intros Hq Hrec Hint Hq0. induction fuel as [|fuel IH]; intros sh Hinv; [exact I|].
  cbn [SimpleLruReadPage].
  apply res_ok_bind.
  eapply res_ok_weaken;
    [apply (res_ok_and _ _ _ _ _
              (SlruSelectLRUPage_keeps_content ctl C q Hq fuel sh Hinv)
              (SlruSelectLRUPage_post fuel ctl q sh)) | |
     intros s [(H & _ & Hw) _]; split; [exact H | left; exact Hw]].
  intros slot sh1 [[Hinv1 _] [Hk Hsel]]. cbn beta.
  ostep.
  destruct (negb (status_eqb (page_status sh1 slot) SLRU_PAGE_EMPTY)
            && (page_number sh1 slot =? q)) eqn:Hhit.
  - apply andb_true_iff in Hhit. destruct Hhit as [Hne Hpn].
    apply negb_true_iff, status_eqb_neq in Hne. apply Z.eqb_eq in Hpn.
    assert (Hv : page_status sh1 slot = SLRU_PAGE_VALID)
      by (apply settled_valid; [apply Hinv1 | exact Hne]).
    rewrite Hv. cbn [status_eqb orb andb].
    ostep. cbn [res_ok ret].
    pose proof (same_but_lru_SlruRecentlyUsed sh1 slot) as Hru.
    pose proof (keeps_content_same_but_lru ctl C _ _ Hru Hinv1) as Hinv2.
    split; [exact Hinv2|]. split; [exact Hk|].
    destruct Hru as (_ & Hb & Hs & _ & Hn & _).
    rewrite Hs, Hn, Hb. split; [exact Hv|]. split; [exact Hpn|].
    apply (held_page_content ctl C sh1 slot q Hinv1 Hq0). split; assumption.
  - assert (Hnothold : ~ slot_holds sh1 slot q).
    { intros [Hne Hpn]. apply andb_false_iff in Hhit. destruct Hhit as [H|H].
      - apply negb_false_iff, status_eqb_eq in H. contradiction.
      - apply Z.eqb_neq in H. contradiction. }
    destruct Hsel as [Hh|(Hnone & Hfree & Hnl)]; [contradiction|].
    assert (Hnone' : forall j, ~ slot_holds sh1 j q).
    { intros j Hj. apply (Hnone j); [|exact Hj].
      destruct Hinv1 as ((_ & _ & Hbank & _) & _).
      destruct Hj as [Hjne Hjq]. destruct (Hbank j Hjne) as [_ Hb].
      rewrite Hjq in Hb. exact Hb. }
    assert (Hdisk : forall pg, C q pg -> on_disk sh1 q pg).
    { intros pg HC. destruct Hinv1 as (_ & Hc).
      destruct (Hc q pg Hq0 HC) as [(j & Hj & _) | [_ Hod]]; [|exact Hod].
      destruct (Hnone' j Hj). }
    ostep. ostep. ostep.
    apply res_ok_bind. unfold SlruPhysicalReadPage.
    ostep. fields.
    destruct (dir_lookup (files sh1) (Z.quot q SLRU_PAGES_PER_SEGMENT)) as [f|] eqn:Hf.
    + destruct (read_fails (world ctl) q
                || (f_size f <? Z.rem q SLRU_PAGES_PER_SEGMENT * BLCKSZ + BLCKSZ))
        eqn:Hfail.
      * cbn [res_ok ret]. ostep. destruct Hq as [Hqi Hb]. rewrite Hqi.
        ostep. ostep. ostep. cbn [negb].
        apply res_ok_bind. unfold SlruReportIOError, ereport_ERROR. cbn [res_ok].
        split.
        -- apply (keeps_content_claim ctl C sh1 _ slot q Hinv1 Hint Hq0 Hk Hnone' Hfree).
           ++ fields. reflexivity.
           ++ intros j Hj. fields. rewrite !upd_other by assumption. reflexivity.
           ++ intros j Hj. fields. rewrite !upd_other by assumption. reflexivity.
           ++ intros j Hj. fields. reflexivity.
           ++ fields. reflexivity.
           ++ left. fields. apply upd_same.
        -- right. apply orb_true_iff in Hfail. destruct Hfail as [Hr | Hsz];
             [left; exact Hr | right].
           intros pg HC. destruct (Hdisk pg HC) as (g & Hg & Hsz' & _).
           rewrite Hf in Hg. injection Hg as <-. apply Z.ltb_lt in Hsz. lia.
      * apply orb_false_iff in Hfail. destruct Hfail as [_ Hsz].
        apply Z.ltb_ge in Hsz.
        ostep. ostep. cbn [res_ok ret]. ostep. destruct Hq as [Hqi Hb]. rewrite Hqi.
        ostep. ostep. ostep. cbn [negb]. ostep. ostep. cbn [res_ok ret].
        match goal with |- read_post _ _ _ _ (SlruRecentlyUsed ?s _) =>
          set (sh4 := s) end.
        assert (Hs4 : page_status sh4 slot = SLRU_PAGE_VALID)
          by (subst sh4; fields; apply upd_same).
        assert (Hn4 : page_number sh4 = upd (page_number sh1) slot q)
          by (subst sh4; fields; reflexivity).
        assert (Hb4 : page_buffer sh4 slot
                      = file_read_page f (Z.rem q SLRU_PAGES_PER_SEGMENT * BLCKSZ))
          by (subst sh4; fields; apply upd_same).
        assert (Hod : on_disk sh1 q (page_buffer sh4 slot))
          by (rewrite Hb4; apply on_disk_read; assumption).
        assert (Hinv4 : keeps_content ctl C sh4).
        { apply (keeps_content_claim ctl C sh1 sh4 slot q Hinv1 Hint Hq0 Hk Hnone' Hfree).
          - exact Hn4.
          - intros j Hj. subst sh4. fields. rewrite !upd_other by assumption. reflexivity.
          - intros j Hj. subst sh4. fields. rewrite !upd_other by assumption. reflexivity.
          - intros j Hj. subst sh4. fields. rewrite !upd_other by assumption. reflexivity.
          - subst sh4. fields. reflexivity.
          - right. split; [exact Hs4|]. split; [|exact Hod].
            subst sh4. fields. apply upd_same. }
        pose proof (same_but_lru_SlruRecentlyUsed sh4 slot) as Hru.
        pose proof (keeps_content_same_but_lru ctl C _ _ Hru Hinv4) as Hinv5.
        split; [exact Hinv5|]. split; [exact Hk|].
        destruct Hru as (_ & Hb5 & Hs5 & _ & Hn5 & _).
        rewrite Hs5, Hn5, Hb5. split; [exact Hs4|].
        split; [rewrite Hn4; apply upd_same|].
        apply (held_page_content ctl C sh4 slot q Hinv4 Hq0).
        split; [congruence | rewrite Hn4; apply upd_same].
    + rewrite Hrec. cbn [negb res_ok ret]. ostep. destruct Hq as [Hqi Hb]. rewrite Hqi.
      ostep. ostep. ostep. cbn [negb].
      apply res_ok_bind. unfold SlruReportIOError, ereport_ERROR. cbn [res_ok].
      split.
      * apply (keeps_content_claim ctl C sh1 _ slot q Hinv1 Hint Hq0 Hk Hnone' Hfree).
        -- fields. reflexivity.
        -- intros j Hj. fields. rewrite !upd_other by assumption. reflexivity.
        -- intros j Hj. fields. rewrite !upd_other by assumption. reflexivity.
        -- intros j Hj. fields. reflexivity.
        -- fields. reflexivity.
        -- left. fields. apply upd_same.
      * right. right. intros pg HC. destruct (Hdisk pg HC) as (g & Hg & _).
        rewrite Hf in Hg. discriminate.
Qed.

(** ** Flushing the cache *)



Lemma keeps_own_content ctl sh : coherent ctl sh -> keeps_content ctl (page_content sh) sh.
Proof. intros H. split; [exact H | auto]. Qed.

(** ** Zeroing a page *)

(** Slot [slot] is made the dirty buffer of page [q]: it held [q]
    already, or no slot did and it could be reused at once. *)
Lemma coherent_new_page ctl sh1 sh4 slot q :
  coherent ctl sh1 -> is_int64 q -> 0 <= q -> in_bank ctl q slot ->
  (slot_holds sh1 slot q
   \/ ((forall j, in_bank ctl q j -> ~ slot_holds sh1 j q) /\ slot_freeable sh1 slot)) ->
  page_number sh4 = upd (page_number sh1) slot q ->
  page_status sh4 slot = SLRU_PAGE_VALID ->
  page_dirty sh4 slot = true ->
  (forall j, j <> slot -> page_status sh4 j = page_status sh1 j) ->
  (forall j, j <> slot -> page_dirty sh4 j = page_dirty sh1 j) ->
  (forall j, j <> slot -> page_buffer sh4 j = page_buffer sh1 j) ->
  files sh4 = files sh1 ->
  coherent ctl sh4 /\ other_pages_kept q sh1 sh4
  /\ page_content sh4 q (page_buffer sh4 slot).
Proof.
  intros (Hwf & Hset & Hbank & Hclean) Hint Hq0 Hin Hsel Hn Hv4 Hd4 Hs Hd Hb Hf.
  assert (Hpn : forall j, j <> slot -> page_number sh4 j = page_number sh1 j).
  { intros j Hj. rewrite Hn. apply upd_other, Hj. }
  assert (Hpq : page_number sh4 slot = q) by (rewrite Hn; apply upd_same).
  assert (Hother : forall j p, j <> slot ->
            (slot_holds sh4 j p <-> slot_holds sh1 j p)).
  { intros j p Hj. unfold slot_holds. rewrite Hs, Hpn by assumption. tauto. }
  split; [split; [|split; [|split]]|split].
  - apply (cache_wf_claim_slot ctl q slot sh1); auto.
    destruct Hsel as [H | [H _]]; auto.
  - intros j. destruct (Z.eq_dec j slot) as [->|Hj]; [auto|].
    rewrite Hs by assumption. apply Hset.
  - intros j Hne. destruct (Z.eq_dec j slot) as [->|Hj].
    + rewrite Hpq. split; assumption.
    + rewrite Hpn by assumption. apply Hbank. rewrite <- Hs by assumption. exact Hne.
  - intros j Hv Hcl. destruct (Z.eq_dec j slot) as [->|Hj]; [congruence|].
    rewrite Hpn, Hb by assumption. eapply on_disk_files; [exact Hf|].
    apply Hclean; [rewrite <- Hs | rewrite <- Hd]; assumption.
  - intros p pg Hp Hpq' [(j & Hj & Hsp) | [Hno Hod]].
    + destruct (Z.eq_dec j slot) as [->|Hne].
      * (* the page that was in the slot *)
        destruct Hsel as [[_ Hq] | [_ Hfree]].
        { destruct Hj as [_ Hj]. congruence. }
        destruct Hfree as [He | [Hv Hcl]]; [destruct Hj; contradiction|].
        right. split.
        -- intros i Hi. destruct (Z.eq_dec i slot) as [->|Hneq].
           ++ destruct Hi as [_ Hi]. congruence.
           ++ apply Hneq. apply (holder_unique ctl sh1 i slot p); try assumption.
              apply Hother; assumption.
        -- eapply on_disk_files; [exact Hf|].
           destruct Hj as [_ <-].
           eapply on_disk_same_page; [apply Hclean; assumption | exact Hsp].
      * left. exists j. split; [apply Hother; assumption|].
        rewrite Hb by assumption. exact Hsp.
    + right. split.
      * intros i Hi. destruct (Z.eq_dec i slot) as [->|Hneq].
        -- destruct Hi as [_ Hi]. congruence.
        -- apply (Hno i). apply Hother; assumption.
      * eapply on_disk_files; eassumption.
  - left. exists slot. split; [|apply same_page_refl].
    split; [congruence | exact Hpq].
Qed.

Lemma SimpleLruZeroPage_keeps_content ctl q fuel sh :
  quiet ctl -> is_int64 q -> 0 <= q -> coherent ctl sh ->
  res_ok
    (fun slot sh' =>
       coherent ctl sh' /\ other_pages_kept q sh sh'
       /\ page_content sh' q zero_page
       /\ in_bank ctl q slot /\ slot_holds sh' slot q
       /\ page_buffer sh' slot = zero_page
       /\ latest_page_number sh' = u64 q)
    (fun sh' => coherent ctl sh' /\ pages_kept sh sh'
                /\ exists p, write_fails (world ctl) p = true)
    (SimpleLruZeroPage fuel ctl q sh).
Proof.
  intros Hq Hint Hq0 Hco. unfold SimpleLruZeroPage.
  apply res_ok_bind.
  eapply res_ok_weaken;
    [apply (res_ok_and _ _ _ _ _
              (SlruSelectLRUPage_keeps_content ctl (page_content sh) q Hq fuel sh
                 (keeps_own_content ctl sh Hco))
              (SlruSelectLRUPage_post fuel ctl q sh)) | |
     intros s [([H1 H2] & _ & Hw) _]; cbn beta; auto].
  intros slot sh1 [([Hco1 Hc1] & _) [Hk Hsel]]. cbn beta.
  ostep. ostep. cbn [res_ok ret].
  unfold zero_slot.
  match goal with |- context [SlruRecentlyUsed ?s slot] =>
    pose proof (SlruRecentlyUsed_fields s slot) as (Hs&Hd&Hn&Hl&Hb&Hf) end.
  match goal with |- coherent _ ?s /\ _ => set (sh4 := s) end.
  assert (Hb4 : page_buffer sh4 slot = zero_page)
    by (subst sh4; fields; apply upd_same).
  assert (Hn4 : page_number sh4 = upd (page_number sh1) slot q)
    by (subst sh4; fields; rewrite Hn; fields; reflexivity).
  destruct (coherent_new_page ctl sh1 sh4 slot q Hco1 Hint Hq0 Hk) as (H1 & H2 & H3).
  - destruct Hsel as [H | (H & H' & _)]; auto.
  - exact Hn4.
  - subst sh4. fields. rewrite Hs. fields. apply upd_same.
  - subst sh4. fields. rewrite Hd. fields. apply upd_same.
  - intros j Hj. subst sh4. fields. rewrite Hs. fields. apply upd_other, Hj.
  - intros j Hj. subst sh4. fields. rewrite Hd. fields. apply upd_other, Hj.
  - intros j Hj. subst sh4. fields. rewrite upd_other by assumption.
    rewrite Hb. fields. reflexivity.
  - subst sh4. fields. rewrite Hf. fields. reflexivity.
  - split; [exact H1|]. split.
    + intros p pg Hp Hne Hpc. apply H2; auto.
    + rewrite Hb4 in H3. split; [exact H3|]. split; [exact Hk|].
      split; [|split; [exact Hb4 | subst sh4; fields; reflexivity]].
      destruct H3 as [(j & Hj & _) | [Hno _]].
      * split; [|rewrite Hn4; apply upd_same].
        subst sh4. fields. rewrite Hs. fields. rewrite upd_same. discriminate.
      * split; [|rewrite Hn4; apply upd_same].
        subst sh4. fields. rewrite Hs. fields. rewrite upd_same. discriminate.
Qed.

(** ** A coherent cache *)

Lemma quiet_normal_offsets_ctl : quiet normal_offsets_ctl.
Proof. split; intros; reflexivity. Qed.

Lemma offsets_cache_slot k :
  page_status offsets_cache k <> SLRU_PAGE_EMPTY -> k = 0.
Proof.
  cbn [page_status offsets_cache]. unfold upd.
  destruct (Z.eqb_spec k 0); [auto | intros H; contradiction H; reflexivity].
Qed.

Lemma coherent_offsets_cache : coherent normal_offsets_ctl offsets_cache.
Proof.
  split; [split|split; [|split]].
  - intros j Hj. apply offsets_cache_slot in Hj. subst j. vm_compute.
    split; [discriminate | reflexivity].
  - intros i j _ Hne Hi Hj.
    apply offsets_cache_slot in Hi. apply offsets_cache_slot in Hj. congruence.
  - intros k. cbn [page_status offsets_cache]. unfold upd.
    destruct (k =? 0); auto.
  - intros k Hk. apply offsets_cache_slot in Hk. subst k. vm_compute.
    repeat split; discriminate.
  - intros k Hv Hcl.
    assert (k = 0) by (apply offsets_cache_slot; congruence). subst k.
    discriminate Hcl.
Qed.

(** ** Statements *)

(** X15 -- In a coherent cache (every slot EMPTY or VALID, every clean
    buffer equal to its page on disk), outside recovery and with no
    other backend at work, [SimpleLruReadPage ctl q] with enough fuel
    returns or raises the I/O error.  When it returns slot [slot], the
    slot is in the bank of [q], VALID and in use for [q], and its buffer
    holds the content [q] had before the call: the buffered copy if a
    slot held [q], the page of the segment file otherwise.  Whether it
    returns or raises, the cache is coherent and every page has the
    content it had, also the page whose slot was taken.  It raises only
    if a write or the read of [q] failed, or [q] had no content (no
    buffer, and no full page in a segment file). *)
Theorem SimpleLruReadPage_returns_page_content
    (ctl : SlruCtlData) (q : Z) (write_ok : bool) (xid : Z)
    (fuel : nat) (sh : SlruShared) :
  quiet ctl -> InRecovery (world ctl) = false ->
  is_int64 q -> 0 <= q -> (SLRU_FUEL <= fuel)%nat ->
  coherent ctl sh ->
  res_total
    (fun slot sh' =>
       coherent ctl sh' /\ pages_kept sh sh'
       /\ in_bank ctl q slot
       /\ page_status sh' slot = SLRU_PAGE_VALID
       /\ page_number sh' slot = q
       /\ forall pg, page_content sh q pg -> same_page (page_buffer sh' slot) pg)
    (fun sh' =>
       coherent ctl sh' /\ pages_kept sh sh'
       /\ ((exists p, write_fails (world ctl) p = true)
           \/ read_fails (world ctl) q = true
           \/ forall pg, ~ page_content sh q pg))
    (SimpleLruReadPage fuel ctl q write_ok xid sh).
Proof.
  intros Hq Hrec Hint Hq0 Hfuel Hco.
  pose proof (res_total_and_ok _ _ _ _ _
                (SimpleLruReadPage_total ctl q write_ok xid fuel sh Hq Hint Hfuel
                   (proj1 Hco))
                (SimpleLruReadPage_keeps_content ctl (page_content sh) q write_ok xid
                   Hq Hrec Hint Hq0 fuel sh (keeps_own_content ctl sh Hco))) as H.
  eapply res_total_weaken; [exact H | |]; cbn beta.
  - intros slot s (_ & [H1 H2] & H3 & H4 & H5 & H6). auto 10.
  - intros s (_ & [H1 H2] & H3). auto.
Qed.

Lemma SimpleLruReadPage_returns_page_content_witness :
  res_total
    (fun slot sh' =>
       coherent normal_offsets_ctl sh' /\ pages_kept offsets_cache sh'
       /\ in_bank normal_offsets_ctl 5 slot
       /\ page_status sh' slot = SLRU_PAGE_VALID
       /\ page_number sh' slot = 5
       /\ forall pg, page_content offsets_cache 5 pg ->
            same_page (page_buffer sh' slot) pg)
    (fun sh' =>
       coherent normal_offsets_ctl sh' /\ pages_kept offsets_cache sh'
       /\ ((exists p, write_fails (world normal_offsets_ctl) p = true)
           \/ read_fails (world normal_offsets_ctl) 5 = true
           \/ forall pg, ~ page_content offsets_cache 5 pg))
    (SimpleLruReadPage SLRU_FUEL normal_offsets_ctl 5 true 0 offsets_cache).
Proof.
  apply SimpleLruReadPage_returns_page_content.
  - exact quiet_normal_offsets_ctl.
  - reflexivity.
  - vm_compute. split; [discriminate | reflexivity].
  - lia.
  - apply le_n.
  - exact coherent_offsets_cache.
Defined.



(** X18 -- In a coherent cache and with no other backend at work,
    [SimpleLruZeroPage ctl q] with enough fuel returns or raises the I/O
    error.  When it returns slot [slot], the slot is in the bank of [q]
    and in use for [q], its buffer is all zeroes, the content of [q] is
    the zero page, [q] is the latest page, and every other page has the
    content it had, also the page whose slot was taken.  When it raises,
    a write failed and every page has the content it had. *)
Theorem SimpleLruZeroPage_zeroes_one_page
    (ctl : SlruCtlData) (q : Z) (fuel : nat) (sh : SlruShared) :
  quiet ctl -> is_int64 q -> 0 <= q -> (2 * BANK_SLOTS + 2 <= fuel)%nat ->
  coherent ctl sh ->
  res_total
    (fun slot sh' =>
       coherent ctl sh' /\ other_pages_kept q sh sh'
       /\ page_content sh' q zero_page
       /\ in_bank ctl q slot /\ slot_holds sh' slot q
       /\ page_buffer sh' slot = zero_page
       /\ latest_page_number sh' = u64 q)
    (fun sh' =>
       coherent ctl sh' /\ pages_kept sh sh'
       /\ exists p, write_fails (world ctl) p = true)
    (SimpleLruZeroPage fuel ctl q sh).
Proof.
  intros Hq Hint Hq0 Hfuel Hco.
  pose proof (res_total_and_ok _ _ _ _ _
                (SimpleLruZeroPage_total ctl q fuel sh Hq Hfuel (proj1 Hco) Hint)
                (SimpleLruZeroPage_keeps_content ctl q fuel sh Hq Hint Hq0 Hco)) as H.
  eapply res_total_weaken; [exact H | |]; cbn beta; tauto.
Qed.

Lemma SimpleLruZeroPage_zeroes_one_page_witness :
  res_total
    (fun slot sh' =>
       coherent normal_offsets_ctl sh' /\ other_pages_kept 5 offsets_cache sh'
       /\ page_content sh' 5 zero_page
       /\ in_bank normal_offsets_ctl 5 slot /\ slot_holds sh' slot 5
       /\ page_buffer sh' slot = zero_page
       /\ latest_page_number sh' = u64 5)
    (fun sh' =>
       coherent normal_offsets_ctl sh' /\ pages_kept offsets_cache sh'
       /\ exists p, write_fails (world normal_offsets_ctl) p = true)
    (SimpleLruZeroPage SLRU_FUEL normal_offsets_ctl 5 offsets_cache).
Proof.
  apply SimpleLruZeroPage_zeroes_one_page.
  - exact quiet_normal_offsets_ctl.
  - vm_compute. split; [discriminate | reflexivity].
  - lia.
  - vm_compute. lia.
  - exact coherent_offsets_cache.
Defined.

(** X17 -- When neither the write nor the read of page [p] fails,
    [SlruPhysicalWritePage] of the buffer of slot [k] returns true and
    leaves every other page of the segment files as it was; after it
    [SimpleLruDoesPhysicalPageExist] returns true for [p], and
    [SlruPhysicalReadPage] into any slot [k'] returns true with the
    written page in the buffer of [k'], and changes nothing else. *)
Theorem SlruPhysicalWritePage_then_read
    (ctl : SlruCtlData) (p k k' : Z) (sh : SlruShared) :
  0 <= p ->
  write_fails (world ctl) p = false -> read_fails (world ctl) p = false ->
  exists sh1 tr1,
    SlruPhysicalWritePage ctl p k sh = Done true sh1 tr1
    /\ slots_kept sh sh1
    /\ on_disk sh1 p (page_buffer sh k)
    /\ (forall q pg, 0 <= q -> q <> p -> on_disk sh q pg -> on_disk sh1 q pg)
    /\ SimpleLruDoesPhysicalPageExist ctl p sh1 = Done true sh1 []
    /\ exists pg tr2,
         SlruPhysicalReadPage ctl p k' sh1
         = Done true (set_page_buffer sh1 k' pg) tr2
         /\ same_page pg (page_buffer sh k).
Proof.
  intros Hp Hw Hr.
  unfold SlruPhysicalWritePage, bind, get, put, emit, ret. rewrite Hw. cbn.
  eexists; eexists. split; [reflexivity|].
  match goal with |- slots_kept _ ?s /\ _ => set (sh1 := s) end.
  destruct (on_disk_written sh p (page_buffer sh k) _ Hp eq_refl) as [Hod Hkeep].
  fold sh1 in Hod, Hkeep.
  split; [|split; [exact Hod | split; [exact Hkeep|]]].
  { unfold slots_kept. subst sh1. cbn. auto 10. }
  destruct Hod as (f & Hf & Hsz & Hdata).
  unfold SimpleLruDoesPhysicalPageExist, SlruPhysicalReadPage, bind, get, modify, emit, ret.
  rewrite Hf, Hr.
  destruct (Z.leb_spec (Z.rem p SLRU_PAGES_PER_SEGMENT * BLCKSZ + BLCKSZ) (f_size f));
    [|lia].
  destruct (Z.ltb_spec (f_size f) (Z.rem p SLRU_PAGES_PER_SEGMENT * BLCKSZ + BLCKSZ));
    [lia|].
  cbn. split; [reflexivity|].
  eexists; eexists. split; [reflexivity|].
  intros o Ho. unfold file_read_page.
  destruct (Z.leb_spec 0 o); [|lia]. destruct (Z.ltb_spec o BLCKSZ); [|lia].
  cbn. apply Hdata. exact Ho.
Qed.

Lemma SlruPhysicalWritePage_then_read_witness :
  exists sh1 tr1,
    SlruPhysicalWritePage normal_offsets_ctl 3 0 offsets_cache = Done true sh1 tr1
    /\ slots_kept offsets_cache sh1
    /\ on_disk sh1 3 (page_buffer offsets_cache 0)
    /\ (forall q pg, 0 <= q -> q <> 3 -> on_disk offsets_cache q pg -> on_disk sh1 q pg)
    /\ SimpleLruDoesPhysicalPageExist normal_offsets_ctl 3 sh1 = Done true sh1 []
    /\ exists pg tr2,
         SlruPhysicalReadPage normal_offsets_ctl 3 1 sh1
         = Done true (set_page_buffer sh1 1 pg) tr2
         /\ same_page pg (page_buffer offsets_cache 0).
Proof.
  apply SlruPhysicalWritePage_then_read; [lia | reflexivity | reflexivity].
Defined.

Lemma find_readable_slot_Some sh pageno n :
  forall start slot,
    find_readable_slot sh pageno n start = Some slot ->
    start <= slot < start + Z.of_nat n /\ slot_holds sh slot pageno.
Proof.
  induction n as [|n IH]; intros start slot; cbn [find_readable_slot]; [discriminate|].
  destruct (negb (status_eqb (page_status sh start) SLRU_PAGE_EMPTY)
            && (page_number sh start =? pageno)
            && negb (status_eqb (page_status sh start) SLRU_PAGE_READ_IN_PROGRESS))
    eqn:E.
  - intros H. injection H as <-.
    apply andb_true_iff in E. destruct E as [E _].
    apply andb_true_iff in E. destruct E as [E1 E2].
    apply negb_true_iff, status_eqb_neq in E1. apply Z.eqb_eq in E2.
    split; [lia | split; assumption].
  - intros H. apply IH in H. destruct H as [H1 H2]. split; [lia | exact H2].
Qed.

(** X19 -- [SimpleLruReadPage_ReadOnly ctl q], under the same conditions
    as [SimpleLruReadPage], returns a slot of the bank of [q] that is
    VALID and in use for [q] with the content [q] had in its buffer,
    whether it found the page under the shared lock or had to read it;
    the cache stays coherent and every page keeps its content.  It
    raises only if a write or the read of [q] failed, or [q] had no
    content. *)
Theorem SimpleLruReadPage_ReadOnly_returns_page_content
    (ctl : SlruCtlData) (q xid : Z) (fuel : nat) (sh : SlruShared) :
  quiet ctl -> InRecovery (world ctl) = false ->
  is_int64 q -> 0 <= q -> (SLRU_FUEL <= fuel)%nat ->
  coherent ctl sh ->
  res_total
    (fun slot sh' =>
       coherent ctl sh' /\ pages_kept sh sh'
       /\ in_bank ctl q slot
       /\ page_status sh' slot = SLRU_PAGE_VALID
       /\ page_number sh' slot = q
       /\ forall pg, page_content sh q pg -> same_page (page_buffer sh' slot) pg)
    (fun sh' =>
       coherent ctl sh' /\ pages_kept sh sh'
       /\ ((exists p, write_fails (world ctl) p = true)
           \/ read_fails (world ctl) q = true
           \/ forall pg, ~ page_content sh q pg))
    (SimpleLruReadPage_ReadOnly fuel ctl q xid sh).
Proof.
  intros Hq Hrec Hint Hq0 Hfuel Hco.
  unfold SimpleLruReadPage_ReadOnly. tstep. tstep.
  fold (bank_start ctl q).
  destruct (find_readable_slot sh q BANK_SLOTS (bank_start ctl q)) as [slot|] eqn:Hfind.
  - apply find_readable_slot_Some in Hfind. rewrite bank_slots_value in Hfind.
    destruct Hfind as [Hk Hh].
    tstep. cbn [res_total ret].
    pose proof (same_but_lru_SlruRecentlyUsed sh slot) as Hru.
    pose proof (keeps_content_same_but_lru ctl _ _ _ Hru (keeps_own_content ctl sh Hco))
      as [Hco1 Hc1].
    split; [exact Hco1|]. split; [exact Hc1|]. split; [exact Hk|].
    destruct Hru as (_ & Hb & Hs & _ & Hn & _). rewrite Hs, Hn, Hb.
    destruct Hco as (Hwf & Hset & Hbank & Hclean).
    split; [apply settled_valid; [exact Hset | apply Hh]|].
    split; [apply Hh|].
    intros pg [(j & Hj & Hsp) | [Hno _]].
    + rewrite (holder_unique ctl sh slot j q Hwf Hbank Hh Hj). exact Hsp.
    + destruct (Hno slot Hh).
  - tstep. destruct Hq as [Hqi Hb]. tstep. rewrite Hqi. tstep.
    pose proof (res_total_and_ok _ _ _ _ _
                  (SimpleLruReadPage_total ctl q true xid fuel sh (conj Hqi Hb) Hint
                     Hfuel (proj1 Hco))
                  (SimpleLruReadPage_keeps_content ctl (page_content sh) q true xid
                     (conj Hqi Hb) Hrec Hint Hq0 fuel sh (keeps_own_content ctl sh Hco)))
      as H.
    eapply res_total_weaken; [exact H | |]; cbn beta.
    + intros slot s (_ & [H1 H2] & H3 & H4 & H5 & H6). auto 10.
    + intros s (_ & [H1 H2] & H3). auto.
Qed.

Lemma SimpleLruReadPage_ReadOnly_returns_page_content_witness :
  res_total
    (fun slot sh' =>
       coherent normal_offsets_ctl sh' /\ pages_kept offsets_cache sh'
       /\ in_bank normal_offsets_ctl 3 slot
       /\ page_status sh' slot = SLRU_PAGE_VALID
       /\ page_number sh' slot = 3
       /\ forall pg, page_content offsets_cache 3 pg ->
            same_page (page_buffer sh' slot) pg)
    (fun sh' =>
       coherent normal_offsets_ctl sh' /\ pages_kept offsets_cache sh'
       /\ ((exists p, write_fails (world normal_offsets_ctl) p = true)
           \/ read_fails (world normal_offsets_ctl) 3 = true
           \/ forall pg, ~ page_content offsets_cache 3 pg))
    (SimpleLruReadPage_ReadOnly SLRU_FUEL normal_offsets_ctl 3 0 offsets_cache).
Proof.
  apply SimpleLruReadPage_ReadOnly_returns_page_content.
  - exact quiet_normal_offsets_ctl.
  - reflexivity.
  - vm_compute. split; [discriminate | reflexivity].
  - lia.
  - apply le_n.
  - exact coherent_offsets_cache.
Defined.

(* ================================================================== *)
(** * The extension of pg_commit_ts and the allocation of transaction ids (commit_ts.c, varsup.c) *)
(* ================================================================== *)

(** ** ExtendCommitTs *)

Lemma CTsPage_nonneg xid : 0 <= xid -> 0 <= TransactionIdToCTsPage xid.
Proof.
  intros H. unfold TransactionIdToCTsPage. change COMMIT_TS_XACTS_PER_PAGE with 819.
  apply Z.div_pos; lia.
Qed.

Lemma coherent_wf ctl sh : coherent ctl sh -> cache_wf sh.
Proof. intros H. apply H. Qed.

Lemma coherent_empty_cache ctl : coherent ctl empty_cache.
Proof.
  split; [apply cache_wf_empty_cache|]. split; [|split].
  - intros k. left. reflexivity.
  - intros k H. contradiction H. reflexivity.
  - intros k H. discriminate H.
Qed.



(** X20 -- [ExtendCommitTs xid] is a no-op (nothing changes) unless the
    module is active and [xid] is the first transaction id of a page (or
    [FirstNormalTransactionId]).  Then, in a coherent page cache with no
    other backend at work, it returns or raises the I/O error of a
    write-back; when it returns, the page of [xid] is all zeroes and is
    the latest page, and every other page of pg_commit_ts has the
    content it had.  Nothing outside the page cache of pg_commit_ts is
    changed in any case. *)
Theorem ExtendCommitTs_zeroes_first_page_only
    (fuel : nat) (B : Backend) (xid : Z) (s : PgState) :
  quiet (CommitTsCtl B) -> (2 * BANK_SLOTS + 2 <= fuel)%nat ->
  is_uint64 xid -> coherent (CommitTsCtl B) (CommitTsSlru s) ->
  res_total
    (fun _ s' =>
       commit_ts_frame s s'
       /\ coherent (CommitTsCtl B) (CommitTsSlru s')
       /\ if commitTsActive (commitTsShared s) && starts_commit_ts_page xid
          then page_content (CommitTsSlru s') (TransactionIdToCTsPage xid) zero_page
               /\ other_pages_kept (TransactionIdToCTsPage xid)
                    (CommitTsSlru s) (CommitTsSlru s')
               /\ latest_page_number (CommitTsSlru s')
                  = u64 (TransactionIdToCTsPage xid)
          else s' = s)
    (fun s' =>
       commit_ts_frame s s'
       /\ coherent (CommitTsCtl B) (CommitTsSlru s')
       /\ pages_kept (CommitTsSlru s) (CommitTsSlru s')
       /\ exists p, write_fails (world (CommitTsCtl B)) p = true)
    (ExtendCommitTs fuel B xid s).
Proof.
  intros Hq Hfuel Hx Hco. unfold ExtendCommitTs, starts_commit_ts_page. tstep.
  destruct (commitTsActive (commitTsShared s)); cbn [negb andb];
    [|split; [apply commit_ts_frame_refl | split; [exact Hco | reflexivity]]].
  destruct (TransactionIdToCTsEntry xid =? 0); cbn [negb andb orb].
  2:{ destruct (TransactionIdEquals xid FirstNormalTransactionId); cbn [negb].
      2:{ split; [apply commit_ts_frame_refl | split; [exact Hco | reflexivity]]. }
      apply res_total_zoom. tstep. apply res_total_bind.
      pose proof (res_total_and_ok _ _ _ _ _
                    (SimpleLruZeroPage_total (CommitTsCtl B) (TransactionIdToCTsPage xid)
                       fuel (CommitTsSlru s) Hq Hfuel (coherent_wf _ _ Hco)
                       (CTsPage_is_int64 xid Hx))
                    (SimpleLruZeroPage_keeps_content (CommitTsCtl B)
                       (TransactionIdToCTsPage xid) fuel (CommitTsSlru s) Hq
                       (CTsPage_is_int64 xid Hx)
                       (CTsPage_nonneg xid (proj1 Hx)) Hco)) as H.
      eapply res_total_weaken; [exact H | |]; cbn beta.
      - intros k sh1 (_ & H1 & H2 & H3 & _ & _ & _ & H7).
        destruct (negb (InRecovery (world (CommitTsCtl B)))); prim_unfold; cbn;
          pgfields; (split; [apply commit_ts_frame_set | auto]).
      - intros sh1 (_ & H1 & H2 & H3). pgfields.
        split; [apply commit_ts_frame_set | auto]. }
  apply res_total_zoom. tstep. apply res_total_bind.
  pose proof (res_total_and_ok _ _ _ _ _
                (SimpleLruZeroPage_total (CommitTsCtl B) (TransactionIdToCTsPage xid)
                   fuel (CommitTsSlru s) Hq Hfuel (coherent_wf _ _ Hco)
                   (CTsPage_is_int64 xid Hx))
                (SimpleLruZeroPage_keeps_content (CommitTsCtl B)
                   (TransactionIdToCTsPage xid) fuel (CommitTsSlru s) Hq
                   (CTsPage_is_int64 xid Hx)
                   (CTsPage_nonneg xid (proj1 Hx)) Hco)) as H.
  eapply res_total_weaken; [exact H | |]; cbn beta.
  - intros k sh1 (_ & H1 & H2 & H3 & _ & _ & _ & H7).
    destruct (negb (InRecovery (world (CommitTsCtl B)))); prim_unfold; cbn;
      pgfields; (split; [apply commit_ts_frame_set | auto]).
  - intros sh1 (_ & H1 & H2 & H3). pgfields.
    split; [apply commit_ts_frame_set | auto].
Qed.

Lemma ExtendCommitTs_zeroes_first_page_only_witness :
  res_total
    (fun _ s' =>
       commit_ts_frame page_start_state s'
       /\ coherent (CommitTsCtl alone_backend) (CommitTsSlru s')
       /\ if commitTsActive (commitTsShared page_start_state)
             && starts_commit_ts_page 1638
          then page_content (CommitTsSlru s') (TransactionIdToCTsPage 1638) zero_page
               /\ other_pages_kept (TransactionIdToCTsPage 1638)
                    (CommitTsSlru page_start_state) (CommitTsSlru s')
               /\ latest_page_number (CommitTsSlru s')
                  = u64 (TransactionIdToCTsPage 1638)
          else s' = page_start_state)
    (fun s' =>
       commit_ts_frame page_start_state s'
       /\ coherent (CommitTsCtl alone_backend) (CommitTsSlru s')
       /\ pages_kept (CommitTsSlru page_start_state) (CommitTsSlru s')
       /\ exists p, write_fails (world (CommitTsCtl alone_backend)) p = true)
    (ExtendCommitTs SLRU_FUEL alone_backend 1638 page_start_state).
Proof.
  apply ExtendCommitTs_zeroes_first_page_only.
  - exact quiet_alone_backend.
  - vm_compute. lia.
  - vm_compute. split; [discriminate | reflexivity].
  - apply coherent_empty_cache.
Defined.

(** ** GetNewTransactionId *)














Example GetNewTransactionId_example :
  res_value (GetNewTransactionId SLRU_FUEL alone_backend false page_start_state)
  = Some 1638
  /\ res_trace (GetNewTransactionId SLRU_FUEL alone_backend false page_start_state)
     = [EvAcquire XidGenLock LW_EXCLUSIVE;
        EvExtend "clog" 1638;
        EvExtend "commit_ts" 1638;
        EvAcquire (BankLock "pg_commit_ts" 0) LW_EXCLUSIVE;
        EvPageZeroed "pg_commit_ts" 2;
        EvRelease (BankLock "pg_commit_ts" 0);
        EvExtend "subtrans" 1638;
        EvAdvanceNextXid 1639;
        EvStoreXid 1638;
        EvRelease XidGenLock].
Proof. vm_compute. split; reflexivity. Qed.

(* ================================================================== *)
(** * The members of a multixact through the two logs (multixact.c) *)
(* ================================================================== *)

(** ** Writing into a buffer *)

(** The buffer of a slot in use for [q] is changed and marked dirty. *)
Lemma coherent_write_buffer ctl sh sh' slot q :
  coherent ctl sh -> slot_holds sh slot q ->
  page_status sh' = page_status sh -> page_number sh' = page_number sh ->
  files sh' = files sh ->
  page_dirty sh' slot = true ->
  (forall j, j <> slot -> page_dirty sh' j = page_dirty sh j) ->
  (forall j, j <> slot -> page_buffer sh' j = page_buffer sh j) ->
  coherent ctl sh' /\ other_pages_kept q sh sh'
  /\ page_content sh' q (page_buffer sh' slot).
Proof.
  intros (Hwf & Hset & Hbank & Hclean) Hh Hs Hn Hf Hd4 Hd Hb.
  assert (Hholds : forall j p, slot_holds sh' j p <-> slot_holds sh j p).
  { intros j p. unfold slot_holds. rewrite Hs, Hn. tauto. }
  split; [split; [|split; [|split]]|split].
  - eapply cache_wf_ext; eassumption.
  - intros j. rewrite Hs. apply Hset.
  - intros j. rewrite Hs, Hn. apply Hbank.
  - intros j Hv Hcl. destruct (Z.eq_dec j slot) as [->|Hj]; [congruence|].
    rewrite Hn, Hb by assumption. eapply on_disk_files; [exact Hf|].
    apply Hclean; [rewrite <- Hs | rewrite <- Hd]; assumption.
  - intros p pg Hp Hpq [(j & Hj & Hsp) | [Hno Hod]].
    + left. exists j. split; [apply Hholds; exact Hj|].
      rewrite Hb; [exact Hsp|]. intros ->.
      destruct Hj as [_ Hj]. destruct Hh as [_ Hh]. congruence.
    + right. split.
      * intros i Hi. apply (Hno i). apply Hholds. exact Hi.
      * eapply on_disk_files; eassumption.
  - left. exists slot. split; [apply Hholds; exact Hh | apply same_page_refl].
Qed.

(** The content of a page that a slot holds is in the buffer. *)
Lemma content_in_buffer ctl sh slot q pg :
  coherent ctl sh -> slot_holds sh slot q -> page_content sh q pg ->
  same_page (page_buffer sh slot) pg.
Proof.
  intros (Hwf & Hset & Hbank & Hclean) Hh [(k & Hk & Hsp) | [Hno _]].
  - rewrite (holder_unique ctl sh slot k q Hwf Hbank Hh Hk). exact Hsp.
  - destruct (Hno slot Hh).
Qed.

Lemma page_content_same_page sh q pg pg' :
  0 <= q -> page_content sh q pg -> same_page pg pg' -> page_content sh q pg'.
Proof.
  intros Hq [(k & Hk & Hsp) | [Hno Hod]] Hpp.
  - left. exists k. split; [exact Hk | eapply same_page_trans; eassumption].
  - right. split; [exact Hno | eapply on_disk_same_page; eassumption].
Qed.

(** ** Bytes of a page *)

Lemma read_le_same_page n pg pg' off :
  same_page pg pg' -> 0 <= off -> off + Z.of_nat n <= BLCKSZ ->
  read_le n pg off = read_le n pg' off.
Proof.
  intros Hsp H0 H1. apply read_le_ext. intros o Ho. apply Hsp. lia.
Qed.

Lemma read_le_bytes n :
  forall pg off, bytes_page pg -> 0 <= off -> off + Z.of_nat n <= BLCKSZ ->
    0 <= read_le n pg off < 256 ^ Z.of_nat n.
Proof.
  induction n as [|n IH]; intros pg off Hpg H0 H1.
  - cbn. lia.
  - cbn [read_le]. rewrite Nat2Z.inj_succ, Z.pow_succ_r by lia.
    specialize (IH pg (off + 1) Hpg ltac:(lia) ltac:(lia)).
    specialize (Hpg off ltac:(lia)). lia.
Qed.

Lemma write_le_bytes n :
  forall pg off v, bytes_page pg -> bytes_page (write_le n pg off v).
Proof.
  induction n as [|n IH]; intros pg off v Hpg; cbn [write_le]; [exact Hpg|].
  intros o Ho. unfold upd. destruct (o =? off).
  - apply Z.mod_pos_bound. lia.
  - apply IH; assumption.
Qed.

Lemma write_le_same_page n :
  forall pg pg' off v, same_page pg pg' ->
    same_page (write_le n pg off v) (write_le n pg' off v).
Proof.
  induction n as [|n IH]; intros pg pg' off v Hsp; cbn [write_le]; [exact Hsp|].
  intros o Ho. unfold upd. destruct (o =? off); [reflexivity|].
  apply IH; assumption.
Qed.

Lemma bytes_page_same_page pg pg' : same_page pg pg' -> bytes_page pg -> bytes_page pg'.
Proof. intros Hsp Hb o Ho. rewrite <- (Hsp o Ho). apply Hb, Ho. Qed.

Lemma bytes_zero_page : bytes_page zero_page.
Proof. intros o _. unfold zero_page. lia. Qed.

(** ** Members and offsets in a page of bytes *)

Lemma member_in_page offset :
  0 <= MXOffsetToFlagsOffset offset
  /\ MXOffsetToFlagsOffset offset + 8 <= BLCKSZ
  /\ 0 <= MXOffsetToMemberOffset offset
  /\ MXOffsetToMemberOffset offset + 8 <= BLCKSZ.
Proof.
  destruct (member_layout offset) as (g & k & Hg & Hk & _ & -> & _ & ->).
  change BLCKSZ with 8192. lia.
Qed.

Lemma offset_entry_in_page multi :
  0 <= MultiXactIdToOffsetEntry multi * sizeof_MultiXactOffset
  /\ MultiXactIdToOffsetEntry multi * sizeof_MultiXactOffset + 8 <= BLCKSZ.
Proof.
  unfold MultiXactIdToOffsetEntry. unfold_consts.
  pose proof (Z.mod_pos_bound multi 1024 eq_refl). lia.
Qed.

Lemma load_member_same_page pg pg' offset :
  same_page pg pg' -> load_member pg offset = load_member pg' offset.
Proof.
  intros Hsp. destruct (member_in_page offset) as (H1 & H2 & H3 & H4).
  unfold load_member.
  rewrite (read_le_same_page 8 pg pg' (MXOffsetToMemberOffset offset) Hsp H3 H4).
  rewrite (read_le_same_page 8 pg pg' (MXOffsetToFlagsOffset offset) Hsp H1 H2).
  reflexivity.
Qed.

Lemma store_member_same_page pg pg' offset xid status :
  same_page pg pg' ->
  same_page (store_member pg offset xid status) (store_member pg' offset xid status).
Proof.
  intros Hsp. destruct (member_in_page offset) as (H1 & H2 & H3 & H4).
  unfold store_member. cbv zeta.
  pose proof (write_le_same_page 8 pg pg' (MXOffsetToMemberOffset offset) xid Hsp) as Hsp1.
  rewrite (read_le_same_page 8 _ _ (MXOffsetToFlagsOffset offset) Hsp1 H1 H2).
  apply write_le_same_page. exact Hsp1.
Qed.

Lemma store_member_bytes pg offset xid status :
  bytes_page pg -> bytes_page (store_member pg offset xid status).
Proof. intros H. unfold store_member. cbv zeta. apply write_le_bytes, write_le_bytes, H. Qed.

Lemma store_offset_bytes pg multi offset :
  bytes_page pg -> bytes_page (store_offset pg multi offset).
Proof. intros H. apply write_le_bytes, H. Qed.

Lemma clipped_page pg :
  bytes_page pg ->
  exists pg', page_of_bytes pg' /\ same_page pg pg'.
Proof.
  intros Hb. exists (fun o => if (0 <=? o) && (o <? BLCKSZ) then pg o else 0). split.
  - intros i. destruct (Z.leb_spec 0 i); cbn [andb]; [|lia].
    destruct (Z.ltb_spec i BLCKSZ); [apply Hb; lia | lia].
  - intros o Ho. destruct (Z.leb_spec 0 o); [|lia].
    destruct (Z.ltb_spec o BLCKSZ); [reflexivity | lia].
Qed.

(** A member stored into a page of bytes is read back, and the other
    members of the page are as they were. *)
Lemma load_store_member_bytes pg offset offset' xid status :
  bytes_page pg ->
  MXOffsetToMemberPage offset' = MXOffsetToMemberPage offset ->
  0 <= xid < TWO64 -> 0 <= status < 256 ->
  load_member (store_member pg offset xid status) offset'
  = if offset' =? offset then mkMember xid status else load_member pg offset'.
Proof.
  intros Hb Hp Hx Hst. destruct (clipped_page pg Hb) as (pg' & Hpg' & Hsp).
  rewrite (load_member_same_page _ _ offset'
             (store_member_same_page pg pg' offset xid status Hsp)).
  rewrite (load_store_member pg' offset offset' xid status Hpg' Hp Hx Hst).
  rewrite (load_member_same_page pg pg' offset' Hsp). reflexivity.
Qed.

Lemma read_store_offset_page pg multi offset :
  0 <= offset < TWO64 ->
  read_le 8 (store_offset pg multi offset)
    (MultiXactIdToOffsetEntry multi * sizeof_MultiXactOffset) = offset.
Proof.
  intros Ho. unfold store_offset. rewrite read_write_le.
  apply Z.mod_small. exact Ho.
Qed.

Lemma member_page_nonneg offset : 0 <= offset -> 0 <= MXOffsetToMemberPage offset.
Proof.
  intros H. unfold MXOffsetToMemberPage. unfold_consts. apply Z.div_pos; lia.
Qed.

Lemma offset_page_nonneg multi : 0 <= multi -> 0 <= MultiXactIdToOffsetPage multi.
Proof.
  intros H. unfold MultiXactIdToOffsetPage. unfold_consts. apply Z.div_pos; lia.
Qed.

(** ** Reading a page that has a content *)

Lemma SimpleLruReadPage_reads ctl q write_ok xid fuel sh :
  quiet ctl -> io_works ctl -> is_int64 q -> 0 <= q -> (SLRU_FUEL <= fuel)%nat ->
  coherent ctl sh -> (exists pg, page_content sh q pg) ->
  exists slot sh' tr,
    SimpleLruReadPage fuel ctl q write_ok xid sh = Done slot sh' tr
    /\ coherent ctl sh' /\ pages_kept sh sh' /\ slot_holds sh' slot q.
Proof.
  intros Hq (Hw & Hr & Hrec) Hint Hq0 Hfuel Hco [pg Hpg].
  pose proof (res_total_and_ok _ _ _ _ _
                (SimpleLruReadPage_total ctl q write_ok xid fuel sh Hq Hint Hfuel
                   (proj1 Hco))
                (SimpleLruReadPage_keeps_content ctl (page_content sh) q write_ok xid
                   Hq Hrec Hint Hq0 fuel sh (keeps_own_content ctl sh Hco))) as H.
  destruct (SimpleLruReadPage fuel ctl q write_ok xid sh) as [slot sh' tr|e sh' tr|];
    cbn in H.
  - destruct H as (_ & [H1 H2] & H3 & H4 & H5 & H6).
    exists slot, sh', tr. split; [reflexivity|]. split; [exact H1|].
    split; [exact H2|]. split; [congruence | exact H5].
  - destruct H as (_ & _ & [[p Hp] | [Hp | Hp]]).
    + rewrite Hw in Hp. discriminate.
    + rewrite Hr in Hp. discriminate.
    + destruct (Hp pg Hpg).
  - contradiction.
Qed.

(** ** One member stored *)

Lemma buffer_bytes ctl sh slot q :
  coherent ctl sh -> slot_holds sh slot q -> has_byte_page sh q ->
  bytes_page (page_buffer sh slot).
Proof.
  intros Hco Hh (pg & Hpg & Hb).
  apply (bytes_page_same_page pg); [|exact Hb].
  apply same_page_sym. eapply content_in_buffer; eassumption.
Qed.

Lemma store_member_step ctl sh slot offset xid status :
  coherent ctl sh -> 0 <= offset ->
  slot_holds sh slot (MXOffsetToMemberPage offset) ->
  has_byte_page sh (MXOffsetToMemberPage offset) ->
  0 <= xid < TWO64 -> 0 <= status < 256 ->
  let sh' := set_page_dirty
               (set_page_buffer sh slot
                  (store_member (page_buffer sh slot) offset xid status)) slot true in
  coherent ctl sh'
  /\ slot_holds sh' slot (MXOffsetToMemberPage offset)
  /\ member_recorded sh' offset (mkMember xid status)
  /\ (forall o m, 0 <= o -> o <> offset ->
        member_recorded sh o m -> member_recorded sh' o m)
  /\ (forall q, 0 <= q -> has_byte_page sh q -> has_byte_page sh' q).
Proof.
  intros Hco Ho Hh Hhas Hx Hst sh'.
  pose proof (buffer_bytes ctl sh slot _ Hco Hh Hhas) as Hbuf.
  destruct (coherent_write_buffer ctl sh sh' slot (MXOffsetToMemberPage offset) Hco Hh)
    as (Hco' & Hkept & Hnew); try reflexivity.
  { subst sh'. fields. apply upd_same. }
  { intros j Hj. subst sh'. fields. apply upd_other, Hj. }
  { intros j Hj. subst sh'. fields. apply upd_other, Hj. }
  assert (Hb' : page_buffer sh' slot
                = store_member (page_buffer sh slot) offset xid status)
    by (subst sh'; fields; apply upd_same).
  rewrite Hb' in Hnew.
  split; [exact Hco'|]. split; [exact Hh|]. split; [|split].
  - eexists. split; [exact Hnew|]. split; [apply store_member_bytes, Hbuf|].
    rewrite load_store_member_bytes by auto. rewrite Z.eqb_refl. reflexivity.
  - intros o m Ho0 Hne (pg & Hpg & Hpb & Hl).
    destruct (Z.eq_dec (MXOffsetToMemberPage o) (MXOffsetToMemberPage offset)) as [Hp|Hp].
    + rewrite Hp in Hpg.
      pose proof (content_in_buffer ctl sh slot _ pg Hco Hh Hpg) as Hsp.
      eexists. rewrite Hp. split; [exact Hnew|]. split; [apply store_member_bytes, Hbuf|].
      rewrite load_store_member_bytes by auto.
      apply Z.eqb_neq in Hne. rewrite Hne.
      rewrite (load_member_same_page _ _ o Hsp). exact Hl.
    + exists pg. split; [|split; assumption].
      apply Hkept; [apply member_page_nonneg, Ho0 | exact Hp | exact Hpg].
  - intros q Hq0 (pg & Hpg & Hpb).
    destruct (Z.eq_dec q (MXOffsetToMemberPage offset)) as [->|Hp].
    + eexists. split; [exact Hnew | apply store_member_bytes, Hbuf].
    + exists pg. split; [|exact Hpb]. apply Hkept; assumption.
Qed.

(** ** The member loop of RecordNewMultiXact *)

Lemma res_total_bind_silent {S A B} (m : M S A) (k : A -> M S B) s
    (Q : B -> S -> Prop) (E : S -> Prop) :
  (exists a tr, m s = Done a s tr) ->
  (forall a, res_total Q E (k a s)) ->
  res_total Q E (bind m k s).
Proof.
  intros (a & tr & Hm) Hk. unfold bind. rewrite Hm.
  specialize (Hk a). destruct (k a s); cbn in *; auto.
Qed.

Lemma SimpleLruReadPage_reads_total ctl q write_ok xid fuel sh :
  quiet ctl -> io_works ctl -> is_int64 q -> 0 <= q -> (SLRU_FUEL <= fuel)%nat ->
  coherent ctl sh -> (exists pg, page_content sh q pg) ->
  res_total
    (fun slot sh' => coherent ctl sh' /\ pages_kept sh sh' /\ slot_holds sh' slot q)
    (fun _ => False)
    (SimpleLruReadPage fuel ctl q write_ok xid sh).
Proof.
  intros Hq Hio Hint Hq0 Hfuel Hco Hpg.
  destruct (SimpleLruReadPage_reads ctl q write_ok xid fuel sh Hq Hio Hint Hq0 Hfuel
              Hco Hpg) as (slot & sh' & tr & -> & H). exact H.
Qed.

Lemma member_recorded_kept sh sh' o m :
  pages_kept sh sh' -> 0 <= o -> member_recorded sh o m -> member_recorded sh' o m.
Proof.
  intros Hk Ho (pg & Hpg & Hb & Hl). exists pg. split; [|split; assumption].
  apply Hk; [apply member_page_nonneg, Ho | exact Hpg].
Qed.

Lemma has_byte_page_kept sh sh' q :
  pages_kept sh sh' -> 0 <= q -> has_byte_page sh q -> has_byte_page sh' q.
Proof.
  intros Hk Hq (pg & Hpg & Hb). exists pg. split; [apply Hk; assumption | exact Hb].
Qed.

Lemma record_members_records B fuel multi :
  quiet (MultiXactMemberCtl B) -> io_works (MultiXactMemberCtl B) ->
  (SLRU_FUEL <= fuel)%nat ->
  forall members offset prev_pageno slotno prevlock sh,
    coherent (MultiXactMemberCtl B) sh ->
    0 <= offset -> offset + Z.of_nat (List.length members) < TWO64 ->
    Forall storable_member members ->
    (prev_pageno = -1 \/ slot_holds sh slotno prev_pageno) ->
    (forall i, 0 <= i < Z.of_nat (List.length members) ->
       has_byte_page sh (MXOffsetToMemberPage (offset + i))) ->
    res_total
      (fun _ sh' =>
         coherent (MultiXactMemberCtl B) sh'
         /\ members_recorded sh' offset members
         /\ (forall o m, 0 <= o < offset ->
               member_recorded sh o m -> member_recorded sh' o m)
         /\ (forall q, 0 <= q -> has_byte_page sh q -> has_byte_page sh' q))
      (fun _ => False)
      (record_members fuel B multi members offset prev_pageno slotno prevlock sh).
Proof.
  intros Hq Hio Hfuel.
  induction members as [|m rest IH];
    intros offset prev_pageno slotno prevlock sh Hco Ho Hlen Hst Hprev Hpages.
  - cbn. split; [exact Hco|]. split; [|auto].
    intros i m Hi. destruct i; discriminate.
  - cbn [record_members]. cbn [List.length] in Hlen, Hpages.
    inversion Hst as [|? ? [Hx Hs] Hrest]; subst.
    set (pageno := MXOffsetToMemberPage offset).
    assert (Hp0 : 0 <= pageno) by (apply member_page_nonneg, Ho).
    assert (Hhas : has_byte_page sh pageno).
    { pose proof (Hpages 0 ltac:(lia)) as H. rewrite Z.add_0_r in H. exact H. }
    (* the slot of the page *)
    assert (Hslot :
      forall (k : Z * option LWLockId -> M SlruShared (option LWLockId)) Q,
        (forall slot pl sh1,
            coherent (MultiXactMemberCtl B) sh1 -> pages_kept sh sh1 ->
            slot_holds sh1 slot pageno -> res_total Q (fun _ => False) (k (slot, pl) sh1)) ->
        res_total Q (fun _ => False)
          (bind
             (if negb (pageno =? prev_pageno) then
                let lock := SimpleLruGetBankLock (MultiXactMemberCtl B) pageno in
                prevlock <-
                  (if match prevlock with
                      | Some l => negb (LWLockId_eqb lock l)
                      | None => true
                      end
                   then
                     match prevlock with
                     | Some l => LWLockRelease l
                     | None => ret tt
                     end;;;
                     LWLockAcquire lock LW_EXCLUSIVE;;;
                     ret (Some lock)
                   else ret prevlock);;
                slotno <- SimpleLruReadPage fuel (MultiXactMemberCtl B) pageno true multi;;
                ret (slotno, prevlock)
              else ret (slotno, prevlock)) k sh)).
    { intros k Q Hk. apply res_total_bind.
      destruct (Z.eqb_spec pageno prev_pageno) as [Heq|Hne]; cbn [negb].
      - cbn [ret res_total]. apply Hk; [exact Hco | intros p pg _ H; exact H|].
        destruct Hprev as [->|Hh]; [lia | rewrite Heq; exact Hh].
      - apply res_total_bind_silent.
        { destruct prevlock as [l|];
            [destruct (negb (LWLockId_eqb _ l))|]; eexists; eexists; reflexivity. }
        intros pl. apply res_total_bind.
        eapply res_total_weaken;
          [apply (SimpleLruReadPage_reads_total (MultiXactMemberCtl B) pageno true multi
                    fuel sh Hq Hio); auto | | intros ? []].
        + apply MemberPage_is_int64. split; lia.
        + destruct Hhas as (pg & Hpg & _). exists pg. exact Hpg.
        + intros slot sh1 (H1 & H2 & H3). cbn beta. cbn [ret res_total].
          apply Hk; assumption. }
    apply Hslot. intros slot pl sh1 Hco1 Hkept1 Hh1.
    tstep. tstep.
    destruct (store_member_step (MultiXactMemberCtl B) sh1 slot offset
                (member_xid m) (member_status m) Hco1 Ho Hh1
                (has_byte_page_kept _ _ _ Hkept1 Hp0 Hhas) ltac:(lia) Hs)
      as (Hco2 & Hh2 & Hrec2 & Hold2 & Hhas2).
    rewrite u64_small by (split; lia).
    eapply res_total_weaken; [apply IH | | intros ? []]; try eassumption.
    + lia.
    + rewrite Nat2Z.inj_succ in Hlen. lia.
    + right. exact Hh2.
    + intros i Hi. apply Hhas2; [apply member_page_nonneg; lia|].
      apply (has_byte_page_kept sh); [exact Hkept1 | apply member_page_nonneg; lia|].
      replace (offset + 1 + i) with (offset + (i + 1)) by lia.
      apply Hpages. rewrite Nat2Z.inj_succ. lia.
    + intros res sh3 (Hco3 & Hrec3 & Hold3 & Hhas3). cbn beta.
      split; [exact Hco3|]. split; [|split].
      * intros i m' Hi. destruct i as [|i]; cbn [nth_error] in Hi.
        -- injection Hi as <-. replace (offset + Z.of_nat 0) with offset by lia.
           apply Hold3; [lia|]. destruct m; exact Hrec2.
        -- replace (offset + Z.of_nat (S i)) with (offset + 1 + Z.of_nat i) by lia.
           apply Hrec3. exact Hi.
      * intros o m' Ho' Hm'. apply Hold3; [lia|]. apply Hold2; [lia | lia|].
        apply (member_recorded_kept sh); [exact Hkept1 | lia | exact Hm'].
      * intros q Hq0 Hq'. apply Hhas3; [exact Hq0|]. apply Hhas2; [exact Hq0|].
        apply (has_byte_page_kept sh); assumption.
Qed.

(** ** RecordNewMultiXact *)

Lemma store_offset_step ctl sh slot multi offset :
  coherent ctl sh ->
  slot_holds sh slot (MultiXactIdToOffsetPage multi) ->
  has_byte_page sh (MultiXactIdToOffsetPage multi) ->
  0 <= offset < TWO64 ->
  let sh' := set_page_dirty
               (set_page_buffer sh slot
                  (store_offset (page_buffer sh slot) multi offset)) slot true in
  coherent ctl sh' /\ offset_recorded sh' multi offset.
Proof.
  intros Hco Hh Hhas Ho sh'.
  pose proof (buffer_bytes ctl sh slot _ Hco Hh Hhas) as Hbuf.
  destruct (coherent_write_buffer ctl sh sh' slot (MultiXactIdToOffsetPage multi) Hco Hh)
    as (Hco' & Hkept & Hnew); try reflexivity.
  { subst sh'. fields. apply upd_same. }
  { intros j Hj. subst sh'. fields. apply upd_other, Hj. }
  { intros j Hj. subst sh'. fields. apply upd_other, Hj. }
  assert (Hb' : page_buffer sh' slot = store_offset (page_buffer sh slot) multi offset)
    by (subst sh'; fields; apply upd_same).
  rewrite Hb' in Hnew.
  split; [exact Hco'|].
  eexists. split; [exact Hnew|]. split; [apply store_offset_bytes, Hbuf|].
  apply read_store_offset_page, Ho.
Qed.

Lemma RecordNewMultiXact_records B fuel multi offset members s :
  quiet (MultiXactOffsetCtl B) -> io_works (MultiXactOffsetCtl B) ->
  quiet (MultiXactMemberCtl B) -> io_works (MultiXactMemberCtl B) ->
  (SLRU_FUEL <= fuel)%nat ->
  coherent (MultiXactOffsetCtl B) (MultiXactOffsetSlru s) ->
  coherent (MultiXactMemberCtl B) (MultiXactMemberSlru s) ->
  is_uint64 multi -> 0 < offset ->
  offset + Z.of_nat (List.length members) < TWO64 ->
  Forall storable_member members ->
  has_byte_page (MultiXactOffsetSlru s) (MultiXactIdToOffsetPage multi) ->
  (forall i, 0 <= i < Z.of_nat (List.length members) ->
     has_byte_page (MultiXactMemberSlru s) (MXOffsetToMemberPage (offset + i))) ->
  res_total
    (fun _ s' =>
       coherent (MultiXactOffsetCtl B) (MultiXactOffsetSlru s')
       /\ coherent (MultiXactMemberCtl B) (MultiXactMemberSlru s')
       /\ offset_recorded (MultiXactOffsetSlru s') multi offset
       /\ members_recorded (MultiXactMemberSlru s') offset members
       /\ MultiXactState s' = MultiXactState s
       /\ MXactCache s' = MXactCache s)
    (fun _ => False)
    (RecordNewMultiXact fuel B multi offset (Z.of_nat (List.length members)) members s).
Proof.
  intros Hqo Hioo Hqm Hiom Hfuel Hcoo Hcom Hmulti Hoff Hlen Hst Hopage Hmpages.
  unfold RecordNewMultiXact. rewrite Nat2Z.id, firstn_all.
  apply res_total_bind. unfold on_MultiXactOffset. apply res_total_zoom.
  tstep. apply res_total_bind.
  eapply res_total_weaken;
    [apply (SimpleLruReadPage_reads_total (MultiXactOffsetCtl B)
              (MultiXactIdToOffsetPage multi) true multi fuel (MultiXactOffsetSlru s)
              Hqo Hioo); auto | | intros ? []].
  { apply OffsetPage_is_int64, Hmulti. }
  { apply offset_page_nonneg, Hmulti. }
  { destruct Hopage as (pg & Hpg & _). exists pg. exact Hpg. }
  intros slot sh1 (Hco1 & Hkept1 & Hh1). cbn beta.
  tstep. tstep. tstep. cbn [res_total ret].
  destruct (store_offset_step (MultiXactOffsetCtl B) sh1 slot multi offset Hco1 Hh1
              (has_byte_page_kept _ _ _ Hkept1
                 (offset_page_nonneg multi (proj1 Hmulti)) Hopage)
              ltac:(lia)) as (Hco2 & Hrec2).
  tstep.
  unfold on_MultiXactMember. apply res_total_zoom. mxfields.
  apply res_total_bind.
  eapply res_total_weaken;
    [apply (record_members_records B fuel multi Hqm Hiom Hfuel members offset (-1) slot
              None (MultiXactMemberSlru s) Hcom); auto; lia | | intros ? []].
  intros pl sh3 (Hco3 & Hrec3 & _ & _). cbn beta.
  destruct pl; prim_unfold; cbn [res_total emit ret]; mxfields; auto 10.
Qed.

(** ** GetMultiXactIdMembers: the length *)

Lemma offset_recorded_kept sh sh' multi offset :
  pages_kept sh sh' -> 0 <= multi ->
  offset_recorded sh multi offset -> offset_recorded sh' multi offset.
Proof.
  intros Hk Hm (pg & Hpg & Hb & Hr). exists pg. split; [|split; assumption].
  apply Hk; [apply offset_page_nonneg, Hm | exact Hpg].
Qed.

Lemma read_recorded_offset ctl sh slot multi offset :
  coherent ctl sh -> slot_holds sh slot (MultiXactIdToOffsetPage multi) ->
  offset_recorded sh multi offset ->
  read_offset_entry sh slot (MultiXactIdToOffsetEntry multi) = offset.
Proof.
  intros Hco Hh (pg & Hpg & Hb & Hr).
  unfold read_offset_entry. rewrite <- Hr.
  destruct (offset_entry_in_page multi) as [H0 H1].
  apply read_le_same_page; [|exact H0 | exact H1].
  eapply content_in_buffer; eassumption.
Qed.

Lemma clamp_to_first_uint64 v : is_uint64 v -> is_uint64 (clamp_to_first v).
Proof.
  unfold clamp_to_first, is_uint64, FirstMultiXactId, TWO64.
  destruct (Z.ltb_spec v 1); lia.
Qed.

Lemma get_members_length_reads B fuel multi offset len nextMXact_ nextOffset_ s :
  quiet (MultiXactOffsetCtl B) -> io_works (MultiXactOffsetCtl B) ->
  (SLRU_FUEL <= fuel)%nat ->
  coherent (MultiXactOffsetCtl B) (MultiXactOffsetSlru s) ->
  is_uint64 multi -> 0 < offset -> 0 < len -> is_int len -> offset + len < TWO64 ->
  offset_recorded (MultiXactOffsetSlru s) multi offset ->
  end_recorded (MultiXactOffsetSlru s) multi (offset + len) nextMXact_ nextOffset_ ->
  res_total
    (fun r s' =>
       r = Some (len, offset)
       /\ coherent (MultiXactOffsetCtl B) (MultiXactOffsetSlru s')
       /\ MultiXactMemberSlru s' = MultiXactMemberSlru s
       /\ MXactCache s' = MXactCache s)
    (fun _ => False)
    (get_members_length fuel B multi nextMXact_ nextOffset_ s).
Proof.
  intros Hq Hio Hfuel Hco Hmulti Hoff Hlen Hint Hsum Hrec Hend.
  assert (Hlenv : wrap_int (u64 (offset + len - offset)) = len).
  { replace (offset + len - offset) with len by lia.
    rewrite u64_small by (split; lia). apply wrap_int_small, Hint. }
  unfold get_members_length, on_MultiXactOffset. apply res_total_zoom.
  tstep. apply res_total_bind.
  eapply res_total_weaken;
    [apply (SimpleLruReadPage_reads_total (MultiXactOffsetCtl B)
              (MultiXactIdToOffsetPage multi) true multi fuel (MultiXactOffsetSlru s)
              Hq Hio); auto | | intros ? []].
  { apply OffsetPage_is_int64, Hmulti. }
  { apply offset_page_nonneg, Hmulti. }
  { destruct Hrec as (pg & Hpg & _). exists pg. exact Hpg. }
  intros slot sh1 (Hco1 & Hkept1 & Hh1). cbn beta. tstep.
  rewrite (read_recorded_offset _ sh1 slot multi offset Hco1 Hh1
             (offset_recorded_kept _ _ _ _ Hkept1 (proj1 Hmulti) Hrec)).
  destruct (Z.eqb_spec offset 0) as [|_]; [lia|].
  destruct Hend as [[-> ->] | [Hne Hnext]].
  - rewrite Z.eqb_refl. tstep. cbn [res_total ret]. mxfields.
    rewrite Hlenv. auto.
  - destruct (Z.eqb_spec nextMXact_ (u64 (multi + 1))) as [|_]; [contradiction|].
    fold (clamp_to_first (u64 (multi + 1))).
    set (tmp := clamp_to_first (u64 (multi + 1))) in *.
    assert (Htmp : is_uint64 tmp).
    { apply clamp_to_first_uint64. unfold u64, is_uint64.
      apply Z.mod_pos_bound. reflexivity. }
    apply res_total_bind. unfold read_next_offset.
    apply res_total_bind.
    assert (Hfin : forall slot' lock' sh2,
      coherent (MultiXactOffsetCtl B) sh2 -> pages_kept sh1 sh2 ->
      slot_holds sh2 slot' (MultiXactIdToOffsetPage tmp) ->
      res_total
        (fun r sh' =>
           res_total
             (fun r0 sh0 =>
                r0 = Some (len, offset)
                /\ coherent (MultiXactOffsetCtl B) sh0
                /\ MultiXactMemberSlru (set_MultiXactOffsetSlru sh0 s)
                   = MultiXactMemberSlru s
                /\ MXactCache (set_MultiXactOffsetSlru sh0 s) = MXactCache s)
             (fun _ => False)
             ((let '(nextMXOffset, lock) := r in
               if nextMXOffset =? 0
               then LWLockRelease lock;;; ret None
               else
                 LWLockRelease lock;;;
                 ret (Some (wrap_int (u64 (nextMXOffset - offset)), offset))) sh'))
        (fun _ => False)
        ((let '(slotno, lock) := (slot', lock') in
          sh <- get;;
          ret (read_offset_entry sh slotno (MultiXactIdToOffsetEntry tmp), lock)) sh2)).
    { intros slot' lock' sh2 Hco2 Hkept2 Hh2. cbv iota beta. tstep. cbn [res_total ret].
      rewrite (read_recorded_offset _ sh2 slot' tmp (offset + len) Hco2 Hh2
                 (offset_recorded_kept _ _ _ _ Hkept2 (proj1 Htmp)
                    (offset_recorded_kept _ _ _ _ Hkept1 (proj1 Htmp) Hnext))).
      destruct (Z.eqb_spec (offset + len) 0) as [|_]; [lia|].
      tstep. cbn [res_total ret]. mxfields. rewrite Hlenv. auto. }
    destruct (Z.eqb_spec (MultiXactIdToOffsetPage tmp) (MultiXactIdToOffsetPage multi))
      as [Heq|Hne']; cbn [negb].
    + cbn [ret res_total]. apply Hfin; [exact Hco1 | intros p pg _ H; exact H|].
      rewrite Heq. exact Hh1.
    + apply res_total_bind_silent.
      { destruct (negb (_ =? _)); eexists; eexists; reflexivity. }
      intros []. apply res_total_bind.
      eapply res_total_weaken;
        [apply (SimpleLruReadPage_reads_total (MultiXactOffsetCtl B)
                  (MultiXactIdToOffsetPage tmp) true tmp fuel sh1 Hq Hio); auto
        | | intros ? []].
      * apply OffsetPage_is_int64, Htmp.
      * apply offset_page_nonneg, Htmp.
      * destruct (offset_recorded_kept _ _ _ _ Hkept1 (proj1 Htmp) Hnext)
          as (pg & Hpg & _). exists pg. exact Hpg.
      * intros slot' sh2 (Hco2 & Hkept2 & Hh2). cbn beta. cbn [ret res_total].
        apply Hfin; assumption.
Qed.

(** ** GetMultiXactIdMembers: the members *)

Lemma read_members_reads B fuel multi :
  quiet (MultiXactMemberCtl B) -> io_works (MultiXactMemberCtl B) ->
  (SLRU_FUEL <= fuel)%nat ->
  forall members offset prev_pageno slotno acc sh,
    coherent (MultiXactMemberCtl B) sh ->
    0 <= offset -> offset + Z.of_nat (List.length members) < TWO64 ->
    Forall storable_member members ->
    members_recorded sh offset members ->
    (prev_pageno = -1 \/ slot_holds sh slotno prev_pageno) ->
    res_total
      (fun r sh' =>
         fst r = rev acc ++ members /\ coherent (MultiXactMemberCtl B) sh')
      (fun _ => False)
      (read_members fuel B multi (List.length members) offset prev_pageno slotno acc sh).
Proof.
  intros Hq Hio Hfuel.
  induction members as [|m rest IH];
    intros offset prev_pageno slotno acc sh Hco Ho Hlen Hst Hrec Hprev.
  - cbn. rewrite app_nil_r. auto.
  - cbn [List.length read_members]. cbn [List.length] in Hlen.
    inversion Hst as [|? ? [Hx Hs] Hrest]; subst.
    set (pageno := MXOffsetToMemberPage offset).
    assert (Hp0 : 0 <= pageno) by (apply member_page_nonneg, Ho).
    assert (Hm : member_recorded sh offset m).
    { pose proof (Hrec O m eq_refl) as H. rewrite Z.add_0_r in H. exact H. }
    apply res_total_bind.
    assert (Hcont : forall slot sh1,
      coherent (MultiXactMemberCtl B) sh1 -> pages_kept sh sh1 ->
      slot_holds sh1 slot pageno ->
      res_total
        (fun r sh' =>
           fst r = rev acc ++ m :: rest /\ coherent (MultiXactMemberCtl B) sh')
        (fun _ => False)
        ((sh0 <- get;;
          let xact := read_le 8 (page_buffer sh0 slot) (MXOffsetToMemberOffset offset) in
          if negb (TransactionIdIsValid xact) then
            read_members fuel B multi (List.length rest) (u64 (offset + 1)) pageno slot acc
          else
            let flags := read_le 8 (page_buffer sh0 slot) (MXOffsetToFlagsOffset offset) in
            let status := Z.land (Z.shiftr flags (MXOffsetToFlagsBitShift offset))
                            MXACT_MEMBER_XACT_BITMASK in
            read_members fuel B multi (List.length rest) (u64 (offset + 1)) pageno slot
              (mkMember xact status :: acc)) sh1)).
    { intros slot sh1 Hco1 Hkept1 Hh1. tstep.
      destruct (member_recorded_kept _ _ _ _ Hkept1 Ho Hm) as (pg & Hpg & Hb & Hl).
      pose proof (content_in_buffer _ sh1 slot _ pg Hco1 Hh1 Hpg) as Hsp.
      rewrite <- (load_member_same_page _ _ offset Hsp) in Hl.
      unfold load_member in Hl.
      assert (Hxact : read_le 8 (page_buffer sh1 slot) (MXOffsetToMemberOffset offset)
                      = member_xid m) by (rewrite <- Hl; reflexivity).
      assert (Hstat : Z.land (Z.shiftr (read_le 8 (page_buffer sh1 slot)
                                          (MXOffsetToFlagsOffset offset))
                                (MXOffsetToFlagsBitShift offset))
                        MXACT_MEMBER_XACT_BITMASK = member_status m)
        by (rewrite <- Hl; reflexivity).
      cbv zeta. rewrite Hxact, Hstat.
      unfold TransactionIdIsValid, InvalidTransactionId.
      destruct (Z.eqb_spec (member_xid m) 0) as [|_]; [lia|]. cbn [negb].
      rewrite u64_small by (split; lia).
      eapply res_total_weaken; [apply IH | | intros ? []]; try eassumption.
      - lia.
      - rewrite Nat2Z.inj_succ in Hlen. lia.
      - intros i m' Hi. replace (offset + 1 + Z.of_nat i) with (offset + Z.of_nat (S i)) by lia.
        apply (member_recorded_kept sh); [exact Hkept1 | lia|]. apply Hrec. exact Hi.
      - right. exact Hh1.
      - intros r sh' [H1 H2]. cbn beta. split; [|exact H2].
        rewrite H1. cbn [rev]. rewrite <- app_assoc. destruct m; reflexivity. }
    destruct (Z.eqb_spec pageno prev_pageno) as [Heq|Hne]; cbn [negb].
    + cbn [ret res_total]. apply Hcont; [exact Hco | intros p pg _ H; exact H|].
      destruct Hprev as [->|Hh]; [lia | rewrite Heq; exact Hh].
    + apply res_total_bind_silent.
      { destruct (prev_pageno =? -1); [|destruct (negb (_ =? _))];
          eexists; eexists; reflexivity. }
      intros [].
      eapply res_total_weaken;
        [apply (SimpleLruReadPage_reads_total (MultiXactMemberCtl B) pageno true multi
                  fuel sh Hq Hio); auto | | intros ? []].
      * apply MemberPage_is_int64. split; lia.
      * destruct Hm as (pg & Hpg & _). exists pg. exact Hpg.
      * intros slot sh1 (H1 & H2 & H3). cbn beta. apply Hcont; assumption.
Qed.

(** ** GetMultiXactIdMembers: the whole lookup *)

Lemma res_total_after {S A} (Q : A -> S -> Prop) (E : S -> Prop) tr (r : Res S A) :
  res_total Q E r -> res_total Q E (after_events tr r).
Proof. destruct r; cbn; auto. Qed.

Lemma lookup_members_reads B fuel multi offset members nextMXact_ nextOffset_ s :
  quiet (MultiXactOffsetCtl B) -> io_works (MultiXactOffsetCtl B) ->
  quiet (MultiXactMemberCtl B) -> io_works (MultiXactMemberCtl B) ->
  (SLRU_FUEL <= fuel)%nat ->
  coherent (MultiXactOffsetCtl B) (MultiXactOffsetSlru s) ->
  coherent (MultiXactMemberCtl B) (MultiXactMemberSlru s) ->
  is_uint64 multi -> 0 < offset -> members <> [] ->
  is_int (Z.of_nat (List.length members)) ->
  offset + Z.of_nat (List.length members) < TWO64 ->
  Forall storable_member members ->
  offset_recorded (MultiXactOffsetSlru s) multi offset ->
  end_recorded (MultiXactOffsetSlru s) multi
    (offset + Z.of_nat (List.length members)) nextMXact_ nextOffset_ ->
  members_recorded (MultiXactMemberSlru s) offset members ->
  res_total
    (fun r _ => r = (Z.of_nat (List.length members), members))
    (fun _ => False)
    (lookup_members fuel B multi nextMXact_ nextOffset_ s).
Proof.
  intros Hqo Hioo Hqm Hiom Hfuel Hcoo Hcom Hmulti Hoff Hne Hint Hsum Hst Horec Hend Hmrec.
  assert (Hpos : 0 < Z.of_nat (List.length members)).
  { destruct members; [contradiction | cbn [List.length]; lia]. }
  unfold lookup_members. apply res_total_bind.
  destruct fuel as [|n]; [unfold SLRU_FUEL in Hfuel; lia|].
  cbn [get_members_retry]. apply res_total_bind.
  eapply res_total_weaken;
    [apply (get_members_length_reads B (S n) multi offset
              (Z.of_nat (List.length members)) nextMXact_ nextOffset_ s);
     assumption | | intros ? []].
  intros r s1 (-> & Hco1 & Hm1 & Hc1). cbn beta. cbn [ret res_total].
  unfold collect_members. apply res_total_bind.
  unfold on_MultiXactMember. apply res_total_zoom. rewrite Nat2Z.id, Hm1.
  eapply res_total_weaken;
    [apply (read_members_reads B (S n) multi Hqm Hiom Hfuel members offset (-1) 0 []
              (MultiXactMemberSlru s) Hcom); auto; lia | | intros ? []].
  intros [ms last] sh2 [Hms _]. cbn [fst rev app] in Hms. subst ms. cbn beta iota.
  tstep. unfold mXactCachePut. tstep. reflexivity.
Qed.

(** X22 -- [GetMultiXactIdMembers] reads what the logs record.  For a
    multixact within the bounds that is not in the cache of the backend,
    whose start offset and members are recorded in the two logs (in a
    buffer, or on disk when no buffer holds the page), and whose end is
    known (it is the newest multixact and [nextOffset] is its end, or
    the start offset of the next multixact is recorded), the call
    returns the number of members and the members in the order of their
    offsets, with no error; this holds in coherent page caches, outside
    recovery, with a working disk and no other backend at work. *)
Theorem GetMultiXactIdMembers_reads_recorded_members
    (B : Backend) (fuel : nat) (multi offset : Z)
    (members : list MultiXactMember) (isLockOnly : bool) (s : PgState) :
  quiet (MultiXactOffsetCtl B) -> io_works (MultiXactOffsetCtl B) ->
  quiet (MultiXactMemberCtl B) -> io_works (MultiXactMemberCtl B) ->
  (SLRU_FUEL <= fuel)%nat ->
  coherent (MultiXactOffsetCtl B) (MultiXactOffsetSlru s) ->
  coherent (MultiXactMemberCtl B) (MultiXactMemberSlru s) ->
  reaches_bounds_check B multi false isLockOnly s -> within_bounds multi s ->
  is_uint64 multi -> 0 < offset -> members <> [] ->
  is_int (Z.of_nat (List.length members)) ->
  offset + Z.of_nat (List.length members) < TWO64 ->
  Forall storable_member members ->
  offset_recorded (MultiXactOffsetSlru s) multi offset ->
  end_recorded (MultiXactOffsetSlru s) multi
    (offset + Z.of_nat (List.length members))
    (nextMXact (MultiXactState s)) (nextOffset (MultiXactState s)) ->
  members_recorded (MultiXactMemberSlru s) offset members ->
  res_total
    (fun r _ => r = (Z.of_nat (List.length members), members))
    (fun _ => False)
    (GetMultiXactIdMembers fuel B multi false isLockOnly s).
Proof.
  intros Hqo Hioo Hqm Hiom Hfuel Hcoo Hcom Hpre [Hold Hnext] Hmulti Hoff Hne Hint Hsum
    Hst Horec Hend Hmrec.
  destruct (GetMultiXactIdMembers_to_bounds_check fuel B multi isLockOnly s Hpre)
    as (tr1 & _ & ->).
  apply res_total_after. rewrite Hold, Hnext. cbn [negb].
  destruct (state_after_oldest_visible B s) as [Ho Hm].
  apply lookup_members_reads with (offset := offset); try assumption;
    rewrite ?Ho, ?Hm; assumption.
Qed.

(** X23 -- What [RecordNewMultiXact] records for the multixact that
    [GetNewMultiXactId] has just allocated, [GetMultiXactIdMembers]
    reads back from the logs: with the counters as the allocation leaves
    them ([nextMXact] one past the multixact, [nextOffset] at the end of
    its members), the pages of the entries present, and the multixact
    not in the cache of the backend, the two calls in a row return the
    number of members and the members as they were given, in coherent
    page caches, outside recovery, with a working disk and no other
    backend at work. *)
Theorem RecordNewMultiXact_then_GetMultiXactIdMembers
    (B : Backend) (fuel : nat) (multi offset : Z)
    (members : list MultiXactMember) (s : PgState) :
  quiet (MultiXactOffsetCtl B) -> io_works (MultiXactOffsetCtl B) ->
  quiet (MultiXactMemberCtl B) -> io_works (MultiXactMemberCtl B) ->
  (SLRU_FUEL <= fuel)%nat ->
  coherent (MultiXactOffsetCtl B) (MultiXactOffsetSlru s) ->
  coherent (MultiXactMemberCtl B) (MultiXactMemberSlru s) ->
  is_uint64 multi -> 0 < offset -> members <> [] ->
  is_int (Z.of_nat (List.length members)) ->
  offset + Z.of_nat (List.length members) < TWO64 ->
  Forall storable_member members ->
  nextMXact (MultiXactState s) = u64 (multi + 1) ->
  nextOffset (MultiXactState s) = offset + Z.of_nat (List.length members) ->
  within_bounds multi s ->
  MultiXactIdIsValid multi = true ->
  cache_find_by_id multi (MXactCache s) = None ->
  has_byte_page (MultiXactOffsetSlru s) (MultiXactIdToOffsetPage multi) ->
  (forall i, 0 <= i < Z.of_nat (List.length members) ->
     has_byte_page (MultiXactMemberSlru s) (MXOffsetToMemberPage (offset + i))) ->
  res_total
    (fun r _ => r = (Z.of_nat (List.length members), members))
    (fun _ => False)
    ((RecordNewMultiXact fuel B multi offset (Z.of_nat (List.length members)) members;;;
      GetMultiXactIdMembers fuel B multi false false) s).
Proof.
  intros Hqo Hioo Hqm Hiom Hfuel Hcoo Hcom Hmulti Hoff Hne Hint Hsum Hst Hnext Hnoff
    [Hold Hprec] Hvalid Hmiss Hopage Hmpages.
  apply res_total_bind.
  eapply res_total_weaken;
    [apply (RecordNewMultiXact_records B fuel multi offset members s); assumption
    | | intros ? []].
  intros [] s1 (Hcoo1 & Hcom1 & Horec & Hmrec & Hstate & Hcache). cbn beta.
  assert (Hpre : reaches_bounds_check B multi false false s1).
  { split; [exact Hvalid|]. split; [reflexivity|]. split; [congruence | reflexivity]. }
  destruct (GetMultiXactIdMembers_to_bounds_check fuel B multi false s1 Hpre)
    as (tr1 & _ & ->).
  apply res_total_after. rewrite Hstate, Hold, Hprec. cbn [negb].
  destruct (state_after_oldest_visible B s1) as [Ho Hm].
  apply lookup_members_reads with (offset := offset); try assumption;
    rewrite ?Ho, ?Hm; try assumption.
  left. split; assumption.
Qed.

(** ** The example logs *)

Lemma coherent_all_empty ctl sh :
  (forall k, page_status sh k = SLRU_PAGE_EMPTY) -> coherent ctl sh.
Proof.
  intros He. split; [split|split; [|split]].
  - intros j Hj. destruct (Hj (He j)).
  - intros i j _ _ Hi. destruct (Hi (He i)).
  - intros k. left. apply He.
  - intros k Hk. destruct (Hk (He k)).
  - intros k Hk. rewrite He in Hk. discriminate.
Qed.

Lemma page_content_first_file sh pg rest :
  (forall k, page_status sh k = SLRU_PAGE_EMPTY) ->
  files sh = (0, page_file pg) :: rest ->
  page_content sh 0 pg.
Proof.
  intros He Hf. right. split.
  - intros k [Hk _]. destruct (Hk (He k)).
  - exists (page_file pg). rewrite Hf. split; [reflexivity|].
    split; [vm_compute; discriminate|]. intros o _. reflexivity.
Qed.

Lemma bytes_example_offsets_page : bytes_page example_offsets_page.
Proof. apply store_offset_bytes, store_offset_bytes, bytes_zero_page. Qed.

Lemma bytes_example_members_page : bytes_page example_members_page.
Proof. repeat apply store_member_bytes. apply bytes_zero_page. Qed.

Lemma quiet_normal_backend :
  quiet (MultiXactOffsetCtl normal_backend) /\ quiet (MultiXactMemberCtl normal_backend).
Proof. split; split; intros; reflexivity. Qed.

Lemma io_works_normal_backend :
  io_works (MultiXactOffsetCtl normal_backend)
  /\ io_works (MultiXactMemberCtl normal_backend).
Proof. split; repeat split; intros; reflexivity. Qed.

Lemma storable_members_of_9 : Forall storable_member members_of_9.
Proof. repeat constructor; cbn; unfold TWO64; lia. Qed.

Lemma storable_members_of_8 : Forall storable_member members_of_8.
Proof. repeat constructor; cbn; unfold TWO64; lia. Qed.

Lemma RecordNewMultiXact_then_GetMultiXactIdMembers_witness :
  res_total
    (fun r _ => r = (Z.of_nat (List.length members_of_9), members_of_9))
    (fun _ => False)
    ((RecordNewMultiXact SLRU_FUEL normal_backend 9 26
        (Z.of_nat (List.length members_of_9)) members_of_9;;;
      GetMultiXactIdMembers SLRU_FUEL normal_backend 9 false false) state_with_new_9).
Proof.
  apply RecordNewMultiXact_then_GetMultiXactIdMembers.
  - apply quiet_normal_backend.
  - apply io_works_normal_backend.
  - apply quiet_normal_backend.
  - apply io_works_normal_backend.
  - apply le_n.
  - apply coherent_all_empty. reflexivity.
  - apply coherent_all_empty. reflexivity.
  - vm_compute. split; [discriminate | reflexivity].
  - lia.
  - discriminate.
  - vm_compute. split; [discriminate | reflexivity].
  - vm_compute. reflexivity.
  - exact storable_members_of_9.
  - reflexivity.
  - reflexivity.
  - split; reflexivity.
  - reflexivity.
  - reflexivity.
  - exists example_offsets_page. split; [|exact bytes_example_offsets_page].
    apply (page_content_first_file _ _ []); reflexivity.
  - intros i Hi. exists example_members_page.
    split; [|exact bytes_example_members_page].
    replace (MXOffsetToMemberPage (26 + i)) with 0.
    + apply (page_content_first_file _ _ []); reflexivity.
    + unfold MXOffsetToMemberPage. unfold_consts. cbn in Hi.
      symmetry. apply Z.div_small. lia.
Defined.

Lemma GetMultiXactIdMembers_reads_recorded_members_witness :
  res_total
    (fun r _ => r = (Z.of_nat (List.length members_of_8), members_of_8))
    (fun _ => False)
    (GetMultiXactIdMembers SLRU_FUEL normal_backend 8 false false logs_with_9).
Proof.
  apply (GetMultiXactIdMembers_reads_recorded_members normal_backend SLRU_FUEL 8 23).
  - apply quiet_normal_backend.
  - apply io_works_normal_backend.
  - apply quiet_normal_backend.
  - apply io_works_normal_backend.
  - apply le_n.
  - apply coherent_all_empty. reflexivity.
  - apply coherent_all_empty. reflexivity.
  - repeat split; reflexivity.
  - split; reflexivity.
  - vm_compute. split; [discriminate | reflexivity].
  - lia.
  - discriminate.
  - vm_compute. split; [discriminate | reflexivity].
  - vm_compute. reflexivity.
  - exact storable_members_of_8.
  - exists (store_offset example_offsets_page 9 26).
    split; [apply (page_content_first_file _ _ []); reflexivity|].
    split; [apply store_offset_bytes, bytes_example_offsets_page | vm_compute; reflexivity].
  - right. split; [vm_compute; discriminate|].
    exists (store_offset example_offsets_page 9 26).
    split; [apply (page_content_first_file _ _ []); reflexivity|].
    split; [apply store_offset_bytes, bytes_example_offsets_page | vm_compute; reflexivity].
  - intros i m Hi. exists example_members_page.
    destruct i as [|[|[|i]]]; cbn in Hi; try (destruct i; discriminate);
      injection Hi as <-;
      (split; [apply (page_content_first_file _ _ []); reflexivity|]);
      (split; [exact bytes_example_members_page | vm_compute; reflexivity]).
Defined.

(* ================================================================== *)
(** * The oldest multixacts a backend publishes (multixact.c) *)
(* ================================================================== *)

(** ** The entries a backend publishes *)

Lemma oldest_member_scan_bound m next n :
  forall i cur,
    (forall j, 0 <= j < i + Z.of_nat n ->
       MultiXactIdIsValid (OldestMemberMXactId m j) = true ->
       within_window next (OldestMemberMXactId m j)) ->
    0 <= i ->
    MultiXactIdIsValid cur = true -> within_window next cur ->
    (forall j, 0 <= j < i ->
       MultiXactIdIsValid (OldestMemberMXactId m j) = true ->
       MultiXactIdPrecedes (OldestMemberMXactId m j) cur = false) ->
    let r := oldest_member_scan m n i cur in
    MultiXactIdIsValid r = true /\ within_window next r
    /\ forall j, 0 <= j < i + Z.of_nat n ->
         MultiXactIdIsValid (OldestMemberMXactId m j) = true ->
         MultiXactIdPrecedes (OldestMemberMXactId m j) r = false.
Proof.
  induction n as [|n IH]; intros i cur Hwin Hi Hv Hw Hlow; cbn [oldest_member_scan].
  - cbv zeta. replace (i + Z.of_nat 0) with i by lia. auto.
  - destruct (scan_step_entry next cur (OldestMemberMXactId m i) Hv Hw
                (Hwin i ltac:(lia))) as (Hv1 & Hw1 & Hle1 & Hnp1).
    cbv zeta in Hv1, Hw1, Hle1, Hnp1.
    set (cur1 := if MultiXactIdIsValid (OldestMemberMXactId m i)
                    && MultiXactIdPrecedes (OldestMemberMXactId m i) cur
                 then OldestMemberMXactId m i else cur) in *.
    assert (Hgo : oldest_member_scan m n (i + 1) cur1
                  = if MultiXactIdIsValid (OldestMemberMXactId m i)
                       && MultiXactIdPrecedes (OldestMemberMXactId m i) cur
                    then oldest_member_scan m n (i + 1) (OldestMemberMXactId m i)
                    else oldest_member_scan m n (i + 1) cur).
    { unfold cur1. destruct (_ && _); reflexivity. }
    rewrite <- Hgo.
    replace (i + Z.of_nat (S n)) with ((i + 1) + Z.of_nat n) in * by lia.
    apply IH; try assumption; try lia.
    intros j Hj Hvj. destruct (Z.eq_dec j i) as [->|Hne]; [apply Hnp1; exact Hvj|].
    apply (not_preceded_mono next _ cur); auto.
    + apply Hwin; [lia | exact Hvj].
    + apply Hlow; [lia | exact Hvj].
Qed.

Lemma window_kept_member B m v :
  oldest_slots_in_window B m ->
  (MultiXactIdIsValid v = true -> within_window (clamp_to_first (nextMXact m)) v) ->
  oldest_slots_in_window B (set_OldestMemberMXactId (MyProcNumber B) v m).
Proof.
  intros Hwin Hv i Hi. unfold set_OldestMemberMXactId.
  cbn [nextMXact OldestMemberMXactId OldestVisibleMXactId].
  destruct (Hwin i Hi) as [Hm Hvis]. split; [|exact Hvis].
  unfold upd. destruct (i =? MyProcNumber B); assumption.
Qed.

Lemma window_kept_visible B m v :
  oldest_slots_in_window B m ->
  (MultiXactIdIsValid v = true -> within_window (clamp_to_first (nextMXact m)) v) ->
  oldest_slots_in_window B (set_OldestVisibleMXactId (MyProcNumber B) v m).
Proof.
  intros Hwin Hv i Hi. unfold set_OldestVisibleMXactId.
  cbn [nextMXact OldestMemberMXactId OldestVisibleMXactId].
  destruct (Hwin i Hi) as [Hm Hvis]. split; [exact Hm|].
  unfold upd. destruct (i =? MyProcNumber B); assumption.
Qed.

(** X24 -- The entries a backend publishes are respected.  When every
    valid entry of the two per-backend arrays is within the window that
    ends at the next multixact, [MultiXactIdSetOldestMember] and
    [MultiXactIdSetOldestVisible] keep it so and leave the backend with
    a valid entry: the first stores the next multixact unless the entry
    was valid already; the second stores a multixact that is not after
    the next one and that no valid [OldestMemberMXactId] entry precedes,
    unless the entry was valid already.  A call of
    [GetOldestMultiXactId] after either of them returns a multixact that
    the entry of the backend does not precede. *)
Theorem published_oldest_entries_are_respected (B : Backend) (s : PgState) :
  0 <= MyProcNumber B < MaxOldestSlot B ->
  oldest_slots_in_window B (MultiXactState s) ->
  (exists s1 tr1,
      MultiXactIdSetOldestMember B s = Done tt s1 tr1
      /\ oldest_slots_in_window B (MultiXactState s1)
      /\ nextMXact (MultiXactState s1) = nextMXact (MultiXactState s)
      /\ MultiXactIdIsValid
           (OldestMemberMXactId (MultiXactState s1) (MyProcNumber B)) = true
      /\ OldestMemberMXactId (MultiXactState s1) (MyProcNumber B)
         = (if MultiXactIdIsValid
                 (OldestMemberMXactId (MultiXactState s) (MyProcNumber B))
            then OldestMemberMXactId (MultiXactState s) (MyProcNumber B)
            else clamp_to_first (nextMXact (MultiXactState s)))
      /\ exists oldest tr2,
           GetOldestMultiXactId B s1 = Done oldest s1 tr2
           /\ MultiXactIdPrecedes
                (OldestMemberMXactId (MultiXactState s1) (MyProcNumber B)) oldest
              = false)
  /\ (exists s1 tr1,
         MultiXactIdSetOldestVisible B s = Done tt s1 tr1
         /\ oldest_slots_in_window B (MultiXactState s1)
         /\ nextMXact (MultiXactState s1) = nextMXact (MultiXactState s)
         /\ MultiXactIdIsValid
              (OldestVisibleMXactId (MultiXactState s1) (MyProcNumber B)) = true
         /\ (MultiXactIdIsValid
               (OldestVisibleMXactId (MultiXactState s) (MyProcNumber B)) = true ->
             s1 = s)
         /\ (MultiXactIdIsValid
               (OldestVisibleMXactId (MultiXactState s) (MyProcNumber B)) = false ->
             oldest_of_members B (MultiXactState s)
               (OldestVisibleMXactId (MultiXactState s1) (MyProcNumber B)))
         /\ exists oldest tr2,
              GetOldestMultiXactId B s1 = Done oldest s1 tr2
              /\ MultiXactIdPrecedes
                   (OldestVisibleMXactId (MultiXactState s1) (MyProcNumber B)) oldest
                 = false).
Proof.
  intros Hme Hwin.
  assert (Hget : forall s1,
    oldest_slots_in_window B (MultiXactState s1) ->
    exists oldest tr2,
      GetOldestMultiXactId B s1 = Done oldest s1 tr2
      /\ (MultiXactIdIsValid
            (OldestMemberMXactId (MultiXactState s1) (MyProcNumber B)) = true ->
          MultiXactIdPrecedes
            (OldestMemberMXactId (MultiXactState s1) (MyProcNumber B)) oldest = false)
      /\ (MultiXactIdIsValid
            (OldestVisibleMXactId (MultiXactState s1) (MyProcNumber B)) = true ->
          MultiXactIdPrecedes
            (OldestVisibleMXactId (MultiXactState s1) (MyProcNumber B)) oldest = false)).
  { intros s1 Hwin1.
    destruct (GetOldestMultiXactId_bound B s1 ltac:(lia) Hwin1)
      as (oldest & Hrun & _ & _ & _ & Hlow).
    exists oldest. eexists. split; [exact Hrun|]. apply Hlow. exact Hme. }
  split.
  - unfold MultiXactIdSetOldestMember, GetOldestMemberMXactId, SetOldestMemberMXactId,
      LWLockAcquire, LWLockRelease, bind, gets, get, modify, emit, ret.
    fold (clamp_to_first (nextMXact (MultiXactState s))).
    destruct (MultiXactIdIsValid (OldestMemberMXactId (MultiXactState s) (MyProcNumber B)))
      eqn:Hv; cbn [negb].
    + exists s. eexists. split; [reflexivity|]. split; [exact Hwin|].
      split; [reflexivity|]. split; [exact Hv|]. split; [reflexivity|].
      destruct (Hget s Hwin) as (oldest & tr2 & Hrun & Hm & _).
      exists oldest, tr2. split; [exact Hrun | apply Hm, Hv].
    + eexists. eexists. split; [reflexivity|]. cbn [MultiXactState set_MultiXactState].
      fold (clamp_to_first (nextMXact (MultiXactState s))).
      assert (Hwin1 : oldest_slots_in_window B
                (set_OldestMemberMXactId (MyProcNumber B)
                   (clamp_to_first (nextMXact (MultiXactState s))) (MultiXactState s))).
      { apply window_kept_member; [exact Hwin|]. intros _. apply within_window_refl. }
      assert (Hmine : OldestMemberMXactId
                (set_OldestMemberMXactId (MyProcNumber B)
                   (clamp_to_first (nextMXact (MultiXactState s))) (MultiXactState s))
                (MyProcNumber B) = clamp_to_first (nextMXact (MultiXactState s))).
      { unfold set_OldestMemberMXactId. cbn [OldestMemberMXactId]. apply upd_same. }
      split; [exact Hwin1|]. split; [reflexivity|].
      split; [rewrite Hmine; apply clamp_to_first_valid|].
      split; [exact Hmine|].
      match goal with |- exists oldest tr2, GetOldestMultiXactId B ?s1 = _ /\ _ =>
        destruct (Hget s1 Hwin1) as (oldest & tr2 & Hrun & Hm & _) end.
      exists oldest, tr2. split; [exact Hrun|]. apply Hm.
      cbn [MultiXactState set_MultiXactState].
      rewrite Hmine. apply clamp_to_first_valid.
  - unfold MultiXactIdSetOldestVisible, GetOldestVisibleMXactId, SetOldestVisibleMXactId,
      LWLockAcquire, LWLockRelease, bind, gets, get, modify, emit, ret.
    fold (clamp_to_first (nextMXact (MultiXactState s))).
    destruct (MultiXactIdIsValid (OldestVisibleMXactId (MultiXactState s) (MyProcNumber B)))
      eqn:Hv; cbn [negb].
    + exists s. eexists. split; [reflexivity|]. split; [exact Hwin|].
      split; [reflexivity|]. split; [exact Hv|]. split; [reflexivity|].
      split; [discriminate|].
      destruct (Hget s Hwin) as (oldest & tr2 & Hrun & _ & Hvis).
      exists oldest, tr2. split; [exact Hrun | apply Hvis, Hv].
    + set (next := clamp_to_first (nextMXact (MultiXactState s))).
      pose proof (oldest_member_scan_bound (MultiXactState s) next
                    (Z.to_nat (MaxOldestSlot B)) 0 next) as Hscan.
      cbv zeta in Hscan.
      destruct Hscan as (Hv1 & Hw1 & Hlow1).
      { intros j Hj. apply Hwin. lia. }
      { lia. }
      { apply clamp_to_first_valid. }
      { apply within_window_refl. }
      { intros; lia. }
      set (r := oldest_member_scan (MultiXactState s) (Z.to_nat (MaxOldestSlot B)) 0 next)
        in *.
      eexists. eexists. split; [reflexivity|]. cbn [MultiXactState set_MultiXactState].
      fold (clamp_to_first (nextMXact (MultiXactState s))). fold next. fold r.
      assert (Hwin1 : oldest_slots_in_window B
                (set_OldestVisibleMXactId (MyProcNumber B) r (MultiXactState s))).
      { apply window_kept_visible; [exact Hwin|]. intros _. exact Hw1. }
      assert (Hmine : OldestVisibleMXactId
                (set_OldestVisibleMXactId (MyProcNumber B) r (MultiXactState s))
                (MyProcNumber B) = r).
      { unfold set_OldestVisibleMXactId. cbn [OldestVisibleMXactId]. apply upd_same. }
      split; [exact Hwin1|]. split; [reflexivity|].
      split; [rewrite Hmine; exact Hv1|].
      split; [discriminate|].
      split.
      { intros _. rewrite Hmine. split; [exact Hv1|]. split; [exact Hw1|].
        intros i Hi. apply Hlow1. lia. }
      match goal with |- exists oldest tr2, GetOldestMultiXactId B ?s1 = _ /\ _ =>
        destruct (Hget s1 Hwin1) as (oldest & tr2 & Hrun & _ & Hvis) end.
      exists oldest, tr2. split; [exact Hrun|]. apply Hvis.
      cbn [MultiXactState set_MultiXactState].
      rewrite Hmine. exact Hv1.
Qed.

Lemma published_oldest_entries_are_respected_witness :
  (exists s1 tr1,
      MultiXactIdSetOldestMember alone_backend example_state = Done tt s1 tr1
      /\ oldest_slots_in_window alone_backend (MultiXactState s1)
      /\ nextMXact (MultiXactState s1) = nextMXact (MultiXactState example_state)
      /\ MultiXactIdIsValid
           (OldestMemberMXactId (MultiXactState s1) (MyProcNumber alone_backend)) = true
      /\ OldestMemberMXactId (MultiXactState s1) (MyProcNumber alone_backend)
         = (if MultiXactIdIsValid
                 (OldestMemberMXactId (MultiXactState example_state)
                    (MyProcNumber alone_backend))
            then OldestMemberMXactId (MultiXactState example_state) (MyProcNumber alone_backend)
            else clamp_to_first (nextMXact (MultiXactState example_state)))
      /\ exists oldest tr2,
           GetOldestMultiXactId alone_backend s1 = Done oldest s1 tr2
           /\ MultiXactIdPrecedes
                (OldestMemberMXactId (MultiXactState s1) (MyProcNumber alone_backend)) oldest
              = false)
  /\ (exists s1 tr1,
         MultiXactIdSetOldestVisible alone_backend example_state = Done tt s1 tr1
         /\ oldest_slots_in_window alone_backend (MultiXactState s1)
         /\ nextMXact (MultiXactState s1) = nextMXact (MultiXactState example_state)
         /\ MultiXactIdIsValid
              (OldestVisibleMXactId (MultiXactState s1) (MyProcNumber alone_backend)) = true
         /\ (MultiXactIdIsValid
               (OldestVisibleMXactId (MultiXactState example_state)
                  (MyProcNumber alone_backend)) = true ->
             s1 = example_state)
         /\ (MultiXactIdIsValid
               (OldestVisibleMXactId (MultiXactState example_state)
                  (MyProcNumber alone_backend)) = false ->
             oldest_of_members alone_backend (MultiXactState example_state)
               (OldestVisibleMXactId (MultiXactState s1) (MyProcNumber alone_backend)))
         /\ exists oldest tr2,
              GetOldestMultiXactId alone_backend s1 = Done oldest s1 tr2
              /\ MultiXactIdPrecedes
                   (OldestVisibleMXactId (MultiXactState s1) (MyProcNumber alone_backend)) oldest
                 = false).
Proof.
  apply published_oldest_entries_are_respected.
  - cbn. lia.
  - intros i Hi. split; intros H; discriminate H.
Defined.

(* ================================================================== *)
(** * From the creation of a multixact to its lookup in the logs (multixact.c) *)
(* ================================================================== *)

(** ** The pages that GetNewMultiXactId makes *)

Lemma SimpleLruZeroPage_new_page ctl q fuel sh :
  quiet ctl -> (forall p, write_fails (world ctl) p = false) ->
  is_int64 q -> 0 <= q -> (SLRU_FUEL <= fuel)%nat -> coherent ctl sh ->
  res_total
    (fun _ sh' =>
       coherent ctl sh'
       /\ forall p, 0 <= p -> has_byte_page sh p \/ p = q -> has_byte_page sh' p)
    (fun _ => False)
    (SimpleLruZeroPage fuel ctl q sh).
Proof.
  intros Hq Hw Hint Hq0 Hfuel Hco.
  pose proof (res_total_and_ok _ _ _ _ _
                (SimpleLruZeroPage_total ctl q fuel sh Hq
                   (SLRU_FUEL_zero_page _ Hfuel) (proj1 Hco) Hint)
                (SimpleLruZeroPage_keeps_content ctl q fuel sh Hq Hint Hq0 Hco)) as H.
  eapply res_total_weaken; [exact H | |]; cbn beta.
  - intros slot sh' (_ & Hco' & Hkept & Hzero & _). split; [exact Hco'|].
    intros p Hp Hor. destruct (Z.eq_dec p q) as [->|Hne].
    + exists zero_page. split; [exact Hzero | apply bytes_zero_page].
    + destruct Hor as [(pg & Hpg & Hb) | ->]; [|contradiction].
      exists pg. split; [apply Hkept; assumption | exact Hb].
  - intros sh' (_ & _ & _ & p & Hp). rewrite Hw in Hp. discriminate.
Qed.

Lemma ExtendMultiXactOffset_page fuel B multi s :
  quiet (MultiXactOffsetCtl B) ->
  (forall p, write_fails (world (MultiXactOffsetCtl B)) p = false) ->
  (SLRU_FUEL <= fuel)%nat ->
  coherent (MultiXactOffsetCtl B) (MultiXactOffsetSlru s) -> is_uint64 multi ->
  (has_byte_page (MultiXactOffsetSlru s) (MultiXactIdToOffsetPage multi)
   \/ MultiXactIdToOffsetEntry multi = 0) ->
  res_total
    (fun _ s' =>
       coherent (MultiXactOffsetCtl B) (MultiXactOffsetSlru s')
       /\ has_byte_page (MultiXactOffsetSlru s') (MultiXactIdToOffsetPage multi)
       /\ MultiXactMemberSlru s' = MultiXactMemberSlru s
       /\ MultiXactState s' = MultiXactState s
       /\ MXactCache s' = MXactCache s)
    (fun _ => False)
    (ExtendMultiXactOffset fuel B multi s).
Proof.
  intros Hq Hw Hfuel Hco Hm Hpage. unfold ExtendMultiXactOffset.
  destruct (negb (MultiXactIdToOffsetEntry multi =? 0) && negb (multi =? FirstMultiXactId))
    eqn:Hskip.
  - cbn [ret res_total]. split; [exact Hco|]. split; [|auto].
    destruct Hpage as [H|H]; [exact H|]. rewrite H in Hskip. discriminate.
  - unfold on_MultiXactOffset. apply res_total_zoom. tstep. apply res_total_bind.
    eapply res_total_weaken;
      [apply (SimpleLruZeroPage_new_page (MultiXactOffsetCtl B)
                (MultiXactIdToOffsetPage multi) fuel (MultiXactOffsetSlru s) Hq Hw
                (OffsetPage_is_int64 _ Hm) (offset_page_nonneg _ (proj1 Hm)) Hfuel Hco)
      | | intros ? []].
    intros k sh1 [Hco1 Hhas]. cbn beta. tstep. mxfields.
    split; [exact Hco1|]. split; [|auto].
    apply Hhas; [apply offset_page_nonneg, Hm | right; reflexivity].
Qed.

Lemma member_page_start offset :
  0 <= offset ->
  (MXOffsetToFlagsOffset offset =? 0) && (MXOffsetToFlagsBitShift offset =? 0)
  = (offset mod MULTIXACT_MEMBERS_PER_PAGE =? 0).
Proof.
  intros Ho. destruct (member_layout offset) as (g & k & Hg & Hk & Hmod & -> & -> & _).
  change MULTIXACT_MEMBERS_PER_PAGE with 904. rewrite Hmod.
  destruct (Z.eqb_spec (g * 72) 0); destruct (Z.eqb_spec (k * 8) 0);
    destruct (Z.eqb_spec (g * 8 + k) 0); cbn; try reflexivity; lia.
Qed.

Lemma same_member_page_within offset i :
  0 <= offset -> 0 <= i ->
  offset mod MULTIXACT_MEMBERS_PER_PAGE + i < MULTIXACT_MEMBERS_PER_PAGE ->
  MXOffsetToMemberPage (offset + i) = MXOffsetToMemberPage offset.
Proof.
  unfold MXOffsetToMemberPage. change MULTIXACT_MEMBERS_PER_PAGE with 904.
  intros Ho Hi Hlt. Z.div_mod_to_equations. lia.
Qed.

Lemma extend_member_loop_pages fuel B :
  quiet (MultiXactMemberCtl B) ->
  (forall p, write_fails (world (MultiXactMemberCtl B)) p = false) ->
  (SLRU_FUEL <= fuel)%nat ->
  forall n offset nmembers s,
    coherent (MultiXactMemberCtl B) (MultiXactMemberSlru s) ->
    is_int nmembers -> nmembers <= Z.of_nat n ->
    (0 < nmembers ->
     0 <= offset /\ offset + nmembers < TWO64
     /\ (has_byte_page (MultiXactMemberSlru s) (MXOffsetToMemberPage offset)
         \/ offset mod MULTIXACT_MEMBERS_PER_PAGE = 0)) ->
    res_total
      (fun _ s' =>
         coherent (MultiXactMemberCtl B) (MultiXactMemberSlru s')
         /\ (forall i, 0 <= i < nmembers ->
               has_byte_page (MultiXactMemberSlru s') (MXOffsetToMemberPage (offset + i)))
         /\ (forall q, 0 <= q -> has_byte_page (MultiXactMemberSlru s) q ->
               has_byte_page (MultiXactMemberSlru s') q)
         /\ MultiXactOffsetSlru s' = MultiXactOffsetSlru s
         /\ MultiXactState s' = MultiXactState s
         /\ MXactCache s' = MXactCache s)
      (fun _ => False)
      (extend_member_loop n fuel B offset nmembers s).
Proof.
  intros Hq Hw Hfuel.
  induction n as [|n IH]; intros offset nmembers s Hco Hint Hn Hpos;
    cbn [extend_member_loop];
    destruct (Z.leb_spec nmembers 0) as [Hle|Hgt];
    try (cbn [ret res_total]; split; [exact Hco|]; split; [intros; lia | auto]).
  { lia. }
  destruct (Hpos Hgt) as (Ho & Hsum & Hpage).
  rewrite (member_page_start offset Ho).
  set (d := MULTIXACT_MEMBERS_PER_PAGE - offset mod MULTIXACT_MEMBERS_PER_PAGE).
  assert (Hd : 1 <= d <= 904 /\ (offset + d) mod MULTIXACT_MEMBERS_PER_PAGE = 0).
  { subst d. change MULTIXACT_MEMBERS_PER_PAGE with 904.
    pose proof (Z.mod_pos_bound offset 904 eq_refl). split; [lia|].
    Z.div_mod_to_equations. lia. }
  destruct Hd as [Hd Hstart].
  apply res_total_bind.
  eapply res_total_weaken with
    (Q := fun _ s1 =>
       coherent (MultiXactMemberCtl B) (MultiXactMemberSlru s1)
       /\ has_byte_page (MultiXactMemberSlru s1) (MXOffsetToMemberPage offset)
       /\ (forall q, 0 <= q -> has_byte_page (MultiXactMemberSlru s) q ->
             has_byte_page (MultiXactMemberSlru s1) q)
       /\ MultiXactOffsetSlru s1 = MultiXactOffsetSlru s
       /\ MultiXactState s1 = MultiXactState s
       /\ MXactCache s1 = MXactCache s); [| | intros ? H; exact H].
  - destruct (Z.eqb_spec (offset mod MULTIXACT_MEMBERS_PER_PAGE) 0) as [Hz|Hnz].
    + unfold on_MultiXactMember. apply res_total_zoom. tstep. apply res_total_bind.
      eapply res_total_weaken;
        [apply (SimpleLruZeroPage_new_page (MultiXactMemberCtl B)
                  (MXOffsetToMemberPage offset) fuel (MultiXactMemberSlru s) Hq Hw
                  (MemberPage_is_int64 offset ltac:(unfold is_uint64; lia))
                  (member_page_nonneg _ Ho) Hfuel Hco)
        | | intros ? []].
      intros k sh1 [Hco1 Hhas]. cbn beta. tstep. mxfields.
      split; [exact Hco1|].
      split; [apply Hhas; [apply member_page_nonneg, Ho | right; reflexivity]|].
      split; [|auto]. intros q Hq0 Hq'. apply Hhas; auto.
    + cbn [ret res_total]. split; [exact Hco|].
      split; [destruct Hpage as [H|H]; [exact H | contradiction]|]. auto.
  - intros [] s1 (Hco1 & Hhas1 & Hkept1 & Ho1 & Hs1 & Hc1). cbn beta.
    assert (Hwrap : wrap_int (nmembers - d) = nmembers - d).
    { apply wrap_int_small. unfold is_int in *. lia. }
    rewrite Hwrap.
    eapply res_total_weaken; [apply IH | | intros ? []].
    + exact Hco1.
    + unfold is_int in *. lia.
    + lia.
    + intros Hrest. rewrite u64_small by (split; lia).
      split; [lia|]. split; [lia|]. right. exact Hstart.
    + intros [] s2 (Hco2 & Hpages2 & Hkept2 & Ho2 & Hs2 & Hc2). cbn beta.
      split; [exact Hco2|]. split; [|split; [|split; [|split]]]; try congruence.
      * intros i Hi. destruct (Z.lt_ge_cases i d) as [Hlt|Hge].
        -- apply Hkept2; [apply member_page_nonneg; lia|].
           rewrite same_member_page_within; [exact Hhas1 | lia | lia|].
           subst d. lia.
        -- replace (offset + i) with (u64 (offset + d) + (i - d)).
           ++ apply Hpages2. lia.
           ++ rewrite u64_small by (split; lia). lia.
      * intros q Hq0 Hq'. apply Hkept2; [exact Hq0|]. apply Hkept1; assumption.
Qed.

Lemma GetNewMultiXactId_allocates fuel B n s :
  RecoveryInProgress B = false ->
  quiet (MultiXactOffsetCtl B) ->
  (forall p, write_fails (world (MultiXactOffsetCtl B)) p = false) ->
  quiet (MultiXactMemberCtl B) ->
  (forall p, write_fails (world (MultiXactMemberCtl B)) p = false) ->
  (SLRU_FUEL <= fuel)%nat ->
  coherent (MultiXactOffsetCtl B) (MultiXactOffsetSlru s) ->
  coherent (MultiXactMemberCtl B) (MultiXactMemberSlru s) ->
  FirstMultiXactId <= nextMXact (MultiXactState s) ->
  nextMXact (MultiXactState s) + 1 < TWO64 ->
  MultiXactIdPrecedes (nextMXact (MultiXactState s))
    (multiVacLimit (MultiXactState s)) = true ->
  0 < nextOffset (MultiXactState s) -> 0 < n -> is_int n ->
  nextOffset (MultiXactState s) + n < TWO64 ->
  (has_byte_page (MultiXactOffsetSlru s)
     (MultiXactIdToOffsetPage (nextMXact (MultiXactState s)))
   \/ MultiXactIdToOffsetEntry (nextMXact (MultiXactState s)) = 0) ->
  (has_byte_page (MultiXactMemberSlru s)
     (MXOffsetToMemberPage (nextOffset (MultiXactState s)))
   \/ nextOffset (MultiXactState s) mod MULTIXACT_MEMBERS_PER_PAGE = 0) ->
  res_total
    (fun r s' =>
       r = (nextMXact (MultiXactState s), nextOffset (MultiXactState s))
       /\ nextMXact (MultiXactState s') = nextMXact (MultiXactState s) + 1
       /\ nextOffset (MultiXactState s') = nextOffset (MultiXactState s) + n
       /\ oldestMultiXactId (MultiXactState s') = oldestMultiXactId (MultiXactState s)
       /\ MXactCache s' = MXactCache s
       /\ coherent (MultiXactOffsetCtl B) (MultiXactOffsetSlru s')
       /\ coherent (MultiXactMemberCtl B) (MultiXactMemberSlru s')
       /\ has_byte_page (MultiXactOffsetSlru s')
            (MultiXactIdToOffsetPage (nextMXact (MultiXactState s)))
       /\ forall i, 0 <= i < n ->
            has_byte_page (MultiXactMemberSlru s')
              (MXOffsetToMemberPage (nextOffset (MultiXactState s) + i)))
    (fun _ => False)
    (GetNewMultiXactId fuel B n s).
Proof.
  intros Hrec Hqo Hwo Hqm Hwm Hfuel Hcoo Hcom Hfirst Hnext Hlim Hoff Hn Hint Hsum
    Hopage Hmpage.
  unfold GetNewMultiXactId. rewrite Hrec. tstep. tstep.
  destruct (Z.ltb_spec (nextMXact (MultiXactState s)) FirstMultiXactId) as [|_]; [lia|].
  tstep. rewrite Hlim. cbn [negb]. apply res_total_bind. cbn [ret res_total].
  apply res_total_bind.
  eapply res_total_weaken;
    [apply (ExtendMultiXactOffset_page fuel B (nextMXact (MultiXactState s)) s Hqo Hwo
              Hfuel Hcoo); [unfold is_uint64, FirstMultiXactId in *; lia | exact Hopage]
    | | intros ? []].
  intros [] s1 (Hcoo1 & Hop1 & Hm1 & Hs1 & Hc1). cbn beta. tstep.
  rewrite Hs1.
  destruct (Z.eqb_spec (nextOffset (MultiXactState s)) 0) as [|_]; [lia|].
  apply res_total_bind. unfold ExtendMultiXactMember.
  eapply res_total_weaken;
    [apply (extend_member_loop_pages fuel B Hqm Hwm Hfuel (Z.to_nat n)
              (nextOffset (MultiXactState s)) n s1);
     [rewrite Hm1; exact Hcom | exact Hint | lia
     | intros _; rewrite Hm1; split; [lia | split; [lia | exact Hmpage]]]
    | | intros ? []].
  intros [] s2 (Hcom2 & Hpages2 & _ & Ho2 & Hs2 & Hc2). cbn beta.
  tstep. tstep. tstep. tstep. cbn [res_total ret]. mxfields.
  rewrite Hs2, Hs1.
  unfold set_nextOffset, set_nextMXact.
  cbn [nextMXact nextOffset oldestMultiXactId].
  rewrite !u64_small by (unfold is_uint64, FirstMultiXactId in *; lia).
  rewrite Ho2.
  split; [reflexivity|]. split; [reflexivity|]. split; [reflexivity|].
  split; [reflexivity|]. split; [congruence|]. split; [exact Hcoo1|].
  split; [exact Hcom2|]. split; [exact Hop1 | exact Hpages2].
Qed.

Lemma Forall_storable_sort members :
  Forall storable_member members -> Forall storable_member (member_sort members).
Proof.
  intros H. rewrite Forall_forall in *. intros m Hm. apply H.
  eapply Permutation_in; [apply member_sort_is_Permutation | exact Hm].
Qed.

Lemma precedes_successor a :
  MultiXactIdPrecedes a (u64 (a + 1)) = true.
Proof.
  apply MultiXactIdPrecedes_iff. unfold u64, TWO63, TWO64.
  Z.div_mod_to_equations. lia.
Qed.

(** X25 -- A multixact made by [MultiXactIdCreateFromMembers] is read
    back from the logs by a backend that does not have it in its cache.
    When the set is not in the cache of the maker and has at most one
    updating member, the counters are away from the wraparound limits,
    and the page of the new offsets entry and the first page of the new
    members are present unless the allocation starts them, the call
    returns the next multixact; [GetMultiXactIdMembers] for it, with an
    empty cache, then returns the number of members and the members in
    sorted order, without error.  This holds in coherent page caches,
    outside recovery, with a working disk and no other backend at
    work. *)
Theorem MultiXactIdCreateFromMembers_is_read_back_from_the_logs
    (B : Backend) (fuel : nat) (ISUPDATE_from_mxstatus : Z -> bool)
    (members : list MultiXactMember) (s : PgState) :
  RecoveryInProgress B = false ->
  quiet (MultiXactOffsetCtl B) -> io_works (MultiXactOffsetCtl B) ->
  quiet (MultiXactMemberCtl B) -> io_works (MultiXactMemberCtl B) ->
  (SLRU_FUEL <= fuel)%nat ->
  coherent (MultiXactOffsetCtl B) (MultiXactOffsetSlru s) ->
  coherent (MultiXactMemberCtl B) (MultiXactMemberSlru s) ->
  members <> [] -> is_int (Z.of_nat (List.length members)) ->
  Forall storable_member members ->
  cache_find_by_set (Z.of_nat (List.length members)) (member_sort members)
    (MXactCache s) = None ->
  more_than_one_update ISUPDATE_from_mxstatus (member_sort members) false = false ->
  FirstMultiXactId <= nextMXact (MultiXactState s) ->
  nextMXact (MultiXactState s) + 1 < TWO64 ->
  MultiXactIdPrecedes (nextMXact (MultiXactState s))
    (multiVacLimit (MultiXactState s)) = true ->
  MultiXactIdPrecedes (nextMXact (MultiXactState s))
    (oldestMultiXactId (MultiXactState s)) = false ->
  0 < nextOffset (MultiXactState s) ->
  nextOffset (MultiXactState s) + Z.of_nat (List.length members) < TWO64 ->
  (has_byte_page (MultiXactOffsetSlru s)
     (MultiXactIdToOffsetPage (nextMXact (MultiXactState s)))
   \/ MultiXactIdToOffsetEntry (nextMXact (MultiXactState s)) = 0) ->
  (has_byte_page (MultiXactMemberSlru s)
     (MXOffsetToMemberPage (nextOffset (MultiXactState s)))
   \/ nextOffset (MultiXactState s) mod MULTIXACT_MEMBERS_PER_PAGE = 0) ->
  exists s1 tr,
    MultiXactIdCreateFromMembers fuel B ISUPDATE_from_mxstatus
      (Z.of_nat (List.length members)) members s
    = Done (nextMXact (MultiXactState s)) s1 tr
    /\ res_total
         (fun r _ => r = (Z.of_nat (List.length members), member_sort members))
         (fun _ => False)
         (GetMultiXactIdMembers fuel B (nextMXact (MultiXactState s)) false false
            (set_MXactCache [] s1)).
Proof.
  intros Hrec Hqo Hioo Hqm Hiom Hfuel Hcoo Hcom Hne Hint Hst Hmiss Hupd Hfirst Hnext
    Hlim Hold Hoff Hsum Hopage Hmpage.
  set (next := nextMXact (MultiXactState s)) in *.
  set (off := nextOffset (MultiXactState s)) in *.
  set (n := Z.of_nat (List.length members)) in *.
  assert (Hlen : Z.of_nat (List.length (member_sort members)) = n)
    by (rewrite member_sort_length; reflexivity).
  assert (Hpos : 0 < n).
  { subst n. destruct members; [contradiction | cbn [List.length]; lia]. }
  assert (Hnes : member_sort members <> []).
  { intros H. rewrite H in Hlen. cbn in Hlen. lia. }
  assert (Hcreate :
    res_total
      (fun m s1 =>
         m = next
         /\ coherent (MultiXactOffsetCtl B) (MultiXactOffsetSlru s1)
         /\ coherent (MultiXactMemberCtl B) (MultiXactMemberSlru s1)
         /\ offset_recorded (MultiXactOffsetSlru s1) next off
         /\ members_recorded (MultiXactMemberSlru s1) off (member_sort members)
         /\ nextMXact (MultiXactState s1) = next + 1
         /\ nextOffset (MultiXactState s1) = off + n
         /\ oldestMultiXactId (MultiXactState s1) = oldestMultiXactId (MultiXactState s))
      (fun _ => False)
      (MultiXactIdCreateFromMembers fuel B ISUPDATE_from_mxstatus n members s)).
  { unfold MultiXactIdCreateFromMembers. apply res_total_bind.
    unfold mXactCacheGetBySet. tstep. rewrite Hmiss. cbn [ret res_total].
    change (MultiXactIdIsValid InvalidMultiXactId) with false. cbv iota.
    replace (Z.to_nat n) with (List.length (member_sort members))
      by (rewrite <- Hlen; symmetry; apply Nat2Z.id).
    rewrite firstn_all, Hupd.
    apply res_total_bind.
    eapply res_total_weaken;
      [apply (GetNewMultiXactId_allocates fuel B n s Hrec Hqo (proj1 Hioo) Hqm
                (proj1 Hiom) Hfuel Hcoo Hcom); assumption | | intros ? []].
    intros [m o] s1 (Heq & Hn1 & Ho1 & Hold1 & Hc1 & Hcoo1 & Hcom1 & Hop1 & Hmp1).
    injection Heq as -> ->. cbn beta iota. tstep. apply res_total_bind.
    rewrite <- Hlen.
    eapply res_total_weaken;
      [apply (RecordNewMultiXact_records B fuel next off (member_sort members) s1);
       try assumption | | intros ? []].
    - unfold is_uint64, FirstMultiXactId in *. lia.
    - rewrite Hlen. exact Hsum.
    - apply Forall_storable_sort, Hst.
    - rewrite Hlen. exact Hmp1.
    - intros [] s2 (Hcoo2 & Hcom2 & Hor2 & Hmr2 & Hs2 & Hc2). cbn beta.
      tstep. unfold mXactCachePut. tstep. cbn [res_total ret].
      rewrite <- Hs2 in Hn1, Ho1, Hold1.
      destruct (MAX_CACHE_ENTRIES <? _); mxfields; rewrite Hlen;
        repeat (split; [solve [auto]|]); auto. }
  destruct (MultiXactIdCreateFromMembers fuel B ISUPDATE_from_mxstatus n members s)
    as [m s1 tr|e s1 tr|]; cbn [res_total] in Hcreate; try contradiction.
  destruct Hcreate as (-> & Hcoo1 & Hcom1 & Hor1 & Hmr1 & Hn1 & Ho1 & Hold1).
  exists s1, tr. split; [reflexivity|].
  assert (Hvalid : MultiXactIdIsValid next = true).
  { unfold MultiXactIdIsValid, InvalidMultiXactId, FirstMultiXactId in *.
    destruct (Z.eqb_spec next 0); [lia | reflexivity]. }
  assert (Hpre : reaches_bounds_check B next false false (set_MXactCache [] s1)).
  { split; [exact Hvalid|]. split; [reflexivity|]. split; reflexivity. }
  destruct (GetMultiXactIdMembers_to_bounds_check fuel B next false
              (set_MXactCache [] s1) Hpre) as (tr1 & _ & ->).
  apply res_total_after. mxfields. rewrite Hold1, Hold, Hn1.
  replace (next + 1) with (u64 (next + 1))
    by (apply u64_small; unfold is_uint64, FirstMultiXactId in *; lia).
  rewrite precedes_successor. cbn [negb].
  destruct (state_after_oldest_visible B (set_MXactCache [] s1)) as [Ho Hm].
  rewrite <- Hlen.
  apply lookup_members_reads with (offset := off); try assumption;
    rewrite ?Ho, ?Hm; mxfields; rewrite ?Hlen; try assumption.
  - unfold is_uint64, FirstMultiXactId in *. lia.
  - apply Forall_storable_sort, Hst.
  - left. split; [reflexivity | exact Ho1].
Qed.

Lemma MultiXactIdCreateFromMembers_is_read_back_from_the_logs_witness :
  exists s1 tr,
    MultiXactIdCreateFromMembers SLRU_FUEL normal_backend example_isupdate
      (Z.of_nat (List.length example_members)) example_members example_multixact_state
    = Done (nextMXact (MultiXactState example_multixact_state)) s1 tr
    /\ res_total
         (fun r _ => r = (Z.of_nat (List.length example_members),
                          member_sort example_members))
         (fun _ => False)
         (GetMultiXactIdMembers SLRU_FUEL normal_backend
            (nextMXact (MultiXactState example_multixact_state)) false false
            (set_MXactCache [] s1)).
Proof.
  apply MultiXactIdCreateFromMembers_is_read_back_from_the_logs.
  - reflexivity.
  - apply quiet_normal_backend.
  - apply io_works_normal_backend.
  - apply quiet_normal_backend.
  - apply io_works_normal_backend.
  - apply le_n.
  - apply coherent_all_empty. reflexivity.
  - apply coherent_all_empty. reflexivity.
  - discriminate.
  - vm_compute. split; [discriminate | reflexivity].
  - repeat constructor; cbn; unfold TWO64; lia.
  - reflexivity.
  - vm_compute. reflexivity.
  - vm_compute. discriminate.
  - vm_compute. reflexivity.
  - vm_compute. reflexivity.
  - vm_compute. reflexivity.
  - vm_compute. reflexivity.
  - vm_compute. reflexivity.
  - left. exists example_offsets_page. split; [|exact bytes_example_offsets_page].
    apply (page_content_first_file _ _ []); reflexivity.
  - left. exists example_members_page. split; [|exact bytes_example_members_page].
    apply (page_content_first_file _ _ []); reflexivity.
Defined.

(* ================================================================== *)
(** * When TruncateMultiXact skips and in which order it truncates (multixact.c) *)
(* ================================================================== *)




















(* ================================================================== *)
(** * The order of GetNewTransactionId in any environment (varsup.c) *)
(* ================================================================== *)













